(* ===== verification/_CoqProject ===== *)
-Q . S2P
Prelude.v
GoBytes.v
GoStrings.v
GoText.v
Rtp.v
Adpcm.v
Packetizer.v
Dtmf.v
Resample.v
Playout.v
Sequencer.v
G711.v
PhoneBuffer.v
CameraPlayout.v
AcousticDelay.v
CallControl.v
GoCrypto.v
BcWire.v
BcMedia.v
BcClient.v
BcTalk.v
AudioReceiver.v
SipText.v
Sdp.v
Digest.v
SipCaller.v
SipTransact.v
SipDialog.v
PhoneBridge.v
SipAgent.v
RtspWire.v
RtspClient.v
Talkback.v
HaSocket.v
LiveCatalog.v
Config.v
EchoCancel.v
AecHelper.v
CameraBridge.v
HaListener.v
Status.v
CallHandlers.v
MediaSession.v
Gateway.v
Startup.v
Calibrate.v
LiveSource.v
