(* ===== verification/Prelude.v ===== *)
(** Verification of the Reolink SIP gateway.

    The gateway (Go, [reolink_sip_gateway/]) makes a Reolink doorbell a SIP
    phone.  It registers at a PBX, places a call to one or more numbers when the
    bell rings and takes calls from an allow-list; it carries the camera's audio
    to the phone as RTP, and the phone's audio back to the camera over Reolink's
    own Baichuan protocol.  This library models the part of the program that
    decides things - protocols, queues, codecs - and proves it correct.

    ** How the program is put together, and where each part is modelled

    Foundations.  [Prelude] (this file): machine integers, results, record update,
    transition systems, tactics.  [GoBytes]: slices with bounds checks and
    [encoding/binary].  [GoStrings] and [GoText]: [strings], [strconv],
    [unicode/utf8] and their lemmas.  [GoCrypto]: MD5, SHA-256, AES-128 and CFB.

    Media ([internal/rtp], [g711], [codec], [media]).  [Rtp]: packets.  [G711],
    [Adpcm]: codecs.  [Packetizer]: 20 ms packets towards the phone, the RTP
    clock, the watchdog, the drain of early media.  [Dtmf]: key presses.
    [Resample]: the three resamplers.  [Sequencer]: reordering of the phone's
    packets.  [PhoneBuffer]: the timeline of the phone's audio, which feeds
    [Playout]: the queue and the elastic playout the talk session is fed from.
    [PhoneBridge]: the loops that carry the phone's audio to the camera, over RTSP
    or as Baichuan blocks.  A phone packet thus goes Rtp -> Sequencer ->
    PhoneBuffer -> Resample -> Playout -> Adpcm -> BcTalk.
    [CameraPlayout]: the smoother of the camera's audio.  [EchoCancel]: the
    timeline of what was played at the camera and the delay at which the echo is
    sought.  [AecHelper]: both ends of the pipes to the WebRTC helper process
    ([webrtc_aec.go], [native/aec-helper/main.cc]).  [CameraBridge]: the two loops
    that carry the camera's audio to the phone.  The camera's audio thus goes
    AudioReceiver (or FFmpeg) -> CameraPlayout -> EchoCancel -> AecHelper ->
    G711 -> Rtp, and PhoneBridge tells EchoCancel what it has played.
    [Talkback]: opening, closing and the connection tone of the two ways to the
    camera's loudspeaker.  [MediaSession]: [Run], which opens all of these, starts
    their goroutines and ends them.

    Baichuan ([internal/baichuan], [internal/baichuanaudio]).  [BcWire]: ciphers
    and message framing.  [BcMedia]: the media stream.  [BcClient]: requests in
    flight over one connection.  [BcTalk]: login and talk sessions.
    [AudioReceiver]: the preview stream and the receiver that decodes its audio.

    Calls ([internal/callcontrol]).  [CallControl]: the single call slot
    (Module Controller) and parallel dialling (Module Fork).

    SIP ([internal/sip], [internal/digest]).  [SipText]: messages.  [Sdp]: offer
    and answer.  [Digest]: challenges and credentials.  [SipCaller]: the caller
    allow-list.  [SipTransact]: one client transaction ([transact]) and the
    goroutine that sends its CANCEL again.
    [SipDialog]: calls, incoming and cancelled INVITEs, the read loop and its
    timers ([client.go], [incoming.go]).  [SipAgent]: registration and [Dial],
    programs over transactions and dialogs.

    The camera's RTSP backchannel ([internal/rtsp]).  [RtspWire]: requests,
    responses and interleaved media on one connection.  [RtspClient]: digest
    retries ([do]), the delivery of responses to the requests that wait for them
    (Module Delivery), the choice of the backchannel, [Open], the audio written.

    Home ([internal/ha], [internal/liveimage]).  [HaSocket]: WebSocket
    frames and messages.  [HaListener]: the trigger subscription and the REST
    fallback that tell of a ring, reconnection, the choice of the sensor.
    [LiveCatalog]: the camera channels whose images are published to the phones.
    [LiveSource]: where a picture comes from, its cache and its scaling.

    The gateway ([internal/config], [internal/startup], [internal/calibration],
    [internal/acousticmarker], [internal/status], [cmd/gateway]).  [Config]: options, their migration and validation, the routes.
    [Startup]: the mode of the camera and the stored echo delay.
    [AcousticDelay]: the marker the camera plays and the search for it in what it
    hears.  [Calibrate]: the measurement at start-up, which opens a capture and
    the talkback, sends the marker and judges the result; its theorem on the
    delay goes through [Startup].  [Status]: the status
    store, its subscribers, what the API reports.  [CallHandlers]: [handleCall] and
    [handleIncomingCall].  [Gateway]: the main loop, which joins the listener, the
    call slot, the SIP accounts, the handlers and the API.  A ring thus goes
    HaListener -> Gateway -> Controller -> CallHandlers -> Fork -> SipAgent, and the
    handlers run a MediaSession.

    ** How it is modelled

    Every Go function is a function of the same name where Rocq allows it, with
    the guards, the order and the early returns of the source.  A Go integer is a
    [Z] with its conversions written out ([u8], [u32], [swrap 64], ...).  A function
    that can fail returns a [result]: [Ok], [Err], or [Panic] where Go would
    panic.  A Go string is its bytes.  A struct is a record, an enum an
    inductive type, a Go map a [gmap]; where a map is iterated and the order
    could matter, order independence is proved ([FlushGap], [challenge_order]).  Pointers that are
    shared (calls and INVITEs in SipDialog, buffered packets) are addresses into
    a store.  Floating point ([Playout], [CameraPlayout], [EchoCancel],
    [AcousticDelay]) is IEEE binary64 without fused operations.

    Concurrency is a transition system ([Machine]): a critical section is one
    step, and [reachable] covers every interleaving of goroutines, packets and
    timers.  [Controller], [Mux], [dialog_machine] and [Delivery] are of this kind, and so,
    as lists of steps, are the workers of [MediaSession] and the loops of [PhoneBridge]; the
    listener, the status store and the main loop are step functions folded over
    any sequence of events.  A
    [select] loop ([transact], the pre-answer drain) runs over an explicit
    sequence of the events it takes.  Programs that talk to a peer (login,
    registration, dialling, RTSP requests) take the peer's replies as input and are proved
    correct for every script; so do the call handlers, whose script is what the
    legs, the media session and the context do.  Those that open things
    ([MediaSession.setup], [Calibrate]) are written in a monad that records what
    they open and close, deferred calls included.

    ** What is proved

    Dialogs: an INVITE never gets a second final response, whatever happens; strangers
    change nothing; the capacity holds; an answer that crosses a cancellation is
    acknowledged and ended; [Dial] never leaves a dialog behind.  Transactions:
    CANCEL is sent, and sent again, only when it may be.  Registration: it terminates, never tries
    a password twice, and is refreshed in time.  Messages, SDP, digest,
    Baichuan frames, media packets, RTP: what one side writes the other reads
    back, and no byte sequence from the network makes a parser panic.
    Allow-list: exactly the listed numbers.  Calls: one at a time, and no
    established dialog of a fork is lost.  Requests: responses are not crossed,
    and a session the device opened is closed.  Media: packets leave in order,
    once; buffers are bounded; the timeline follows the timestamps; playout
    loses nothing and has no clicks; the codecs quantise within their steps.
    RTSP: the camera's stream is taken apart without loss, a request returns only
    the response to it, credentials are sent a bounded number of times, each for
    the challenge just received, and the audio is one continuous stream.
    WebSocket messages are reassembled from any fragments.  The image catalogue
    always holds the door camera and follows the others to their channels; a
    picture that is served is fresh as long as no ring comes.

    Audio in a call: whatever a media session opened is closed, and it always
    ends, with the error that ended it.  Each loop between camera and phone is the
    composition of its parts: frames leave in order under consecutive sequence
    numbers, however chunks, packets and timer ticks interleave.  The smoother
    holds at most 320 ms and keeps time.  The canceller hands WebRTC, with every
    captured frame, exactly what was played one delay before it, and the delay
    stays where calibration allows; the pipes to the helper change nothing.  The
    talkback is open with a usable profile or closed, and the device is never left
    talking.  The preview is stopped for every one that was started.

    Calibration: a measurement closes what it opened, never has two captures open,
    sends the marker at most once and only when audio flows in real time; the delay it
    reports is the unbeaten peak of the correlation, and start-up adopts it only when that
    peak is reliable and falls back to the stored or the built-in delay otherwise.  The connection tone is the beginning of the same marker.

    From the bell to the phone: the listener reports exactly the rings of each
    sensor; a trigger names the configured route, starts its call unless one runs
    or the debounce time has not passed, and the route fits the accounts; both
    handlers end every dialog, port and status they began, and an incoming INVITE is
    answered, rejected or, when its call was over before, left alone.  Options are accepted
    exactly when the routing is sound, and then they are usable as they are;
    the API offers a test call exactly when it would start.

    These theorems state defects: [PhoneBuffer.Push_panics] and
    [PhoneBridge.one_packet_crashes] (a packet 2^31 away ends the gateway),
    [LiveSource.stale_picture] (rings keep an old picture in the cache),
    [SipDialog.reinvite_replaces] (a re-INVITE replaces the call),
    [SipAgent.long_lifetime_hammers] (a long lifetime overflows a duration),
    [Digest.edge_quote_lost] (a quotation mark at the edge of a value),
    [RtspClient.resolveControl_panics] (a control attribute that is no URL),
    [LiveCatalog.moved_primary_ambiguous] (two sources for one camera),
    [HaListener.backoff_never_grows], [HaListener.baseline_swallows_ring],
    [CallHandlers.early_bye_unanswered], [CallHandlers.late_media_lingers],
    [Gateway.legacy_offer_refused] and [Gateway.prewarm_panics] (a ring crashes the
    gateway when the live image is off).

    ** Bounds and fuel

    Recursion follows the source's loops over lists where it can.  Fuel occurs
    in the wire and media parsers, where it is the length of the input and is
    proved enough, and in [register], where more fuel than there are replies is
    proved enough ([register_converses]).  The RTSP read loop and the WebSocket
    reader take a byte at least per turn, so the length of the stream is enough.  Lengths are below 2^63, as in Go.

    ** What the theorems depend on

    [Unicode]: the character tables beyond ASCII.  [Xml], [TalkXml]: what
    [encoding/xml] reads and writes.  [NetIP], [IPFamily], [UDPResolver]: IP addresses
    and name resolution of [net].  [NetURL]: [net/url].  They are classes, instantiated
    where a witness needs them.  [math.Cos] ([Playout]) and [math.Sin]
    ([AcousticDelay]) are arguments, and so is the WebRTC library ([AecHelper]).

    ** What is not modelled

    Sockets, flags and signals, and the start and end of the FFmpeg and helper
    processes: what their reads and writes give is input.  The probes of
    [reolinkmode]; HTTP, HTML and JSON (the pages of [internal/status], the syntax
    of the options, the requests of [ha] and [liveimage]) and the JPEG codec.
    Keep-alive tickers, log lines with the redaction of credentials, and
    metrics, the echo loss among them, which is computed with logarithms.
    [Client.Close] of the SIP client. *)
From Stdlib Require Export ZArith Lia.
From stdpp Require Export base tactics option list list_numbers numbers gmap strings fin_maps.
#[global] Open Scope Z_scope.

(** * Machine integers

    A Go integer of width [w] is the [Z] it denotes.  [wrap w] is the
    conversion to the unsigned type of width [w], [swrap w] the conversion to
    the signed one; every conversion of the source is written out. *)

Definition wrap (w z : Z) : Z := z mod 2 ^ w.
Definition swrap (w z : Z) : Z := (z + 2 ^ (w - 1)) mod 2 ^ w - 2 ^ (w - 1).

#[global] Arguments wrap : simpl never.
#[global] Arguments swrap : simpl never.

Abbreviation u8 := (wrap 8).
Abbreviation u16 := (wrap 16).
Abbreviation u32 := (wrap 32).
Abbreviation u64 := (wrap 64).
Abbreviation s16 := (swrap 16).
Abbreviation s32 := (swrap 32).

(** The values a type of width [w] holds. *)
Definition fits (w z : Z) : Prop := 0 <= z < 2 ^ w.
Definition sfits (w z : Z) : Prop := - 2 ^ (w - 1) <= z < 2 ^ (w - 1).

#[global] Arguments fits : simpl never.
#[global] Arguments sfits : simpl never.

#[global] Instance fits_dec w z : Decision (fits w z).
Proof. unfold fits. apply _. Defined.
#[global] Instance sfits_dec w z : Decision (sfits w z).
Proof. unfold sfits. apply _. Defined.

(** A Go byte slice: a list whose elements are 8-bit. *)
Abbreviation bytes := (list Z) (only parsing).
Abbreviation bytes_ok := (Forall (fits 8)).
Abbreviation pcm_ok := (Forall (sfits 16)).

Create HintDb width.
Create Rewrite HintDb width.
Create Rewrite HintDb len.

Lemma wrap_fits w z : 0 <= w -> fits w (wrap w z).
Proof. intros Hw. unfold fits, wrap. apply Z.mod_pos_bound. lia. Qed.

Lemma wrap_id w z : fits w z -> wrap w z = z.
Proof. apply Z.mod_small. Qed.

Lemma wrap_idemp w z : 0 <= w -> wrap w (wrap w z) = wrap w z.
Proof. intros Hw. apply wrap_id, wrap_fits, Hw. Qed.

Lemma swrap_fits w z : 1 <= w -> sfits w (swrap w z).
Proof.
  intros Hw. unfold sfits, swrap.
  assert (2 ^ w = 2 * 2 ^ (w - 1)) as E.
  { rewrite <- Z.pow_succ_r by lia. f_equal. lia. }
  pose proof (Z.mod_pos_bound (z + 2 ^ (w - 1)) (2 ^ w)). lia.
Qed.

Lemma swrap_id w z : 1 <= w -> sfits w z -> swrap w z = z.
Proof.
  unfold sfits, swrap. intros Hw Hz.
  assert (2 ^ w = 2 * 2 ^ (w - 1)) as E.
  { rewrite <- Z.pow_succ_r by lia. f_equal. lia. }
  rewrite Z.mod_small; lia.
Qed.

Lemma wrap_add_l w a b : wrap w (wrap w a + b) = wrap w (a + b).
Proof. unfold wrap. by rewrite Zplus_mod_idemp_l. Qed.
Lemma wrap_add_r w a b : wrap w (a + wrap w b) = wrap w (a + b).
Proof. unfold wrap. by rewrite Zplus_mod_idemp_r. Qed.
Lemma wrap_sub_r w a b : wrap w (a - wrap w b) = wrap w (a - b).
Proof. unfold wrap. by rewrite Zminus_mod_idemp_r. Qed.
Lemma wrap_sub_l w a b : wrap w (wrap w a - b) = wrap w (a - b).
Proof. unfold wrap. by rewrite Zminus_mod_idemp_l. Qed.
Lemma swrap_wrap w z : swrap w (wrap w z) = swrap w z.
Proof. unfold swrap, wrap. by rewrite Zplus_mod_idemp_l. Qed.

#[export] Hint Resolve wrap_fits swrap_fits : width.
#[export] Hint Extern 1 (_ <= _) => lia : width.
#[export] Hint Rewrite wrap_add_l wrap_add_r wrap_sub_l wrap_sub_r swrap_wrap : width.

(** [width] closes goals about ranges by computing the powers of two. *)
Ltac width :=
  unfold fits, sfits, wrap, swrap in *; cbv zeta in *;
  repeat match goal with
  | |- context [2 ^ ?n] => let v := eval vm_compute in (2 ^ n) in change (2 ^ n) with v
  | H : context [2 ^ ?n] |- _ =>
      let v := eval vm_compute in (2 ^ n) in change (2 ^ n) with v in H
  end;
  Z.to_euclidean_division_equations; lia.

(** [ifs] splits on the tests of the goal, innermost first. *)
Ltac ifs :=
  repeat match goal with
  | |- context [if ?b then _ else _] =>
      lazymatch b with context [if _ then _ else _] => fail | _ => destruct b eqn:? end
  end.

(** * Go results

    A Go function that can fail returns a value or an error; one that indexes
    or slices can also panic.  [Panic] is never caught by the modelled code, so
    a theorem that a function does not return it is a memory-safety theorem. *)

Inductive result (A : Type) : Type :=
| Ok (a : A)
| Err (e : string)
| Panic.
Arguments Ok {A} a.
Arguments Err {A} e.
Arguments Panic {A}.

#[global] Instance result_ret : MRet result := @Ok.
#[global] Instance result_bind : MBind result := fun A B f r =>
  match r with Ok a => f a | Err e => Err e | Panic => Panic end.

#[global] Instance result_fmap : FMap result := fun A B f r =>
  match r with Ok a => Ok (f a) | Err e => Err e | Panic => Panic end.

(** [fail_if c e] is the early return [if c { return error e }]. *)
Definition fail_if (c : bool) (e : string) : result unit := if c then Err e else Ok tt.

Definition is_ok {A} (r : result A) : bool := match r with Ok _ => true | _ => false end.
Definition safe {A} (r : result A) : Prop := r <> Panic.

Lemma bind_ok {A B} (r : result A) (f : A -> result B) b :
  (r ≫= f) = Ok b <-> exists a, r = Ok a /\ f a = Ok b.
Proof.
  destruct r as [a|e|]; simpl; split; [by eauto|intros (?&[= ->]&?); done|..];
    try done; intros (?&?&?); done.
Qed.

Lemma bind_safe {A B} (r : result A) (f : A -> result B) :
  safe r -> (forall a, r = Ok a -> safe (f a)) -> safe (r ≫= f).
Proof. destruct r; unfold safe; simpl; auto; done. Qed.

Lemma ok_safe {A} (a : A) : safe (Ok a).
Proof. done. Qed.
Lemma err_safe {A} e : safe (@Err A e).
Proof. done. Qed.
Lemma fail_if_safe c e : safe (fail_if c e).
Proof. by destruct c. Qed.
Lemma fail_if_ok c e u : fail_if c e = Ok u <-> c = false.
Proof. by destruct c, u. Qed.

Lemma fail_if_false c e : c = false -> fail_if c e = Ok tt.
Proof. by intros ->. Qed.

(** [pass] runs an early-return test that [lia] refutes. *)
Ltac pass :=
  match goal with |- context [fail_if ?c ?e ≫= _] =>
    rewrite (fail_if_false c e) by first [done | lia]
  end; cbn [mbind result_bind].

Create HintDb safe.
#[export] Hint Resolve ok_safe err_safe fail_if_safe : safe.

(** [safely] proves that a function that only tests and binds does not panic. *)
Ltac safely :=
  repeat (intros; cbv zeta; first [apply ok_safe|apply err_safe|apply fail_if_safe|apply bind_safe|
    match goal with |- safe (match ?x with _ => _ end) => destruct x end]).

(** * Record update

    [r <| f := v |>] and [r <| f ::= g |>] update the field [f] of the record
    [r].  A record supports them once it has an [Eta] instance, the identity
    written with its constructor and projections; the update of a field is read
    off it. *)

Class Eta (R : Type) := eta : R -> R.
Class Field {R T : Type} (proj : R -> T) := alter_field : (T -> T) -> R -> R.
#[global] Arguments alter_field {R T} proj {_} _ _ /.

Ltac field_of R proj :=
  let e := constr:(_ : Eta R) in
  let e := eval hnf in e in
  match eval pattern proj in e with
  | ?build _ => exact (fun g => build (fun r => g (proj r)))
  end.
#[global] Hint Extern 0 (@Field ?R _ ?proj) => field_of R proj : typeclass_instances.

Notation "r <| f := v |>" := (alter_field f (fun _ => v) r)
  (at level 40, f at level 99, v at level 200, left associativity, format "r  <|  f  :=  v  |>").
Notation "r <| f ::= g |>" := (alter_field f g r)
  (at level 40, f at level 99, g at level 200, left associativity, format "r  <|  f  ::=  g  |>").

(** * Transition systems

    The stateful components are labelled transition systems.  [reachable]
    is the set of states some sequence of steps leads to from an initial
    one, and [invariant_reachable] the induction that proves an invariant. *)

Class Machine (St Ev : Type) := {
  m_init : St -> Prop;
  m_step : St -> Ev -> St -> Prop;
}.

Section machine.
Context {St Ev : Type} `{M : Machine St Ev}.

Inductive run : St -> list Ev -> St -> Prop :=
| run_nil s : run s [] s
| run_cons s e s' es s'' : m_step s e s' -> run s' es s'' -> run s (e :: es) s''.

Definition reachable (s : St) : Prop := exists s0 es, m_init s0 /\ run s0 es s.

Definition preserved (I : St -> Prop) : Prop :=
  forall s e s', I s -> m_step s e s' -> I s'.

Lemma run_preserves (I : St -> Prop) s es s' :
  preserved I -> run s es s' -> I s -> I s'.
Proof. intros HI Hr. induction Hr as [|s e s' es s'' Hs Hr IH]; [done|]. intros H. eapply IH, HI; eauto. Qed.

Lemma run_app s es s' es' s'' : run s es s' -> run s' es' s'' -> run s (es ++ es') s''.
Proof. intros H. induction H; simpl; eauto using run. Qed.

Lemma invariant_reachable (I : St -> Prop) :
  (forall s, m_init s -> I s) -> preserved I -> forall s, reachable s -> I s.
Proof. intros H0 HI s (s0 & es & Hi & Hr). eapply run_preserves; [exact HI|exact Hr|auto]. Qed.

Lemma reachable_init s : m_init s -> reachable s.
Proof. exists s, []. eauto using run. Qed.

Lemma reachable_step s e s' : reachable s -> m_step s e s' -> reachable s'.
Proof.
  intros (s0 & es & Hi & Hr) Hs. exists s0, (es ++ [e]).
  split; [done|]. eapply run_app; eauto using run.
Qed.
End machine.

Create HintDb machine.
#[export] Hint Constructors run : machine.
#[export] Hint Resolve reachable_init reachable_step run_app : machine.

(** * Lists *)

(** Go's [len]; an abbreviation, so that [lia] sees that it is not negative. *)
Abbreviation len l := (Z.of_nat (length l)).

Section lists.
Context {A : Type}.
Implicit Types l k : list A.

(** [slice l i j] is Go's [l[i:j]] for indices in range. *)
Definition slice l (i j : Z) : list A :=
  take (Z.to_nat (j - i)) (drop (Z.to_nat i) l).

Lemma len_app l k : len (l ++ k) = len l + len k.
Proof. rewrite length_app. lia. Qed.
Lemma len_nonneg l : 0 <= len l.
Proof. lia. Qed.
Lemma len_cons x l : len (x :: l) = len l + 1.
Proof. simpl. lia. Qed.
Lemma len_nil : len (@nil A) = 0.
Proof. done. Qed.
Lemma len_0 l : len l = 0 -> l = [].
Proof. destruct l; [done|]. rewrite len_cons. lia. Qed.
Lemma len_take n l : len (take n l) = Z.min (Z.of_nat n) (len l).
Proof. rewrite length_take. lia. Qed.
Lemma len_drop n l : len (drop n l) = Z.max 0 (len l - Z.of_nat n).
Proof. rewrite length_drop. lia. Qed.
Lemma len_replicate n (x : A) : len (replicate n x) = Z.of_nat n.
Proof. by rewrite length_replicate. Qed.
Lemma len_slice l i j : 0 <= i <= j -> j <= len l -> len (slice l i j) = j - i.
Proof. intros. unfold slice. rewrite len_take, len_drop. lia. Qed.
Lemma slice_app_l l k j : j = len l -> slice (l ++ k) 0 j = l.
Proof.
  intros ->. unfold slice. rewrite Z.sub_0_r, drop_0, Nat2Z.id.
  by rewrite take_app_length.
Qed.
Lemma slice_app_r l k i j :
  len l <= i -> slice (l ++ k) i j = slice k (i - len l) (j - len l).
Proof.
  intros Hi. unfold slice in *. rewrite drop_app_ge by lia.
  f_equal; [lia|]. f_equal. lia.
Qed.
Lemma slice_full l j : j = len l -> slice l 0 j = l.
Proof. intros ->. rewrite <- (app_nil_r l) at 1. by apply slice_app_l. Qed.
Lemma slice_drop l i : 0 <= i <= len l -> slice l i (len l) = drop (Z.to_nat i) l.
Proof.
  intros. unfold slice. apply take_ge. rewrite length_drop. lia.
Qed.

Lemma forall_slice (P : A -> Prop) l i j : Forall P l -> Forall P (slice l i j).
Proof. intros. unfold slice. by apply Forall_take, Forall_drop. Qed.
End lists.

#[export] Hint Rewrite @len_app @len_cons @len_nil @len_take @len_drop @len_replicate : len.

(** [lensolve] decides length side conditions. *)
Ltac lensolve :=
  autorewrite with len in *; try lia.

(** * Finite checks

    [all_from n lo f] evaluates [f] on [lo .. lo + n - 1]; the tables of the
    codecs and the 16-bit samples are few enough to be checked exhaustively. *)
Fixpoint all_from (n : nat) (lo : Z) (f : Z -> bool) : bool :=
  match n with O => true | S n' => if f lo then all_from n' (lo + 1) f else false end.

Lemma all_from_spec n lo f z :
  all_from n lo f = true -> lo <= z < lo + Z.of_nat n -> f z = true.
Proof.
  revert lo. induction n as [|n IH]; intros lo H Hz; [lia|]. cbn [all_from] in H.
  destruct (f lo) eqn:E; [|done]. destruct (decide (z = lo)) as [->|]; [done|].
  apply (IH (lo + 1)); [done|lia].
Qed.

Definition all_below (n : nat) (f : Z -> bool) : bool := all_from n 0 f.
(** All the values of an [int16]. *)
Definition all_samples (f : Z -> bool) : bool := 
  all_from 256 0 (fun h => all_from 256 (h * 256 - 32768) f).

Lemma all_below_spec n f z :
  all_below n f = true -> 0 <= z < Z.of_nat n -> f z = true.
Proof. intros H Hz. apply (all_from_spec n 0); [done|lia]. Qed.

Lemma all_samples_spec f z : all_samples f = true -> sfits 16 z -> f z = true.
Proof.
  unfold all_samples. intros H Hz. set (h := (z + 32768) / 256).
  assert (0 <= h < Z.of_nat 256) as Hh by (subst h; width).
  apply (all_from_spec _ _ _ h) in H; [|exact Hh].
  apply (all_from_spec _ _ _ z) in H; [done|]. subst h. width.
Qed.

(** [finite_check n f z as H] checks [f] on all of [0 .. n-1] by evaluation and
    gives [H : f z = true]; the range of [z] is found with [width]. *)
Tactic Notation "finite_check" constr(n) constr(f) constr(z) "as" ident(H) :=
  assert (all_below n f = true) as H by (vm_compute; reflexivity);
  apply (all_below_spec n f z) in H; [cbv beta in H | width].

(** * Clamping *)
Definition clamp (lo hi z : Z) : Z := Z.min hi (Z.max lo z).

Lemma clamp_range lo hi z : lo <= hi -> lo <= clamp lo hi z <= hi.
Proof. unfold clamp. lia. Qed.
Lemma clamp_id lo hi z : lo <= z <= hi -> clamp lo hi z = z.
Proof. unfold clamp. lia. Qed.

#[export] Hint Resolve len_nonneg : core.
