(* ===== verification/GoBytes.v ===== *)
(** Go slices with bounds checks, and [encoding/binary].

    [index] and [sub] are [b[i]] and [b[i:j]]; they panic outside the slice.
    (Go allows [b[i:j]] up to the capacity; the model refuses to read past the
    length, so a proof that a parser is [safe] also shows it never looks at
    bytes that are not part of its input.)  [le_get]/[be_get] are
    [binary.LittleEndian.Uint16/32] and [binary.BigEndian.Uint16/32] applied to
    a slice of the buffer, [le_put]/[be_put] the bytes the [Put] variants
    write. *)
From S2P Require Import Prelude.

Section access.
Context {A : Type}.
Implicit Types b : list A.

Definition index b (i : Z) : result A :=
  if decide (0 <= i) then
    match b !! Z.to_nat i with Some x => Ok x | None => Panic end
  else Panic.

Definition sub b (i j : Z) : result (list A) :=
  if decide (0 <= i <= j /\ j <= len b) then Ok (slice b i j) else Panic.

Lemma index_ok b i : 0 <= i < len b -> exists x, index b i = Ok x /\ b !! Z.to_nat i = Some x.
Proof.
  unfold index. intros Hi. rewrite decide_True by lia.
  destruct (lookup_lt_is_Some_2 b (Z.to_nat i)) as [x Hx]; [lia|].
  rewrite Hx. eauto.
Qed.
Lemma sub_ok b i j : 0 <= i <= j -> j <= len b -> sub b i j = Ok (slice b i j).
Proof. intros. unfold sub. by rewrite decide_True. Qed.
Lemma sub_inv b i j r : sub b i j = Ok r -> (0 <= i <= j /\ j <= len b) /\ r = slice b i j.
Proof. unfold sub. case_decide; [by intros [= <-]|done]. Qed.
Lemma index_safe b i : 0 <= i < len b -> safe (index b i).
Proof. intros H. by destruct (index_ok b i H) as (x & -> & _). Qed.
Lemma sub_safe b i j : 0 <= i <= j -> j <= len b -> safe (sub b i j).
Proof. intros. by rewrite sub_ok. Qed.
End access.

#[export] Hint Resolve index_safe sub_safe : safe.

(** * Byte order *)

Fixpoint le_dec (l : bytes) : Z :=
  match l with [] => 0 | b :: r => b + 256 * le_dec r end.
Fixpoint le_put (n : nat) (z : Z) : bytes :=
  match n with O => [] | S n' => u8 z :: le_put n' (z / 256) end.
Definition be_dec (l : bytes) : Z := le_dec (rev l).
Definition be_put (n : nat) (z : Z) : bytes := rev (le_put n z).

(** [le_get n b off] is [binary.LittleEndian.UintN(b[off : off+n])]. *)
Definition le_get (n : Z) (b : bytes) (off : Z) : result Z := le_dec <$> sub b off (off + n).
Definition be_get (n : Z) (b : bytes) (off : Z) : result Z := be_dec <$> sub b off (off + n).

Lemma length_le_put n z : length (le_put n z) = n.
Proof. revert z. induction n; intros; simpl; auto. Qed.
Lemma length_be_put n z : length (be_put n z) = n.
Proof. unfold be_put. by rewrite length_rev, length_le_put. Qed.
Lemma len_le_put n z : len (le_put n z) = Z.of_nat n.
Proof. by rewrite length_le_put. Qed.
Lemma len_be_put n z : len (be_put n z) = Z.of_nat n.
Proof. by rewrite length_be_put. Qed.

Lemma le_put_ok n z : bytes_ok (le_put n z).
Proof. revert z. induction n; intros; simpl; constructor; auto with width. Qed.
Lemma be_put_ok n z : bytes_ok (be_put n z).
Proof. apply Forall_rev, le_put_ok. Qed.

Lemma le_dec_bounds l : bytes_ok l -> 0 <= le_dec l < 256 ^ len l.
Proof.
  induction 1 as [|b r Hb Hr IH]; cbn [le_dec]; [split; [done|by vm_compute]|].
  rewrite len_cons, Z.pow_add_r by lia.
  unfold fits in Hb. change (2 ^ 8) with 256 in Hb. change (256 ^ 1) with 256.
  pose proof (Z.pow_pos_nonneg 256 (len r)). nia.
Qed.

Lemma le_dec_put n z : le_dec (le_put n z) = z mod 256 ^ Z.of_nat n.
Proof.
  revert z. induction n as [|n IH]; intros z; cbn [le_put le_dec].
  - cbn. by rewrite Z.mod_1_r.
  - rewrite IH, Nat2Z.inj_succ, Z.pow_succ_r by lia.
    rewrite Z.rem_mul_r by lia. unfold wrap. by change (2 ^ 8) with 256.
Qed.
Lemma be_dec_put n z : be_dec (be_put n z) = z mod 256 ^ Z.of_nat n.
Proof. unfold be_dec, be_put. by rewrite rev_involutive, le_dec_put. Qed.

Lemma le_put_dec l : bytes_ok l -> le_put (length l) (le_dec l) = l.
Proof.
  induction 1 as [|b r Hb Hr IH]; simpl; [done|].
  unfold fits in Hb. change (2 ^ 8) with 256 in Hb. f_equal.
  - unfold wrap. change (2 ^ 8) with 256.
    rewrite (Z.mul_comm 256), Z_mod_plus_full. by apply Z.mod_small.
  - rewrite (Z.mul_comm 256), Z.div_add by lia. rewrite Z.div_small by done. by rewrite Z.add_0_l.
Qed.
Lemma be_put_dec l : bytes_ok l -> be_put (length l) (be_dec l) = l.
Proof.
  intros H. unfold be_put, be_dec. rewrite <- length_rev.
  rewrite le_put_dec by by apply Forall_rev. apply rev_involutive.
Qed.

Lemma be_dec_bounds l : bytes_ok l -> 0 <= be_dec l < 256 ^ len l.
Proof.
  intros H. unfold be_dec. rewrite <- length_rev. by apply le_dec_bounds, Forall_rev.
Qed.

(** Reading back a field that was written. *)
Lemma le_get_app n l k off z m :
  len l = off -> n = Z.of_nat m -> le_get n (l ++ le_put m z ++ k) off = Ok (z mod 256 ^ n).
Proof.
  intros <- ->. unfold le_get. 
  rewrite sub_ok by (try rewrite !len_app, len_le_put; lia).
  rewrite slice_app_r, Z.sub_diag by lia.
  rewrite slice_app_l by (rewrite len_le_put; lia). cbn. by rewrite le_dec_put.
Qed.
Lemma le_get_head n k z m : n = Z.of_nat m -> le_get n (le_put m z ++ k) 0 = Ok (z mod 256 ^ n).
Proof. intros. by rewrite <- (le_get_app n [] k 0 z m). Qed.
Lemma le_get_last n l z m off :
  len l = off -> n = Z.of_nat m -> le_get n (l ++ le_put m z) off = Ok (z mod 256 ^ n).
Proof. intros. rewrite <- (app_nil_r (l ++ _)), <- app_assoc. by apply le_get_app. Qed.
Lemma be_get_app n l k off z m :
  len l = off -> n = Z.of_nat m -> be_get n (l ++ be_put m z ++ k) off = Ok (z mod 256 ^ n).
Proof.
  intros <- ->. unfold be_get. 
  rewrite sub_ok by (try rewrite !len_app, len_be_put; lia).
  rewrite slice_app_r, Z.sub_diag by lia.
  rewrite slice_app_l by (rewrite len_be_put; lia). cbn. by rewrite be_dec_put.
Qed.

Lemma le_get_ok n b off :
  0 <= off -> 0 <= n -> off + n <= len b ->
  le_get n b off = Ok (le_dec (slice b off (off + n))).
Proof. intros. unfold le_get. by rewrite sub_ok by lia. Qed.
Lemma be_get_ok n b off :
  0 <= off -> 0 <= n -> off + n <= len b ->
  be_get n b off = Ok (be_dec (slice b off (off + n))).
Proof. intros. unfold be_get. by rewrite sub_ok by lia. Qed.
Lemma le_get_safe n b off : 0 <= off -> 0 <= n -> off + n <= len b -> safe (le_get n b off).
Proof. intros. by rewrite le_get_ok. Qed.
Lemma be_get_safe n b off : 0 <= off -> 0 <= n -> off + n <= len b -> safe (be_get n b off).
Proof. intros. by rewrite be_get_ok. Qed.
Lemma le_get_bounds n b off z :
  bytes_ok b -> 0 <= n -> le_get n b off = Ok z -> 0 <= z < 256 ^ n.
Proof.
  unfold le_get, sub. intros Hb Hn. case_decide as Hd; [|done]. cbn. intros [= <-].
  pose proof (le_dec_bounds _ (forall_slice _ b off (off + n) Hb)) as Hd'.
  rewrite len_slice in Hd' by lia. by replace (off + n - off) with n in Hd' by lia.
Qed.
Lemma be_get_bounds n b off z :
  bytes_ok b -> 0 <= n -> be_get n b off = Ok z -> 0 <= z < 256 ^ n.
Proof.
  unfold be_get, sub. intros Hb Hn. case_decide as Hd; [|done]. cbn. intros [= <-].
  pose proof (be_dec_bounds _ (forall_slice _ b off (off + n) Hb)) as Hd'.
  rewrite len_slice in Hd' by lia. by replace (off + n - off) with n in Hd' by lia.
Qed.

#[export] Hint Resolve le_get_safe be_get_safe : safe.
#[export] Hint Rewrite len_le_put len_be_put : len.

(** * Streams

    A stream is the list of the bytes still to come; it ends with an error. *)

(** [io.ReadFull] of [n] bytes, and the rest of the stream. *)
Definition ReadFull (stream : bytes) (n : Z) : result (bytes * bytes) :=
  _ ← fail_if (len stream <? n) "EOF";
  Ok (take (Z.to_nat n) stream, drop (Z.to_nat n) stream).

Lemma ReadFull_app a b n : n = len a -> ReadFull (a ++ b) n = Ok (a, b).
Proof.
  intros ->. unfold ReadFull. rewrite fail_if_false by (apply Z.ltb_ge; rewrite len_app; lia). cbn [mbind result_bind].
  by rewrite Nat2Z.id, take_app_length, drop_app_length.
Qed.

Lemma ReadFull_ok stream n a b : ReadFull stream n = Ok (a, b) -> 0 <= n -> len a = n /\ stream = a ++ b.
Proof.
  unfold ReadFull. intros ([] & H%fail_if_ok & [= <- <-])%bind_ok Hn.
  rewrite take_drop. split; [rewrite len_take; lia|done].
Qed.
