(* ===== verification/GoStrings.v ===== *)
(** Go strings: the functions of [strings], [strconv], [unicode/utf8],
    [fmt] and [encoding/hex] the gateway uses.

    A Go string is a sequence of bytes; here a [string] of 8-bit characters.
    Functions that work on runes decode UTF-8 exactly as [utf8.DecodeRune]
    does.  ASCII is modelled completely; what the Unicode tables say about
    the runes from 128 on is generated data, the parameters of the class
    [Unicode]. *)
From Stdlib Require Export Ascii.
From S2P Require Import Prelude.

Class Unicode := {
  uni_lower : Z -> Z;    (** [unicode.ToLower] from 128 on *)
  uni_upper : Z -> Z;    (** [unicode.ToUpper] from 128 on *)
  uni_fold : Z -> Z;     (** a representative of the simple-folding orbit *)
  uni_digit : Z -> bool; (** [unicode.IsDigit] from 128 on *)
}.

(** A concrete instance that leaves the runes from 128 on alone. *)
Definition ascii_tables : Unicode :=
  {| uni_lower := fun r => r; uni_upper := fun r => r; uni_fold := fun r => r;
     uni_digit := fun _ => false |}.

(** * Bytes and characters *)

Definition code (c : ascii) : Z := Z.of_N (N_of_ascii c).
Definition chr (z : Z) : ascii := ascii_of_N (Z.to_N (u8 z)).

Fixpoint s2b (s : string) : bytes :=
  match s with "" => [] | String c s' => code c :: s2b s' end.
Fixpoint b2s (b : bytes) : string :=
  match b with [] => "" | z :: b' => String (chr z) (b2s b') end.

Abbreviation slen s := (Z.of_nat (String.length s)).

Lemma code_fits c : fits 8 (code c).
Proof.
  unfold fits, code. pose proof (N_ascii_bounded c). change (2 ^ 8) with 256. lia.
Qed.
Lemma chr_code c : chr (code c) = c.
Proof.
  unfold chr. rewrite wrap_id by apply code_fits. unfold code.
  by rewrite N2Z.id, ascii_N_embedding.
Qed.
Lemma code_chr z : fits 8 z -> code (chr z) = z.
Proof.
  intros Hz. unfold code, chr. rewrite wrap_id by done. unfold fits in Hz. change (2 ^ 8) with 256 in Hz.
  rewrite N_ascii_embedding by lia. rewrite Z2N.id; lia.
Qed.
Lemma b2s_s2b s : b2s (s2b s) = s.
Proof. induction s as [|c s IH]; simpl; [done|]. by rewrite chr_code, IH. Qed.
Lemma s2b_b2s b : bytes_ok b -> s2b (b2s b) = b.
Proof. induction 1 as [|z b Hz Hb IH]; simpl; [done|]. by rewrite code_chr, IH. Qed.
Lemma s2b_ok s : bytes_ok (s2b s).
Proof. induction s; simpl; constructor; auto using code_fits. Qed.
Lemma length_s2b s : length (s2b s) = String.length s.
Proof. induction s; simpl; auto. Qed.
Lemma scons_app c s t : String c s +:+ t = String c (s +:+ t).
Proof. done. Qed.
Lemma snil_app t : "" +:+ t = t.
Proof. done. Qed.
Lemma s2b_app s t : s2b (s +:+ t) = (s2b s ++ s2b t)%list.
Proof. induction s as [|c s IH]; [done|]. rewrite scons_app. cbn [s2b app]. by rewrite IH. Qed.

Lemma sapp_assoc s t u : (s +:+ t) +:+ u = s +:+ (t +:+ u).
Proof. induction s as [|c s IH]; [done|]. by rewrite !scons_app, IH. Qed.
Lemma sapp_nil_r s : s +:+ "" = s.
Proof. induction s as [|c s IH]; [done|]. by rewrite scons_app, IH. Qed.
Lemma slength_app s t : String.length (s +:+ t) = (String.length s + String.length t)%nat.
Proof. induction s as [|c s IH]; [done|]. rewrite scons_app. cbn [String.length]. by rewrite IH. Qed.

(** * Character classes *)

Definition is_upper_byte (z : Z) : bool := (65 <=? z) && (z <=? 90).
Definition is_lower_byte (z : Z) : bool := (97 <=? z) && (z <=? 122).
Definition is_digit_byte (z : Z) : bool := (48 <=? z) && (z <=? 57).
Definition lower_byte (z : Z) : Z := if is_upper_byte z then z + 32 else z.
Definition upper_byte (z : Z) : Z := if is_lower_byte z then z - 32 else z.

(** [unicode.IsSpace]. *)
Definition is_space (r : Z) : bool :=
  (r =? 32) || ((9 <=? r) && (r <=? 13)) || (r =? 0x85) || (r =? 0xA0) || (r =? 0x1680) ||
  ((0x2000 <=? r) && (r <=? 0x200a)) || (r =? 0x2028) || (r =? 0x2029) || (r =? 0x202f) ||
  (r =? 0x205f) || (r =? 0x3000).

(** * UTF-8 *)

Definition RuneError : Z := 0xFFFD.
Definition cont (z : Z) : bool := (0x80 <=? z) && (z <=? 0xBF).
Definition within (lo hi z : Z) : bool := (lo <=? z) && (z <=? hi).

(** [utf8.DecodeRune]: the rune at the head and how many bytes it takes. *)
Definition decode_rune (b : bytes) : Z * nat :=
  match b with
  | [] => (RuneError, 0%nat)
  | b0 :: r =>
    if b0 <? 0x80 then (b0, 1%nat)
    else match r with
    | b1 :: r1 =>
      if within 0xC2 0xDF b0 then
        if cont b1 then (Z.lor (Z.shiftl (Z.land b0 0x1F) 6) (Z.land b1 0x3F), 2%nat)
        else (RuneError, 1%nat)
      else
      let lo := if b0 =? 0xE0 then 0xA0 else if b0 =? 0xF0 then 0x90 else 0x80 in
      let hi := if b0 =? 0xED then 0x9F else if b0 =? 0xF4 then 0x8F else 0xBF in
      match r1 with
      | b2 :: r2 =>
        if within 0xE0 0xEF b0 then
          if within lo hi b1 && cont b2 then
            (Z.lor (Z.shiftl (Z.land b0 0x0F) 12)
               (Z.lor (Z.shiftl (Z.land b1 0x3F) 6) (Z.land b2 0x3F)), 3%nat)
          else (RuneError, 1%nat)
        else match r2 with
        | b3 :: _ =>
          if within 0xF0 0xF4 b0 && within lo hi b1 && cont b2 && cont b3 then
            (Z.lor (Z.shiftl (Z.land b0 0x07) 18) (Z.lor (Z.shiftl (Z.land b1 0x3F) 12)
               (Z.lor (Z.shiftl (Z.land b2 0x3F) 6) (Z.land b3 0x3F))), 4%nat)
          else (RuneError, 1%nat)
        | [] => (RuneError, 1%nat)
        end
      | [] => (RuneError, 1%nat)
      end
    | [] => (RuneError, 1%nat)
    end
  end.

(** The runes of a byte string, each with the bytes it was decoded from; the
    iteration of [for _, r := range s].  Every step consumes a byte, so the
    length is enough fuel. *)
Fixpoint runes_go (fuel : nat) (b : bytes) : list (Z * bytes) :=
  match fuel, b with
  | O, _ | _, [] => []
  | S f, _ => let '(r, n) := decode_rune b in (r, take n b) :: runes_go f (drop n b)
  end.
Definition runes (s : string) : list (Z * bytes) := runes_go (String.length s) (s2b s).

(** [utf8.AppendRune]. *)
Definition encode_rune (r : Z) : bytes :=
  if (0 <=? r) && (r <=? 0x7F) then [r]
  else if (0 <=? r) && (r <=? 0x7FF) then
    [Z.lor 0xC0 (Z.shiftr r 6); Z.lor 0x80 (Z.land r 0x3F)]
  else if (r <? 0) || (0x10FFFF <? r) || within 0xD800 0xDFFF r then [0xEF; 0xBF; 0xBD]
  else if r <=? 0xFFFF then
    [Z.lor 0xE0 (Z.shiftr r 12); Z.lor 0x80 (Z.land (Z.shiftr r 6) 0x3F); Z.lor 0x80 (Z.land r 0x3F)]
  else
    [Z.lor 0xF0 (Z.shiftr r 18); Z.lor 0x80 (Z.land (Z.shiftr r 12) 0x3F);
     Z.lor 0x80 (Z.land (Z.shiftr r 6) 0x3F); Z.lor 0x80 (Z.land r 0x3F)].

(** A string of ASCII characters. *)
Fixpoint is_ascii (s : string) : bool :=
  match s with "" => true | String c s' => (code c <? 128) && is_ascii s' end.

Fixpoint smap (f : Z -> Z) (s : string) : string :=
  match s with "" => "" | String c s' => String (chr (f (code c))) (smap f s') end.

(** [strings.Map]. *)
Definition map_runes (f : Z -> Z) (s : string) : string :=
  b2s (concat ((fun r => encode_rune (f r.1)) <$> runes s)).

Section unicode.
Context `{U : Unicode}.
Definition rune_lower (r : Z) : Z := if r <? 128 then lower_byte r else uni_lower r.
Definition rune_upper (r : Z) : Z := if r <? 128 then upper_byte r else uni_upper r.
Definition rune_fold (r : Z) : Z := if r <? 128 then lower_byte r else uni_fold r.
Definition rune_digit (r : Z) : bool := if r <? 128 then is_digit_byte r else uni_digit r.

(** [strings.ToLower], [strings.ToUpper]: the ASCII fast path of the library
    is kept. *)
Definition ToLower (s : string) : string :=
  if is_ascii s then smap lower_byte s else map_runes rune_lower s.
Definition ToUpper (s : string) : string :=
  if is_ascii s then smap upper_byte s else map_runes rune_upper s.
(** [strings.EqualFold]. *)
Definition EqualFold (s t : string) : bool :=
  bool_decide (map (rune_fold ∘ fst) (runes s) = map (rune_fold ∘ fst) (runes t)).
End unicode.

(** * Searching and cutting *)

Fixpoint HasPrefix (s p : string) : bool :=
  match p, s with
  | "", _ => true
  | String a p', String b s' => if decide (a = b) then HasPrefix s' p' else false
  | _, "" => false
  end.

Fixpoint sdrop (n : nat) (s : string) : string :=
  match n, s with O, _ => s | S n', String _ s' => sdrop n' s' | _, "" => "" end.
Fixpoint stake (n : nat) (s : string) : string :=
  match n, s with O, _ => "" | S n', String c s' => String c (stake n' s') | _, "" => "" end.

(** [strings.Index]: [None] is -1. *)
Fixpoint Index (s sep : string) : option nat :=
  if HasPrefix s sep then Some 0%nat
  else match s with "" => None | String _ s' => S <$> Index s' sep end.

Fixpoint IndexByte (s : string) (c : ascii) : option nat :=
  match s with
  | "" => None
  | String a s' => if decide (a = c) then Some 0%nat else S <$> IndexByte s' c
  end.
Fixpoint LastIndexByte (s : string) (c : ascii) : option nat :=
  match s with
  | "" => None
  | String a s' => match LastIndexByte s' c with
      | Some i => Some (S i) | None => if decide (a = c) then Some 0%nat else None end
  end.
(** [strings.IndexAny] for a set of ASCII characters. *)
Fixpoint IndexAny (s : string) (cs : list ascii) : option nat :=
  match s with
  | "" => None
  | String a s' => if bool_decide (a ∈ cs) then Some 0%nat else S <$> IndexAny s' cs
  end.
(** [strings.Contains], [strings.ContainsAny]. *)
Definition Contains (s sep : string) : bool := bool_decide (is_Some (Index s sep)).
Definition ContainsAny (s : string) (cs : list ascii) : bool := bool_decide (is_Some (IndexAny s cs)).
Fixpoint CountByte (s : string) (c : ascii) : nat :=
  match s with "" => O | String a s' => (if decide (a = c) then 1 else 0) + CountByte s' c end%nat.

(** [strings.Cut] and [strings.SplitN(s, sep, 2)]. *)
Definition Cut (s sep : string) : option (string * string) :=
  i ← Index s sep; Some (stake i s, sdrop (i + String.length sep) s).
Definition SplitN2 (s sep : string) : list string :=
  match Cut s sep with Some (a, b) => [a; b] | None => [s] end.

(** [strings.Split] for a separator that is not empty; every cut removes at
    least one character. *)
Fixpoint Split_go (fuel : nat) (s sep : string) : list string :=
  match fuel with
  | O => [s]
  | S f => match Cut s sep with
           | Some (a, b) => a :: Split_go f b sep | None => [s] end
  end.
Definition Split (s sep : string) : list string := Split_go (String.length s) s sep.

Fixpoint Join (l : list string) (sep : string) : string :=
  match l with
  | [] => "" | [x] => x
  | x :: l' => x +:+ sep +:+ Join l' sep
  end.

(** [strings.ReplaceAll] for an [old] that is not empty. *)
Definition ReplaceAll (s old new : string) : string := Join (Split s old) new.

Definition TrimPrefix (s p : string) : string :=
  if HasPrefix s p then sdrop (String.length p) s else s.

(** * Trimming *)

Fixpoint drop_while {A} (f : A -> bool) (l : list A) : list A :=
  match l with [] => [] | x :: l' => if f x then drop_while f l' else l end.

(** [strings.TrimSpace]. *)
Definition TrimSpace (s : string) : string :=
  let space := fun r : Z * bytes => is_space r.1 in
  b2s (concat (map snd (rev (drop_while space (rev (drop_while space (runes s))))))).

(** [strings.Trim] for a cutset of ASCII characters: a byte-wise loop at
    either end. *)
Fixpoint TrimLeftSet (s : string) (cs : list ascii) : string :=
  match s with "" => "" | String a s' => if bool_decide (a ∈ cs) then TrimLeftSet s' cs else s end.
Fixpoint TrimRightSet (s : string) (cs : list ascii) : string :=
  match s with
  | "" => ""
  | String a s' =>
    match TrimRightSet s' cs with
    | "" => if bool_decide (a ∈ cs) then "" else String a ""
    | t => String a t
    end
  end.
Definition Trim (s : string) (cs : list ascii) : string := TrimRightSet (TrimLeftSet s cs) cs.

(** [strings.Fields]. *)
Fixpoint Fields_go (cur : bytes) (l : list (Z * bytes)) : list string :=
  let flush := match cur with [] => [] | _ => [b2s cur] end in
  match l with
  | [] => flush
  | (r, bs) :: l' => if is_space r then (flush ++ Fields_go [] l')%list else Fields_go (cur ++ bs) l'
  end.
Definition Fields (s : string) : list string := Fields_go [] (runes s).

(** * Numbers *)

Definition digit (d : Z) : ascii := chr (48 + d).

(** The decimal digits of a natural number, most significant first. *)
Fixpoint dec_go (fuel : nat) (z : Z) (acc : string) : string :=
  match fuel with
  | O => acc
  | S f => let acc' := String (digit (z mod 10)) acc in
           if z <? 10 then acc' else dec_go f (z / 10) acc'
  end.
(** [strconv.Itoa] and the verb [%d]. *)
Definition Itoa (z : Z) : string :=
  if z <? 0 then String "-" (dec_go (S (Z.to_nat (Z.log2 (- z)))) (- z) "")
  else dec_go (S (Z.to_nat (Z.log2 z))) z "".

Definition hex_digit (d : Z) : ascii := if d <? 10 then chr (48 + d) else chr (87 + d).
(** [hex.EncodeToString]. *)
Definition hex_encode (b : bytes) : string :=
  b2s (concat (map (fun z => [code (hex_digit (Z.shiftr z 4)); code (hex_digit (Z.land z 15))]) b)).
(** The verb [%08x]. *)
Definition hex8 (z : Z) : string :=
  hex_encode [Z.land (Z.shiftr z 24) 255; Z.land (Z.shiftr z 16) 255; Z.land (Z.shiftr z 8) 255; Z.land z 255].

(** [strconv.ParseUint] in base 10 below [max]: the value and whether it was
    valid.  The scan stops at the first character that is not a digit (0) or
    that leaves the range (the maximum). *)
Fixpoint parse_uint (max n : Z) (s : string) : Z * bool :=
  match s with
  | "" => (n, true)
  | String c s' =>
    if is_digit_byte (code c) then
      let n1 := n * 10 + (code c - 48) in
      if max <? n1 then (max, false) else parse_uint max n1 s'
    else (0, false)
  end.
Definition ParseUint (bits : Z) (s : string) : Z * bool :=
  match s with "" => (0, false) | _ => parse_uint (2 ^ bits - 1) 0 s end.

(** [strconv.Atoi] for the 64-bit [int]: the value and whether it was valid.
    Out of range the value is the nearest [int], on a syntax error 0. *)
Definition Atoi (s : string) : Z * bool :=
  let '(neg, body) := match s with
    | String c s' => if decide (c = "-"%char) then (true, s')
                     else if decide (c = "+"%char) then (false, s') else (false, s)
    | "" => (false, s) end in
  match ParseUint 64 body with
  | (0, false) => (0, false)
  | (un, _) =>
    if neg : bool then if 2 ^ 63 <? un then (- 2 ^ 63, false) else (- un, true)
    else if 2 ^ 63 <=? un then (2 ^ 63 - 1, false) else (un, true)
  end.
