(* ===== verification/GoText.v ===== *)
(** Lemmas about Go strings: cutting, splitting and joining, trimming, fields
    and decimal numbers. *)
From S2P Require Import Prelude GoStrings.

(** * Every character satisfies a predicate *)

Fixpoint sall (p : ascii -> bool) (s : string) : bool :=
  match s with "" => true | String c s' => p c && sall p s' end.

Lemma sall_app p s t : sall p (s +:+ t) = sall p s && sall p t.
Proof. induction s as [|c s IH]; [done|]. rewrite scons_app. cbn [sall]. by rewrite IH, andb_assoc. Qed.
Lemma sall_weaken (p q : ascii -> bool) s : (forall c, p c = true -> q c = true) -> sall p s = true -> sall q s = true.
Proof.
  intros Hpq. induction s as [|c s IH]; [done|]. cbn [sall]. intros H. apply andb_prop in H as [Hc Hs].
  by rewrite (Hpq _ Hc), IH.
Qed.

(** The characters other than [c]. *)
Definition isnt (c a : ascii) : bool := negb (bool_decide (a = c)).
Lemma isnt_true c a : isnt c a = true <-> a <> c.
Proof. unfold isnt. rewrite negb_true_iff, bool_decide_eq_false. done. Qed.

(** * Searching and cutting *)

Lemma HasPrefix_app p t : HasPrefix (p +:+ t) p = true.
Proof.
  induction p as [|c p IH]; [by destruct t|]. rewrite scons_app. cbn [HasPrefix].
  by rewrite decide_True by done.
Qed.
Lemma stake_app s t : stake (String.length s) (s +:+ t) = s.
Proof. induction s as [|c s IH]; [by destruct t|]. rewrite scons_app. cbn [stake String.length]. by rewrite IH. Qed.
Lemma sdrop_app s t n : sdrop (String.length s + n) (s +:+ t) = sdrop n t.
Proof. induction s as [|c s IH]; [done|]. rewrite scons_app. cbn [sdrop String.length Nat.add]. apply IH. Qed.
Lemma sdrop_0 s : sdrop 0 s = s.
Proof. by destruct s. Qed.
Lemma sdrop_whole s t : sdrop (String.length s) (s +:+ t) = t.
Proof. rewrite <- (Nat.add_0_r (String.length s)), sdrop_app. apply sdrop_0. Qed.
Lemma stake_all s : stake (String.length s) s = s.
Proof. rewrite <- (sapp_nil_r s) at 2. apply stake_app. Qed.
Lemma sdrop_all s n : (String.length s <= n)%nat -> sdrop n s = "".
Proof. revert n. induction s as [|c s IH]; intros [|n] H; cbn in *; try done; [lia|]. apply IH. lia. Qed.

Section separator.
Context (c : ascii) (sep : string).
(** [String c sep] does not begin inside a text without [c]. *)
Lemma Index_skip a t : sall (isnt c) a = true ->
  Index (a +:+ t) (String c sep) = Nat.add (String.length a) <$> Index t (String c sep).
Proof.
  induction a as [|x a IH].
  - intros _. rewrite snil_app. by destruct (Index t _).
  - cbn [sall]. intros H. apply andb_prop in H as [Hx Ha]. rewrite scons_app. cbn [Index HasPrefix].
    apply isnt_true in Hx. rewrite decide_False by done. rewrite IH by done. by destruct (Index t _).
Qed.
Lemma Index_found a t : sall (isnt c) a = true ->
  Index (a +:+ String c sep +:+ t) (String c sep) = Some (String.length a).
Proof.
  intros Ha. rewrite Index_skip by done.
  assert (Index (String c sep +:+ t) (String c sep) = Some 0%nat) as ->.
  { rewrite scons_app. cbn [Index]. rewrite <- scons_app. by rewrite HasPrefix_app. }
  simpl. by rewrite Nat.add_0_r.
Qed.
Lemma Index_absent a : sall (isnt c) a = true -> Index a (String c sep) = None.
Proof. intros Ha. rewrite <- (sapp_nil_r a). by rewrite Index_skip. Qed.

Lemma Cut_found a t : sall (isnt c) a = true ->
  Cut (a +:+ String c sep +:+ t) (String c sep) = Some (a, t).
Proof.
  intros Ha. unfold Cut. rewrite Index_found by done. cbn. rewrite stake_app. f_equal. f_equal.
  rewrite sdrop_app. apply sdrop_whole.
Qed.
Lemma Cut_absent a : sall (isnt c) a = true -> Cut a (String c sep) = None.
Proof. intros Ha. unfold Cut. by rewrite Index_absent. Qed.

Lemma Join_cons2 x y l (s : string) : Join (x :: y :: l) s = x +:+ s +:+ Join (y :: l) s.
Proof. done. Qed.
Lemma Join_length l : (length l <= S (String.length (Join l (String c sep))))%nat.
Proof.
  induction l as [|x [|y l] IH]; cbn [length]; [lia|lia|]. rewrite Join_cons2, !slength_app.
  cbn [String.length length] in *. lia.
Qed.

(** Splitting undoes joining when no element holds the separator's first
    character. *)
Lemma Split_Join l : l <> [] -> Forall (fun x => sall (isnt c) x = true) l ->
  Split (Join l (String c sep)) (String c sep) = l.
Proof.
  intros Hne Hall. unfold Split. pose proof (Join_length l) as Hlen.
  revert Hlen. generalize (String.length (Join l (String c sep))) as f. intros f.
  revert f. induction l as [|x [|y l] IH]; intros f Hlen; [done| |].
  - apply Forall_cons_1 in Hall as [Hx _]. cbn [Join]. destruct f; cbn [Split_go]; [done|]. by rewrite Cut_absent.
  - apply Forall_cons_1 in Hall as [Hx Hall]. cbn [length] in Hlen. destruct f as [|f]; [lia|].
    rewrite Join_cons2. cbn [Split_go]. rewrite Cut_found by done. f_equal. apply IH; [done|done|]. cbn. lia.
Qed.
End separator.

Lemma Join_app l m s : l <> [] -> m <> [] -> Join (l ++ m) s = Join l s +:+ s +:+ Join m s.
Proof.
  intros Hl Hm. induction l as [|x [|y l] IH]; [done| |].
  - destruct m; [done|]. reflexivity.
  - cbn [app] in *. rewrite !Join_cons2, IH by done. by rewrite !sapp_assoc.
Qed.
Lemma SplitN2_found c a t : sall (isnt c) a = true -> SplitN2 (a +:+ String c t) (String c "") = [a; t].
Proof. intros Ha. unfold SplitN2. pose proof (Cut_found c "" a t Ha) as H. rewrite scons_app, snil_app in H. by rewrite H. Qed.

(** * Runes, trimming and fields *)

Lemma runes_cons c s : code c < 128 -> runes (String c s) = (code c, [code c]) :: runes s.
Proof.
  intros Hc. unfold runes. cbn [String.length s2b runes_go decode_rune].
  apply Z.ltb_lt in Hc as ->. done.
Qed.

Lemma encode_ascii z : 0 <= z < 128 -> encode_rune z = [z].
Proof. intros Hz. unfold encode_rune. by assert ((0 <=? z) && (z <=? 127) = true) as -> by lia. Qed.
Lemma code_pos c : 0 <= code c.
Proof. unfold code. lia. Qed.

(** A leading blank does not matter to [TrimSpace]. *)
Lemma TrimSpace_blank v : TrimSpace (String " " v) = TrimSpace v.
Proof. unfold TrimSpace. by rewrite runes_cons by done. Qed.

(** A character of a token: printable ASCII. *)
Definition token_char (c : ascii) : bool := (32 <? code c) && (code c <? 127).
Definition token (s : string) : bool := match s with "" => false | _ => sall token_char s end.

Lemma token_char_spec c : token_char c = true -> code c < 128 /\ is_space (code c) = false.
Proof.
  unfold token_char, is_space. intros H. apply andb_prop in H as [H1%Z.ltb_lt H2%Z.ltb_lt]. split; [lia|].
  repeat (apply orb_false_iff; split); try apply Z.eqb_neq; try lia; apply andb_false_iff;
    (left; apply Z.leb_gt; lia) || (right; apply Z.leb_gt; lia).
Qed.
Lemma Fields_go_token cur s rest : sall token_char s = true ->
  Fields_go cur (runes (s +:+ rest)) = Fields_go (cur ++ s2b s) (runes rest).
Proof.
  revert cur. induction s as [|c s IH]; intros cur.
  - intros _. cbn [s2b]. by rewrite snil_app, app_nil_r.
  - cbn [sall]. intros H. apply andb_prop in H as [[Hc Hsp]%token_char_spec Hs].
    rewrite scons_app, runes_cons by done. cbn [Fields_go]. rewrite Hsp, IH by done. cbn [s2b].
    by rewrite <- app_assoc.
Qed.
Lemma Fields_token t rest : token t = true -> Fields (t +:+ String " " rest) = t :: Fields rest.
Proof.
  intros Ht. destruct t as [|c t]; [done|]. unfold Fields. rewrite Fields_go_token by done.
  rewrite runes_cons by done. cbn [app]. cbn [Fields_go]. cbn [s2b is_space code N_of_ascii].
  change (is_space (code " ")) with true. cbv iota. cbn [app]. f_equal.
  change (code c :: s2b t) with (s2b (String c t)). apply b2s_s2b.
Qed.
Lemma Fields_last t : token t = true -> Fields t = [t].
Proof.
  intros Ht. destruct t as [|c t]; [done|]. unfold Fields. rewrite <- (sapp_nil_r (String c t)) at 1.
  rewrite Fields_go_token by done. cbn. f_equal. apply (b2s_s2b (String c t)).
Qed.
(** Words joined by blanks are the fields again. *)
Lemma Fields_Join l : Forall (fun t => token t = true) l -> Fields (Join l " ") = l.
Proof.
  induction 1 as [|x l Hx Hl IH]; [done|]. destruct l as [|y l]; [by apply Fields_last|].
  rewrite Join_cons2. rewrite scons_app, snil_app, Fields_token by done. by rewrite IH.
Qed.

(** * Decimal numbers *)

Lemma code_digit d : 0 <= d < 10 -> code (digit d) = 48 + d.
Proof. intros H. unfold digit. apply code_chr. unfold fits. change (2 ^ 8) with 256. lia. Qed.
Lemma digit_is_digit d : 0 <= d < 10 -> is_digit_byte (code (digit d)) = true.
Proof. intros H. rewrite code_digit by done. unfold is_digit_byte. apply andb_true_intro. split; apply Z.leb_le; lia. Qed.

Lemma parse_digit mx n d s : 0 <= d < 10 -> n * 10 + d <= mx ->
  parse_uint mx n (String (digit d) s) = parse_uint mx (n * 10 + d) s.
Proof.
  intros Hd Hn. cbn [parse_uint]. rewrite digit_is_digit by done. rewrite code_digit by done.
  replace (48 + d - 48) with d by lia. by assert (mx <? n * 10 + d = false) as -> by (apply Z.ltb_ge; lia).
Qed.
Lemma parse_dec_go mx f z acc : 0 <= z <= mx -> z < 2 ^ Z.of_nat (S f) ->
  parse_uint mx 0 (dec_go (S f) z acc) = parse_uint mx z acc.
Proof.
  revert z acc. induction f as [|f IH]; intros z acc Hz Hf.
  - change (2 ^ Z.of_nat 1) with 2 in Hf. cbn [dec_go]. destruct (Z.ltb_spec z 10); [|lia].
    rewrite Z.mod_small by lia. rewrite parse_digit by lia. done.
  - pose proof (Z.mod_pos_bound z 10 ltac:(lia)). pose proof (Z.div_mod z 10 ltac:(lia)).
    rewrite Nat2Z.inj_succ, Z.pow_succ_r in Hf by lia.
    change (dec_go (S (S f)) z acc) with
      (if z <? 10 then String (digit (z mod 10)) acc else dec_go (S f) (z / 10) (String (digit (z mod 10)) acc)).
    destruct (Z.ltb_spec z 10) as [Hs|Hs].
    + rewrite Z.mod_small by lia. rewrite parse_digit by lia. f_equal.
    + rewrite IH by lia. rewrite parse_digit by lia. f_equal. lia.
Qed.
Lemma dec_go_head f z acc : 0 <= z -> exists d s, dec_go (S f) z acc = String (digit d) s /\ 0 <= d < 10.
Proof.
  revert z acc. induction f as [|f IH]; intros z acc Hz; pose proof (Z.mod_pos_bound z 10 ltac:(lia)).
  - cbn. destruct (z <? 10); eexists _, _; split; done || lia.
  - cbn [dec_go]. destruct (z <? 10); [eexists _, _; split; done || lia|].
    apply (IH (z / 10) (String (digit (z mod 10)) acc)). apply Z.div_pos; lia.
Qed.

Lemma Itoa_go z : 0 <= z -> Itoa z = dec_go (S (Z.to_nat (Z.log2 z))) z "" /\ z < 2 ^ Z.of_nat (S (Z.to_nat (Z.log2 z))).
Proof.
  intros Hz. split; [unfold Itoa; by destruct (Z.ltb_spec z 0); [lia|]|].
  rewrite Nat2Z.inj_succ, Z2Nat.id by apply Z.log2_nonneg. destruct (Z.eq_dec z 0) as [->|]; [done|].
  apply Z.log2_spec. lia.
Qed.
Lemma Itoa_head z : 0 <= z -> exists d s, Itoa z = String (digit d) s /\ 0 <= d < 10.
Proof. intros Hz. destruct (Itoa_go z Hz) as [-> _]. by apply dec_go_head. Qed.

(** [strconv.ParseUint] reads back what [strconv.Itoa] wrote. *)
Lemma parse_Itoa mx z : 0 <= z <= mx -> parse_uint mx 0 (Itoa z) = (z, true).
Proof. intros Hz. destruct (Itoa_go z) as [-> Hlt]; [lia|]. by rewrite parse_dec_go. Qed.
Lemma ParseUint_Itoa bits z : 0 <= z < 2 ^ bits -> ParseUint bits (Itoa z) = (z, true).
Proof.
  intros Hz. unfold ParseUint. destruct (Itoa_head z) as (d & s & E & _); [lia|]. rewrite E, <- E.
  apply parse_Itoa. lia.
Qed.
(** [strconv.Atoi] reads back every non-negative [int]. *)
Lemma Atoi_Itoa z : 0 <= z < 2 ^ 63 -> Atoi (Itoa z) = (z, true).
Proof.
  intros Hz. pose proof (ParseUint_Itoa 64 z ltac:(lia)) as HP. revert HP.
  destruct (Itoa_head z) as (d & s & E & Hd); [lia|]. rewrite E. intros HP. unfold Atoi.
  assert (digit d <> "-"%char /\ digit d <> "+"%char) as [Hm Hp].
  { split; intros Ed; apply (f_equal code) in Ed; rewrite code_digit in Ed by done;
      [change (code "-"%char) with 45 in Ed|change (code "+"%char) with 43 in Ed]; lia. }
  rewrite !decide_False by done. rewrite HP.
  assert (2 ^ 63 <=? z = false) as -> by (apply Z.leb_gt; lia). by destruct z.
Qed.

(** Only digits are written. *)
Lemma digits_Itoa z : 0 <= z -> sall (fun c => is_digit_byte (code c)) (Itoa z) = true.
Proof.
  intros Hz. destruct (Itoa_go z Hz) as [-> _]. revert Hz. generalize (S (Z.to_nat (Z.log2 z))) as f.
  enough (forall f z acc, 0 <= z -> sall (fun c => is_digit_byte (code c)) acc = true ->
          sall (fun c => is_digit_byte (code c)) (dec_go f z acc) = true) as H by (intros f Hz; by apply H).
  clear. induction f as [|f IH]; intros z acc Hz Ha; [done|]. cbn [dec_go].
  pose proof (Z.mod_pos_bound z 10 ltac:(lia)).
  assert (sall (fun c => is_digit_byte (code c)) (String (digit (z mod 10)) acc) = true) as Hs
    by (cbn [sall]; by rewrite Ha, digit_is_digit).
  destruct (z <? 10); [done|]. apply IH; [|done]. apply Z.div_pos; lia.
Qed.
Lemma token_Itoa z : 0 <= z -> sall token_char (Itoa z) = true.
Proof.
  intros Hz. eapply sall_weaken; [|by apply digits_Itoa]. intros c. unfold is_digit_byte, token_char.
  intros [H1%Z.leb_le H2%Z.leb_le]%andb_prop. apply andb_true_intro. split; apply Z.ltb_lt; lia.
Qed.
Lemma Itoa_isnt c z : 0 <= z -> is_digit_byte (code c) = false -> sall (isnt c) (Itoa z) = true.
Proof.
  intros Hz Hc. eapply sall_weaken; [|by apply digits_Itoa]. intros a Ha. apply isnt_true. intros ->. congruence.
Qed.
Lemma Itoa_token z : 0 <= z -> token (Itoa z) = true.
Proof. intros Hz. pose proof (token_Itoa z Hz). destruct (Itoa_head z Hz) as (d & s & E & _). unfold token. by rewrite E in *. Qed.

(** * Words of printable characters *)

Lemma runes_ascii s : sall (fun c => code c <? 128) s = true -> runes s = map (fun z => (z, [z])) (s2b s).
Proof.
  induction s as [|c s IH]; [done|]. cbn [sall]. intros [Hc%Z.ltb_lt Hs]%andb_prop.
  rewrite runes_cons by done. cbn [s2b map]. by rewrite IH.
Qed.
Lemma drop_while_head {A} (f : A -> bool) x l : f x = false -> drop_while f (x :: l) = x :: l.
Proof. intros H. cbn. by rewrite H. Qed.

(** A text that starts and ends with a visible character has no white space to
    trim. *)
Lemma TrimSpace_visible s x l1 y l2 : sall (fun c => code c <? 128) s = true ->
  runes s = x :: l1 -> rev (runes s) = y :: l2 -> is_space x.1 = false -> is_space y.1 = false -> TrimSpace s = s.
Proof.
  intros Hs H1 H2 Hx Hy. unfold TrimSpace. rewrite H1, drop_while_head, <- H1, H2, drop_while_head, <- H2 by done.
  rewrite rev_involutive, runes_ascii by done.
  assert (forall l, concat (map snd (map (fun z : Z => (z, [z])) l)) = l) as C by (induction l; cbn; congruence).
  rewrite C. apply b2s_s2b.
Qed.
Lemma TrimSpace_ends a m z : sall (fun c => code c <? 128) (String a (m +:+ String z "")) = true ->
  is_space (code a) = false -> is_space (code z) = false ->
  TrimSpace (String a (m +:+ String z "")) = String a (m +:+ String z "").
Proof.
  intros Hs Ha Hz. eapply (TrimSpace_visible _ _ _ (code z, [code z])); [done|by rewrite runes_ascii| |exact Ha|exact Hz].
  rewrite runes_ascii by done. cbn [s2b]. rewrite s2b_app, app_comm_cons, map_app, rev_app_distr. reflexivity.
Qed.

Lemma token_ascii t : sall token_char t = true -> sall (fun c => code c <? 128) t = true.
Proof. apply sall_weaken. intros c [Hc _]%token_char_spec. by apply Z.ltb_lt. Qed.
Lemma words_ascii ws : Forall (fun t => token t = true) ws -> sall (fun c => code c <? 128) (Join ws " ") = true.
Proof.
  induction 1 as [|w ws Hw _ IH]; [done|].
  assert (sall (fun c => code c <? 128) w = true) as Ha by (apply token_ascii; by destruct w).
  destruct ws as [|v ws]; [done|]. by rewrite Join_cons2, !sall_app, IH, Ha.
Qed.
(** The last character of a word. *)
Lemma string_last t : t <> "" -> exists m z, t = m +:+ String z "".
Proof.
  induction t as [|c t IH]; [done|]. intros _. destruct t as [|d t]; [by exists "", c|].
  destruct IH as (m & z & ->); [done|]. by exists (String c m), z.
Qed.
Lemma token_last t : token t = true -> exists m z, t = m +:+ String z "" /\ is_space (code z) = false.
Proof.
  intros Ht. destruct (string_last t) as (m & z & ->); [by intros ->|]. exists m, z. split; [done|].
  assert (sall token_char (m +:+ String z "") = true) as Hs by (by destruct (m +:+ String z "")).
  rewrite sall_app in Hs. apply andb_prop in Hs as [_ Hs]. cbn [sall] in Hs. rewrite andb_true_r in Hs.
  by apply token_char_spec in Hs as [_ ?].
Qed.
Lemma words_last ws : ws <> [] -> Forall (fun t => token t = true) ws ->
  exists m z, Join ws " " = m +:+ String z "" /\ is_space (code z) = false.
Proof.
  intros Hne Hall. induction Hall as [|w ws Hw Hws IH]; [done|]. destruct ws as [|v ws]; [by apply token_last|].
  destruct IH as (m & z & E & Hz); [done|]. rewrite Join_cons2, E, <- !sapp_assoc. by eexists _, z.
Qed.
(** Words separated by single blanks are trimmed. *)
Lemma TrimSpace_words ws : Forall (fun t => token t = true) ws -> TrimSpace (Join ws " ") = Join ws " ".
Proof.
  intros Hall. destruct ws as [|w ws]; [done|]. pose proof (words_ascii _ Hall) as Ha.
  destruct (words_last (w :: ws)) as (m & z & E & Hz); [done..|]. apply Forall_cons_1 in Hall as [Hw Hall].
  destruct w as [|a w]; [done|]. assert (is_space (code a) = false) as Hsp.
  { unfold token in Hw. cbn [sall] in Hw. apply andb_prop in Hw as [Hw _]. by apply token_char_spec in Hw as [_ ?]. }
  assert (exists r, Join (String a w :: ws) " " = String a r) as [r Hr]
    by (destruct ws; eexists; [done|rewrite Join_cons2, scons_app; reflexivity]).
  rewrite Hr in E, Ha |- *. destruct m as [|a' m].
  - injection E as -> ->. unfold TrimSpace. rewrite runes_ascii by done. cbn. rewrite Hsp. cbn. rewrite Hsp. cbn. by rewrite chr_code.
  - injection E as <- ->. by apply TrimSpace_ends.
Qed.

(** [strings.ReplaceAll] of a separator that [Join] wrote. *)
Lemma ReplaceAll_Join c sep l new : l <> [] -> Forall (fun x => sall (isnt c) x = true) l ->
  ReplaceAll (Join l (String c sep)) (String c sep) new = Join l new.
Proof. intros Hne Hall. unfold ReplaceAll. by rewrite Split_Join. Qed.

(** * Replacing one character *)

Fixpoint subst_char (c : ascii) (new s : string) : string :=
  match s with
  | "" => ""
  | String a s' => if decide (a = c) then new +:+ subst_char c new s' else String a (subst_char c new s')
  end.
Lemma subst_char_app c new s t : subst_char c new (s +:+ t) = subst_char c new s +:+ subst_char c new t.
Proof.
  induction s as [|a s IH]; [done|]. rewrite !scons_app. cbn [subst_char].
  destruct (decide (a = c)); rewrite IH; [by rewrite sapp_assoc|done].
Qed.
Lemma subst_char_absent c new s : sall (isnt c) s = true -> subst_char c new s = s.
Proof.
  induction s as [|a s IH]; [done|]. cbn [sall subst_char]. intros [Ha%isnt_true Hs]%andb_prop.
  by rewrite decide_False, IH.
Qed.
(** The first occurrence of a character. *)
Lemma char_split c s : sall (isnt c) s = true \/
  exists a t, s = a +:+ String c t /\ sall (isnt c) a = true /\ (String.length t < String.length s)%nat.
Proof.
  induction s as [|x s IH]; [by left|]. destruct (decide (x = c)) as [->|Hx].
  { right. exists "", s. split; [done|]. split; [done|]. cbn. lia. }
  destruct IH as [IH|(a & t & -> & Ha & Hl)].
  - left. cbn [sall]. rewrite IH, andb_true_r. by apply isnt_true.
  - right. exists (String x a), t. split; [done|]. split; [|cbn [String.length]; lia].
    cbn [sall]. rewrite Ha, andb_true_r. by apply isnt_true.
Qed.
Lemma Split_go_cons f s sep : exists x l, Split_go f s sep = x :: l.
Proof. destruct f; cbn; [eauto|]. destruct (Cut s sep) as [[]|]; eauto. Qed.
Lemma ReplaceAll_char c s new : ReplaceAll s (String c "") new = subst_char c new s.
Proof.
  unfold ReplaceAll, Split. assert (forall f s, (String.length s <= f)%nat ->
    Join (Split_go f s (String c "")) new = subst_char c new s) as H; [|by apply H].
  clear s. intros f. induction f as [|f IH]; intros s Hf.
  - destruct s; [done|]. cbn in Hf. lia.
  - cbn [Split_go]. destruct (char_split c s) as [Hs|(a & t & -> & Ha & Hl)].
    + rewrite Cut_absent by done. cbn [Join]. by rewrite subst_char_absent.
    + pose proof (Cut_found c "" a t Ha) as Hc. rewrite scons_app, snil_app in Hc. rewrite Hc.
      destruct (Split_go_cons f t (String c "")) as (x & l & E). rewrite E, Join_cons2, <- E, IH by lia.
      rewrite subst_char_app, (subst_char_absent c new a) by done. cbn [subst_char]. by rewrite decide_True.
Qed.

(** ** Trimming twice *)

Lemma decode_rune_pos b : b <> [] -> (1 <= (decode_rune b).2 <= length b)%nat.
Proof.
  intros Hb. unfold decode_rune.
  repeat (case_match; cbn [snd length]; try lia); done.
Qed.
(** What follows a rune does not matter. *)
Lemma decode_rune_prefix b t : b <> [] -> ((decode_rune (b ++ t)).2 <= length b)%nat -> decode_rune b = decode_rune (b ++ t).
Proof.
  destruct b as [|b0 [|b1 [|b2 [|b3 b]]]]; intros Hb; [done|..]; cbn [app].
  all: destruct t as [|t0 [|t1 [|t2 t]]]; cbn [decode_rune length]; try done; repeat (case_match; cbn [snd]; try done; try lia).
Qed.
Lemma runes_go_concat f b : (length b <= f)%nat -> concat (map snd (runes_go f b)) = b.
Proof.
  revert b. induction f as [|f IH]; intros [|x b] Hf; cbn [length] in Hf; try done; [lia|]. cbn [runes_go].
  pose proof (decode_rune_pos (x :: b) ltac:(done)) as Hp. destruct (decode_rune (x :: b)) as [r n]. cbn [snd] in Hp.
  cbn [map snd concat]. rewrite IH; [apply take_drop|]. rewrite length_drop. cbn [length] in *. lia.
Qed.
Lemma runes_go_split f b l1 l2 : (length b <= f)%nat -> runes_go f b = l1 ++ l2 ->
  forall g, (length (concat (map snd l1)) <= g)%nat -> runes_go g (concat (map snd l1)) = l1.
Proof.
  revert b l1. induction f as [|f IH]; intros [|x b] l1 Hf; cbn [length] in Hf; try lia.
  - intros H g _. symmetry in H. apply app_nil in H as [-> _]. by destruct g.
  - intros H g _. symmetry in H. apply app_nil in H as [-> _]. by destruct g.
  - cbn [runes_go]. pose proof (decode_rune_pos (x :: b) ltac:(done)) as Hp.
    destruct (decode_rune (x :: b)) as [r n] eqn:E. cbn [snd] in Hp. destruct l1 as [|[r1 b1] l1]; [intros _ g _; by destruct g|].
    cbn [app]. intros H g Hg. injection H as <- <- H. cbn [map snd concat] in *.
    rewrite length_app, length_take in Hg. destruct g as [|g]; [cbn [length] in *; lia|].
    assert (take n (x :: b) <> []) as Hne by (destruct n; [lia|done]).
    assert (take n (x :: b) ++ concat (map snd l1) ++ concat (map snd l2) = x :: b) as Hsplit.
    { rewrite <- concat_app, <- map_app, <- H. rewrite runes_go_concat; [apply take_drop|].
      rewrite length_drop. cbn [length]. lia. }
    assert (decode_rune (take n (x :: b) ++ concat (map snd l1)) = (r, n)) as Hd.
    { rewrite <- Hsplit, app_assoc in E. rewrite <- E. apply decode_rune_prefix.
      - destruct n; [lia|done].
      - rewrite E, length_app, length_take. cbn [snd length] in *. lia. }
    destruct (take n (x :: b) ++ concat (map snd l1)) as [|y rest] eqn:Ey; [by destruct n|].
    cbn [runes_go]. rewrite Hd, <- Ey. f_equal.
    + f_equal. rewrite take_app_le by (rewrite length_take; cbn [length] in *; lia). by rewrite take_take, Nat.min_id.
    + rewrite drop_app_length' by (rewrite length_take; cbn [length] in *; lia).
      apply (IH (drop n (x :: b))); [rewrite length_drop; cbn [length] in *; lia|done|].
      cbn [length] in *. lia.
Qed.

Lemma drop_while_split {A} (f : A -> bool) l : exists p, l = p ++ drop_while f l.
Proof. induction l as [|x l [p IH]]; [by exists []|]. cbn. destruct (f x); [|by exists []]. exists (x :: p). cbn. by rewrite <- IH. Qed.
Lemma drop_while_stays {A} (f : A -> bool) l : match drop_while f l with [] => True | x :: _ => f x = false end.
Proof. induction l as [|x l IH]; [done|]. cbn. destruct (f x) eqn:E; done. Qed.
Lemma drop_while_id {A} (f : A -> bool) l : match l with [] => True | x :: _ => f x = false end -> drop_while f l = l.
Proof. destruct l; [done|]. apply drop_while_head. Qed.

Definition trim_runes (l : list (Z * bytes)) : list (Z * bytes) :=
  let space := fun r : Z * bytes => is_space r.1 in rev (drop_while space (rev (drop_while space l))).
Lemma trim_runes_split l : exists p q, l = p ++ trim_runes l ++ q.
Proof.
  unfold trim_runes. set (f := fun r : Z * bytes => is_space r.1). destruct (drop_while_split f l) as [p Hp].
  destruct (drop_while_split f (rev (drop_while f l))) as [q Hq]. exists p, (rev q).
  rewrite <- rev_app_distr, <- Hq, rev_involutive. done.
Qed.
Lemma trim_runes_idemp l : trim_runes (trim_runes l) = trim_runes l.
Proof.
  unfold trim_runes. set (f := fun r : Z * bytes => is_space r.1). set (d := drop_while f l).
  assert (match d with [] => True | x :: _ => f x = false end) as Hd by apply drop_while_stays.
  assert (match drop_while f (rev d) with [] => True | x :: _ => f x = false end) as He by apply drop_while_stays.
  rewrite (drop_while_id f (rev (drop_while f (rev d)))); [by rewrite rev_involutive, (drop_while_id f _ He)|].
  destruct d as [|x d]; [done|]. destruct (drop_while_split f (rev (x :: d))) as [q Hq].
  assert (x :: d = rev (drop_while f (rev (x :: d))) ++ rev q) as Hs by (by rewrite <- rev_app_distr, <- Hq, rev_involutive).
  destruct (rev (drop_while f (rev (x :: d)))) as [|y t]; [done|]. cbn in Hs. by injection Hs as <- _.
Qed.
Lemma runes_go_suffix f b p l : (length b <= f)%nat -> runes_go f b = p ++ l ->
  exists g, (length (concat (map snd l)) <= g)%nat /\ runes_go g (concat (map snd l)) = l.
Proof.
  revert f b. induction p as [|r p IH]; intros f b Hf H.
  - exists f. cbn [app] in H. rewrite <- H, runes_go_concat by done. done.
  - destruct f as [|f], b as [|x b]; try done. cbn [runes_go] in H.
    pose proof (decode_rune_pos (x :: b) ltac:(done)) as Hp. destruct (decode_rune (x :: b)) as [z n]. cbn [snd] in Hp.
    injection H as _ H. apply (IH f (drop n (x :: b))); [|done]. rewrite length_drop. cbn [length] in *. lia.
Qed.
(** The runes of a piece of a string, cut at runes. *)
Lemma runes_piece s p l q : runes s = p ++ l ++ q -> runes (b2s (concat (map snd l))) = l.
Proof.
  intros H. pose proof (runes_go_concat (String.length s) (s2b s) ltac:(by rewrite length_s2b)) as Hc.
  unfold runes in H. rewrite H, !map_app, !concat_app in Hc.
  pose proof (s2b_ok s) as Hok. rewrite <- Hc in Hok. apply Forall_app in Hok as [_ [Hok _]%Forall_app].
  apply runes_go_suffix in H as (g & Hg & H); [|by rewrite length_s2b].
  unfold runes. rewrite <- length_s2b, s2b_b2s by done. by apply (runes_go_split _ _ _ _ Hg H).
Qed.
Lemma runes_trim s : runes (TrimSpace s) = trim_runes (runes s).
Proof. destruct (trim_runes_split (runes s)) as (p & q & H). by apply (runes_piece s p _ q). Qed.
Lemma TrimSpace_idemp s : TrimSpace (TrimSpace s) = TrimSpace s.
Proof.
  change (TrimSpace (TrimSpace s)) with (b2s (concat (map snd (trim_runes (runes (TrimSpace s)))))).
  by rewrite runes_trim, trim_runes_idemp.
Qed.
