(* ===== verification/Rtp.v ===== *)
(** RTP packets: [internal/rtp/rtp.go]. *)
From S2P Require Import Prelude GoBytes.

Module Rtp.

Record Packet := mkPacket {
  PayloadType : Z;  (** uint8 *)
  Marker : bool;
  Sequence : Z;     (** uint16 *)
  Timestamp : Z;    (** uint32 *)
  SSRC : Z;         (** uint32 *)
  Payload : bytes;
}.

(** The extension header: the offset behind it. *)
Definition skip_extension (b : bytes) (off : Z) : result Z :=
  _ ← fail_if (len b <? off + 4) "invalid extension";
  extWords ← be_get 2 b (off + 2);
  let off' := off + (4 + extWords * 4) in
  _ ← fail_if (len b <? off') "truncated extension";
  Ok off'.

(** The end of the payload once the padding is removed. *)
Definition trim_padding (b : bytes) (off : Z) : result Z :=
  let end_ := len b in
  pad ← index b (len b - 1);
  _ ← fail_if ((pad =? 0) || (end_ - off <? pad)) "invalid padding";
  Ok (end_ - pad).

Definition Parse (b : bytes) : result Packet :=
  _ ← fail_if (len b <? 12) "RTP packet too short";
  b0 ← index b 0;
  _ ← fail_if (negb (Z.shiftr b0 6 =? 2)) "unsupported RTP version";
  let cc := Z.land b0 0x0F in
  let x := negb (Z.land b0 0x10 =? 0) in
  let p := negb (Z.land b0 0x20 =? 0) in
  let off := 12 + cc * 4 in
  _ ← fail_if (len b <? off) "invalid CSRC list";
  off ← (if x then skip_extension b off else Ok off);
  end_ ← (if p then trim_padding b off else Ok (len b));
  payload ← sub b off end_;
  b1 ← index b 1;
  seq ← be_get 2 b 2;
  ts ← be_get 4 b 4;
  ssrc ← be_get 4 b 8;
  Ok (mkPacket (Z.land b1 0x7F) (negb (Z.land b1 0x80 =? 0)) seq ts ssrc payload).

Definition Marshal (p : Packet) : bytes :=
  let b1 := Z.land (PayloadType p) 0x7F in
  let b1 := if Marker p then Z.lor b1 0x80 else b1 in
  [0x80; b1] ++ be_put 2 (Sequence p) ++ be_put 4 (Timestamp p) ++ be_put 4 (SSRC p) ++ Payload p.

Definition SenderReport (ssrc rtpTS packetCount octetCount ntpSec ntpFrac : Z) : bytes :=
  [0x80; 200] ++ be_put 2 6 ++ be_put 4 ssrc ++ be_put 4 ntpSec ++ be_put 4 ntpFrac ++
  be_put 4 rtpTS ++ be_put 4 packetCount ++ be_put 4 octetCount.

(** The values the Go struct can hold; the payload type is the 7-bit field of
    the wire format. *)
Definition wf (p : Packet) : Prop :=
  fits 7 (PayloadType p) /\ fits 16 (Sequence p) /\ fits 32 (Timestamp p) /\
  fits 32 (SSRC p) /\ bytes_ok (Payload p).

(** ** Lemmas *)

Lemma len_Marshal p : len (Marshal p) = 12 + len (Payload p).
Proof. unfold Marshal. lensolve. Qed.

(** The second header byte packs the marker bit over the payload type. *)
Lemma marker_byte pt (m : bool) :
  fits 7 pt ->
  let b1 := if m then Z.lor (Z.land pt 0x7F) 0x80 else Z.land pt 0x7F in
  Z.land b1 0x7F = pt /\ negb (Z.land b1 0x80 =? 0) = m.
Proof.
  intros H. cbn zeta.
  finite_check 128%nat (fun pt => forallb (fun m : bool =>
    let b1 := if m then Z.lor (Z.land pt 0x7F) 0x80 else Z.land pt 0x7F in
    (Z.land b1 0x7F =? pt) && eqb (negb (Z.land b1 0x80 =? 0)) m) [true; false]) pt as Hb.
  rewrite forallb_forall in Hb. specialize (Hb m ltac:(destruct m; simpl; auto)).
  apply andb_prop in Hb as [H1%Z.eqb_eq H2%eqb_prop]. by split.
Qed.

Lemma split_marker_byte b1 :
  fits 8 b1 ->
  (if negb (Z.land b1 0x80 =? 0) then Z.lor (Z.land (Z.land b1 0x7F) 0x7F) 0x80
   else Z.land (Z.land b1 0x7F) 0x7F) = b1 /\ fits 7 (Z.land b1 0x7F).
Proof.
  intros H.
  finite_check 256%nat (fun b1 =>
    ((if negb (Z.land b1 0x80 =? 0) then Z.lor (Z.land (Z.land b1 0x7F) 0x7F) 0x80
      else Z.land (Z.land b1 0x7F) 0x7F) =? b1) && bool_decide (fits 7 (Z.land b1 0x7F))) b1 as Hb.
  apply andb_prop in Hb as [H1%Z.eqb_eq H2%bool_decide_eq_true]. by split.
Qed.

Lemma skip_extension_ok b off off' :
  bytes_ok b -> 0 <= off -> skip_extension b off = Ok off' -> off + 4 <= off' <= len b.
Proof.
  unfold skip_extension. intros Hb Ho (u & H1%fail_if_ok%Z.ltb_ge & (w & Hw & (v & H2 & H3)%bind_ok)%bind_ok)%bind_ok.
  apply be_get_bounds in Hw; [|done|lia].
  apply fail_if_ok, Z.ltb_ge in H2. injection H3 as <-. lia.
Qed.

Lemma skip_extension_safe b off : 0 <= off -> safe (skip_extension b off).
Proof.
  intros Ho. unfold skip_extension.
  apply bind_safe; [auto with safe|]. intros u Hu%fail_if_ok%Z.ltb_ge.
  apply bind_safe; [apply be_get_safe; lia|]. intros w _.
  apply bind_safe; auto with safe.
Qed.

Lemma trim_padding_ok b off e :
  bytes_ok b -> 0 <= off -> trim_padding b off = Ok e -> off <= e < len b.
Proof.
  unfold trim_padding. intros Hb Ho (pad & Hp & (v & H2 & H3)%bind_ok)%bind_ok.
  apply fail_if_ok, orb_false_iff in H2 as [H1%Z.eqb_neq H2%Z.ltb_ge]. injection H3 as <-.
  unfold index in Hp. case_decide; [|done]. destruct (b !! _) eqn:E; [|done].
  injection Hp as ->. rewrite Forall_lookup in Hb. specialize (Hb _ _ E). width.
Qed.

Lemma trim_padding_safe b off : 0 < len b -> safe (trim_padding b off).
Proof.
  intros Hl. unfold trim_padding.
  apply bind_safe; [apply index_safe; lia|]. intros pad _.
  apply bind_safe; auto with safe.
Qed.

Lemma version2_offset b0 : fits 8 b0 -> 12 <= 12 + Z.land b0 0x0F * 4 <= 72.
Proof.
  intros H.
  finite_check 256%nat (fun b0 => (0 <=? Z.land b0 0x0F) && (Z.land b0 0x0F <=? 15)) b0 as Hb.
  lia.
Qed.

Lemma index_bytes_ok b i x : bytes_ok b -> index b i = Ok x -> fits 8 x.
Proof.
  unfold index. intros Hb H. case_decide; [|done]. destruct (b !! _) eqn:E; [|done].
  injection H as <-. rewrite Forall_lookup in Hb. eauto.
Qed.

(** The payload bounds [Parse] computes: inside the datagram, behind the
    fixed header. *)
Lemma payload_bounds b b0 off off' e :
  bytes_ok b -> fits 8 b0 -> off = 12 + Z.land b0 0x0F * 4 -> off <= len b ->
  (if negb (Z.land b0 0x10 =? 0) then skip_extension b off else Ok off) = Ok off' ->
  (if negb (Z.land b0 0x20 =? 0) then trim_padding b off' else Ok (len b)) = Ok e ->
  12 <= off' <= e /\ e <= len b.
Proof.
  intros Hb H0 -> Hl Hx Hp. pose proof (version2_offset b0 H0) as Hv.
  assert (12 <= off' <= len b) as Ho.
  { destruct (negb (Z.land b0 0x10 =? 0)); [apply skip_extension_ok in Hx; [|done|]; lia|].
    injection Hx as <-. lia. }
  destruct (negb (Z.land b0 0x20 =? 0)).
  - apply trim_padding_ok in Hp; [|done|]; lia.
  - injection Hp as <-. lia.
Qed.

(** The fixed header of an encoded packet, field by field. *)
Lemma Marshal_fields p :
  wf p ->
  be_get 2 (Marshal p) 2 = Ok (Sequence p) /\ be_get 4 (Marshal p) 4 = Ok (Timestamp p) /\
  be_get 4 (Marshal p) 8 = Ok (SSRC p) /\
  sub (Marshal p) 12 (len (Marshal p)) = Ok (Payload p).
Proof.
  intros (_ & Hs & Ht & Hss & _). pose proof (len_Marshal p) as Hl. repeat split.
  - unfold Marshal. rewrite (be_get_app 2 [0x80; _]) by done. f_equal. width.
  - unfold Marshal. rewrite app_assoc, (be_get_app 4) by lensolve. f_equal. width.
  - unfold Marshal. rewrite app_assoc, app_assoc, (be_get_app 4) by lensolve. f_equal. width.
  - rewrite sub_ok by lia. unfold Marshal. rewrite !app_assoc, slice_app_r by lensolve.
    rewrite slice_full by lensolve. done.
Qed.

(** [Parse b] reaches its end exactly when the header chain is consistent. *)
Lemma Parse_inv b p :
  bytes_ok b -> Parse b = Ok p ->
  exists off e, 12 <= off <= e /\ e <= len b /\ Payload p = slice b off e /\ wf p.
Proof.
  intros Hb. unfold Parse.
  intros (u & _ & (b0 & H0 & (u' & _ & (u2 & Hl%fail_if_ok%Z.ltb_ge & (off & Hx & (e & Hp & Hrest)%bind_ok)%bind_ok)%bind_ok)%bind_ok)%bind_ok)%bind_ok.
  apply index_bytes_ok in H0; [|done].
  pose proof (payload_bounds b b0 _ off e Hb H0 eq_refl Hl Hx Hp) as [Ho He].
  exists off, e. repeat (split; [done || lia|]).
  rewrite sub_ok in Hrest by lia. cbn in Hrest.
  apply bind_ok in Hrest as (b1 & H1 & (sq & Hsq & (ts & Hts & (ss & Hss & [= <-])%bind_ok)%bind_ok)%bind_ok).
  apply index_bytes_ok in H1; [|done].
  apply be_get_bounds in Hsq, Hts, Hss; try done; try lia.
  cbn. split; [done|]. unfold wf; cbn. split; [apply split_marker_byte, H1|].
  repeat split; try width. by apply forall_slice.
Qed.

(** ** Properties *)

(** A packet that fits its wire fields survives the wire: [Parse] returns
    exactly the packet [Marshal] was given. *)
Theorem Parse_Marshal (p : Packet) : wf p -> Parse (Marshal p) = Ok p.
Proof.
  intros Hwf. pose proof Hwf as (Hpt & _).
  destruct (marker_byte _ (Marker p) Hpt) as [E1 E2].
  destruct (Marshal_fields p Hwf) as (F1 & F2 & F3 & F4).
  pose proof (len_Marshal p) as Hl. unfold Parse. pass.
  change (index (Marshal p) 0) with (Ok 0x80). cbn [mbind result_bind].
  change (12 + Z.land 0x80 0x0F * 4) with 12. do 2 pass.
  change (Z.land 0x80 0x10) with 0. change (Z.land 0x80 0x20) with 0. cbn [Z.eqb negb mbind result_bind].
  rewrite F4, F1, F2, F3.
  change (index (Marshal p) 1)
    with (Ok (if Marker p then Z.lor (Z.land (PayloadType p) 0x7F) 0x80 else Z.land (PayloadType p) 0x7F)).
  cbn [mbind result_bind]. rewrite E1, E2. by destruct p.
Qed.

Definition sample : Packet := mkPacket 101 true 65535 4294967280 7 [10; 128; 3; 32].

Lemma Parse_Marshal_witness : wf sample /\ Parse (Marshal sample) = Ok sample.
Proof.
  split; [|apply (Parse_Marshal sample)]; unfold wf, sample; cbn;
    repeat split; try lia; repeat constructor; vm_compute; congruence.
Defined.

(** [Parse] is memory safe on every datagram: whatever the CSRC count,
    the extension length and the padding byte say, no index leaves the
    datagram. *)
Theorem Parse_safe (b : bytes) : bytes_ok b -> safe (Parse b).
Proof.
  intros Hb. unfold Parse.
  apply bind_safe; [auto with safe|]. intros u Hl%fail_if_ok%Z.ltb_ge.
  apply bind_safe; [apply index_safe; lia|]. intros b0 H0%index_bytes_ok; [|done].
  apply bind_safe; [auto with safe|]. intros _ _. cbv zeta.
  apply bind_safe; [auto with safe|]. intros _ Ho%fail_if_ok%Z.ltb_ge.
  pose proof (version2_offset b0 H0) as Hv.
  apply bind_safe; [destruct (negb _); [apply skip_extension_safe; lia|done]|]. intros off Hx.
  apply bind_safe; [destruct (negb (Z.land b0 0x20 =? 0)); [apply trim_padding_safe; lia|done]|]. intros e Hp.
  pose proof (payload_bounds b b0 _ off e Hb H0 eq_refl Ho Hx Hp) as [??].
  apply bind_safe; [apply sub_safe; lia|]. intros ? _.
  apply bind_safe; [apply index_safe; lia|]. intros ? _.
  do 3 (apply bind_safe; [apply be_get_safe; lia|]; intros ? _). done.
Qed.

Lemma Parse_safe_witness : bytes_ok [0xB0; 8; 0; 1] /\ safe (Parse [0xB0; 8; 0; 1]).
Proof. split; [|apply Parse_safe]; repeat constructor; vm_compute; congruence. Defined.

(** What [Parse] accepts is a packet the struct can hold, and its payload
    is a contiguous part of the datagram behind the twelve fixed bytes: never
    more bytes than were received. *)
Theorem Parse_sound (b : bytes) (p : Packet) :
  bytes_ok b -> Parse b = Ok p ->
  wf p /\ exists pre post, b = pre ++ Payload p ++ post /\ 12 <= len pre.
Proof.
  intros Hb Hp. destruct (Parse_inv b p Hb Hp) as (off & e & Ho & He & Hpl & Hwf).
  split; [done|]. exists (take (Z.to_nat off) b), (drop (Z.to_nat e) b).
  rewrite Hpl. unfold slice. split; [|lensolve].
  replace (Z.to_nat e) with (Z.to_nat (e - off) + Z.to_nat off)%nat by lia.
  by rewrite Nat.add_comm, <- drop_drop, !take_drop.
Qed.

Lemma Parse_sound_witness :
  exists p, Parse (Marshal sample) = Ok p /\ wf p /\
    exists pre post, Marshal sample = pre ++ Payload p ++ post /\ 12 <= len pre.
Proof.
  exists sample. split; [by vm_compute|]. apply (Parse_sound (Marshal sample)); [|by vm_compute].
  repeat constructor; vm_compute; congruence.
Defined.

(** A sender report is one 28-byte RTCP packet whose length field counts its
    32-bit words less one. *)
Lemma SenderReport_shape ssrc ts pc oc sec frac :
  len (SenderReport ssrc ts pc oc sec frac) = 28 /\
  be_get 2 (SenderReport ssrc ts pc oc sec frac) 2 = Ok (28 / 4 - 1).
Proof. split; [unfold SenderReport; lensolve|reflexivity]. Qed.

End Rtp.
