(* ===== verification/Adpcm.v ===== *)
(** IMA ADPCM blocks of the Baichuan talkback: [internal/codec/adpcm.go]. *)
From S2P Require Import Prelude GoBytes.

Module Adpcm.

Definition imaIndexTable : list Z :=
  [-1; -1; -1; -1; 2; 4; 6; 8; -1; -1; -1; -1; 2; 4; 6; 8].

Definition imaStepTable : list Z := [
  7; 8; 9; 10; 11; 12; 13; 14; 16; 17;
  19; 21; 23; 25; 28; 31; 34; 37; 41; 45;
  50; 55; 60; 66; 73; 80; 88; 97; 107; 118;
  130; 143; 157; 173; 190; 209; 230; 253; 279; 307;
  337; 371; 408; 449; 494; 544; 598; 658; 724; 796;
  876; 963; 1060; 1166; 1282; 1411; 1552; 1707; 1878; 2066;
  2272; 2499; 2749; 3024; 3327; 3660; 4026; 4428; 4871; 5358;
  5894; 6484; 7132; 7845; 8630; 9493; 10442; 11487; 12635; 13899;
  15289; 16818; 18500; 20350; 22385; 24623; 27086; 29794; 32767].

Definition step_at (i : Z) : Z := nth (Z.to_nat i) imaStepTable 0.
Definition index_delta (nibble : Z) : Z := nth (Z.to_nat nibble) imaIndexTable 0.

(** [ADPCMDecoder] and [ADPCMEncoder] have the same two fields. *)
Record ADPCM := mkADPCM { predicted : Z; index : Z }.

(** The zero value both structs start from. *)
Definition zero : ADPCM := mkADPCM 0 0.

Definition sat16 (z : Z) : Z :=
  let z := if 32767 <? z then 32767 else z in
  if z <? - 32768 then - 32768 else z.
Definition sat_index (z : Z) : Z :=
  let z := if z <? 0 then 0 else z in
  if 88 <? z then 88 else z.

Definition bit (n k : Z) : bool := negb (Z.land n k =? 0).

(** The body of the inner loop of [Decode]. *)
Definition decode_nibble (d : ADPCM) (nibble : Z) : ADPCM :=
  let step := step_at (index d) in
  let diff := Z.shiftr step 3 in
  let diff := if bit nibble 1 then diff + Z.shiftr step 2 else diff in
  let diff := if bit nibble 2 then diff + Z.shiftr step 1 else diff in
  let diff := if bit nibble 4 then diff + step else diff in
  let p := if bit nibble 8 then predicted d - diff else predicted d + diff in
  mkADPCM (sat16 p) (sat_index (index d + index_delta nibble)).

(** The payload loop: two samples per byte, the high nibble first. *)
Fixpoint decode_payload (d : ADPCM) (payload : bytes) : list Z * ADPCM :=
  match payload with
  | [] => ([], d)
  | b :: r =>
    let d1 := decode_nibble d (Z.land (Z.shiftr b 4) 0x0F) in
    let d2 := decode_nibble d1 (Z.land b 0x0F) in
    let '(out, d') := decode_payload d2 r in
    (s16 (predicted d1) :: s16 (predicted d2) :: out, d')
  end.

(** [None] is the nil slice. *)
Definition Decode (d : ADPCM) (data : bytes) : option (list Z) * ADPCM :=
  match data with
  | b0 :: b1 :: b2 :: _ :: payload =>
    let '(out, d') := decode_payload (mkADPCM (s16 (le_dec [b0; b1])) (sat_index b2)) payload in
    (Some out, d')
  | _ => (None, d)
  end.

Definition encodeNibble (e : ADPCM) (sample : Z) : Z * ADPCM :=
  let step := step_at (index e) in
  let diff := sample - predicted e in
  let nibble := if diff <? 0 then 8 else 0 in
  let diff := if diff <? 0 then - diff else diff in
  let delta := Z.shiftr step 3 in
  let '(nibble, diff, delta) :=
    if step <=? diff then (Z.lor nibble 4, diff - step, delta + step) else (nibble, diff, delta) in
  let '(nibble, diff, delta) :=
    if Z.shiftr step 1 <=? diff
    then (Z.lor nibble 2, diff - Z.shiftr step 1, delta + Z.shiftr step 1) else (nibble, diff, delta) in
  let '(nibble, delta) :=
    if Z.shiftr step 2 <=? diff then (Z.lor nibble 1, delta + Z.shiftr step 2) else (nibble, delta) in
  let p := if bit nibble 8 then predicted e - delta else predicted e + delta in
  (nibble, mkADPCM (sat16 p) (sat_index (index e + index_delta nibble))).

Fixpoint encode_samples (e : ADPCM) (pcm : list Z) : bytes * ADPCM :=
  match pcm with
  | a :: b :: r =>
    let '(first, e1) := encodeNibble e a in
    let '(second, e2) := encodeNibble e1 b in
    let '(out, e') := encode_samples e2 r in
    (Z.lor (u8 (Z.shiftl first 4)) second :: out, e')
  | _ => ([], e)
  end.

(** An empty input gives the nil block; [None] in [Ok None] is nil. *)
Definition EncodeBlock (e : ADPCM) (pcm : list Z) : result (option bytes * ADPCM) :=
  if decide (pcm = []) then Ok (None, e)
  else
    _ ← fail_if (len pcm <? 2) "adpcm block requires at least 2 samples";
    _ ← fail_if (negb (len pcm mod 2 =? 0)) "adpcm block sample count must be even";
    let '(out, e') := encode_samples e pcm in
    Ok (Some (le_put 2 (u16 (s16 (predicted e))) ++ [u8 (index e); 0] ++ out), e').

(** ** Invariant *)

(** The ranges the struct fields keep: they make the table accesses safe. *)
Definition wf (s : ADPCM) : Prop := sfits 16 (predicted s) /\ 0 <= index s <= 88.

Lemma sat16_range z : sfits 16 (sat16 z).
Proof. unfold sat16; cbv zeta; ifs; width. Qed.
Lemma sat16_id z : sfits 16 z -> sat16 z = z.
Proof. unfold sat16; cbv zeta; ifs; width. Qed.
Lemma sat16_closer z t : sfits 16 t -> Z.abs (t - sat16 z) <= Z.abs (t - z).
Proof. unfold sat16; cbv zeta; ifs; width. Qed.
Lemma sat_index_range z : 0 <= sat_index z <= 88.
Proof. unfold sat_index; cbv zeta; ifs; lia. Qed.
Lemma sat_index_id z : 0 <= z <= 88 -> sat_index z = z.
Proof. unfold sat_index; cbv zeta; ifs; lia. Qed.
Lemma step_range i : 0 <= i <= 88 -> 7 <= step_at i <= 32767.
Proof.
  intros Hi. finite_check 89%nat (fun i => (7 <=? step_at i) && (step_at i <=? 32767)) i as H. lia.
Qed.
Lemma zero_wf : wf zero.
Proof. split; [by vm_compute|cbn; lia]. Qed.
Lemma decode_nibble_wf d n : wf (decode_nibble d n).
Proof. split; [apply sat16_range|apply sat_index_range]. Qed.

#[local] Hint Resolve sat16_range sat_index_range decode_nibble_wf zero_wf : adpcm.

(** ** The decoder follows the encoder *)

(** Evaluates the bit tests of a known nibble. *)
Ltac eval_bits :=
  repeat match goal with |- context [bit ?n ?k] =>
    let v := eval vm_compute in (bit n k) in change (bit n k) with v end;
  cbv iota.

(** The encoder's decisions, the only place its nested tests are opened. *)
Lemma encodeNibble_spec e sample n e' :
  encodeNibble e sample = (n, e') ->
  fits 4 n /\ e' = decode_nibble e n.
Proof.
  unfold encodeNibble, decode_nibble. set (step := step_at (index e)).
  set (neg := sample - predicted e <? 0).
  set (d0 := if neg then - (sample - predicted e) else sample - predicted e).
  destruct (step <=? d0) eqn:H4; cbv beta iota;
    [set (d1 := d0 - step)|set (d1 := d0)];
    (destruct (Z.shiftr step 1 <=? d1) eqn:H2; cbv beta iota;
      [set (d2 := d1 - Z.shiftr step 1)|set (d2 := d1)]);
    (destruct (Z.shiftr step 2 <=? d2) eqn:H1; cbv beta iota);
    intros [= <- <-].
  all: match goal with |- fits 4 ?n /\ _ =>
    destruct neg; (split; [by vm_compute|]); eval_bits; f_equal; f_equal; lia end.
Qed.

Lemma encodeNibble_wf e sample n e' : encodeNibble e sample = (n, e') -> wf e'.
Proof. intros (_ & ->)%encodeNibble_spec. auto with adpcm. Qed.

(** Packing two nibbles into a byte and unpacking them. *)
Lemma pack_nibbles a b :
  fits 4 a -> fits 4 b ->
  let p := Z.lor (u8 (Z.shiftl a 4)) b in
  Z.land (Z.shiftr p 4) 0x0F = a /\ Z.land p 0x0F = b /\ fits 8 p.
Proof.
  intros Ha Hb p. subst p.
  finite_check 16%nat (fun a => all_below 16 (fun b =>
    let p := Z.lor (u8 (Z.shiftl a 4)) b in
    (Z.land (Z.shiftr p 4) 0x0F =? a) && (Z.land p 0x0F =? b) && bool_decide (fits 8 p))) a as H.
  apply (all_below_spec _ _ b) in H; [cbv beta zeta in H|width].
  rewrite !andb_true_iff, !Z.eqb_eq, bool_decide_eq_true in H. tauto.
Qed.

Lemma even_ind {A} (P : list A -> Prop) :
  P [] -> (forall a b l, P l -> P (a :: b :: l)) ->
  forall l, Nat.Even (length l) -> P l.
Proof.
  intros H0 H2 l. remember (length l) as n eqn:Hn. revert l Hn.
  induction n as [n IH] using lt_wf_ind. intros l -> [k Hk].
  destruct l as [|a [|b l]]; cbn in Hk; [done|lia|].
  apply H2, (IH (length l)); cbn; [lia|done|]. exists (k - 1)%nat. lia.
Qed.

Lemma encode_samples_length l :
  Nat.Even (length l) -> forall e out e',
  encode_samples e l = (out, e') -> length l = (2 * length out)%nat.
Proof.
  revert l. apply (even_ind (fun l => forall e out e', _ -> _)); [by intros ??? [= <- <-]|].
  intros a b l IH e out e'. cbn [encode_samples].
  destruct (encodeNibble e a) as [? e1]. destruct (encodeNibble e1 b) as [? e2].
  destruct (encode_samples e2 l) as [o e3] eqn:E. intros [= <- <-].
  cbn [length]. rewrite (IH _ _ _ E). lia.
Qed.

Lemma encode_samples_lockstep pcm :
  Nat.Even (length pcm) -> forall e out e',
  wf e -> encode_samples e pcm = (out, e') ->
  bytes_ok out /\ wf e' /\ length pcm = (2 * length out)%nat /\
  exists rec, decode_payload e out = (rec, e') /\ length rec = length pcm /\ pcm_ok rec.
Proof.
  revert pcm. apply (even_ind (fun pcm => forall e out e', _ -> _ -> _)).
  - intros e out e' Hw [= <- <-]. repeat split; auto; try apply Hw. by exists [].
  - intros a b pcm IH e out e' Hw. cbn [encode_samples].
    destruct (encodeNibble e a) as [n1 e1] eqn:E1.
    destruct (encodeNibble e1 b) as [n2 e2] eqn:E2.
    destruct (encode_samples e2 pcm) as [o e3] eqn:E3. intros [= <- <-].
    pose proof (encodeNibble_wf _ _ _ _ E2) as W2. pose proof (encodeNibble_wf _ _ _ _ E1) as W1.
    apply encodeNibble_spec in E1 as [F1 D1], E2 as [F2 D2].
    destruct (IH _ _ _ W2 E3) as (Ho & W3 & Hl & rec & Hd & Hr & Hp).
    destruct (pack_nibbles _ _ F1 F2) as (P1 & P2 & P3).
    split; [by constructor|]. split; [done|]. split; [cbn; lia|].
    exists (predicted e1 :: predicted e2 :: rec). cbn [decode_payload].
    rewrite P1, P2, <- D1, <- D2, Hd.
    rewrite !swrap_id by (try apply W1; try apply W2; lia).
    split; [done|]. split; [cbn; lia|].
    constructor; [apply W1|]. constructor; [apply W2|done].
Qed.

Lemma length_even {A} (l : list A) : len l mod 2 = 0 -> Nat.Even (length l).
Proof. intros H. exists (Z.to_nat (len l / 2)). Z.to_euclidean_division_equations; lia. Qed.

Lemma header_decodes p : sfits 16 p -> s16 (le_dec (le_put 2 (u16 (s16 p)))) = p.
Proof.
  intros Hp. rewrite le_dec_put. change (256 ^ Z.of_nat 2) with (2 ^ 16).
  rewrite (swrap_id 16 p) by (done || lia). fold (wrap 16 (u16 p)).
  by rewrite wrap_idemp, swrap_wrap, swrap_id by (done || lia).
Qed.

(** What an accepted block consists of. *)
Lemma EncodeBlock_inv e pcm blk e' :
  EncodeBlock e pcm = Ok (Some blk, e') ->
  Nat.Even (length pcm) /\ 2 <= len pcm /\ exists out,
    encode_samples e pcm = (out, e') /\
    blk = le_put 2 (u16 (s16 (predicted e))) ++ [u8 (index e); 0] ++ out.
Proof.
  unfold EncodeBlock. case_decide; [done|].
  intros (u & H1%fail_if_ok%Z.ltb_ge & (v & H2 & H3)%bind_ok)%bind_ok.
  apply fail_if_ok, negb_false_iff, Z.eqb_eq in H2.
  destruct (encode_samples e pcm) as [out e2]. injection H3 as <- <-.
  split; [by apply length_even|]. split; [lia|]. by exists out.
Qed.

(** ** Properties *)

(** A block decodes to the encoder's own reconstruction.  From any decoder
    state, decoding what [EncodeBlock] wrote succeeds, gives as many samples as
    were encoded, all of them 16-bit, and leaves the decoder in exactly the
    state of the encoder, so consecutive blocks stay in lockstep. *)
Theorem decode_follows_encode (e d : ADPCM) (pcm : list Z) (blk : bytes) (e' : ADPCM) :
  wf e -> EncodeBlock e pcm = Ok (Some blk, e') ->
  bytes_ok blk /\ wf e' /\
  exists rec, Decode d blk = (Some rec, e') /\ length rec = length pcm /\ pcm_ok rec.
Proof.
  intros [Hp Hi] (Hev & _ & out & He & ->)%EncodeBlock_inv.
  destruct (encode_samples_lockstep pcm Hev e out e' (conj Hp Hi) He)
    as (Ho & We & _ & rec & Hd & Hr & Hrec).
  split. { repeat apply Forall_app_2; auto using le_put_ok. repeat constructor; auto with width; width. }
  split; [done|]. exists rec. cbn [le_put app Decode].
  change [u8 (u16 (s16 (predicted e))); u8 (u16 (s16 (predicted e)) / 256)]
    with (le_put 2 (u16 (s16 (predicted e)))).
  rewrite header_decodes, wrap_id, sat_index_id by (done || width).
  replace (mkADPCM (predicted e) (index e)) with e by by destruct e.
  by rewrite Hd.
Qed.

Lemma decode_follows_encode_witness :
  exists blk e', EncodeBlock zero [1000; -2000; 32767; -32768] = Ok (Some blk, e') /\
    exists rec, Decode (mkADPCM 5 5) blk = (Some rec, e') /\ length rec = 4%nat.
Proof.
  eexists _, _. split; [vm_compute; reflexivity|].
  edestruct (decode_follows_encode zero (mkADPCM 5 5) [1000; -2000; 32767; -32768])
    as (_ & _ & rec & Hd & Hl & _); [apply zero_wf|vm_compute; reflexivity|].
  exists rec. split; [exact Hd|exact Hl].
Defined.

(** The quantiser tracks its input.  For a 16-bit sample the new prediction
    is within an eighth of the step (plus 2) of it, or the sample was out of
    reach of one nibble and the prediction moved at least 15/8 of the step
    (less 3) towards it without passing it. *)
Theorem encodeNibble_tracks (e : ADPCM) (sample nibble : Z) (e' : ADPCM) :
  wf e -> sfits 16 sample -> encodeNibble e sample = (nibble, e') ->
  let step := step_at (index e) in
  let before := Z.abs (sample - predicted e) in
  let after := Z.abs (sample - predicted e') in
  (before < 2 * step -> after <= step / 8 + 2) /\
  (2 * step <= before -> after <= before - (15 * step / 8 - 3)).
Proof.
  intros [Hp Hi] Hs. cbv zeta. pose proof (step_range _ Hi) as Hstep.
  unfold encodeNibble. set (step := step_at (index e)) in *.
  rewrite !Z.shiftr_div_pow2 by lia. change (2 ^ 3) with 8. change (2 ^ 2) with 4. change (2 ^ 1) with 2.
  destruct (sample - predicted e <? 0) eqn:Hneg;
    (destruct (step <=? _) eqn:H4); cbv beta iota zeta;
    (destruct (step / 2 <=? _) eqn:H2); cbv beta iota zeta;
    (destruct (step / 4 <=? _) eqn:H1); cbv beta iota zeta;
    eval_bits; intros [= <- <-]; cbn [predicted];
    match goal with |- context [sat16 ?z] => pose proof (sat16_closer z sample Hs) as Hc;
      set (p' := sat16 z) in *; clearbody p' end;
    clear Hs Hi Hp; clearbody step; Z.to_euclidean_division_equations; lia.
Qed.

Lemma encodeNibble_tracks_witness :
  Z.abs (1000 - predicted (encodeNibble (mkADPCM 900 40) 1000).2) <= step_at 40 / 8 + 2.
Proof.
  destruct (encodeNibble_tracks (mkADPCM 900 40) 1000 (encodeNibble (mkADPCM 900 40) 1000).1
    (encodeNibble (mkADPCM 900 40) 1000).2) as [H _];
    [split; [by vm_compute|cbn; lia]|by vm_compute|by vm_compute|].
  apply H. by vm_compute.
Defined.

Lemma EncodeBlock_len e pcm :
  pcm <> [] -> len pcm mod 2 = 0 ->
  exists blk e', EncodeBlock e pcm = Ok (Some blk, e') /\ len blk = len pcm / 2 + 4.
Proof.
  intros Hne Hev. unfold EncodeBlock. rewrite decide_False by done.
  destruct pcm as [|a [|b r]]; [done|done|].
  replace (len (a :: b :: r) <? 2) with false by (symmetry; apply Z.ltb_ge; cbn [length]; lia).
  rewrite Hev. cbn [fail_if negb Z.eqb mbind result_bind].
  destruct (encode_samples e (a :: b :: r)) as [out e'] eqn:E.
  apply encode_samples_length in E; [|by apply length_even].
  exists (le_put 2 (u16 (s16 (predicted e))) ++ [u8 (index e); 0] ++ out), e'.
  split; [done|]. rewrite E, !len_app, len_le_put. cbn [length].
  clear. Z.to_euclidean_division_equations; lia.
Qed.

(** [EncodeBlock] fails exactly on odd sample counts (with an error, and the
    predictor untouched), gives nil on no samples, and otherwise writes the
    four header bytes and one byte per two samples: the size Baichuan
    negotiates as [samplesPerBlock/2 + 4]. *)
Theorem EncodeBlock_size (e : ADPCM) (pcm : list Z) :
  (pcm = [] -> EncodeBlock e pcm = Ok (None, e)) /\
  (len pcm mod 2 = 1 -> exists msg, EncodeBlock e pcm = Err msg) /\
  (pcm <> [] -> len pcm mod 2 = 0 ->
   exists blk e', EncodeBlock e pcm = Ok (Some blk, e') /\ len blk = len pcm / 2 + 4).
Proof.
  split; [intros ->; done|]. split.
  - intros Hodd. unfold EncodeBlock. rewrite decide_False by by intros ->.
    destruct (len pcm <? 2); cbn; [by eauto|]. rewrite Hodd. cbn. eauto.
  - apply EncodeBlock_len.
Qed.

Lemma EncodeBlock_size_witness :
  exists blk e', EncodeBlock zero [1; 2; 3; 4] = Ok (Some blk, e') /\ len blk = 4 / 2 + 4.
Proof. apply (EncodeBlock_size zero [1; 2; 3; 4]); [done|by vm_compute]. Defined.

End Adpcm.
