(* ===== verification/Packetizer.v ===== *)
(** Fixed 20 ms packets, the RTP media clock, the inactivity watchdog and the
    pre-answer drain: [internal/media/packetizer.go], [rtp_clock.go],
    [rtp_watchdog.go] and [preanswer.go].

    Times are [Z] nanoseconds since the zero [time.Time]; a [time.Duration] is
    an [int64] of nanoseconds. *)
From S2P Require Import Prelude GoBytes Rtp.
Import Rtp.

Definition g711SamplesPerPacket : Z := 160.
Definition g711SampleRate : Z := 8000.
Definition Millisecond : Z := 1000000.
Definition Second : Z := 1000000000.

(** * Cutting a buffer into packets

    The two loops [for len(buffer) >= g711SamplesPerPacket] differ only in what
    they do with a chunk.  Each turn removes 160 bytes, so the length of the
    buffer is more than enough fuel. *)
Fixpoint cut_chunks (fuel : nat) (buffer : bytes) : list bytes * bytes :=
  match fuel with
  | O => ([], buffer)
  | S f =>
    if g711SamplesPerPacket <=? len buffer then
      let '(out, rest) := cut_chunks f (drop 160 buffer) in (take 160 buffer :: out, rest)
    else ([], buffer)
  end.
Definition chunks (buffer : bytes) : list bytes * bytes := cut_chunks (length buffer) buffer.

Lemma cut_chunks_spec fuel buffer out rest :
  (length buffer <= fuel)%nat -> cut_chunks fuel buffer = (out, rest) ->
  concat out ++ rest = buffer /\ Forall (fun c => length c = 160%nat) out /\ (length rest < 160)%nat.
Proof.
  unfold g711SamplesPerPacket. revert buffer out rest.
  induction fuel as [|f IH]; intros b out rest Hf; cbn [cut_chunks].
  - intros [= <- <-]. split; [done|]. split; [constructor|lia].
  - unfold g711SamplesPerPacket. destruct (160 <=? len b) eqn:E.
    + destruct (cut_chunks f (drop 160 b)) as [o r] eqn:Er. intros [= <- <-].
      apply IH in Er as (Hc & Hl & Hr); [|rewrite length_drop; lia].
      split; [|split; [constructor; [rewrite length_take; lia|done]|done]].
      cbn [concat]. by rewrite <- app_assoc, Hc, take_drop.
    + intros [= <- <-]. split; [done|]. split; [constructor|lia].
Qed.

Lemma chunks_spec buffer out rest :
  chunks buffer = (out, rest) ->
  concat out ++ rest = buffer /\ Forall (fun c => length c = 160%nat) out /\ (length rest < 160)%nat.
Proof. apply cut_chunks_spec. lia. Qed.

Lemma length_concat_chunks (out : list bytes) :
  Forall (fun c => length c = 160%nat) out -> len (concat out) = 160 * len out.
Proof. induction 1; cbn [concat length]; [done|]. rewrite length_app. lia. Qed.

(** * [g711Chunker] *)
Module Chunker.
Record g711Chunker := mkChunker { buffer : bytes }.

Definition Push (c : g711Chunker) (payload : bytes) : list bytes * g711Chunker :=
  if decide (payload = []) then ([], c)
  else let '(out, rest) := chunks (buffer c ++ payload) in (out, mkChunker rest).

Fixpoint push_all (c : g711Chunker) (ps : list bytes) : list bytes * g711Chunker :=
  match ps with
  | [] => ([], c)
  | p :: r => let '(o1, c1) := Push c p in let '(o2, c2) := push_all c1 r in (o1 ++ o2, c2)
  end.

Lemma chunk_Push_spec c payload out c' :
  (length (buffer c) < 160)%nat -> Push c payload = (out, c') ->
  concat out ++ buffer c' = buffer c ++ payload /\
  Forall (fun p => length p = 160%nat) out /\ (length (buffer c') < 160)%nat.
Proof.
  unfold Push. intros Hb. case_decide as Hp.
  - intros [= <- <-]. subst payload. rewrite app_nil_r. split; [done|]. by split; [constructor|].
  - destruct (chunks _) as [o r] eqn:E. intros [= <- <-]. by apply chunks_spec.
Qed.

(** [g711Chunker] loses, duplicates and reorders nothing: over any sequence
    of payload sizes the chunks are 160 bytes each, their concatenation is the
    concatenation of the payloads up to fewer than 160 bytes, and those are
    still buffered. *)
Theorem push_all_conserves (ps : list bytes) (out : list bytes) (c : g711Chunker) :
  push_all (mkChunker []) ps = (out, c) ->
  concat out ++ buffer c = concat ps /\
  Forall (fun p => length p = 160%nat) out /\ (length (buffer c) < 160)%nat.
Proof.
  assert (forall c0, (length (buffer c0) < 160)%nat -> push_all c0 ps = (out, c) ->
    concat out ++ buffer c = buffer c0 ++ concat ps /\
    Forall (fun p => length p = 160%nat) out /\ (length (buffer c) < 160)%nat) as H.
  { revert out c. induction ps as [|p ps IH]; intros out c c0 Hb; cbn [push_all].
    - intros [= <- <-]. cbn. rewrite app_nil_r. auto.
    - destruct (Push c0 p) as [o1 c1] eqn:E1. destruct (push_all c1 ps) as [o2 c2] eqn:E2.
      intros [= <- <-]. destruct (chunk_Push_spec _ _ _ _ Hb E1) as (H1 & F1 & B1).
      destruct (IH _ _ _ B1 E2) as (H2 & F2 & B2).
      rewrite concat_app, <- app_assoc, H2, app_assoc, H1, <- app_assoc. cbn [concat].
      split; [done|]. split; [by apply Forall_app_2|done]. }
  intros Hp. apply H in Hp; [exact Hp|cbn; lia].
Qed.

Lemma push_all_conserves_witness :
  exists out c, push_all (mkChunker []) [replicate 100 7; replicate 130 9; []; replicate 90 3] = (out, c) /\
    length out = 2%nat /\ (length (buffer c) < 160)%nat.
Proof.
  eexists _, _. split; [vm_compute; reflexivity|]. split; [done|].
  apply (push_all_conserves [replicate 100 7; replicate 130 9; []; replicate 90 3]
    [replicate 100 7 ++ replicate 60 9; replicate 70 9 ++ replicate 90 3]). by vm_compute.
Defined.
End Chunker.

(** * [rtpRepacketizer] *)
Module Repacketizer.
Record rtpRepacketizer := mkRepacketizer {
  initialized : bool;
  inputSSRC : Z;        (** uint32 *)
  expectedInputTS : Z;  (** uint32 *)
  sequence : Z;         (** uint16 *)
  timestamp : Z;        (** uint32 *)
  ssrc : Z;             (** uint32 *)
  markerNext : bool;
  buffer : bytes;
}.

Definition new : rtpRepacketizer := mkRepacketizer false 0 0 0 0 0 false [].

(** The state after [if !p.initialized || in.SSRC != ...]. *)
Definition resync (p : rtpRepacketizer) (in_ : Packet) : rtpRepacketizer :=
  if negb (initialized p) || negb (SSRC in_ =? inputSSRC p) ||
     negb (Timestamp in_ =? expectedInputTS p)
  then mkRepacketizer true (SSRC in_) (expectedInputTS p) (Sequence in_) (Timestamp in_) (SSRC in_) true []
  else p.

(** One packet is appended per chunk; sequence and timestamp wrap. *)
Fixpoint emit (seq ts ssrc pt : Z) (marker : bool) (cs : list bytes) : list Packet :=
  match cs with
  | [] => []
  | c :: r => mkPacket pt marker seq ts ssrc c ::
              emit (u16 (seq + 1)) (u32 (ts + g711SamplesPerPacket)) ssrc pt false r
  end.

Definition Push (p : rtpRepacketizer) (in_ : Packet) (payloadType : Z) : list Packet * rtpRepacketizer :=
  if decide (Payload in_ = []) then ([], p)
  else
    let q := resync p in_ in
    let expected := u32 (Timestamp in_ + u32 (len (Payload in_))) in
    let '(cs, rest) := chunks (buffer q ++ Payload in_) in
    (emit (sequence q) (timestamp q) (ssrc q) payloadType (markerNext q) cs,
     mkRepacketizer true (inputSSRC q) expected
       (u16 (sequence q + len cs)) (u32 (timestamp q + g711SamplesPerPacket * len cs)) (ssrc q)
       (markerNext q && bool_decide (cs = [])) rest).

(** Between calls fewer than 160 samples wait, and the output clock plus the
    waiting samples is the input clock. *)
Definition wf (p : rtpRepacketizer) : Prop :=
  (length (buffer p) < 160)%nat /\ fits 16 (sequence p) /\ fits 32 (timestamp p) /\
  (initialized p = true -> u32 (timestamp p + len (buffer p)) = expectedInputTS p).

Lemma repacketizer_new_wf : wf new.
Proof. repeat split; vm_compute; (lia || congruence). Qed.

Lemma emit_payloads seq ts s pt m cs : map Payload (emit seq ts s pt m cs) = cs.
Proof. revert seq ts m. induction cs; intros; cbn; [done|]. by f_equal. Qed.

Lemma emit_lookup cs seq ts s pt m i p :
  fits 16 seq -> fits 32 ts -> emit seq ts s pt m cs !! i = Some p ->
  Sequence p = u16 (seq + Z.of_nat i) /\ Timestamp p = u32 (ts + 160 * Z.of_nat i) /\
  SSRC p = s /\ PayloadType p = pt /\ Marker p = (m && (i =? 0)%nat).
Proof.
  revert seq ts m i. induction cs as [|c cs IH]; intros seq ts m i Hs Ht; [done|].
  destruct i as [|i]; cbn [emit lookup list_lookup].
  - intros [= <-]. cbn. rewrite Z.add_0_r, Z.add_0_r, !wrap_id by done.
    by rewrite andb_true_r.
  - intros H. apply IH in H as (H1 & H2 & H3 & H4 & H5); [|auto with width..].
    rewrite H1, H2, H3, H4, H5. rewrite !wrap_add_l. unfold g711SamplesPerPacket.
    rewrite andb_false_r. repeat split; f_equal; lia.
Qed.

Lemma resync_wf p in_ :
  wf p -> fits 16 (Sequence in_) -> fits 32 (Timestamp in_) ->
  let q := resync p in_ in
  initialized q = true /\ fits 16 (sequence q) /\ fits 32 (timestamp q) /\ (length (buffer q) < 160)%nat /\
  u32 (timestamp q + len (buffer q)) = Timestamp in_.
Proof.
  intros (Hb & Hs & Ht & Hc) Hsi Hti. cbv zeta. unfold resync.
  destruct (negb (initialized p) || _ || _) eqn:E; cbn.
  - rewrite Z.add_0_r, wrap_id by done. repeat split; try done; try apply Hsi; try apply Hti; lia.
  - apply orb_false_iff in E as [[E1%negb_false_iff _]%orb_false_iff E3%negb_false_iff%Z.eqb_eq].
    rewrite (Hc E1), E3. repeat split; try done; try apply Hs; apply Ht.
Qed.

(** What [Push] emits is exactly the buffered samples and the new payload,
    in order, cut at 160 bytes; the emitted packets have consecutive sequence
    numbers and time stamps (modulo their widths) under one SSRC, the marker
    only on the first packet after a discontinuity; and the invariant that
    ties the output clock to the input clock is kept. *)
Theorem Push_repacketizes (p p' : rtpRepacketizer) (in_ : Packet) (pt : Z) (out : list Packet) :
  wf p -> fits 16 (Sequence in_) -> fits 32 (Timestamp in_) -> Payload in_ <> [] ->
  Push p in_ pt = (out, p') ->
  let q := resync p in_ in
  wf p' /\
  concat (map Payload out) ++ buffer p' = buffer q ++ Payload in_ /\
  (forall i o, out !! i = Some o ->
     length (Payload o) = 160%nat /\ PayloadType o = pt /\ SSRC o = ssrc q /\
     Sequence o = u16 (sequence q + Z.of_nat i) /\
     Timestamp o = u32 (timestamp q + 160 * Z.of_nat i) /\
     Marker o = (markerNext q && (i =? 0)%nat)).
Proof.
  intros Hw Hsi Hti Hne. cbv zeta. unfold Push. rewrite decide_False by done.
  destruct (resync_wf p in_ Hw Hsi Hti) as (Hin & Hs & Ht & Hb & Hc).
  set (q := resync p in_) in *. destruct (chunks _) as [cs rest] eqn:E. intros [= <- <-].
  apply chunks_spec in E as (Hcat & Hlen & Hr). cbn.
  split; [|split; [by rewrite emit_payloads|]].
  - unfold wf; cbn. split; [done|]. split; [by auto with width|]. split; [by auto with width|]. intros _.
    rewrite wrap_add_l, <- Hc, wrap_add_l, wrap_add_r. f_equal.
    pose proof (length_concat_chunks cs Hlen). apply (f_equal length) in Hcat.
    rewrite !length_app in Hcat. unfold g711SamplesPerPacket. lia.
  - intros i o Ho. apply emit_lookup in Ho as Ho'; [|done..].
    destruct Ho' as (-> & -> & -> & -> & ->). split; [|done].
    assert (Payload o ∈ cs) as Hin'.
    { rewrite <- (emit_payloads (sequence q) (timestamp q) (ssrc q) pt (markerNext q) cs).
      apply list_elem_of_fmap. exists o. split; [done|]. by eapply list_elem_of_lookup_2. }
    rewrite Forall_forall in Hlen. by apply Hlen.
Qed.

Lemma Push_repacketizes_witness :
  let in_ := mkPacket 0 false 65535 4294967290 9 (replicate 400 5) in
  wf new /\ length (Push new in_ 8).1 = 2%nat /\ wf (Push new in_ 8).2.
Proof.
  intros in_. split; [apply repacketizer_new_wf|]. split; [by vm_compute|].
  apply (Push_repacketizes new (Push new in_ 8).2 in_ 8 (Push new in_ 8).1);
    [apply repacketizer_new_wf|split; vm_compute; congruence|split; vm_compute; congruence|done|by destruct (Push new in_ 8)].
Defined.
End Repacketizer.

(** * [rtpMediaClock] *)
Module MediaClock.
Record rtpMediaClock := mkClock { initialized : bool; baseTS : Z; baseAt : Z }.

(** [time.Duration(delta) * time.Second / g711SampleRate] in [int64]: with a
    32-bit [delta] the product stays below 2^63, so it is exact; Go divides
    towards zero. *)
Definition At (c : rtpMediaClock) (pkt : Packet) (arrival : Z) : Z * rtpMediaClock :=
  if negb (initialized c) || Marker pkt then
    (arrival, mkClock true (Timestamp pkt) arrival)
  else
    let delta := s32 (u32 (Timestamp pkt - baseTS c)) in
    (baseAt c + Z.quot (delta * Second) g711SampleRate, c).

(** Between markers the clock is the sample count: a packet whose time
    stamp is [k] samples after (or before) the base, across the 32-bit wrap or
    not, is placed exactly [k * 125 us] from the base, whenever it arrives. *)
Theorem At_exact (c : rtpMediaClock) (pkt : Packet) (arrival k : Z) :
  initialized c = true -> Marker pkt = false -> sfits 32 k ->
  Timestamp pkt = u32 (baseTS c + k) ->
  At c pkt arrival = (baseAt c + 125000 * k, c).
Proof.
  intros Hi Hm Hk Ht. unfold At. rewrite Hi, Hm, Ht. cbn [negb orb].
  rewrite wrap_sub_l, swrap_wrap.
  replace (baseTS c + k - baseTS c) with k by lia. rewrite swrap_id by (done || lia).
  unfold Second, g711SampleRate. replace (k * 1000000000) with (125000 * k * 8000) by lia.
  by rewrite Z.quot_mul.
Qed.

Lemma At_exact_witness :
  At (mkClock true 4294967200 777) (mkPacket 8 false 3 64 1 [1]) 5000000
  = (777 + 125000 * 160, mkClock true 4294967200 777).
Proof.
  apply (At_exact (mkClock true 4294967200 777) (mkPacket 8 false 3 64 1 [1]) 5000000 160);
    [done|done|by vm_compute|by vm_compute].
Defined.
End MediaClock.

(** * [rtpWatchdog] *)
Module Watchdog.
Record rtpWatchdog := mkWatchdog { timeout : Z; last : Z }.

(** [time.Time.Sub] saturates at the ends of [int64]. *)
Definition time_sub (a b : Z) : Z := clamp (- 2 ^ 63) (2 ^ 63 - 1) (a - b).

(** A nil receiver is [None]. *)
Definition Mark (w : option rtpWatchdog) (now : Z) : option rtpWatchdog :=
  match w with Some w => Some (mkWatchdog (timeout w) now) | None => None end.
Definition Check_ (w : option rtpWatchdog) (now : Z) : result unit :=
  match w with
  | None => Ok tt
  | Some w =>
    if (timeout w <=? 0) || (last w =? 0) || (time_sub now (last w) <? timeout w) then Ok tt
    else Err "SIP RTP inactivity watchdog expired"
  end.

(** The receive loop: valid packets mark, every timeout checks.  The first
    failing check ends the loop. *)
Inductive event := Valid (now : Z) | Tick (now : Z).
Fixpoint run_watchdog (w : option rtpWatchdog) (evs : list event) : result (option rtpWatchdog) :=
  match evs with
  | [] => Ok w
  | Valid now :: r => run_watchdog (Mark w now) r
  | Tick now :: r => _ ← Check_ w now; run_watchdog w r
  end.

(** The last time a packet was seen. *)
Fixpoint last_seen (t : Z) (evs : list event) : Z :=
  match evs with [] => t | Valid now :: r => last_seen now r | Tick _ :: r => last_seen t r end.

Definition event_time (e : event) : Z := match e with Valid n | Tick n => n end.

Lemma run_watchdog_last w evs w' :
  run_watchdog (Some w) evs = Ok w' -> w' = Some (mkWatchdog (timeout w) (last_seen (last w) evs)).
Proof.
  revert w. induction evs as [|[n|n] evs IH]; intros w; cbn [run_watchdog last_seen].
  - intros [= <-]. by destruct w.
  - intros H. by apply IH in H.
  - intros (u & _ & H)%bind_ok. by apply IH in H.
Qed.

(** After any history that has not expired, the watchdog expires at a
    check exactly when at least the timeout has passed since the last valid
    packet; a disabled watchdog (timeout 0 or less) never does. *)
Theorem watchdog_expires (w : rtpWatchdog) (evs : list event) (w' : option rtpWatchdog) (now : Z) :
  0 < last w -> Forall (fun e => 0 < event_time e) evs ->
  0 <= now - last_seen (last w) evs < 2 ^ 63 ->
  run_watchdog (Some w) evs = Ok w' ->
  (is_ok (Check_ w' now) = false <-> 0 < timeout w <= now - last_seen (last w) evs).
Proof.
  intros Hl He Hn Hr. apply run_watchdog_last in Hr as ->.
  assert (0 < last_seen (last w) evs) as Hpos.
  { clear Hn. revert Hl. generalize (last w). induction He as [|[n|n] evs Hn He IH]; cbn; auto. }
  unfold Check_, time_sub. cbn. rewrite clamp_id by (clear Hpos He; width).
  destruct (timeout w <=? 0) eqn:E1; cbn; [split; [done|lia]|].
  destruct (_ =? 0) eqn:E2; cbn; [split; [done|lia]|].
  destruct (_ <? timeout w) eqn:E3; cbn; (split; [try done; lia|try done; lia]).
Qed.

Lemma watchdog_expires_witness :
  let w := mkWatchdog (30 * Second) 1 in
  let evs := [Valid (10 * Second); Tick (25 * Second)] in
  run_watchdog (Some w) evs = Ok (Some (mkWatchdog (30 * Second) (10 * Second))) /\
  is_ok (Check_ (Some (mkWatchdog (30 * Second) (10 * Second))) (40 * Second)) = false.
Proof.
  split; [by vm_compute|].
  apply (watchdog_expires (mkWatchdog (30 * Second) 1) [Valid (10 * Second); Tick (25 * Second)]);
    [by vm_compute|repeat constructor|split; vm_compute; congruence|by vm_compute|split; vm_compute; congruence].
Defined.
End Watchdog.

(** * [discardQueuedSIPRTP] *)
Module PreAnswer.
Definition preAnswerDrainLimit : nat := 4096.

(** What the socket does in one turn of the loop: setting the deadline can
    fail; a read gives a datagram, the timeout, or another error. *)
Inductive read_result := Datagram | Timeout | ReadError (e : string).
Record turn := mkTurn { deadline_error : option string; read : read_result }.

Record outcome := mkOutcome { discarded : nat; limitReached : bool; error : option string }.

(** [sock i] is what happens in turn [i]; [n] counts the turns left to the
    limit. *)
Fixpoint drain (n : nat) (sock : nat -> turn) (discarded : nat) : outcome :=
  match n with
  | O => mkOutcome discarded true None
  | S n' =>
    match deadline_error (sock discarded) with
    | Some e => mkOutcome discarded false (Some e)
    | None =>
      match read (sock discarded) with
      | Timeout => mkOutcome discarded false None
      | ReadError e => mkOutcome discarded false (Some e)
      | Datagram => drain n' sock (S discarded)
      end
    end
  end.

(** A nil connection is [None]; the deferred reset of the deadline can only
    replace a nil error. *)
Definition discardQueuedSIPRTP (conn : option (nat -> turn)) (reset_error : option string) : outcome :=
  match conn with
  | None => mkOutcome 0 false (Some "nil SIP RTP socket")
  | Some sock =>
    let o := drain preAnswerDrainLimit sock 0 in
    match error o with
    | Some _ => o
    | None => mkOutcome (discarded o) (limitReached o) reset_error
    end
  end.

Definition is_datagram (t : turn) : Prop := deadline_error t = None /\ read t = Datagram.

Ltac no_datagram := first [lia | done | by intros [??]; congruence].

Lemma drain_socket n sock k :
  let o := drain n sock k in
  (k <= discarded o <= k + n)%nat /\
  (forall i, (k <= i < discarded o)%nat -> is_datagram (sock i)) /\
  (limitReached o = true -> discarded o = (k + n)%nat) /\
  (limitReached o = false -> ~ is_datagram (sock (discarded o))).
Proof.
  revert k. induction n as [|n IH]; intros k; cbn [drain]; cbv zeta.
  { cbn. repeat split; intros; (lia || done). }
  destruct (deadline_error (sock k)) as [e|] eqn:E.
  { cbn. unfold is_datagram. rewrite E. repeat split; intros; no_datagram. }
  destruct (read (sock k)) as [| |e] eqn:Er;
    try (cbn; unfold is_datagram; rewrite Er; repeat split; intros; no_datagram).
  destruct (IH (S k)) as (H1 & H2 & H3 & H4). split; [lia|]. split; [|split; [|done]].
  - intros i Hi. destruct (decide (i = k)) as [->|]; [by split|]. apply H2. lia.
  - intros H. rewrite (H3 H). lia.
Qed.

(** The drain stops: whatever the peer sends, it removes at most 4096
    datagrams.  It reports the limit exactly when all 4096 turns found one;
    otherwise the turn it stopped at had no datagram to give, so no packet of
    the live stream behind it is touched. *)
Theorem discard_bounded (sock : nat -> turn) (reset_error : option string) :
  let o := discardQueuedSIPRTP (Some sock) reset_error in
  (discarded o <= preAnswerDrainLimit)%nat /\
  (forall i, (i < discarded o)%nat -> is_datagram (sock i)) /\
  (limitReached o = true -> discarded o = preAnswerDrainLimit) /\
  (limitReached o = false -> ~ is_datagram (sock (discarded o))).
Proof.
  cbv zeta. unfold discardQueuedSIPRTP. generalize preAnswerDrainLimit as n. intros n.
  destruct (drain_socket n sock 0) as (H1 & H2 & H3 & H4).
  destruct (error (drain n sock 0)); cbn [discarded limitReached];
    (split; [lia|]); (split; [intros; apply H2; lia|]); by split.
Qed.
End PreAnswer.
