(* ===== verification/Dtmf.v ===== *)
(** RFC 4733 telephone events: [internal/media/dtmf.go]. *)
From S2P Require Import Prelude GoBytes GoStrings Rtp.
Import Rtp.

Module Dtmf.

Definition completedTelephoneEventWindow : nat := 64.

Record DTMFEvent := mkEvent { Digit : string; DurationMS : Z; ReceivedAt : Z }.

(** [telephoneEventKey]: ssrc, timestamp, event. *)
Abbreviation key := (Z * Z * Z)%type.

Record detector := mkDetector {
  clockRate : Z;
  completed : gset key;
  order : list key;
}.

Definition newTelephoneEventDetector (clockRate : Z) : detector := mkDetector clockRate ∅ [].

Definition dtmfDigit (event : Z) : option string :=
  if event <=? 9 then Some (String (chr (48 + event)) "")
  else if event =? 10 then Some "*"
  else if event =? 11 then Some "#"
  else if (12 <=? event) && (event <=? 15) then Some (String (chr (65 + event - 12)) "")
  else None.

Definition event_key (p : Packet) (eventCode : Z) : key := (SSRC p, Timestamp p, eventCode).

(** What [Push] reads from the four payload bytes: event code, digit and
    duration of a terminal packet. *)
Definition terminal (p : Packet) : option (Z * string * Z) :=
  match Payload p with
  | eventCode :: flags :: d0 :: d1 :: _ =>
    digit ← dtmfDigit eventCode;
    if negb (Z.land flags 0x40 =? 0) || (Z.land flags 0x80 =? 0) then None
    else let duration := be_dec [d0; d1] in
         if duration =? 0 then None else Some (eventCode, digit, duration)
  | _ => None
  end.

(** A nil detector is [None]. *)
Definition Push (d : option detector) (p : Packet) (receivedAt : Z)
    : option DTMFEvent * option detector :=
  match d with
  | None => (None, None)
  | Some s =>
    if (clockRate s <=? 0) || (len (Payload p) <? 4) then (None, d)
    else match terminal p with
    | None => (None, d)
    | Some (eventCode, digit, duration) =>
      let k := event_key p eventCode in
      if decide (k ∈ completed s) then (None, d)
      else
        let completed' := {[k]} ∪ completed s in
        let order' := order s ++ [k] in
        let s' :=
          if decide (completedTelephoneEventWindow < length order')%nat then
            match order' with
            | oldest :: rest => mkDetector (clockRate s) (completed' ∖ {[oldest]}) rest
            | [] => mkDetector (clockRate s) completed' order'
            end
          else mkDetector (clockRate s) completed' order' in
        let durationMS := Z.quot (duration * 1000 + Z.quot (clockRate s) 2) (clockRate s) in
        (Some (mkEvent digit durationMS receivedAt), Some s')
    end
  end.

Fixpoint push_all (d : option detector) (ps : list (Packet * Z)) : list DTMFEvent * option detector :=
  match ps with
  | [] => ([], d)
  | (p, at_) :: r =>
    let '(e, d1) := Push d p at_ in
    let '(es, d2) := push_all d1 r in (option_list e ++ es, d2)
  end.

(** The set and the queue hold the same keys, none of them twice, and at most
    64. *)
Definition wf (s : detector) : Prop :=
  completed s = list_to_set (order s) /\ NoDup (order s) /\
  (length (order s) <= completedTelephoneEventWindow)%nat.

Lemma detector_new_wf rate : wf (newTelephoneEventDetector rate).
Proof. repeat split; [constructor|cbn; lia]. Qed.

(** The state after an emission, whether or not the window was full. *)
Lemma Push_emits s p at_ e s' :
  wf s -> Push (Some s) p at_ = (Some e, Some s') ->
  wf s' /\ clockRate s' = clockRate s /\
  exists code digit duration, terminal p = Some (code, digit, duration) /\
    event_key p code ∉ completed s /\ 0 < clockRate s /\
    e = mkEvent digit (Z.quot (duration * 1000 + Z.quot (clockRate s) 2) (clockRate s)) at_ /\
    exists dropped, order s ++ [event_key p code] = dropped ++ order s' /\
      length dropped = (length (order s) + 1 - completedTelephoneEventWindow)%nat.
Proof.
  intros (Hset & Hnd & Hlen). unfold Push.
  destruct (clockRate s <=? 0) eqn:Hr; [done|]. cbn [orb].
  destruct (len (Payload p) <? 4); [done|].
  destruct (terminal p) as [[[code digit] duration]|] eqn:Ht; [|done].
  set (k := event_key p code). destruct (decide (k ∈ completed s)) as [|Hk]; [done|].
  intros [= <- <-].
  assert (NoDup (order s ++ [k])) as Hnd'.
  { apply NoDup_app. split; [done|]. split; [|apply NoDup_singleton].
    intros x Hx ->%list_elem_of_singleton. apply Hk. rewrite Hset. by apply elem_of_list_to_set. }
  assert ({[k]} ∪ completed s = list_to_set (order s ++ [k])) as Hset'
    by (rewrite Hset, list_to_set_app_L; set_solver).
  case_decide as Hover; rewrite length_app in Hover; cbn in Hover.
  - destruct (order s ++ [k]) as [|oldest rest] eqn:Ho.
    { by apply app_eq_nil in Ho as [_ ?]. }
    apply (f_equal length) in Ho as Hl. rewrite length_app in Hl. cbn in Hl.
    apply NoDup_cons in Hnd' as [Hnot Hnd'].
    split; [|split; [done|]].
    + split; [|split; [done|cbn; lia]]. cbn. rewrite Hset'. cbn.
      assert (oldest ∉ (list_to_set rest : gset key)) by by rewrite elem_of_list_to_set.
      set_solver.
    + exists code, digit, duration. repeat (split; [done || lia|]).
      exists [oldest]. split; [done|]. cbn. lia.
  - split; [|split; [done|]].
    + split; [done|]. split; [done|]. cbn. rewrite length_app. cbn. lia.
    + exists code, digit, duration. repeat (split; [done || lia|]). exists [].
      split; [done|]. cbn. lia.
Qed.

(** Without an event the detector does not change. *)
Lemma Push_silent d p at_ d' : Push d p at_ = (None, d') -> d' = d.
Proof.
  unfold Push. destruct d as [s|]; [|by intros [= <-]].
  destruct (_ || _); [by intros [= <-]|].
  destruct (terminal p) as [[[code digit] duration]|]; [|by intros [= <-]].
  case_decide; [by intros [= <-]|done].
Qed.

Lemma Push_some s p at_ e d' : Push (Some s) p at_ = (e, d') -> exists s', d' = Some s'.
Proof.
  intros H. destruct e as [e|].
  - unfold Push in H. destruct (_ || _); [done|].
    destruct (terminal p) as [[[code digit] duration]|]; [|done].
    case_decide; [done|]. injection H as _ <-. eauto.
  - apply Push_silent in H as ->. eauto.
Qed.

Lemma detector_Push_wf s p at_ e s' : wf s -> Push (Some s) p at_ = (e, Some s') -> wf s'.
Proof.
  intros Hw H. destruct e as [e|]; [by destruct (Push_emits _ _ _ _ _ Hw H)|].
  apply Push_silent in H as [= ->]. done.
Qed.

(** A key stays known while fewer than 64 events complete after it. *)
Lemma key_survives ps : forall s k suf es d',
  wf s -> (exists pre, order s = pre ++ k :: suf) ->
  push_all (Some s) ps = (es, d') -> (length suf + length es < completedTelephoneEventWindow)%nat ->
  exists s', d' = Some s' /\ wf s' /\ clockRate s' = clockRate s /\ k ∈ completed s'.
Proof.
  induction ps as [|[p at_] ps IH]; intros s k suf es d' Hw [pre Hpre]; cbn [push_all].
  - intros [= <- <-] _. exists s. repeat split; try apply Hw.
    rewrite (proj1 Hw), elem_of_list_to_set, Hpre. set_solver.
  - destruct (Push (Some s) p at_) as [e d1] eqn:E.
    destruct (Push_some _ _ _ _ _ E) as [s1 ->].
    destruct (push_all (Some s1) ps) as [es2 d2] eqn:E2. intros [= <- <-] Hl.
    destruct e as [e|]; simpl in Hl.
    + apply Push_emits in E as (Hw1 & Hc & code & dg & du & _ & _ & _ & _ & dropped & Ho & Hd); [|done].
      rewrite Hpre in Ho, Hd. rewrite length_app in Hd. cbn [length] in Hl, Hd.
      assert (length dropped <= length pre)%nat as Hpl.
      { destruct Hw as (_ & _ & Hlen). rewrite Hpre, length_app in Hlen. cbn [length] in Hlen. lia. }
      rewrite <- (take_drop (length dropped) pre), <- app_assoc, <- app_assoc in Ho.
      apply app_inj_1 in Ho as [_ Ho]; [|rewrite length_take; lia].
      rewrite <- Hc. eapply (IH s1 k (suf ++ [event_key p code])); [done| |exact E2|].
      * eexists. rewrite <- Ho. by rewrite app_comm_cons.
      * rewrite length_app. cbn. lia.
    + apply Push_silent in E as [= ->]. eapply IH; eauto.
Qed.

(** Adding half the divisor before a truncating division rounds to nearest. *)
Lemma quot_rounds x r :
  0 < r -> 0 <= x -> 2 * Z.abs (Z.quot (x + Z.quot r 2) r * r - x) <= r.
Proof.
  intros Hr Hx. rewrite (Z.quot_div_nonneg r) by lia. pose proof (Z.div_pos r 2 ltac:(lia) ltac:(lia)).
  rewrite Z.quot_div_nonneg by lia.
  pose proof (Z.div_mod (x + r / 2) r ltac:(lia)). pose proof (Z.mod_pos_bound (x + r / 2) r ltac:(lia)).
  pose proof (Z.div_mod r 2 ltac:(lia)). pose proof (Z.mod_pos_bound r 2 ltac:(lia)).
  set (q := (x + r / 2) / r) in *. set (m := (x + r / 2) mod r) in *. set (h := r / 2) in *.
  set (b := r mod 2) in *. clearbody q m h b. rewrite (Z.mul_comm q). lia.
Qed.

(** ** Properties *)

(** One key press, one event.  Once a terminal packet was reported, none
    of its retransmissions (the same SSRC, time stamp and event code, whatever
    its other bytes) is reported again while fewer than 64 other events
    complete; and the memory of the detector never exceeds 64 keys. *)
Theorem no_duplicate_event (s s1 : detector) (p p' : Packet) (at_ at_' : Z) (e : DTMFEvent)
    (ps : list (Packet * Z)) (es : list DTMFEvent) (d2 : option detector) :
  wf s -> Push (Some s) p at_ = (Some e, Some s1) ->
  push_all (Some s1) ps = (es, d2) -> (length es < completedTelephoneEventWindow)%nat ->
  SSRC p' = SSRC p -> Timestamp p' = Timestamp p -> head (Payload p') = head (Payload p) ->
  (exists s2, d2 = Some s2 /\ wf s2) /\ (Push d2 p' at_').1 = None.
Proof.
  intros Hw Hp Hps Hl Hs Ht Hh.
  apply Push_emits in Hp as (Hw1 & _ & code & dg & du & Hterm & _ & _ & _ & dropped & Ho & Hd); [|done].
  destruct (exists_last (l := order s1)) as (pre & k & Hk).
  { intros E. rewrite E, app_nil_r in Ho. apply (f_equal length) in Ho. rewrite length_app in Ho.
    cbn in Ho. unfold completedTelephoneEventWindow in *. lia. }
  assert (k = event_key p code) as ->.
  { rewrite Hk, app_assoc in Ho. by apply app_inj_tail in Ho as [_ ->]. }
  destruct (key_survives ps s1 (event_key p code) [] es d2 Hw1 (ex_intro _ pre Hk) Hps Hl)
    as (s2 & -> & Hw2 & _ & Hin).
  split; [by exists s2|]. unfold Push.
  destruct (_ || _); [done|].
  destruct (terminal p') as [[[code' dg'] du']|] eqn:Ht'; [|done].
  assert (code' = code) as ->.
  { unfold terminal in Hterm, Ht'.
    destruct (Payload p) as [|c [|? [|? [|? ?]]]]; try done.
    destruct (Payload p') as [|c' [|? [|? [|? ?]]]]; try done. injection Hh as ->.
    destruct (dtmfDigit c); [|done]. cbn in *. repeat case_match; congruence. }
  unfold event_key in *. rewrite Hs, Ht. by rewrite decide_True.
Qed.

Lemma no_duplicate_event_witness :
  let p := mkPacket 101 true 1 4000 7 [5; 0x8A; 3; 32] in
  let p' := mkPacket 101 false 3 4000 7 [5; 0x8A; 3; 80] in
  let q := mkPacket 101 true 9 9000 7 [11; 0x80; 0; 80] in
  let s := newTelephoneEventDetector 8000 in
  exists s1 d2, Push (Some s) p 1 = (Some (mkEvent "5" 100 1), Some s1) /\
    push_all (Some s1) [(q, 2)] = ([mkEvent "#" 10 2], d2) /\ (Push d2 p' 3).1 = None.
Proof.
  eexists _, _. split; [vm_compute; reflexivity|]. split; [vm_compute; reflexivity|].
  eapply (no_duplicate_event (newTelephoneEventDetector 8000)
    (mkDetector 8000 {[(7, 4000, 5)]} [(7, 4000, 5)]) (mkPacket 101 true 1 4000 7 [5; 0x8A; 3; 32])
    (mkPacket 101 false 3 4000 7 [5; 0x8A; 3; 80]) 1 3 (mkEvent "5" 100 1)
    [(mkPacket 101 true 9 9000 7 [11; 0x80; 0; 80], 2)] [mkEvent "#" 10 2]);
    [apply detector_new_wf|by vm_compute|by vm_compute|cbn; unfold completedTelephoneEventWindow; lia|done..].
Defined.

(** Exactly the terminal, non-error packets with a duration, of a key not
    reported before, are reported: as one of the sixteen DTMF digits, with the
    duration in milliseconds rounded to the nearest. *)
Theorem Push_reports (s : detector) (p : Packet) (at_ : Z) :
  wf s -> bytes_ok (Payload p) -> 0 < clockRate s ->
  match Push (Some s) p at_ with
  | (Some e, _) => exists code flags d0 d1 rest,
      Payload p = code :: flags :: d0 :: d1 :: rest /\ code <= 15 /\
      Z.testbit flags 7 = true /\ Z.testbit flags 6 = false /\
      (SSRC p, Timestamp p, code) ∉ completed s /\
      dtmfDigit code = Some (Digit e) /\ ReceivedAt e = at_ /\
      0 < 256 * d0 + d1 /\
      2 * Z.abs (DurationMS e * clockRate s - (256 * d0 + d1) * 1000) <= clockRate s
  | (None, d') => d' = Some s
  end.
Proof.
  intros Hw Hb Hr. destruct (Push (Some s) p at_) as [[e|] d'] eqn:E; [|by apply Push_silent in E].
  destruct (Push_some _ _ _ _ _ E) as [s' ->].
  apply Push_emits in E as (_ & _ & code & dg & du & Hterm & Hk & _ & -> & _); [|done].
  unfold terminal in Hterm. destruct (Payload p) as [|c [|fl [|d0 [|d1 rest]]]] eqn:Epl; try done.
  destruct (dtmfDigit c) as [dg'|] eqn:Ed; [|done]. cbn [mbind option_bind] in Hterm.
  destruct (negb (Z.land fl 0x40 =? 0) || (Z.land fl 0x80 =? 0)) eqn:Efl; [done|].
  destruct (be_dec [d0; d1] =? 0) eqn:Edu; [done|]. injection Hterm as <- <- <-.
  exists c, fl, d0, d1, rest. split; [done|].
  pose proof (Forall_inv Hb) as Hc. pose proof (Forall_inv (Forall_inv_tail Hb)) as Hfl.
  pose proof (Forall_inv (Forall_inv_tail (Forall_inv_tail Hb))) as H0.
  pose proof (Forall_inv (Forall_inv_tail (Forall_inv_tail (Forall_inv_tail Hb)))) as H1.
  split. { unfold dtmfDigit in Ed. repeat case_match; try done; lia. }
  finite_check 256%nat (fun fl => implb (negb (negb (Z.land fl 0x40 =? 0) || (Z.land fl 0x80 =? 0)))
    (Z.testbit fl 7 && negb (Z.testbit fl 6))) fl as Hbits.
  rewrite Efl in Hbits. apply andb_prop in Hbits as [-> Hb6%negb_true_iff].
  split; [done|]. split; [done|]. split; [done|]. split; [done|]. split; [done|]. cbn [DurationMS].
  replace (be_dec [d0; d1]) with (256 * d0 + d1) in * by (change (be_dec [d0; d1]) with (d1 + 256 * (d0 + 256 * 0)); lia).
  split; [clear - Edu H0 H1; width|]. unfold fits in H0, H1. change (2 ^ 8) with 256 in *.
  apply quot_rounds; [done|clear - H0 H1; lia].
Qed.

Lemma Push_reports_witness :
  wf (newTelephoneEventDetector 8000) /\ bytes_ok [13; 0x80; 1; 0] /\
  (Push (Some (newTelephoneEventDetector 8000)) (mkPacket 101 true 1 4000 7 [13; 0x80; 1; 0]) 1).1
  = Some (mkEvent "B" 32 1) /\ Z.testbit 0x80 7 = true.
Proof.
  assert (bytes_ok [13; 0x80; 1; 0]) as Hb by (apply (bool_decide_unpack _); by vm_compute).
  pose proof (Push_reports (newTelephoneEventDetector 8000) (mkPacket 101 true 1 4000 7 [13; 0x80; 1; 0]) 1
    (detector_new_wf _) Hb ltac:(done)) as H.
  assert (Push (Some (newTelephoneEventDetector 8000)) (mkPacket 101 true 1 4000 7 [13; 0x80; 1; 0]) 1
    = (Some (mkEvent "B" 32 1), Some (mkDetector 8000 {[(7, 4000, 13)]} [(7, 4000, 13)]))) as E by by vm_compute.
  rewrite E in H |- *. split; [apply detector_new_wf|]. split; [done|]. split; [done|].
  destruct H as (c & fl & d0 & d1 & rest & Hp & _ & H & _). by injection Hp as <- <- <- <- <-.
Defined.

End Dtmf.
