(* ===== verification/Resample.v ===== *)
(** Linear interpolation: [resampleBlockLinear] of
    [internal/media/audio_controls.go], [resamplePCMBlock] of
    [elastic_talkback.go] and [linearResampler] of [talkback_audio.go].

    Samples and rates are far from the ends of [int64], so the products are
    exact.  Go's [/] truncates; it is [Z.quot] where an operand can be negative
    and [Z.div] where none is. *)
From S2P Require Import Prelude GoBytes.

Module Resample.

Definition g711SampleRate : Z := 8000.

(** [a + (b-a)*frac/den], the step all three resamplers share. *)
Definition interp (a b frac den : Z) : Z := a + Z.quot ((b - a) * frac) den.

Definition clampInt16 (value : Z) : Z :=
  if 32767 <? value then 32767 else if value <? - 32768 then - 32768 else s16 value.

(** [in[i]] for an index in range. *)
Definition at_ (l : list Z) (i : Z) : Z := nth (Z.to_nat i) l 0.

(** ** [resampleBlockLinear] *)

Definition block_len (n inRate outRate : Z) : Z :=
  let outLen := (n * outRate + inRate / 2) / inRate in if outLen <? 1 then 1 else outLen.

Definition block_sample (l : list Z) (inRate outRate i : Z) : Z :=
  let posNum := i * inRate in
  let idx := posNum / outRate in
  let frac := posNum mod outRate in
  if len l - 1 <=? idx then at_ l (len l - 1)
  else clampInt16 (interp (at_ l idx) (at_ l (idx + 1)) frac outRate).

(** [None] is the nil slice. *)
Definition resampleBlockLinear (l : list Z) (inRate outRate : Z) : option (list Z) :=
  if decide (l = []) then None
  else if (inRate <=? 0) || (outRate <=? 0) then None
  else if inRate =? outRate then Some l
  else
    let outLen := block_len (len l) inRate outRate in
    if len l =? 1 then Some (replicate (Z.to_nat outLen) (at_ l 0))
    else Some (map (block_sample l inRate outRate) (seqZ 0 outLen)).

(** ** [resamplePCMBlock] *)

Definition pcm_sample (l : list Z) (denominator i : Z) : Z :=
  let position := i * (len l - 1) in
  let idx := position / denominator in
  let fraction := position mod denominator in
  if len l - 1 <=? idx then at_ l (len l - 1)
  else clampInt16 (interp (at_ l idx) (at_ l (idx + 1)) fraction denominator).

Definition resamplePCMBlock (input : list Z) (outputSamples : Z) : list Z :=
  if outputSamples <=? 0 then []
  else if len input =? 0 then replicate (Z.to_nat outputSamples) 0
  else if len input =? 1 then replicate (Z.to_nat outputSamples) (at_ input 0)
  else if len input =? outputSamples then input
  else if outputSamples =? 1 then [at_ input 0]
  else map (pcm_sample input (outputSamples - 1)) (seqZ 0 outputSamples).

(** ** [linearResampler] *)

Record linearResampler := mkResampler {
  outRate : Z;
  havePrev : bool;
  prev : Z;         (** int16 *)
  sourceIndex : Z;  (** int64 *)
  nextOutTick : Z;  (** int64 *)
}.

Definition newLinearResampler (rate : Z) : result linearResampler :=
  _ ← fail_if ((rate <? g711SampleRate) || (48000 <? rate)) "unsupported Reolink talk sample rate";
  Ok (mkResampler rate false 0 0 0).

Definition Reset (r : linearResampler) : linearResampler := mkResampler (outRate r) false 0 0 0.

(** The inner loop [for r.nextOutTick < endTick]; each turn advances the tick
    by 8000, so the distance to [endTick] is enough fuel. *)
Fixpoint ticks (fuel : nat) (rate prev cur startTick endTick next : Z) : list Z * Z :=
  match fuel with
  | O => ([], next)
  | S f =>
    if next <? endTick then
      let num := if next - startTick <? 0 then 0 else next - startTick in
      let value := clampInt16 (interp prev cur num rate) in
      let '(out, next') := ticks f rate prev cur startTick endTick (next + g711SampleRate) in
      (value :: out, next')
    else ([], next)
  end.

Definition push_sample (r : linearResampler) (cur : Z) : list Z * linearResampler :=
  if negb (havePrev r) then ([], mkResampler (outRate r) true cur 0 0)
  else
    let startTick := sourceIndex r * outRate r in
    let endTick := (sourceIndex r + 1) * outRate r in
    let '(out, next) :=
      ticks (Z.to_nat (endTick - nextOutTick r)) (outRate r) (prev r) cur startTick endTick (nextOutTick r) in
    (out, mkResampler (outRate r) true cur (sourceIndex r + 1) next).

Fixpoint push_samples (r : linearResampler) (l : list Z) : list Z * linearResampler :=
  match l with
  | [] => ([], r)
  | x :: l' =>
    let '(o1, r1) := push_sample r x in
    let '(o2, r2) := push_samples r1 l' in (o1 ++ o2, r2)
  end.

Definition Push (r : linearResampler) (l : list Z) : list Z * linearResampler :=
  if outRate r =? g711SampleRate then (l, r) else push_samples r l.

(** ** Lemmas *)

Abbreviation in_range lo hi := (Forall (fun x => lo <= x <= hi)).

Lemma interp_between lo hi a b frac den :
  lo <= a <= hi -> lo <= b <= hi -> 0 < den -> 0 <= frac <= den ->
  lo <= interp a b frac den <= hi.
Proof.
  intros Ha Hb Hd Hf. unfold interp.
  assert (forall x y, 0 <= x -> 0 <= y <= den -> 0 <= x * y / den <= x) as Hdiv.
  { intros x y Hx Hy. split; [apply Z.div_pos; nia|]. apply Z.div_le_upper_bound; nia. }
  destruct (Z.le_ge_cases a b) as [Hab|Hab].
  - pose proof (Hdiv (b - a) frac ltac:(lia) Hf). rewrite Z.quot_div_nonneg by nia. lia.
  - replace ((b - a) * frac) with (- ((a - b) * frac)) by ring.
    pose proof (Hdiv (a - b) frac ltac:(lia) Hf).
    rewrite Z.quot_opp_l, Z.quot_div_nonneg by nia. lia.
Qed.

Lemma interp_0 a b den : den <> 0 -> interp a b 0 den = a.
Proof. intros H. unfold interp. rewrite Z.mul_0_r, Z.quot_0_l; lia. Qed.

Lemma clampInt16_id v : sfits 16 v -> clampInt16 v = v.
Proof. intros H. unfold clampInt16. rewrite swrap_id by (done || lia). ifs; width. Qed.

Lemma clamped_between lo hi a b frac den :
  sfits 16 lo -> sfits 16 hi -> lo <= a <= hi -> lo <= b <= hi -> 0 < den -> 0 <= frac <= den ->
  lo <= clampInt16 (interp a b frac den) <= hi.
Proof.
  intros Hl Hh Ha Hb Hd Hf. pose proof (interp_between lo hi a b frac den Ha Hb Hd Hf).
  rewrite clampInt16_id; [done|]. unfold sfits in *. lia.
Qed.

Lemma at_lookup l i : 0 <= i < len l -> l !! Z.to_nat i = Some (at_ l i).
Proof. intros H. unfold at_. rewrite nth_lookup. destruct (l !! _) eqn:E; [done|].
  apply lookup_ge_None in E. lia. Qed.

Lemma at_range lo hi l i : in_range lo hi l -> 0 <= i < len l -> lo <= at_ l i <= hi.
Proof. intros Hl Hi. rewrite Forall_lookup in Hl. by apply (Hl (Z.to_nat i)), at_lookup. Qed.

Lemma block_len_pos n inRate outRate : 1 <= block_len n inRate outRate.
Proof. unfold block_len. cbv zeta. ifs; lia. Qed.

Lemma block_sample_range lo hi l inRate outRate i :
  sfits 16 lo -> sfits 16 hi -> in_range lo hi l -> l <> [] -> 0 < inRate -> 0 < outRate -> 0 <= i ->
  lo <= block_sample l inRate outRate i <= hi.
Proof.
  intros Hlo Hhi Hl Hne Hi Ho Hx. unfold block_sample. cbv zeta.
  pose proof (Z.mod_pos_bound (i * inRate) outRate Ho).
  pose proof (Z.div_pos (i * inRate) outRate ltac:(nia) Ho).
  assert (1 <= len l) by (destruct l; [done|cbn [length]; lia]).
  destruct (_ <=? _) eqn:E; [apply at_range; [done|lia]|].
  apply clamped_between; try done; try lia; apply at_range; (done || lia).
Qed.

Lemma pcm_sample_range lo hi l den i :
  sfits 16 lo -> sfits 16 hi -> in_range lo hi l -> l <> [] -> 0 < den -> 0 <= i ->
  lo <= pcm_sample l den i <= hi.
Proof.
  intros Hlo Hhi Hl Hne Hd Hx. unfold pcm_sample. cbv zeta.
  assert (1 <= len l) by (destruct l; [done|cbn [length]; lia]).
  pose proof (Z.mod_pos_bound (i * (len l - 1)) den Hd).
  pose proof (Z.div_pos (i * (len l - 1)) den ltac:(nia) Hd).
  destruct (_ <=? _) eqn:E; [apply at_range; [done|lia]|].
  apply clamped_between; try done; try lia; apply at_range; (done || lia).
Qed.

Lemma forall_map_seqZ (P : Z -> Prop) f n : (forall i, 0 <= i < n -> P (f i)) -> Forall P (map f (seqZ 0 n)).
Proof. intros H. apply Forall_map, Forall_forall. intros i Hi%elem_of_seqZ. apply H. lia. Qed.

Lemma length_map_seqZ {A} (f : Z -> A) n : length (map f (seqZ 0 n)) = Z.to_nat n.
Proof. by rewrite length_map, length_seqZ. Qed.

Lemma at_map_seqZ f n i : 0 <= i < n -> at_ (map f (seqZ 0 n)) i = f i.
Proof.
  intros Hi. assert (map f (seqZ 0 n) !! Z.to_nat i = Some (f i)) as H.
  { change (map f) with (fmap (M:=list) f). rewrite list_lookup_fmap, lookup_seqZ_lt by lia. cbn. do 2 f_equal. lia. }
  unfold at_. by apply nth_lookup_Some.
Qed.

(** At twice the output rate every output position is an input position. *)
Lemma decimate_len n rout : 0 < rout -> 1 <= n -> block_len n (2 * rout) rout = (n + 1) / 2.
Proof.
  intros Ho Hn. unfold block_len. cbv zeta. rewrite (Z.mul_comm 2), Z.div_mul by lia.
  replace (n * rout + rout) with ((n + 1) * rout) by ring.
  rewrite (Z.mul_comm rout 2), Z.div_mul_cancel_r by lia.
  pose proof (Z.div_le_mono 2 (n + 1) 2 ltac:(lia) ltac:(lia)) as H. change (2 / 2) with 1 in H. destruct (_ <? 1) eqn:E; lia.
Qed.

Lemma decimate_sample l rout i lo hi :
  0 < rout -> 1 <= len l -> sfits 16 lo -> sfits 16 hi -> in_range lo hi l ->
  0 <= i < block_len (len l) (2 * rout) rout -> block_sample l (2 * rout) rout i = at_ l (2 * i).
Proof.
  intros Ho Hlen Hlo Hhi Hl Hx. rewrite decimate_len in Hx by lia.
  unfold block_sample. cbv zeta. replace (i * (2 * rout)) with (2 * i * rout) by ring.
  rewrite Z.div_mul, Z.mod_mul, interp_0 by lia.
  pose proof (Z.mul_div_le (len l + 1) 2).
  destruct (len l - 1 <=? 2 * i) eqn:E; [f_equal; lia|]. apply clampInt16_id.
  pose proof (at_range lo hi l (2 * i) Hl ltac:(lia)). unfold sfits in *. lia.
Qed.

(** ** The streaming resampler *)

Definition wf (r : linearResampler) : Prop :=
  g711SampleRate <= outRate r <= 48000 /\
  (havePrev r = true -> sourceIndex r * outRate r <= nextOutTick r < sourceIndex r * outRate r + g711SampleRate).

Lemma ticks_spec fuel rate p cur start end_ next out next' :
  0 < rate -> end_ = start + rate -> start <= next -> (Z.to_nat (end_ - next) <= fuel)%nat ->
  ticks fuel rate p cur start end_ next = (out, next') ->
  next' = next + g711SampleRate * len out /\ end_ <= next' /\
  (next < end_ -> next' < end_ + g711SampleRate) /\ (end_ <= next -> next' = next) /\
  (forall lo hi, sfits 16 lo -> sfits 16 hi -> lo <= p <= hi -> lo <= cur <= hi -> in_range lo hi out).
Proof.
  intros Hr ->. unfold g711SampleRate. revert out next next'.
  induction fuel as [|f IH]; intros out next next' Hs Hf; cbn [ticks].
  - intros [= <- <-]. repeat split; try (cbn; lia). constructor.
  - destruct (next <? start + rate) eqn:E.
    + unfold g711SampleRate. destruct (ticks f rate p cur start (start + rate) (next + 8000)) as [o n] eqn:Et.
      intros [= <- <-]. apply IH in Et as (H1 & H2 & H3 & H4 & H5); [|lia|lia].
      cbn [length]. split; [lia|]. split; [lia|]. split; [lia|]. split; [lia|].
      intros lo hi Hlo Hhi Hp Hc. constructor; [|by apply H5].
      apply clamped_between; try done; destruct (next - start <? 0) eqn:E'; lia.
    + intros [= <- <-]. repeat split; try (cbn; lia). constructor.
Qed.

Lemma push_sample_wf r x out r' :
  wf r -> push_sample r x = (out, r') ->
  wf r' /\ havePrev r' = true /\ prev r' = x /\ outRate r' = outRate r /\
  (havePrev r = true -> sourceIndex r' = sourceIndex r + 1 /\
     nextOutTick r' = nextOutTick r + g711SampleRate * len out) /\
  (havePrev r = false -> out = [] /\ sourceIndex r' = 0 /\ nextOutTick r' = 0) /\
  (forall lo hi, sfits 16 lo -> sfits 16 hi -> (havePrev r = true -> lo <= prev r <= hi) -> lo <= x <= hi ->
     in_range lo hi out).
Proof.
  intros [Hr Hi]. unfold push_sample. destruct (havePrev r) eqn:Hp; cbn [negb].
  - specialize (Hi eq_refl). cbv zeta. destruct (ticks _ _ _ _ _ _ _) as [o n] eqn:Et. intros [= <- <-].
    apply ticks_spec in Et as (H1 & H2 & H3 & H4 & H5); [|unfold g711SampleRate in *; lia..].
    split. { split; cbn; [done|]. intros _. unfold g711SampleRate in *. lia. }
    cbn. split; [done|]. split; [done|]. split; [done|]. split; [done|]. split; [done|].
    intros lo hi Hlo Hhi Hpr Hx. by apply H5; auto.
  - intros [= <- <-]. split; [split; cbn; [done|intros _; unfold g711SampleRate in *; lia]|].
    cbn. by repeat split.
Qed.

(** Where the stream stands after [n] samples and [k] outputs. *)
Definition position (r : linearResampler) (n k : Z) : Prop :=
  if havePrev r then sourceIndex r = n - 1 /\ nextOutTick r = g711SampleRate * k else n = 0 /\ k = 0.

Lemma push_samples_spec l : forall r n k out r' lo hi,
  wf r -> position r n k -> push_samples r l = (out, r') ->
  sfits 16 lo -> sfits 16 hi -> (havePrev r = true -> lo <= prev r <= hi) -> in_range lo hi l ->
  wf r' /\ outRate r' = outRate r /\ position r' (n + len l) (k + len out) /\ in_range lo hi out.
Proof.
  induction l as [|x l IH]; intros r n k out r' lo hi Hw Hpos; cbn [push_samples].
  - intros [= <- <-] _ _ _ _. rewrite len_nil, !Z.add_0_r. by repeat split; try apply Hw.
  - destruct (push_sample r x) as [o1 r1] eqn:E1. destruct (push_samples r1 l) as [o2 r2] eqn:E2.
    intros [= <- <-] Hlo Hhi Hp Hl. apply Forall_cons in Hl as [Hx Hl].
    apply push_sample_wf in E1 as (Hw1 & Hh & Hpr & Hrate & Ht & Hf & Hin); [|done].
    assert (position r1 (n + 1) (k + len o1)) as Hpos1.
    { unfold position in *. rewrite Hh. destruct (havePrev r).
      - destruct (Ht eq_refl). lia.
      - destruct (Hf eq_refl) as (-> & ? & ?). rewrite len_nil. lia. }
    destruct (IH r1 _ _ _ _ lo hi Hw1 Hpos1 E2 Hlo Hhi) as (Hw2 & Hr2 & Hp2 & Hin2);
      [by rewrite Hpr|done|].
    split; [done|]. split; [by rewrite Hr2|]. split; [|by apply Forall_app_2; [apply Hin|]].
    rewrite len_app, len_cons.
    replace (n + (len l + 1)) with (n + 1 + len l) by lia.
    by replace (k + (len o1 + len o2)) with (k + len o1 + len o2) by lia.
Qed.

Lemma push_samples_pcm l : forall r out r',
  wf r -> (havePrev r = true -> sfits 16 (prev r)) -> pcm_ok l -> push_samples r l = (out, r') ->
  wf r' /\ outRate r' = outRate r /\ (havePrev r' = true -> sfits 16 (prev r')) /\ pcm_ok out.
Proof.
  induction l as [|x l IH]; intros r out r' Hw Hp; cbn [push_samples].
  - intros _ [= <- <-]. done.
  - intros [Hx Hl]%Forall_cons. destruct (push_sample r x) as [o1 r1] eqn:E1.
    destruct (push_samples r1 l) as [o2 r2] eqn:E2. intros [= <- <-].
    apply push_sample_wf in E1 as (Hw1 & Hh & Hpr & Hrate & _ & _ & Hin); [|done].
    destruct (IH r1 o2 r2 Hw1) as (Hw2 & Hr2 & Hp2 & Ho); [by rewrite Hpr|done|done|].
    split; [done|]. split; [by rewrite Hr2|]. split; [done|]. apply Forall_app_2; [|done].
    eapply Forall_impl; [apply (Hin (-32768) 32767)|]; try width.
    + intros E. specialize (Hp E). width.
Qed.

Lemma push_samples_app l1 l2 r :
  push_samples r (l1 ++ l2) =
  let '(o1, r1) := push_samples r l1 in let '(o2, r2) := push_samples r1 l2 in (o1 ++ o2, r2).
Proof.
  revert r. induction l1 as [|x l1 IH]; intros r; cbn [app push_samples].
  - by destruct (push_samples r l2).
  - destruct (push_sample r x) as [o r1]. rewrite IH.
    destruct (push_samples r1 l1) as [o1 r2]. destruct (push_samples r2 l2) as [o2 r3].
    by rewrite app_assoc.
Qed.

(** ** Properties *)

(** The AEC reference resampler never overshoots: for any positive rates
    the block has the rounded length (at least one sample) and every output
    lies between the smallest and the largest input sample, so the clamp to
    [int16] never changes a value; and from the doorbell's 16 kHz to 8 kHz it
    is exact decimation, output [i] being input [2i]. *)
Theorem resampleBlockLinear_spec (l : list Z) (rin rout lo hi : Z) :
  l <> [] -> 0 < rin -> 0 < rout -> sfits 16 lo -> sfits 16 hi -> in_range lo hi l ->
  exists out, resampleBlockLinear l rin rout = Some out /\
    len out = (if rin =? rout then len l else block_len (len l) rin rout) /\
    in_range lo hi out /\
    (rin = 2 * rout -> forall i, 0 <= i < len out -> at_ out i = at_ l (2 * i)).
Proof.
  intros Hne Hi Ho Hlo Hhi Hl. unfold resampleBlockLinear. rewrite decide_False by done.
  replace ((rin <=? 0) || (rout <=? 0)) with false by lia.
  destruct (rin =? rout) eqn:Er; [exists l; repeat split; (done || lia)|].
  pose proof (block_len_pos (len l) rin rout) as Hb.
  assert (1 <= len l) as Hlen by (destruct l; [done|cbn [length]; lia]).
  destruct (len l =? 1) eqn:E1; eexists; (split; [done|]).
  - rewrite length_replicate. split; [lia|]. split; [apply Forall_replicate, at_range; [done|lia]|].
    intros -> i. rewrite decimate_len by lia. replace (len l) with 1 by lia.
    intros Hx. change ((1 + 1) / 2) with 1 in Hx. replace i with 0 by lia. done.
  - rewrite length_map_seqZ. split; [lia|]. split.
    + apply forall_map_seqZ. intros i Hx. apply block_sample_range; (done || lia).
    + intros -> i Hx. rewrite at_map_seqZ by lia. by apply (decimate_sample l rout i lo hi); try lia.
Qed.

Lemma resampleBlockLinear_spec_witness :
  exists out, resampleBlockLinear [100; 7; -30; 9; 5] 16000 8000 = Some out /\ len out = 3 /\
    at_ out 1 = -30.
Proof.
  destruct (resampleBlockLinear_spec [100; 7; -30; 9; 5] 16000 8000 (-30) 100) as (out & H & Hl & _ & Hd);
    [done|lia|lia|by vm_compute|by vm_compute|repeat constructor; lia|].
  exists out. split; [exact H|]. split; [exact Hl|]. apply (Hd eq_refl 1). rewrite Hl. by vm_compute.
Defined.

(** The elastic resampler maps any non-empty input onto exactly the
    requested number of samples, keeps the first and the last sample in place,
    and never leaves the range of the input. *)
Theorem resamplePCMBlock_spec (l : list Z) (n lo hi : Z) :
  l <> [] -> 0 < n -> sfits 16 lo -> sfits 16 hi -> in_range lo hi l ->
  let out := resamplePCMBlock l n in
  len out = n /\ in_range lo hi out /\ at_ out 0 = at_ l 0 /\
  (1 < n -> at_ out (n - 1) = at_ l (len l - 1)).
Proof.
  intros Hne Hn Hlo Hhi Hl. cbv zeta. unfold resamplePCMBlock.
  assert (1 <= len l) as Hlen by (destruct l; [done|cbn [length]; lia]).
  replace (n <=? 0) with false by lia. replace (len l =? 0) with false by lia.
  destruct (len l =? 1) eqn:E1.
  { rewrite length_replicate. split; [lia|].
    split; [apply Forall_replicate, at_range; [done|lia]|].
    replace (len l - 1) with 0 by lia.
    split; [|intros _]; unfold at_ at 1; (rewrite nth_lookup, lookup_replicate_2 by lia; done). }
  destruct (len l =? n) eqn:E2; [by replace n with (len l) by lia|].
  destruct (n =? 1) eqn:E3.
  { split; [cbn; lia|]. split; [constructor; [apply at_range; [done|lia]|done]|]. split; [done|lia]. }
  rewrite length_map_seqZ. split; [lia|]. split.
  { apply forall_map_seqZ. intros i Hi. apply pcm_sample_range; (done || lia). }
  rewrite at_map_seqZ by lia. unfold pcm_sample at 1. cbv zeta.
  rewrite Z.mul_0_l, Z.div_0_l, Z.mod_0_l by lia.
  replace (len l - 1 <=? 0) with false by lia. rewrite interp_0 by lia. split.
  { apply clampInt16_id. pose proof (at_range lo hi l 0 Hl ltac:(lia)). unfold sfits in *. lia. }
  intros _. rewrite at_map_seqZ by lia. unfold pcm_sample. cbv zeta.
  rewrite (Z.mul_comm (n - 1)), Z.div_mul by lia. by rewrite Z.leb_refl.
Qed.

Lemma resamplePCMBlock_spec_witness :
  let out := resamplePCMBlock [10; 20; 40; 0] 6 in len out = 6 /\ at_ out 5 = 0.
Proof.
  destruct (resamplePCMBlock_spec [10; 20; 40; 0] 6 0 40) as (H1 & _ & _ & H2);
    [done|lia|by vm_compute|by vm_compute|repeat constructor; lia|].
  split; [exact H1|by apply H2].
Defined.

(** The talkback resampler does not depend on packet boundaries and does
    not drift: pushing [a] and then [b] gives what pushing [a ++ b] gives, and
    after [n] samples in all (since a reset) it has produced exactly the [k]
    samples with [8000 (k-1) < (n-1) * outRate <= 8000 k], each within the
    range of the samples pushed. *)
Theorem linearResampler_stream (rate lo hi : Z) (r0 : linearResampler) (a b : list Z) :
  newLinearResampler rate = Ok r0 -> rate <> g711SampleRate ->
  sfits 16 lo -> sfits 16 hi -> in_range lo hi (a ++ b) ->
  let '(o1, r1) := Push r0 a in
  let '(o2, r2) := Push r1 b in
  Push r0 (a ++ b) = (o1 ++ o2, r2) /\ in_range lo hi (o1 ++ o2) /\
  (a ++ b <> [] ->
   let n := len (a ++ b) in let k := len (o1 ++ o2) in
   (n - 1) * rate <= g711SampleRate * k < (n - 1) * rate + g711SampleRate).
Proof.
  unfold newLinearResampler. intros (u & Hr%fail_if_ok & [= <-])%bind_ok Hne Hlo Hhi Hl.
  unfold Push. cbn [outRate]. replace (rate =? g711SampleRate) with false by lia.
  set (r0 := mkResampler rate false 0 0 0).
  destruct (push_samples r0 a) as [o1 r1] eqn:E1.
  assert (wf r0) as Hw by (split; cbn; [unfold g711SampleRate in *; lia|done]).
  apply Forall_app in Hl as Hab. destruct Hab as [Ha _].
  pose proof (push_samples_spec a r0 0 0 o1 r1 lo hi Hw (conj eq_refl eq_refl) E1 Hlo Hhi ltac:(done) Ha)
    as (_ & Hr1 & _). rewrite Hr1. cbn [outRate r0]. replace (rate =? g711SampleRate) with false by lia.
  destruct (push_samples r1 b) as [o2 r2] eqn:E2.
  assert (push_samples r0 (a ++ b) = (o1 ++ o2, r2)) as E by by rewrite push_samples_app, E1, E2.
  split; [done|].
  pose proof (push_samples_spec _ r0 0 0 _ r2 lo hi Hw (conj eq_refl eq_refl) E Hlo Hhi ltac:(done) Hl)
    as ([_ Hi] & Hr2 & Hp & Hin).
  split; [done|]. intros Hne'. cbv zeta. unfold position in Hp. rewrite !Z.add_0_l in Hp.
  destruct (havePrev r2).
  - destruct Hp as [Hs Ht]. specialize (Hi eq_refl). rewrite Hs, Ht, Hr2 in Hi. exact Hi.
  - destruct Hp as [Hz _]. by apply len_0 in Hz.
Qed.

Lemma linearResampler_stream_witness :
  let r0 := mkResampler 16000 false 0 0 0 in
  Push r0 ([1; 2; 3] ++ [4; 5]) = ((Push r0 [1; 2; 3]).1 ++ (Push (Push r0 [1; 2; 3]).2 [4; 5]).1,
    (Push (Push r0 [1; 2; 3]).2 [4; 5]).2).
Proof.
  pose proof (linearResampler_stream 16000 1 5 (mkResampler 16000 false 0 0 0) [1; 2; 3] [4; 5]
    eq_refl ltac:(done) ltac:(by vm_compute) ltac:(by vm_compute) ltac:(repeat constructor; lia)) as H.
  cbv zeta. destruct (Push _ [1; 2; 3]) as [o1 r1]. cbn [fst snd].
  destruct (Push r1 [4; 5]) as [o2 r2]. exact (proj1 H).
Defined.

End Resample.
