(* ===== verification/Playout.v ===== *)
(** The bounded sample FIFO of [internal/media/talkback_audio.go] and the
    elastic playout of [elastic_talkback.go].

    [float64] values are IEEE binary64 numbers of [SpecFloat] (53 bits of
    precision, exponent bound 1024), with round-to-nearest after every
    operation, which is what the amd64 build computes.  [math.Cos] is the one
    function that is not modelled: the window gains it yields are a parameter. *)
From Stdlib Require Import Floats.SpecFloat.
From S2P Require Import Prelude GoBytes Resample.
Import Resample.

(** * [sampleFIFO] *)
Module Fifo.
Record sampleFIFO := mkFIFO { buf : list Z; max : Z }.

Definition newSampleFIFO (m : Z) : sampleFIFO := mkFIFO [] (if m <? 1 then 1 else m).
Definition Reset (f : sampleFIFO) : sampleFIFO := mkFIFO [] (max f).
Definition Len (f : sampleFIFO) : Z := len (buf f).

Definition Pop (f : sampleFIFO) (n : Z) : list Z * sampleFIFO :=
  if (n <=? 0) || (len (buf f) =? 0) then ([], f)
  else
    let n := if len (buf f) <? n then len (buf f) else n in
    (slice (buf f) 0 n, mkFIFO (drop (Z.to_nat n) (buf f)) (max f)).

(** The number of samples dropped, and the new FIFO. *)
Definition Push (f : sampleFIFO) (samples : list Z) : Z * sampleFIFO :=
  if len samples =? 0 then (0, f)
  else if max f <=? len samples then
    (len (buf f) + len samples - max f,
     mkFIFO (drop (Z.to_nat (len samples - max f)) samples) (max f))
  else
    let overflow := len (buf f) + len samples - max f in
    if 0 <? overflow
    then (overflow, mkFIFO (drop (Z.to_nat overflow) (buf f) ++ samples) (max f))
    else (0, mkFIFO (buf f ++ samples) (max f)).

Definition wf (f : sampleFIFO) : Prop := 1 <= max f /\ len (buf f) <= max f.

Lemma fifo_new_wf m : wf (newSampleFIFO m).
Proof. split; cbn; [ifs; lia|ifs; lia]. Qed.

Lemma Pop_spec f n out f' :
  Pop f n = (out, f') ->
  buf f = out ++ buf f' /\ max f' = max f /\ len out = Z.max 0 (Z.min n (len (buf f))).
Proof.
  unfold Pop. destruct (_ || _) eqn:E.
  - intros [= <- <-]. split; [done|]. split; [done|]. cbn [length]. lia.
  - set (m := if len (buf f) <? n then len (buf f) else n).
    assert (0 <= m <= len (buf f) /\ m = Z.min n (len (buf f))) as [Hm Hm'] by (subst m; ifs; lia).
    clearbody m. intros [= <- <-]. cbn.
    unfold slice. rewrite Z.sub_0_r, drop_0, take_drop. split; [done|]. split; [done|].
    rewrite length_take. lia.
Qed.

(** The newest [m] elements of a list. *)
Definition last_n {A} (m : Z) (l : list A) : list A := drop (Z.to_nat (len l - m)) l.

Lemma fifo_Push_spec f samples :
  wf f ->
  Push f samples = (Z.max 0 (len (buf f) + len samples - max f),
                    mkFIFO (last_n (max f) (buf f ++ samples)) (max f)).
Proof.
  intros [Hm Hl]. unfold Push, last_n. rewrite len_app.
  destruct (len samples =? 0) eqn:E0.
  { assert (samples = []) as -> by (apply len_0; lia). rewrite app_nil_r. cbn [length].
    replace (Z.to_nat _) with 0%nat by lia. rewrite drop_0. destruct f; cbn in *. f_equal; lia. }
  destruct (max f <=? len samples) eqn:E1.
  { rewrite drop_app_ge by lia. f_equal; [lia|]. f_equal. f_equal. lia. }
  destruct (0 <? _) eqn:E2; f_equal; try lia; f_equal.
  - rewrite drop_app_le by lia. done.
  - by replace (Z.to_nat _) with 0%nat by lia.
Qed.

Lemma last_n_len {A} m (l : list A) : 0 <= m -> len (last_n m l) = Z.min m (len l).
Proof. intros. unfold last_n. rewrite length_drop. lia. Qed.

Lemma fifo_Push_wf f samples : wf f -> wf (Push f samples).2.
Proof.
  intros Hf. rewrite fifo_Push_spec by done. destruct Hf. split; cbn; [done|].
  rewrite last_n_len; lia.
Qed.

Lemma Pop_wf f n : wf f -> wf (Pop f n).2.
Proof.
  intros [Hm Hl]. destruct (Pop f n) as [out f'] eqn:E. apply Pop_spec in E as (Hb & Hmax & _).
  cbn. split; [lia|]. rewrite Hmax. rewrite Hb, len_app in Hl. lia.
Qed.

(** The operations on the queue; what the readers get. *)
Inductive op := OpPush (samples : list Z) | OpPop (n : Z) | OpReset.
Fixpoint run_ops (f : sampleFIFO) (ops : list op) : list Z * sampleFIFO :=
  match ops with
  | [] => ([], f)
  | OpPush s :: r => run_ops (Push f s).2 r
  | OpPop n :: r => let '(o1, f1) := Pop f n in let '(o2, f2) := run_ops f1 r in (o1 ++ o2, f2)
  | OpReset :: r => run_ops (Reset f) r
  end.
Definition pushed (ops : list op) : list Z :=
  concat (map (fun o => match o with OpPush s => s | _ => [] end) ops).

Lemma last_n_sublist {A} m (l : list A) : last_n m l `sublist_of` l.
Proof. apply sublist_drop. Qed.

Lemma run_ops_sublist ops : forall f out f',
  wf f -> run_ops f ops = (out, f') ->
  wf f' /\ max f' = max f /\ out ++ buf f' `sublist_of` buf f ++ pushed ops.
Proof.
  induction ops as [|[s|n|] ops IH]; intros f out f' Hw; cbn [run_ops].
  - intros [= <- <-]. unfold pushed. cbn. by rewrite app_nil_r.
  - intros H. apply IH in H as (W & M & S); [|by apply fifo_Push_wf].
    rewrite fifo_Push_spec in M, S by done. split; [done|]. split; [done|].
    etransitivity; [exact S|]. unfold pushed. cbn. rewrite app_assoc.
    apply sublist_app; [apply last_n_sublist|done].
  - destruct (Pop f n) as [o1 f1] eqn:E1. destruct (run_ops f1 ops) as [o2 f2] eqn:E2.
    intros [= <- <-]. pose proof (Pop_wf f n Hw) as Hw1. rewrite E1 in Hw1.
    apply Pop_spec in E1 as (Hb & Hm & _). apply IH in E2 as (W & M & S); [|done].
    split; [done|]. split; [by rewrite M|]. unfold pushed. cbn.
    rewrite Hb, <- !app_assoc. by apply sublist_app.
  - intros H. apply IH in H as (W & M & S); [|split; cbn; [apply Hw|destruct Hw; lia]].
    split; [done|]. split; [done|]. etransitivity; [exact S|]. unfold pushed. cbn.
    by apply sublist_inserts_l.
Qed.

(** The talkback queue is bounded and drops the oldest: a push keeps
    exactly the newest [max] samples of what was queued followed by what is
    pushed, and reports how many it dropped; so over any sequence of pushes,
    pops and resets the length never exceeds the limit and what is read is a
    subsequence of what was pushed, in order. *)
Theorem fifo_drop_oldest (m : Z) (ops : list op) (samples out : list Z) (f : sampleFIFO) :
  run_ops (newSampleFIFO m) ops = (out, f) ->
  len (buf f) <= Z.max 1 m /\
  out ++ buf f `sublist_of` pushed ops /\
  Push f samples = (Z.max 0 (len (buf f) + len samples - Z.max 1 m),
                    mkFIFO (last_n (Z.max 1 m) (buf f ++ samples)) (Z.max 1 m)).
Proof.
  intros H. apply run_ops_sublist in H as (W & M & S); [|apply fifo_new_wf].
  assert (max f = Z.max 1 m) as Hm by (rewrite M; cbn; ifs; lia).
  split; [rewrite <- Hm; apply W|]. split; [exact S|]. rewrite fifo_Push_spec by done. by rewrite Hm.
Qed.

Lemma fifo_drop_oldest_witness :
  run_ops (newSampleFIFO 3) [OpPush [1; 2]; OpPush [3; 4]; OpPop 1] = ([2], mkFIFO [3; 4] 3) /\
  Push (mkFIFO [3; 4] 3) [5; 6] = (1, mkFIFO [4; 5; 6] 3).
Proof.
  split; [by vm_compute|].
  apply (fifo_drop_oldest 3 [OpPush [1; 2]; OpPush [3; 4]; OpPop 1] [5; 6] [2]). by vm_compute.
Defined.
End Fifo.

(** * [float64] *)
Module F64.
Abbreviation t := spec_float.
Definition add (a b : t) : t := SFadd 53 1024 a b.
Definition sub (a b : t) : t := SFsub 53 1024 a b.
Definition mul (a b : t) : t := SFmul 53 1024 a b.
Definition div (a b : t) : t := SFdiv 53 1024 a b.
Definition ltb (a b : t) : bool := SFltb a b.

(** [float64(z)]: the correctly rounded value. *)
Definition of_Z (z : Z) : t := binary_normalize 53 1024 z 0 false.

(** The constants 0.25 and 0.75: dyadic, so they are exact. *)
Definition quarter : t := binary_normalize 53 1024 1 (-2) false.
Definition three_quarters : t := binary_normalize 53 1024 3 (-2) false.
Definition one : t := of_Z 1.
Definition zero : t := S754_zero false.

(** [math.Max]. *)
Definition max (a b : t) : t :=
  match a, b with
  | S754_infinity false, _ | _, S754_infinity false => S754_infinity false
  | S754_nan, _ | _, S754_nan => S754_nan
  | S754_zero sa, S754_zero _ => if sa then b else a
  | _, _ => if ltb b a then a else b
  end.

(** The conversion [int(x)] of a value that is not a number in range gives
    -2^63 on amd64. *)
Definition int_of (f : bool -> Z -> Z -> Z) (x : t) : Z :=
  match x with
  | S754_zero _ => 0
  | S754_finite s m e =>
    let v := f s (Zpos m) e in
    if (- 2 ^ 63 <=? v) && (v <? 2 ^ 63) then v else - 2 ^ 63
  | _ => - 2 ^ 63
  end.

(** [int(math.Ceil(x))] and [int(math.Round(x))], half away from zero; [x] is
    [(-1)^s * m * 2^e]. *)
Definition ceil_int : t -> Z :=
  int_of (fun s m e =>
    if 0 <=? e then (if s then - (m * 2 ^ e) else m * 2 ^ e)
    else if s then - (m / 2 ^ (- e)) else (m + 2 ^ (- e) - 1) / 2 ^ (- e)).
Definition round_int : t -> Z :=
  int_of (fun s m e =>
    let r := if 0 <=? e then m * 2 ^ e else (m + 2 ^ (- e - 1)) / 2 ^ (- e) in
    if s then - r else r).
(** [int(math.Floor(x))] and [int(x)], which rounds towards zero. *)
Definition floor_int : t -> Z :=
  int_of (fun s m e =>
    if 0 <=? e then (if s then - (m * 2 ^ e) else m * 2 ^ e)
    else if s then - ((m + 2 ^ (- e) - 1) / 2 ^ (- e)) else m / 2 ^ (- e)).
Definition trunc_int : t -> Z :=
  int_of (fun s m e =>
    let r := if 0 <=? e then m * 2 ^ e else m / 2 ^ (- e) in
    if s then - r else r).

(** [-x] and [math.Abs(x)]. *)
Definition neg (a : t) : t := SFopp a.
Definition abs (a : t) : t := SFabs a.
End F64.

(** * [elasticTalkbackPlayout] *)
Module Elastic.
Import Fifo.

Definition elasticRatioScale : Z := 1000000.
Definition elasticMaxStretchPPM : Z := 20000.
Definition elasticMaxCompressionPPM : Z := 30000.
Definition elasticFadeDuration : Z := 5000000.
Definition Second : Z := 1000000000.
Definition pcmGainScale : Z := 32768.

Definition minimumElasticInput (blockSamples : Z) : Z :=
  (blockSamples * (elasticRatioScale - elasticMaxStretchPPM) + elasticRatioScale - 1) / elasticRatioScale.
Definition maximumElasticInput (blockSamples : Z) : Z :=
  blockSamples * (elasticRatioScale + elasticMaxCompressionPPM) / elasticRatioScale.

(** ** Gains *)

(** The half-Hann window: [cos_gain i] is [int32(math.Round(gain * 32768))] of
    the cosine formula at index [i], which the two endpoints override. *)
Definition makeHalfHannQ15 (cos_gain : Z -> Z) (samples : Z) : list Z :=
  if samples <? 2 then [pcmGainScale]
  else 0 :: map cos_gain (seqZ 1 (samples - 2)) ++ [pcmGainScale].

Definition mappedWindowGain (window : list Z) (position count : Z) : Z :=
  if (len window =? 0) || (count <=? 0) then pcmGainScale
  else if (count =? 1) || (len window =? 1) then at_ window 0
  else
    let index := (position * (len window - 1) + (count - 1) / 2) / (count - 1) in
    at_ window (if len window <=? index then len window - 1 else index).

Definition scalePCM (sample gain : Z) : Z := clampInt16 (Z.quot (sample * gain) pcmGainScale).

Definition applyFadeIn (samples window : list Z) : list Z :=
  let count := Z.min (len samples) (len window) in
  imap (fun i s => if Z.of_nat i <? count
                   then scalePCM s (mappedWindowGain window (Z.of_nat i) count) else s) samples.

(** For a single sample only the last one is set to 0. *)
Definition applyFadeOut (samples fadeIn : list Z) : list Z :=
  let count := Z.min (len samples) (len fadeIn) in
  if count =? 1 then take (length samples - 1) samples ++ [0]
  else
    let start := len samples - count in
    imap (fun i s => if start <=? Z.of_nat i
                     then scalePCM s (pcmGainScale - mappedWindowGain fadeIn (Z.of_nat i - start) count)
                     else s) samples.

Definition applyBoundarySplice (samples : list Z) (previous : Z) (fadeIn : list Z) : list Z :=
  let count := Z.min (len samples) (len fadeIn) in
  imap (fun i s =>
    if Z.of_nat i <? count then
      let inGain := mappedWindowGain fadeIn (Z.of_nat i) count in
      let outGain := pcmGainScale - inGain in
      clampInt16 (Z.quot (previous * outGain + s * inGain) pcmGainScale)
    else s) samples.

Definition applyDecayingTail (samples : list Z) (previous : Z) (fadeIn : list Z) : list Z :=
  let count := Z.min (len samples) (len fadeIn) in
  imap (fun i s => if Z.of_nat i <? count
                   then scalePCM previous (pcmGainScale - mappedWindowGain fadeIn (Z.of_nat i) count)
                   else s) samples.

(** ** State *)

Record playout := mkPlayout {
  fadeInQ15 : list Z;
  havePostDepth : bool;
  lastPostDepth : Z;
  haveTrend : bool;
  supplyTrend : F64.t;
  recoveryPending : bool;
  overflowPending : bool;
  haveLastOutput : bool;
  lastOutput : Z;
}.

Definition newElasticTalkbackPlayout (cos_gain : Z -> Z -> Z) (outputRate : Z) : playout :=
  let fadeSamples := (outputRate * elasticFadeDuration + Second - 1) / Second in
  let fadeSamples := if fadeSamples <? 2 then 2 else fadeSamples in
  mkPlayout (makeHalfHannQ15 (cos_gain fadeSamples) fadeSamples)
    false 0 false F64.zero false false false 0.

Definition ResetTimeline (p : playout) : playout :=
  mkPlayout (fadeInQ15 p) false 0 false F64.zero (recoveryPending p) true (haveLastOutput p) (lastOutput p).
Definition MarkOverflow (p : playout) : playout :=
  mkPlayout (fadeInQ15 p) false (lastPostDepth p) false F64.zero (recoveryPending p) true
    (haveLastOutput p) (lastOutput p).

(** The trend update at the head of [chooseConsume]. *)
Definition update_trend (p : playout) (depth blockSamples : Z) : playout :=
  if havePostDepth p then
    let drift := F64.of_Z (depth - lastPostDepth p - blockSamples) in
    let trend := if haveTrend p
      then F64.add (F64.mul F64.three_quarters (supplyTrend p)) (F64.mul F64.quarter drift)
      else drift in
    mkPlayout (fadeInQ15 p) (havePostDepth p) (lastPostDepth p) true trend (recoveryPending p)
      (overflowPending p) (haveLastOutput p) (lastOutput p)
  else p.

Definition chooseConsume (p : playout) (depth blockSamples : Z) : Z * playout :=
  if (depth <=? 0) || (blockSamples <=? 0) then (0, p)
  else
    let p := update_trend p depth blockSamples in
    let minimum := minimumElasticInput blockSamples in
    let maximum := maximumElasticInput blockSamples in
    let projected := if haveTrend p then F64.add (F64.of_Z depth) (supplyTrend p) else F64.of_Z depth in
    let consume :=
      if depth <? blockSamples then depth
      else if F64.ltb projected (F64.of_Z blockSamples) then
        let reserve := F64.ceil_int (F64.sub (F64.of_Z blockSamples) projected) in
        blockSamples - Z.min (blockSamples - minimum) reserve
      else
        let pressure := F64.max (F64.of_Z depth) projected in
        let highWater := F64.of_Z blockSamples in
        let ceiling := F64.of_Z (blockSamples * 4) in
        if F64.ltb highWater pressure then
          let fraction := F64.div (F64.sub pressure highWater) (F64.sub ceiling highWater) in
          let fraction := if F64.ltb F64.one fraction then F64.one else fraction in
          blockSamples + F64.round_int (F64.mul fraction (F64.of_Z (maximum - blockSamples)))
        else blockSamples in
    let consume := if (consume <? minimum) && (minimum <=? depth) then minimum else consume in
    let consume := if maximum <? consume then maximum else consume in
    let consume := if depth <? consume then depth else consume in
    (consume, p).

Record popResult := mkResult {
  block : list Z; depthBefore : Z; depthAfter : Z; consumed : Z; validOutput : Z;
  rawShortage : Z; missing : Z; ratioPPM : Z; stretched : Z; compressed : Z;
  fadeOut : bool; fadeIn : bool; overflowSplice : bool; trend : F64.t;
}.

(** How many output samples the consumed input fills. *)
Definition valid_output (consumed blockSamples : Z) : Z :=
  if consumed =? 0 then 0
  else if consumed <? minimumElasticInput blockSamples then
    let v := consumed * elasticRatioScale / (elasticRatioScale - elasticMaxStretchPPM) in
    let v := if v <? consumed then consumed else v in
    if blockSamples <? v then blockSamples else v
  else blockSamples.

(** The switch on the start of the block: its valid samples, whether it faded
    in, whether it was spliced, and the two pending flags. *)
Definition shape_start (p : playout) (valid : list Z) : list Z * bool * bool * bool * bool :=
  if decide (valid = []) then (valid, false, false, recoveryPending p, overflowPending p)
  else if recoveryPending p then (applyFadeIn valid (fadeInQ15 p), true, false, false, false)
  else if overflowPending p && haveLastOutput p then
    (applyBoundarySplice valid (lastOutput p) (fadeInQ15 p), false, true, recoveryPending p, false)
  else (valid, false, false, recoveryPending p, false).

(** The end of the block when samples are missing: the whole block and whether
    it faded out. *)
Definition shape_end (p : playout) (valid : list Z) (missing : Z) : list Z * bool :=
  let silence := replicate (Z.to_nat missing) 0 in
  if missing <=? 0 then (valid ++ silence, false)
  else if decide (valid = []) then
    if haveLastOutput p && negb (lastOutput p =? 0)
    then (applyDecayingTail silence (lastOutput p) (fadeInQ15 p), true)
    else (silence, false)
  else (applyFadeOut valid (fadeInQ15 p) ++ silence, true).

(** [Pop] for a receiver and a FIFO that are not nil. *)
Definition Pop (p : playout) (fifo : sampleFIFO) (blockSamples : Z) : popResult * playout * sampleFIFO :=
  if blockSamples <=? 0 then
    (mkResult [] 0 0 0 0 0 0 elasticRatioScale 0 0 false false false F64.zero, p, fifo)
  else
    let depthBefore := Len fifo in
    let rawShortage := Z.max 0 (blockSamples - depthBefore) in
    let '(consume, p) := chooseConsume p depthBefore blockSamples in
    let consume := if depthBefore <? consume then depthBefore else consume in
    let '(input, fifo) := Fifo.Pop fifo consume in
    let consumed := len input in
    let validOutput := valid_output consumed blockSamples in
    let ratioPPM := if 0 <? validOutput then consumed * elasticRatioScale / validOutput else elasticRatioScale in
    let missing := blockSamples - validOutput in
    let '(valid, fadeIn, splice, recovery, overflow) := shape_start p (resamplePCMBlock input validOutput) in
    let '(blk, fadeOut) := shape_end p valid missing in
    let short := 0 <? missing in
    let recovery := recovery || short in
    let overflow := overflow && negb short in
    let trend := if short then F64.zero else supplyTrend p in
    let depthAfter := Len fifo in
    (mkResult blk depthBefore depthAfter consumed validOutput rawShortage missing ratioPPM
       (Z.max 0 (validOutput - consumed)) (Z.max 0 (consumed - validOutput)) fadeOut fadeIn splice trend,
     mkPlayout (fadeInQ15 p) (if short then false else true)
       (if short then lastPostDepth p else depthAfter)
       (if short then false else haveTrend p) trend recovery overflow true (at_ blk (len blk - 1)),
     fifo).

(** ** The consumption the controller chooses *)

Definition window_ok (w : list Z) : Prop :=
  2 <= len w /\ at_ w 0 = 0 /\ at_ w (len w - 1) = pcmGainScale /\ Forall (fun g => 0 <= g <= pcmGainScale) w.

Definition playout_ok (p : playout) : Prop := window_ok (fadeInQ15 p) /\ sfits 16 (lastOutput p).

Lemma elastic_range b :
  0 < b -> 0 < minimumElasticInput b <= b /\ b <= maximumElasticInput b /\
           (forall c, minimumElasticInput b <= c <-> b * 980000 <= c * 1000000) /\
           (forall c, c <= maximumElasticInput b <-> c * 1000000 <= b * 1030000).
Proof.
  unfold minimumElasticInput, maximumElasticInput, elasticRatioScale, elasticMaxStretchPPM, elasticMaxCompressionPPM.
  intros Hb. repeat split; intros; Z.to_euclidean_division_equations; lia.
Qed.

Lemma update_trend_frame p d b :
  let q := update_trend p d b in
  fadeInQ15 q = fadeInQ15 p /\ lastOutput q = lastOutput p /\ haveLastOutput q = haveLastOutput p /\
  recoveryPending q = recoveryPending p /\ overflowPending q = overflowPending p.
Proof. unfold update_trend. cbv zeta. by destruct (havePostDepth p). Qed.

Lemma chooseConsume_frame p d b :
  let q := (chooseConsume p d b).2 in
  fadeInQ15 q = fadeInQ15 p /\ lastOutput q = lastOutput p /\ haveLastOutput q = haveLastOutput p /\
  recoveryPending q = recoveryPending p /\ overflowPending q = overflowPending p.
Proof. unfold chooseConsume. destruct (_ || _); [done|]. cbn. apply update_trend_frame. Qed.

Lemma chooseConsume_range p d b :
  0 < b -> 0 <= d ->
  let c := (chooseConsume p d b).1 in
  (d < b -> c = d) /\ 0 <= c <= d /\ c <= maximumElasticInput b /\ (minimumElasticInput b <= d -> minimumElasticInput b <= c).
Proof.
  intros Hb Hd. destruct (elastic_range b Hb) as (Hm & HM & _). unfold chooseConsume.
  destruct (_ || _) eqn:E0; cbn; [lia|].
  set (m := minimumElasticInput b) in *. set (M := maximumElasticInput b) in *. clearbody m M.
  destruct (d <? b) eqn:E1; [ifs; lia|].
  match goal with |- context [if F64.ltb ?x ?y then ?u else ?v] => generalize (if F64.ltb x y then u else v) end.
  intros z. destruct ((z <? m) && (m <=? d)) eqn:E2; ifs; lia.
Qed.

(** ** Gains and edges *)

Lemma mapped_range w i c : window_ok w -> 0 <= mappedWindowGain w i c <= pcmGainScale.
Proof.
  intros (Hl & H0 & _ & Hw). unfold mappedWindowGain.
  assert (forall j, 0 <= at_ w j <= pcmGainScale) as Hat.
  { intros j. unfold at_. destruct (nth_in_or_default (Z.to_nat j) w 0) as [Hi | ->]; [|done].
    rewrite Forall_forall in Hw. apply Hw. by apply list_elem_of_In. }
  ifs; auto. done.
Qed.

Lemma half_small c : 1 < c -> 0 <= (c - 1) / 2 < c - 1.
Proof. intros H. set (d := c - 1). assert (0 < d) by lia. clearbody d. Z.to_euclidean_division_equations; lia. Qed.

Lemma mapped_first w c : window_ok w -> 0 < c -> mappedWindowGain w 0 c = 0.
Proof.
  intros (Hl & H0 & _ & _) Hc. unfold mappedWindowGain.
  rewrite (proj2 (orb_false_iff _ _)) by (split; [apply Z.eqb_neq|apply Z.leb_gt]; lia).
  destruct ((c =? 1) || _) eqn:E2; [done|].
  rewrite Z.mul_0_l, Z.add_0_l. replace ((c - 1) / 2 / (c - 1)) with 0.
  2:{ symmetry. apply Z.div_small. apply half_small; lia. }
  by destruct (len w <=? 0) eqn:E3; [lia|].
Qed.

Lemma mapped_last w c : window_ok w -> 1 < c -> mappedWindowGain w (c - 1) c = pcmGainScale.
Proof.
  intros (Hl & _ & H1 & _) Hc. unfold mappedWindowGain.
  rewrite (proj2 (orb_false_iff _ _)) by (split; [apply Z.eqb_neq|apply Z.leb_gt]; lia).
  rewrite (proj2 (orb_false_iff (c =? 1) _)) by (split; apply Z.eqb_neq; lia).
  replace (((c - 1) * (len w - 1) + (c - 1) / 2) / (c - 1)) with (len w - 1).
  2:{ rewrite Z.mul_comm, Z.div_add_l by lia. rewrite (Z.div_small ((c - 1) / 2)); [lia|].
      apply half_small; lia. }
  by destruct (len w <=? len w - 1) eqn:E3; [lia|].
Qed.

Lemma clampInt16_range z : sfits 16 (clampInt16 z).
Proof. unfold clampInt16, s16. ifs; width. Qed.
Lemma scalePCM_0 g : scalePCM 0 g = 0.
Proof. done. Qed.
Lemma scalePCM_mute x : scalePCM x 0 = 0.
Proof. unfold scalePCM. by rewrite Z.mul_0_r. Qed.
Lemma scalePCM_unit x : sfits 16 x -> scalePCM x pcmGainScale = x.
Proof.
  intros. unfold scalePCM. rewrite Z.quot_mul by done. by apply clampInt16_id.
Qed.

Lemma forall_imap (P : Z -> Prop) (f : nat -> Z -> Z) l :
  (forall i x, l !! i = Some x -> P (f i x)) -> Forall P (imap f l).
Proof.
  intros H. apply Forall_lookup. intros i y. rewrite list_lookup_imap.
  destruct (l !! i) eqn:E; simpl; [|done]. intros [= <-]. by apply H.
Qed.

Lemma at_imap (f : nat -> Z -> Z) l i :
  0 <= i < len l -> at_ (imap f l) i = f (Z.to_nat i) (at_ l i).
Proof.
  intros Hi. assert (imap f l !! Z.to_nat i = Some (f (Z.to_nat i) (at_ l i))) as H.
  { rewrite list_lookup_imap. by rewrite at_lookup. }
  rewrite at_lookup in H; [congruence|by rewrite length_imap].
Qed.

(** [shaped P l l']: same length, samples stay in range. *)
Lemma fade_pcm (c : Z -> bool) (f : nat -> Z -> Z) l :
  pcm_ok l -> (forall i x, sfits 16 (f i x)) ->
  pcm_ok (imap (fun i s => if c (Z.of_nat i) then f i s else s) l).
Proof.
  intros Hl Hf. apply forall_imap. intros i x Hx. destruct (c _); [done|].
  rewrite Forall_lookup in Hl. eauto.
Qed.

Lemma applyFadeIn_ok l w : pcm_ok l -> pcm_ok (applyFadeIn l w) /\ length (applyFadeIn l w) = length l.
Proof.
  intros. unfold applyFadeIn. split; [|apply length_imap].
  apply (fade_pcm (fun i => i <? Z.min (len l) (len w))); [done|]. intros. apply clampInt16_range.
Qed.
Lemma applyBoundarySplice_ok l v w :
  pcm_ok l -> pcm_ok (applyBoundarySplice l v w) /\ length (applyBoundarySplice l v w) = length l.
Proof.
  intros. unfold applyBoundarySplice. split; [|apply length_imap].
  apply (fade_pcm (fun i => i <? Z.min (len l) (len w))); [done|]. intros. apply clampInt16_range.
Qed.
Lemma applyDecayingTail_ok l v w :
  pcm_ok l -> pcm_ok (applyDecayingTail l v w) /\ length (applyDecayingTail l v w) = length l.
Proof.
  intros. unfold applyDecayingTail. split; [|apply length_imap].
  apply (fade_pcm (fun i => i <? Z.min (len l) (len w))); [done|]. intros. apply clampInt16_range.
Qed.
Lemma applyFadeOut_ok l w :
  pcm_ok l -> pcm_ok (applyFadeOut l w) /\ length (applyFadeOut l w) = length l.
Proof.
  intros Hl. unfold applyFadeOut. cbv zeta. destruct (_ =? 1) eqn:E.
  - split; [apply Forall_app; split; [by apply Forall_take|repeat constructor; width]|].
    rewrite length_app, length_take. cbn [length]. lia.
  - split; [|apply length_imap].
    apply (fade_pcm (fun i => len l - Z.min (len l) (len w) <=? i)
      (fun i s => scalePCM s (pcmGainScale - mappedWindowGain w (Z.of_nat i - (len l - Z.min (len l) (len w))) (Z.min (len l) (len w))))); [done|].
    intros. apply clampInt16_range.
Qed.

Lemma applyFadeIn_first l w : window_ok w -> l <> [] -> at_ (applyFadeIn l w) 0 = 0.
Proof.
  intros Hw Hl. assert (0 < len l) by (destruct l; [done|cbn [length]; lia]).
  unfold applyFadeIn. rewrite at_imap by lia. cbn beta.
  rewrite (proj2 (Z.ltb_lt _ _)) by (destruct Hw; lia).
  change (Z.of_nat (Z.to_nat 0)) with 0. rewrite mapped_first by (done || destruct Hw; lia).
  apply scalePCM_mute.
Qed.

Lemma applyBoundarySplice_first l v w :
  window_ok w -> sfits 16 v -> l <> [] -> at_ (applyBoundarySplice l v w) 0 = v.
Proof.
  intros Hw Hv Hl. assert (0 < len l) by (destruct l; [done|cbn [length]; lia]).
  unfold applyBoundarySplice. rewrite at_imap by lia. cbv beta zeta.
  rewrite (proj2 (Z.ltb_lt _ _)) by (destruct Hw; lia).
  change (Z.of_nat (Z.to_nat 0)) with 0. rewrite mapped_first by (done || destruct Hw; lia).
  rewrite Z.mul_0_r, Z.add_0_r, Z.sub_0_r, Z.quot_mul by done. by apply clampInt16_id.
Qed.

Lemma applyDecayingTail_first l v w :
  window_ok w -> sfits 16 v -> l <> [] -> at_ (applyDecayingTail l v w) 0 = v.
Proof.
  intros Hw Hv Hl. assert (0 < len l) by (destruct l; [done|cbn [length]; lia]).
  unfold applyDecayingTail. rewrite at_imap by lia. cbv beta zeta.
  rewrite (proj2 (Z.ltb_lt _ _)) by (destruct Hw; lia).
  change (Z.of_nat (Z.to_nat 0)) with 0. rewrite mapped_first by (done || destruct Hw; lia).
  rewrite Z.sub_0_r. by apply scalePCM_unit.
Qed.

Lemma applyFadeOut_last l w : window_ok w -> l <> [] -> at_ (applyFadeOut l w) (len l - 1) = 0.
Proof.
  intros Hw Hl. assert (0 < len l) by (destruct l; [done|cbn [length]; lia]).
  unfold applyFadeOut. cbv zeta. destruct (_ =? 1) eqn:E.
  - unfold at_. rewrite app_nth2; rewrite length_take; [|lia].
    replace (_ - _)%nat with 0%nat by lia. done.
  - rewrite at_imap by lia. cbv beta. rewrite Z2Nat.id by lia.
    assert (2 <= len w) by apply Hw. rewrite (proj2 (Z.leb_le _ _)) by lia.
    replace (len l - 1 - _) with (Z.min (len l) (len w) - 1) by lia.
    rewrite mapped_last by (done || lia). apply scalePCM_mute.
Qed.

Lemma at_app_l l k i : 0 <= i < len l -> at_ (l ++ k) i = at_ l i.
Proof. intros. unfold at_. rewrite app_nth1 by lia. done. Qed.

Lemma applyFadeOut_first l w : window_ok w -> l <> [] -> at_ l 0 = 0 -> at_ (applyFadeOut l w) 0 = 0.
Proof.
  intros Hw Hl H0. assert (0 < len l) by (destruct l; [done|cbn [length]; lia]).
  unfold applyFadeOut. cbv zeta. destruct (_ =? 1) eqn:E.
  - assert (len l = 1) by (destruct Hw; lia). replace (length l - 1)%nat with 0%nat by lia. done.
  - rewrite at_imap by lia. rewrite H0. by destruct (_ <=? _).
Qed.

(** ** [Pop] *)

Lemma resample_len input n : len (resamplePCMBlock input n) = Z.max 0 n.
Proof.
  unfold resamplePCMBlock. ifs; rewrite ?length_replicate, ?length_map_seqZ; cbn [length]; lia.
Qed.

Lemma resample_pcm input n : pcm_ok input -> pcm_ok (resamplePCMBlock input n).
Proof.
  intros Hi. assert (forall i, sfits 16 (at_ input i)) as Hat.
  { intros i. unfold at_. destruct (nth_in_or_default (Z.to_nat i) input 0) as [H | ->]; [|width].
    rewrite Forall_forall in Hi. apply Hi. by apply list_elem_of_In. }
  unfold resamplePCMBlock. ifs; try done; try (apply Forall_replicate; first [apply Hat|width]).
  - repeat constructor; apply Hat.
  - apply forall_map_seqZ. intros i _. unfold pcm_sample. cbv zeta. ifs; [apply Hat|apply clampInt16_range].
Qed.

Lemma valid_output_spec c b :
  0 < b -> 0 <= c ->
  let v := valid_output c b in
  0 <= v <= b /\ (v = 0 <-> c = 0) /\ (minimumElasticInput b <= c -> v = b) /\
  (c < minimumElasticInput b -> c <= v < b /\ v * 980000 <= c * 1000000).
Proof.
  intros Hb Hc. destruct (elastic_range b Hb) as (Hm & _ & Hmin & _). specialize (Hmin c).
  unfold valid_output. set (m := minimumElasticInput b) in *. clearbody m. cbv zeta.
  change (elasticRatioScale - elasticMaxStretchPPM) with 980000.
  change elasticRatioScale with 1000000.
  assert (c * 1000000 / 980000 * 980000 <= c * 1000000 < (c * 1000000 / 980000 + 1) * 980000) by
    (Z.to_euclidean_division_equations; lia).
  set (v := c * 1000000 / 980000) in *. clearbody v. ifs; lia.
Qed.

Lemma shape_start_spec p valid v fi sp rc ov :
  playout_ok p -> pcm_ok valid -> shape_start p valid = (v, fi, sp, rc, ov) ->
  pcm_ok v /\ length v = length valid /\
  (valid <> [] -> recoveryPending p = true -> at_ v 0 = 0) /\
  (valid <> [] -> recoveryPending p = false -> overflowPending p = true -> haveLastOutput p = true ->
     at_ v 0 = lastOutput p) /\
  (valid = [] -> rc = recoveryPending p).
Proof.
  intros [Hw Ho] Hv. unfold shape_start.
  destruct (decide (valid = [])) as [-> | Hne]; [intros [= <- <- <- <- <-]; done|].
  pose proof (applyFadeIn_ok valid (fadeInQ15 p) Hv) as [Ha1 Ha2].
  pose proof (applyBoundarySplice_ok valid (lastOutput p) (fadeInQ15 p) Hv) as [Hb1 Hb2].
  destruct (recoveryPending p) eqn:Er; [|destruct (overflowPending p && haveLastOutput p) eqn:Eo];
    intros [= <- <- <- <- <-]; (split; [done|]); (split; [done|]).
  - split; [intros _ _; by apply applyFadeIn_first|done].
  - split; [done|]. split; [intros _ _; by intros; apply applyBoundarySplice_first|done].
  - split; [done|]. split; [|done]. intros _ _ E1 E2. by rewrite E1, E2 in Eo.
Qed.

Lemma shape_end_spec p v missing blk fo :
  playout_ok p -> pcm_ok v -> 0 <= missing -> shape_end p v missing = (blk, fo) ->
  pcm_ok blk /\ len blk = len v + missing /\
  (v <> [] -> 0 < missing -> at_ blk (len v - 1) = 0 /\ drop (length v) blk = replicate (Z.to_nat missing) 0) /\
  (v <> [] -> (missing = 0 \/ at_ v 0 = 0) -> at_ blk 0 = at_ v 0) /\
  (v = [] -> 0 < missing -> haveLastOutput p = true -> at_ blk 0 = lastOutput p).
Proof.
  intros [Hw Ho] Hv Hm. unfold shape_end. cbv zeta.
  assert (pcm_ok (replicate (Z.to_nat missing) 0)) as Hr by (apply Forall_replicate; width).
  destruct (missing <=? 0) eqn:Em.
  { intros [= <- <-]. assert (missing = 0) as -> by lia. cbn [Z.to_nat replicate]. rewrite app_nil_r.
    split; [done|]. split; [lia|]. split; [lia|]. split; [done|lia]. }
  destruct (decide (v = [])) as [-> | Hne].
  - pose proof (applyDecayingTail_ok (replicate (Z.to_nat missing) 0) (lastOutput p) (fadeInQ15 p) Hr) as [Ha1 Ha2].
    assert (replicate (Z.to_nat missing) 0 <> []) as Hne.
    { destruct (Z.to_nat missing) eqn:E; [lia|done]. }
    destruct (_ && _) eqn:El; intros [= <- <-]; (split; [done|]).
    + split; [rewrite Ha2, length_replicate; cbn [length]; lia|]. split; [done|]. split; [done|].
      intros _ _ _. by apply applyDecayingTail_first.
    + split; [rewrite length_replicate; cbn [length]; lia|]. split; [done|]. split; [done|].
      intros _ _ Hh. rewrite Hh in El. cbn in El. destruct (Z.eqb_spec (lastOutput p) 0) as [-> |]; [|done].
      by destruct (Z.to_nat missing).
  - pose proof (applyFadeOut_ok v (fadeInQ15 p) Hv) as [Ha1 Ha2].
    assert (0 < len v) by (destruct v; [done|cbn [length]; lia]).
    intros [= <- <-]. split; [by apply Forall_app|]. split; [rewrite len_app, Ha2, length_replicate; lia|].
    split; [|split; [|done]].
    + intros _ _. rewrite at_app_l by lia. split; [by apply applyFadeOut_last|].
      by rewrite <- Ha2, drop_app_length.
    + intros _ [E | E]; [lia|]. rewrite at_app_l by lia. rewrite E. by apply applyFadeOut_first.
Qed.

(** What [Pop] does, in terms of the pieces. *)
Lemma Pop_steps p fifo bs r p' fifo' :
  0 < bs -> wf fifo -> Pop p fifo bs = (r, p', fifo') ->
  let q := (chooseConsume p (Len fifo) bs).2 in
  exists input v rc ov,
    buf fifo = input ++ buf fifo' /\ max fifo' = max fifo /\
    len input = (chooseConsume p (Len fifo) bs).1 /\ consumed r = len input /\
    validOutput r = valid_output (len input) bs /\ missing r = bs - validOutput r /\
    depthAfter r = Len fifo' /\
    shape_start q (resamplePCMBlock input (validOutput r)) = (v, fadeIn r, overflowSplice r, rc, ov) /\
    shape_end q v (missing r) = (block r, fadeOut r) /\
    fadeInQ15 p' = fadeInQ15 p /\ haveLastOutput p' = true /\ lastOutput p' = at_ (block r) (len (block r) - 1) /\
    recoveryPending p' = rc || (0 <? missing r) /\ overflowPending p' = ov && negb (0 <? missing r).
Proof.
  intros Hb Hw. unfold Pop. rewrite (proj2 (Z.leb_gt _ _)) by lia.
  pose proof (chooseConsume_range p (Len fifo) bs Hb ltac:(unfold Len; lia)) as Hc.
  pose proof (chooseConsume_frame p (Len fifo) bs) as Hq. cbv zeta in Hc, Hq.
  destruct (chooseConsume p (Len fifo) bs) as [c q] eqn:Ec. cbn [fst snd] in *.
  destruct (Len fifo <? c) eqn:E1; [lia|].
  destruct (Fifo.Pop fifo c) as [input f'] eqn:Ep. apply Pop_spec in Ep as (Hi1 & Hi2 & Hi3).
  destruct (shape_start q _) as [[[[v fi] sp] rc] ov] eqn:Es.
  destruct (shape_end q v _) as [blk fo] eqn:Ee. intros [= <- <- <-]. cbn.
  exists input, v, rc, ov. split; [done|]. split; [done|]. split; [unfold Len in *; lia|].
  do 4 (split; [done|]). split; [exact Es|]. split; [exact Ee|]. split; [by rewrite (proj1 Hq)|].
  by repeat (split; [done|]).
Qed.

(** The shape of the block and of the state after [Pop]. *)
Lemma Pop_block p p' fifo fifo' bs r :
  0 < bs -> wf fifo -> pcm_ok (buf fifo) -> playout_ok p -> Pop p fifo bs = (r, p', fifo') ->
  len (block r) = bs /\ pcm_ok (block r) /\ playout_ok p' /\ wf fifo' /\ max fifo' = max fifo /\ pcm_ok (buf fifo').
Proof.
  intros Hb Hw Hp [Hwin Hlo] H. apply Pop_steps in H as
    (input & v & rc & ov & Hbuf & Hmax & Hin & Hcons & Hval & Hmis & Hda & Hs & He & Hfi & Hh & Hlast & _);
    [|done|done].
  pose proof (chooseConsume_frame p (Len fifo) bs) as (F1 & F2 & _). cbv zeta in *.
  destruct (valid_output_spec (len input) bs Hb ltac:(lia)) as (V1 & _). rewrite <- Hval in V1.
  assert (playout_ok (chooseConsume p (Len fifo) bs).2) as Hq by (split; [by rewrite F1|by rewrite F2]).
  rewrite Hbuf in Hp. apply Forall_app in Hp as [Hpi Hpr].
  apply shape_start_spec in Hs as (S1 & S2 & _); [|done|by apply resample_pcm].
  apply shape_end_spec in He as (B1 & B2 & _); [|done|done|lia].
  assert (len (block r) = bs) as Hlen by (rewrite B2, S2, resample_len; lia).
  split; [done|]. split; [done|]. split.
  { split; [by rewrite Hfi|]. rewrite Hlast. rewrite Forall_lookup in B1. apply (B1 (Z.to_nat (len (block r) - 1))).
    apply at_lookup. lia. }
  destruct Hw as [W1 W2]. split; [split; [lia|]|by split]. rewrite Hmax. rewrite Hbuf, len_app in W2. lia.
Qed.

(** Whatever the supply trend says, a block that is due is played at once
    and full length: its input is the front of the queue, in order; when the
    queue holds 98% of a block nothing is missing and the time is stretched by
    at most 2% or compressed by at most 3%; with less the queue is emptied, no
    sample is discarded and the stretch is still at most 2%.  The state stays
    well formed. *)
Theorem Pop_conserves (p p' : playout) (fifo fifo' : sampleFIFO) (bs : Z) (r : popResult) :
  0 < bs -> wf fifo -> pcm_ok (buf fifo) -> playout_ok p ->
  Pop p fifo bs = (r, p', fifo') ->
  len (block r) = bs /\ pcm_ok (block r) /\ playout_ok p' /\ wf fifo' /\
  (exists input, buf fifo = input ++ buf fifo' /\ len input = consumed r) /\
  validOutput r + missing r = bs /\
  if bs * 980000 <=? Len fifo * 1000000
  then missing r = 0 /\ bs * 980000 <= consumed r * 1000000 <= bs * 1030000
  else buf fifo' = [] /\ 0 < missing r /\ consumed r <= validOutput r /\
       validOutput r * 980000 <= consumed r * 1000000.
Proof.
  intros Hb Hw Hp Hok H.
  destruct (Pop_block _ _ _ _ _ _ Hb Hw Hp Hok H) as (B1 & B2 & B3 & B4 & _).
  apply Pop_steps in H as (input & v & rc & ov & Hbuf & Hmax & Hin & Hcons & Hval & Hmis & _); [|done|done].
  pose proof (chooseConsume_range p (Len fifo) bs Hb ltac:(unfold Len; lia)) as (R1 & R2 & R3 & R4).
  rewrite <- Hin in R1, R2, R3, R4. rewrite <- Hcons in R1, R2, R3, R4, Hval.
  destruct (valid_output_spec (consumed r) bs Hb ltac:(lia)) as (V1 & V2 & V3 & V4). rewrite <- Hval in V1, V2, V3, V4.
  destruct (elastic_range bs Hb) as (E1 & E2 & E3 & E4).
  assert (len (buf fifo) = consumed r + len (buf fifo')) as HL by (rewrite Hbuf, len_app; lia).
  do 4 (split; [done|]). split; [by exists input|]. split; [lia|].
  specialize (E3 (Len fifo)) as E3'. specialize (E3 (consumed r)). specialize (E4 (consumed r)).
  unfold Len in *. destruct (_ <=? _) eqn:E; [lia|].
  split; [apply len_0; lia|]. lia.
Qed.

(** No clicks.  When a block cannot be filled, its last valid sample is 0
    and silence follows, so the next block that has samples starts at 0; a block
    with no input at all starts from the previous output sample; and after
    dropped samples the next block starts exactly at the last output. *)
Theorem Pop_edges (p p' : playout) (fifo fifo' : sampleFIFO) (bs : Z) (r : popResult) :
  0 < bs -> wf fifo -> pcm_ok (buf fifo) -> playout_ok p ->
  Pop p fifo bs = (r, p', fifo') ->
  (0 < missing r -> recoveryPending p' = true) /\
  (0 < missing r -> 0 < validOutput r ->
     at_ (block r) (validOutput r - 1) = 0 /\
     drop (Z.to_nat (validOutput r)) (block r) = replicate (Z.to_nat (missing r)) 0) /\
  (recoveryPending p = true -> 0 < validOutput r -> at_ (block r) 0 = 0) /\
  (recoveryPending p = true -> validOutput r = 0 -> recoveryPending p' = true) /\
  (haveLastOutput p = true -> validOutput r = 0 -> at_ (block r) 0 = lastOutput p) /\
  (recoveryPending p = false -> overflowPending p = true -> haveLastOutput p = true -> missing r = 0 ->
     at_ (block r) 0 = lastOutput p) /\
  lastOutput p' = at_ (block r) (bs - 1).
Proof.
  intros Hb Hw Hp [Hwin Hlo] H. apply Pop_steps in H as
    (input & v & rc & ov & Hbuf & _ & Hin & _ & Hval & Hmis & _ & Hs & He & _ & _ & Hlast & Hrec & _);
    [|done|done].
  pose proof (chooseConsume_frame p (Len fifo) bs) as (F1 & F2 & F3 & F4 & F5). cbv zeta in *.
  destruct (valid_output_spec (len input) bs Hb ltac:(lia)) as (V1 & _). rewrite <- Hval in V1.
  assert (playout_ok (chooseConsume p (Len fifo) bs).2) as Hq by (split; [by rewrite F1|by rewrite F2]).
  rewrite Hbuf in Hp. apply Forall_app in Hp as [Hpi _].
  pose proof (resample_len input (validOutput r)) as RL.
  apply shape_start_spec in Hs as (S1 & S2 & S3 & S4 & S5); [|done|by apply resample_pcm].
  assert (len v = validOutput r) as Hv by lia.
  assert (0 < validOutput r -> resamplePCMBlock input (validOutput r) <> [] /\ v <> []) as Hne.
  { intros ?. split; intros E; rewrite E in *; cbn [length] in *; lia. }
  assert (validOutput r = 0 -> resamplePCMBlock input (validOutput r) = [] /\ v = []) as Hnil.
  { intros ?. split; apply len_0; lia. }
  apply shape_end_spec in He as (B1 & B2 & B3 & B4 & B5); [|done|done|lia].
  rewrite F2, F3, F4, F5 in *. repeat split.
  - intros ?. rewrite Hrec. replace (0 <? missing r) with true by lia. apply orb_true_r.
  - rewrite <- Hv. apply B3; [apply Hne; lia|lia].
  - replace (Z.to_nat (validOutput r)) with (length v) by lia. apply B3; [apply Hne; lia|lia].
  - intros Hr Hpos. destruct (Hne Hpos) as [N1 N2]. rewrite B4; auto.
  - intros Hr Hz. rewrite Hrec, S5, Hr; [done|]. by apply Hnil.
  - intros Hh Hz. destruct (Hnil Hz) as [_ N]. apply B5; [done|lia|done].
  - intros Hr Ho Hh Hm. destruct (Hne ltac:(lia)) as [N1 N2]. rewrite B4; auto.
  - rewrite Hlast. f_equal. lia.
Qed.

(** The window of four samples used by the witnesses; [cos_gain] holds the two
    inner gains of the half-Hann formula. *)
Definition window4 : list Z := makeHalfHannQ15 (fun i => if i =? 1 then 8192 else 24576) 4.
Definition playout4 (recovery overflow : bool) (last : Z) : playout :=
  mkPlayout window4 false 0 false F64.zero recovery overflow true last.

Lemma window4_ok : window_ok window4.
Proof. repeat split; try by vm_compute. repeat constructor; by vm_compute. Qed.

Lemma new_playout_ok cos_gain rate :
  (forall n i, 0 <= cos_gain n i <= pcmGainScale) -> playout_ok (newElasticTalkbackPlayout cos_gain rate).
Proof.
  intros Hc. split; [|cbn; width]. cbn [newElasticTalkbackPlayout fadeInQ15].
  match goal with |- context [makeHalfHannQ15 _ ?n] => set (m := n) end.
  assert (2 <= m) as Hm by (subst m; ifs; lia). clearbody m.
  unfold makeHalfHannQ15. rewrite (proj2 (Z.ltb_ge _ _)) by lia.
  assert (len (0 :: map (cos_gain m) (seqZ 1 (m - 2)) ++ [pcmGainScale]) = m) as HL.
  { rewrite len_cons, len_app, length_map, length_seqZ. cbn [length]. lia. }
  split; [lia|]. split; [done|]. split.
  - rewrite HL. unfold at_. rewrite app_comm_cons, app_nth2; cbn [length]; rewrite length_map, length_seqZ; [|lia].
    replace (_ - _)%nat with 0%nat by lia. done.
  - constructor; [done|]. apply Forall_app. split; [|by repeat constructor].
    apply Forall_forall. intros g (i & -> & _)%list_elem_of_fmap. apply Hc.
Qed.

Lemma Pop_conserves_witness :
  let '(r, p', fifo') := Pop (playout4 false false 7) (mkFIFO [100; 200; 300; 400; 500; 600] 50) 4 in
  len (block r) = 4 /\ wf fifo' /\ missing r = 0.
Proof.
  destruct (Pop (playout4 false false 7) (mkFIFO [100; 200; 300; 400; 500; 600] 50) 4) as [[r p'] fifo'] eqn:E.
  destruct (Pop_conserves (playout4 false false 7) p' (mkFIFO [100; 200; 300; 400; 500; 600] 50) fifo' 4 r)
    as (H1 & _ & _ & H4 & _ & _ & H7).
  - lia.
  - split; cbn; lia.
  - repeat constructor; width.
  - split; [apply window4_ok|cbn; width].
  - exact E.
  - split; [exact H1|]. split; [exact H4|]. vm_compute (4 * 980000 <=? _) in H7. apply H7.
Defined.

Lemma Pop_edges_witness :
  let '(r, p', _) := Pop (playout4 true false 0) (mkFIFO [100; 200; 300] 50) 8 in
  at_ (block r) 0 = 0 /\ at_ (block r) 2 = 0 /\ recoveryPending p' = true.
Proof.
  destruct (Pop (playout4 true false 0) (mkFIFO [100; 200; 300] 50) 8) as [[r p'] fifo'] eqn:E.
  assert (validOutput r = 3 /\ missing r = 5) as [Hv Hm].
  { assert (validOutput (Pop (playout4 true false 0) (mkFIFO [100; 200; 300] 50) 8).1.1 = 3 /\
            missing (Pop (playout4 true false 0) (mkFIFO [100; 200; 300] 50) 8).1.1 = 5) as H.
    { split; vm_compute; reflexivity. }
    by rewrite E in H. }
  destruct (Pop_edges (playout4 true false 0) p' (mkFIFO [100; 200; 300] 50) fifo' 8 r) as (H1 & H2 & H3 & _).
  - lia.
  - split; cbn; lia.
  - repeat constructor; width.
  - split; [apply window4_ok|cbn; width].
  - exact E.
  - rewrite Hv in H2, H3. rewrite Hm in H1, H2.
    split; [by apply H3|]. split; [by apply (H2 ltac:(lia) ltac:(lia))|by apply H1].
Defined.
End Elastic.
