(* ===== verification/Sequencer.v ===== *)
(** RTP reordering in front of the talkback queue: [rtpSequencer] of
    [internal/media/talkback_audio.go]. *)
From S2P Require Import Prelude GoBytes Rtp Playout.
Import Rtp.

(** * [audioBridgeStats]: the counters, each a [uint64] *)
Module Stats.
Record audioBridgeStats := mkStats {
  PacketsAccepted : Z; PacketsDuplicateLate : Z; PacketsReordered : Z; SequenceGaps : Z;
  TimelineResets : Z; SilenceInsertedInput : Z; FIFORawShortage : Z; FIFOOverflowSamples : Z;
  FIFOUnderrunSamples : Z; FIFOMaxSamples : Z; FIFOPlayoutMin : Z; FIFOPlayoutMax : Z;
  FIFOPlayoutTotal : Z; FIFOPlayoutBlocks : Z; ElasticStretchBlocks : Z; ElasticCompressBlocks : Z;
  ElasticStretchedSamples : Z; ElasticCompressedSamples : Z; ElasticRatioMinPPM : Z;
  ElasticRatioMaxPPM : Z; ElasticCurrentRatioPPM : Z; ElasticFadeOuts : Z; ElasticFadeIns : Z;
  ElasticOverflowSplices : Z; ElasticSupplyTrend : F64.t; SSRCChanges : Z; RTPJitterMaxUS : Z;
  BaichuanBlocks : Z; BaichuanWriteTotalUS : Z; BaichuanWriteMaxUS : Z;
}.
#[export] Instance eta_stats : Eta audioBridgeStats := fun s =>
  mkStats (PacketsAccepted s) (PacketsDuplicateLate s) (PacketsReordered s) (SequenceGaps s)
    (TimelineResets s) (SilenceInsertedInput s) (FIFORawShortage s) (FIFOOverflowSamples s)
    (FIFOUnderrunSamples s) (FIFOMaxSamples s) (FIFOPlayoutMin s) (FIFOPlayoutMax s)
    (FIFOPlayoutTotal s) (FIFOPlayoutBlocks s) (ElasticStretchBlocks s) (ElasticCompressBlocks s)
    (ElasticStretchedSamples s) (ElasticCompressedSamples s) (ElasticRatioMinPPM s)
    (ElasticRatioMaxPPM s) (ElasticCurrentRatioPPM s) (ElasticFadeOuts s) (ElasticFadeIns s)
    (ElasticOverflowSplices s) (ElasticSupplyTrend s) (SSRCChanges s) (RTPJitterMaxUS s)
    (BaichuanBlocks s) (BaichuanWriteTotalUS s) (BaichuanWriteMaxUS s).

Definition zero_stats : audioBridgeStats :=
  mkStats 0 0 0 0 0 0 0 0 0 0 0 0 0 0 0 0 0 0 0 0 0 0 0 0 F64.zero 0 0 0 0 0.

(** [x += n] on a [uint64] counter. *)
Definition plus64 (n x : Z) : Z := u64 (x + n).
Abbreviation incr := (plus64 1).
End Stats.

(** * [rtpSequencer] *)
Module Sequencer.
Import Stats.

Record sequencedPacket := mkFrame { packet : Packet; reset : bool }.

Record rtpSequencer := mkSeq {
  initialized : bool;
  ssrc : Z;
  expected : Z;                (** uint16 *)
  pending : gmap Z Packet;
  window : Z;
  stats : audioBridgeStats;
}.
#[export] Instance eta_seq : Eta rtpSequencer := fun q =>
  mkSeq (initialized q) (ssrc q) (expected q) (pending q) (window q) (stats q).

Definition newRTPSequencer (w : Z) : rtpSequencer :=
  mkSeq false 0 0 ∅ (if w <? 1 then 1 else w) zero_stats.

(** [int16(seq - expected)]. *)
Definition ahead (seq expected : Z) : Z := s16 (u16 (seq - expected)).

(** The loop of [drain]: each turn removes a packet from [pending], so its
    size bounds the number of turns. *)
Fixpoint drain_loop (fuel : nat) (m : gmap Z Packet) (expected : Z) (mark : bool)
    : list sequencedPacket * gmap Z Packet * Z :=
  match fuel with
  | O => ([], m, expected)
  | S fuel' =>
    match m !! expected with
    | None => ([], m, expected)
    | Some p =>
      let '(out, m', e') := drain_loop fuel' (delete expected m) (u16 (expected + 1)) false in
      (mkFrame p mark :: out, m', e')
    end
  end.

Definition drain (q : rtpSequencer) (resetFirst : bool) : list sequencedPacket * rtpSequencer :=
  let '(out, m, e) := drain_loop (S (size (pending q))) (pending q) (expected q) resetFirst in
  (out, q <| pending := m |> <| expected := e |>).

Definition resetAt (q : rtpSequencer) (p : Packet) (ssrcChanged : bool)
    : list sequencedPacket * rtpSequencer :=
  let q := q <| pending := ∅ |> <| ssrc := SSRC p |> <| expected := Sequence p |> <| initialized := true |> in
  let q := if ssrcChanged then q <| stats ::= fun s => s <| SSRCChanges ::= incr |> |> else q in
  let q := q <| pending ::= <[Sequence p := p]> |> in
  drain q true.

(** The scan of [FlushGap] over the map, in any iteration order [keys]: the
    pending packets kept, and the sequence number least ahead. *)
Definition scan_step (expected : Z) (acc : gmap Z Packet * option (Z * Z)) (seq : Z)
    : gmap Z Packet * option (Z * Z) :=
  let '(m, best) := acc in
  let d := ahead seq expected in
  if d <? 0 then (delete seq m, best)
  else match best with
       | Some (_, bestDiff) => if d <? bestDiff then (m, Some (seq, d)) else acc
       | None => (m, Some (seq, d))
       end.
Definition scan (m : gmap Z Packet) (expected : Z) (keys : list Z) : gmap Z Packet * option (Z * Z) :=
  foldl (scan_step expected) (m, None) keys.

Definition FlushGap (q : rtpSequencer) : list sequencedPacket * rtpSequencer :=
  if negb (initialized q) || (Z.of_nat (size (pending q)) =? 0) then ([], q)
  else
    let '(m, best) := scan (pending q) (expected q) (map fst (map_to_list (pending q))) in
    let q := q <| pending := m |> in
    match best with
    | None => ([], q)
    | Some (best, _) =>
      let q := if negb (best =? expected q)
               then q <| expected := best |> <| stats ::= fun s => s <| SequenceGaps ::= incr |> |>
               else q in
      drain q false
    end.

Definition Push (q : rtpSequencer) (p : Packet) : list sequencedPacket * rtpSequencer :=
  if negb (initialized q) then resetAt q p false
  else if negb (SSRC p =? ssrc q) then resetAt q p true
  else if decide (is_Some (pending q !! Sequence p)) then
    ([], q <| stats ::= fun s => s <| PacketsDuplicateLate ::= incr |> |>)
  else
    let diff := ahead (Sequence p) (expected q) in
    if diff <? 0 then ([], q <| stats ::= fun s => s <| PacketsDuplicateLate ::= incr |> |>)
    else if s16 (window q * 8) <? diff then
      resetAt (q <| stats ::= fun s => s <| SequenceGaps ::= incr |> <| TimelineResets ::= incr |> |>) p false
    else
      let q := if 0 <? diff then q <| stats ::= fun s => s <| PacketsReordered ::= incr |> |> else q in
      let q := q <| pending ::= <[Sequence p := p]> |> in
      if diff =? 0 then drain q false
      else if window q <=? Z.of_nat (size (pending q)) then FlushGap q
      else ([], q).

(** ** Sequence arithmetic *)

Lemma ahead_range s e : - 32768 <= ahead s e < 32768.
Proof. unfold ahead. width. Qed.

Lemma ahead_eq s e : fits 16 s -> fits 16 e -> s = u16 (e + ahead s e).
Proof. intros. unfold ahead. width. Qed.

Lemma ahead_0 s e : fits 16 s -> fits 16 e -> ahead s e = 0 <-> s = e.
Proof. intros. unfold ahead. width. Qed.

Lemma ahead_next s e : fits 16 s -> fits 16 e -> 0 < ahead s e -> ahead s (u16 (e + 1)) = ahead s e - 1.
Proof. intros. unfold ahead in *. width. Qed.

Lemma ahead_move s e e' :
  fits 16 s -> fits 16 e -> fits 16 e' -> 0 <= ahead e' e <= ahead s e -> ahead s e' = ahead s e - ahead e' e.
Proof. intros. unfold ahead in *. width. Qed.

Lemma ahead_inj s t e : fits 16 s -> fits 16 t -> fits 16 e -> ahead s e = ahead t e -> s = t.
Proof. intros Hs Ht He E. rewrite (ahead_eq s e), (ahead_eq t e), E by done. done. Qed.

(** ** Invariant *)

(** [below w e m]: every pending packet is filed under its number, belongs to
    the stream, and lies at most [w] numbers ahead of [e]. *)
Definition filed (src w e : Z) (m : gmap Z Packet) : Prop :=
  map_Forall (fun s p => Sequence p = s /\ SSRC p = src /\ fits 16 s /\ 0 <= ahead s e <= w) m.

Definition reach (q : rtpSequencer) : Z := window q * 8.

Record inv (q : rtpSequencer) : Prop := {
  inv_window : 1 <= window q <= 4095;
  inv_expected : fits 16 (expected q);
  inv_filed : filed (ssrc q) (reach q) (expected q) (pending q);
  inv_strict : pending q !! expected q = None;
  inv_size : Z.of_nat (size (pending q)) < window q;
}.

Lemma sequencer_new_inv w : w <= 4095 -> inv (newRTPSequencer w).
Proof.
  intros Hw. split; cbn; try done.
  - ifs; lia.
  - rewrite map_size_empty. ifs; lia.
Qed.

Lemma filed_delete src w e m :
  fits 16 e -> filed src w e m -> filed src w (u16 (e + 1)) (delete e m).
Proof.
  intros He Hm s p. rewrite lookup_delete_Some. intros [Hne Hs]. destruct (Hm s p Hs) as (H1 & H2 & H3 & H4).
  do 3 (split; [done|]). assert (0 < ahead s e) as Hpos.
  { destruct (decide (ahead s e = 0)) as [E|]; [|lia]. destruct Hne. symmetry. by apply ahead_0. }
  rewrite ahead_next by done. lia.
Qed.

(** ** [drain] *)

(** [ordered src w st out]: with [st] the next number expected on the current
    stream, every frame either starts a new timeline or continues the stream
    at most [w] numbers ahead. *)
Fixpoint ordered (w : Z) (st : option (Z * Z)) (out : list sequencedPacket) : Prop :=
  match out with
  | [] => True
  | f :: r =>
    (reset f = true \/ exists src e, st = Some (src, e) /\ SSRC (packet f) = src /\
                                     0 <= ahead (Sequence (packet f)) e <= w) /\
    ordered w (Some (SSRC (packet f), u16 (Sequence (packet f) + 1))) r
  end.

Definition next_state (st : option (Z * Z)) (out : list sequencedPacket) : option (Z * Z) :=
  match last out with
  | None => st
  | Some f => Some (SSRC (packet f), u16 (Sequence (packet f) + 1))
  end.

Lemma next_state_cons st f r :
  next_state st (f :: r) = next_state (Some (SSRC (packet f), u16 (Sequence (packet f) + 1))) r.
Proof. unfold next_state. rewrite last_cons. by destruct (last r). Qed.

Lemma ordered_app w st a b : ordered w st (a ++ b) <-> ordered w st a /\ ordered w (next_state st a) b.
Proof.
  revert st. induction a as [|f a IH]; intros st.
  - cbn. tauto.
  - rewrite next_state_cons. cbn [app ordered]. rewrite IH. tauto.
Qed.

Lemma ordered_mark w src e p out mark :
  SSRC p = src -> Sequence p = e -> fits 16 e -> 0 <= w ->
  ordered w (Some (src, u16 (e + 1))) out -> ordered w (Some (src, e)) (mkFrame p mark :: out).
Proof.
  intros H1 H2 He Hw Ho. cbn. rewrite H1, H2. split; [|done]. right. exists src, e.
  split; [done|]. split; [done|]. replace (ahead e e) with 0; [lia|]. symmetry. by apply ahead_0.
Qed.

Lemma drain_loop_spec src w fuel : forall m e mark out m' e',
  0 <= w -> fits 16 e -> filed src w e m -> (size m < fuel)%nat ->
  drain_loop fuel m e mark = (out, m', e') ->
  fits 16 e' /\ filed src w e' m' /\ m' !! e' = None /\ m' ⊆ m /\
  (size m' + length out = size m)%nat /\ ordered w (Some (src, e)) out /\
  next_state (Some (src, e)) out = Some (src, e') /\
  Forall (fun f => m !! Sequence (packet f) = Some (packet f)) out /\
  map reset out = take (length out) (mark :: replicate (length out) false) /\
  match m !! e with
  | None => out = []
  | Some p => head out = Some (mkFrame p mark)
  end.
Proof.
  induction fuel as [|fuel IH]; intros m e mark out m' e' Hw He Hm Hf; [lia|]. cbn [drain_loop].
  destruct (m !! e) as [p|] eqn:E.
  2:{ intros [= <- <- <-]. repeat (split; [first [done|cbn; lia]|]). done. }
  destruct (drain_loop fuel _ _ _) as [[out1 m1] e1] eqn:Ed. intros [= <- <- <-].
  pose proof (map_size_delete_Some e m ltac:(eauto)) as Hsz.
  assert (size m <> 0%nat) as Hnz. { intros Hz. by rewrite (map_size_empty_inv _ Hz), lookup_empty in E. }
  destruct (Hm e p E) as (P1 & P2 & _).
  apply IH in Ed as (D1 & D2 & D3 & D4 & D5 & D6 & D7 & D8 & D9 & _);
    [|done|apply wrap_fits; lia|by apply filed_delete|lia].
  split; [done|]. split; [done|]. split; [done|]. split; [etransitivity; [exact D4|apply delete_subseteq]|].
  split; [cbn [length]; lia|]. split; [by apply ordered_mark|].
  split; [rewrite next_state_cons; cbn; by rewrite P2, P1|].
  split; [|split; [|done]].
  - constructor; [cbn; by rewrite P1|]. eapply Forall_impl; [exact D8|].
    intros f Hfm. cbn in Hfm. by apply lookup_delete_Some in Hfm as [_ ?].
  - cbn [map length take replicate reset]. f_equal. rewrite D9.
    destruct out1; [done|]. cbn [length replicate take]. done.
Qed.

Definition stream (q : rtpSequencer) : option (Z * Z) :=
  if initialized q then Some (ssrc q, expected q) else None.

(** What every operation of an initialised sequencer guarantees: [added] is
    the number of packets it was handed. *)
Record step_ok (q : rtpSequencer) (out : list sequencedPacket) (q' : rtpSequencer) : Prop := {
  step_inv : inv q';
  step_window : window q' = window q;
  step_ordered : ordered (reach q) (stream q) out;
  step_stream : next_state (stream q) out = stream q';
}.

Record accepted (q : rtpSequencer) (m : gmap Z Packet) (out : list sequencedPacket) (q' : rtpSequencer) : Prop := {
  acc_init : initialized q' = initialized q;
  acc_ssrc : ssrc q' = ssrc q;
  acc_pending : pending q' ⊆ m;
  acc_size : (size (pending q') + length out = size m)%nat;
  acc_out : Forall (fun f => m !! Sequence (packet f) = Some (packet f) /\ reset f = false) out;
}.

(** [ready q m]: the buffer [m] may be drained by [q]. *)
Record ready (q : rtpSequencer) : Prop := {
  ready_window : 1 <= window q <= 4095;
  ready_expected : fits 16 (expected q);
  ready_filed : filed (ssrc q) (reach q) (expected q) (pending q);
  ready_size : Z.of_nat (size (pending q)) <= window q;
}.

Lemma replicate_reset out :
  map reset out = take (length out) (false :: replicate (length out) false) ->
  Forall (fun f => reset f = false) out.
Proof.
  intros H. assert (Forall (fun b => b = false) (map reset out)) as HF.
  { rewrite H. apply Forall_take. constructor; [done|]. by apply Forall_replicate. }
  by apply Forall_fmap in HF.
Qed.

Lemma drain_spec q out q' :
  ready q -> is_Some (pending q !! expected q) -> initialized q = true -> drain q false = (out, q') ->
  step_ok q out q' /\ accepted q (pending q) out q' /\ 
  (exists p, pending q !! expected q = Some p /\ head out = Some (mkFrame p false)).
Proof.
  intros [Hw He Hf Hs] [p Hp] Hi. unfold drain.
  destruct (drain_loop _ _ _ _) as [[out1 m] e] eqn:Ed. intros [= <- <-].
  apply (drain_loop_spec (ssrc q) (reach q)) in Ed as (D1 & D2 & D3 & D4 & D5 & D6 & D7 & D8 & D9 & D10);
    [|unfold reach; lia|done|done|lia].
  rewrite Hp in D10. assert (0 < length out1)%nat by (destruct out1; [done|cbn; lia]).
  split; [|split].
  - split; cbn; [split; cbn; done || lia|done|..]; unfold stream; cbn; rewrite Hi; done.
  - split; cbn; try done. apply Forall_and. split; [done|by apply replicate_reset].
  - by exists p.
Qed.

Lemma scan_spec m e keys :
  (forall k, k ∈ keys -> 0 <= ahead k e) ->
  (scan m e keys).1 = m /\
  match (scan m e keys).2 with
  | None => keys = []
  | Some (b, d) => b ∈ keys /\ d = ahead b e /\ forall k, k ∈ keys -> d <= ahead k e
  end.
Proof.
  unfold scan. revert keys. refine (rev_ind _ _ _).
  - done.
  - intros k keys IH Hk. rewrite foldl_app. cbn [foldl].
    destruct IH as [IH1 IH2]; [intros; apply Hk; set_solver|].
    destruct (foldl (scan_step e) (m, None) keys) as [m1 best]. cbn [fst snd] in *. subst m1.
    pose proof (Hk k ltac:(set_solver)) as H0. unfold scan_step.
    rewrite (proj2 (Z.ltb_ge _ _)) by lia. destruct best as [[b d]|].
    + destruct IH2 as (B1 & -> & B3). destruct (ahead k e <? ahead b e) eqn:E; cbn; (split; [done|]).
      * split; [set_solver|]. split; [done|]. intros k' [Hk' | ->%list_elem_of_singleton]%elem_of_app; [|lia].
        specialize (B3 k' Hk'). lia.
      * split; [set_solver|]. split; [done|]. intros k' [Hk' | ->%list_elem_of_singleton]%elem_of_app; [|lia].
        by apply B3.
    + subst keys. cbn. split; [done|]. split; [set_solver|]. split; [done|].
      intros k' ->%list_elem_of_singleton. lia.
Qed.

Lemma elem_keys (m : gmap Z Packet) k : k ∈ map fst (map_to_list m) <-> is_Some (m !! k).
Proof.
  rewrite list_elem_of_fmap. split.
  - intros ([k' p] & -> & H). apply elem_of_map_to_list in H. cbn. eauto.
  - intros [p H]. exists (k, p). split; [done|]. by apply elem_of_map_to_list.
Qed.

Lemma filed_forward src w e e' m :
  fits 16 e -> fits 16 e' -> 0 <= ahead e' e -> (forall k, is_Some (m !! k) -> ahead e' e <= ahead k e) ->
  filed src w e m -> filed src w e' m.
Proof.
  intros He He' H0 Hmin Hm s p Hs. destruct (Hm s p Hs) as (H1 & H2 & H3 & H4).
  do 3 (split; [done|]). pose proof (Hmin s ltac:(eauto)). rewrite (ahead_move s e e'); done || lia.
Qed.

Lemma FlushGap_spec q out q' :
  ready q -> initialized q = true -> pending q <> ∅ -> FlushGap q = (out, q') ->
  step_ok q out q' /\ accepted q (pending q) out q' /\ out <> [].
Proof.
  intros [Hw He Hf Hs] Hi Hne. unfold FlushGap. rewrite Hi. cbn [negb orb].
  destruct (Z.eqb_spec (Z.of_nat (size (pending q))) 0) as [Hz|Hz].
  { destruct Hne. apply map_size_empty_inv. lia. }
  destruct (scan_spec (pending q) (expected q) (map fst (map_to_list (pending q)))) as [S1 S2].
  { intros k [p Hk]%elem_keys. destruct (Hf k p Hk) as (_ & _ & _ & ?). lia. }
  destruct (scan _ _ _) as [m best]. cbn [fst snd] in S1, S2. subst m.
  assert (q <| pending := pending q |> = q) as Hq by (by destruct q). rewrite Hq.
  destruct best as [[b d]|].
  2:{ apply (f_equal length) in S2. rewrite length_map, length_map_to_list in S2. cbn in S2. lia. }
  destruct S2 as ([p Hb]%elem_keys & -> & S3). destruct (Hf b p Hb) as (P1 & P2 & P3 & P4).
  set (q1 := if negb (b =? expected q) then _ else q).
  assert (initialized q1 = true /\ window q1 = window q /\ ssrc q1 = ssrc q /\ pending q1 = pending q /\ expected q1 = b)
    as (I1 & I2 & I3 & I4 & I5).
  { subst q1. destruct (Z.eqb_spec b (expected q)); cbn; by subst. }
  clearbody q1. intros Hd. apply drain_spec in Hd as ([O1 O2 O3 O4] & A & (p' & Hp' & Hh)); [| |rewrite I4, I5; eauto|done].
  2:{ split; unfold reach; rewrite ?I2, ?I3, ?I4, ?I5; try done.
      apply (filed_forward _ _ (expected q)); try done; [lia|]. intros k Hk. apply S3. by apply elem_keys. }
  assert (out <> []) as Hout by (by intros ->). split; [|split; [|done]].
  - split; [done|congruence| |].
    + unfold stream in *. unfold reach in *. rewrite Hi. rewrite I1, I2, I3, I5 in O3.
      destruct out as [|f out]; [done|]. cbn in Hh. injection Hh as ->. cbn in O3 |- *.
      split; [|apply O3]. right. exists (ssrc q), (expected q). split; [done|].
      rewrite I4, I5, Hb in Hp'. injection Hp' as <-. rewrite P1. by split.
    + rewrite <- O4. unfold stream. destruct out as [|f out]; [done|]. by rewrite !next_state_cons.
  - destruct A as [A1 A2 A3 A4 A5]. rewrite I4 in *. by split; [congruence|congruence|done..].
Qed.

(** ** [Push] *)

(** A new timeline: the packet comes out at once, flagged. *)
Record restarted (q : rtpSequencer) (p : Packet) (out : list sequencedPacket) (q' : rtpSequencer) : Prop := {
  res_out : out = [mkFrame p true];
  res_init : initialized q' = true;
  res_ssrc : ssrc q' = SSRC p;
  res_expected : expected q' = u16 (Sequence p + 1);
  res_pending : pending q' = ∅;
  res_window : window q' = window q;
}.

Lemma resetAt_spec q p b out q' : resetAt q p b = (out, q') -> restarted q p out q'.
Proof.
  unfold resetAt. match goal with |- drain ?x true = _ -> _ => set (q1 := x) end.
  assert (pending q1 = {[Sequence p := p]} /\ expected q1 = Sequence p /\ initialized q1 = true /\
          ssrc q1 = SSRC p /\ window q1 = window q) as (E1 & E2 & E3 & E4 & E5).
  { subst q1. by destruct b. }
  clearbody q1. unfold drain. rewrite E1, E2, map_size_singleton. cbn [drain_loop].
  rewrite lookup_singleton_eq, delete_singleton_eq, lookup_empty. by intros [= <- <-].
Qed.

Lemma restarted_ok q p out q' :
  1 <= window q <= 4095 -> Rtp.wf p -> restarted q p out q' -> step_ok q out q'.
Proof.
  intros Hw Hp [-> H1 H2 H3 H4 H5]. split; [split|done| |].
  - by rewrite H5.
  - rewrite H3. by apply wrap_fits.
  - rewrite H4. intros ? ?. by rewrite lookup_empty.
  - by rewrite H4.
  - rewrite H4, map_size_empty, H5. lia.
  - cbn. by split; [left|].
  - unfold next_state, stream. cbn. by rewrite H1, H2, H3.
Qed.

(** The packets [Push] turns away. *)
Definition stale (q : rtpSequencer) (p : Packet) : bool :=
  bool_decide (is_Some (pending q !! Sequence p)) || (ahead (Sequence p) (expected q) <? 0).

Definition same_stream (q : rtpSequencer) (p : Packet) : bool := initialized q && (SSRC p =? ssrc q).

Definition bump (c : audioBridgeStats -> audioBridgeStats) (q : rtpSequencer) : rtpSequencer := q <| stats ::= c |>.

Lemma Push_stale q p :
  same_stream q p = true -> stale q p = true ->
  Push q p = ([], bump (fun s => s <| PacketsDuplicateLate ::= incr |>) q).
Proof.
  intros [Hi Hs]%andb_true_iff Hst. unfold Push. rewrite Hi, Hs. cbn [negb].
  destruct (decide _) as [|Hd]; [done|]. unfold stale in Hst. rewrite bool_decide_eq_false_2 in Hst by done.
  cbn [orb] in Hst. by rewrite Hst.
Qed.

Lemma Push_restart q p out q' :
  same_stream q p && (stale q p || (ahead (Sequence p) (expected q) <=? s16 (window q * 8))) = false ->
  Push q p = (out, q') -> restarted q p out q'.
Proof.
  unfold same_stream, Push. destruct (initialized q); [|intros _; apply resetAt_spec]. cbn [negb andb].
  destruct (SSRC p =? ssrc q); [|intros _; apply resetAt_spec]. cbn [negb andb].
  unfold stale. intros ((H1%bool_decide_eq_false & H2)%orb_false_iff & H3)%orb_false_iff.
  destruct (decide _) as [|Hd]; [done|]. rewrite H2. rewrite (proj2 (Z.ltb_lt _ _)) by lia.
  intros H. destruct (resetAt_spec _ _ _ _ _ H) as [? ? ? ? ? Hw]. by split.
Qed.

Lemma window_s16 q : 1 <= window q <= 4095 -> s16 (window q * 8) = reach q.
Proof. intros. unfold reach. apply swrap_id; [done|]. width. Qed.

Lemma Push_accept q p out q' :
  inv q -> Rtp.wf p -> same_stream q p = true -> stale q p = false -> 
  ahead (Sequence p) (expected q) <= reach q -> Push q p = (out, q') ->
  step_ok q out q' /\ accepted q (<[Sequence p := p]> (pending q)) out q' /\
  (Sequence p = expected q -> head out = Some (mkFrame p false)).
Proof.
  intros [Hw He Hf Hst Hsz] (_ & Hp & _) [Hi Hs]%andb_true_iff Hstale Hr.
  unfold stale in Hstale. apply orb_false_iff in Hstale as [Hd Hn].
  apply bool_decide_eq_false in Hd. unfold Push. rewrite Hi, Hs, Hn, window_s16 by done. cbn [negb].
  destruct (decide _) as [|_]; [done|]. rewrite (proj2 (Z.ltb_ge _ _)) by lia.
  set (d := ahead (Sequence p) (expected q)) in *.
  set (q1 := (if 0 <? d then _ else q) <| pending ::= _ |>).
  assert (initialized q1 = true /\ window q1 = window q /\ ssrc q1 = ssrc q /\
          pending q1 = <[Sequence p := p]> (pending q) /\ expected q1 = expected q) as (I1 & I2 & I3 & I4 & I5).
  { subst q1. by destruct (0 <? d). }
  assert (ready q1) as Hready.
  { split; unfold reach; rewrite ?I2, ?I3, ?I4, ?I5; try done.
    - apply map_Forall_insert_2; [|done]. apply Z.eqb_eq in Hs. unfold reach in Hr. cbv beta.
      do 3 (split; [done|]). subst d. lia.
    - rewrite map_size_insert_None by (by apply eq_None_not_Some). lia. }
  assert (forall o r, step_ok q1 o r -> step_ok q o r) as Hstep.
  { intros o r [O1 O2 O3 O4]. unfold stream, reach in O3, O4. rewrite I1, ?I2, I3, I5 in O3, O4.
    split; unfold stream, reach; rewrite ?Hi; try done; congruence. }
  assert (forall o r, accepted q1 (pending q1) o r -> accepted q (<[Sequence p := p]> (pending q)) o r) as Hacc.
  { intros o r [A1 A2 A3 A4 A5]. rewrite I4 in A3, A4, A5. split; try done; congruence. }
  clearbody q1. destruct (Z.eqb_spec d 0) as [Hd0|Hd0].
  - assert (Sequence p = expected q) as Hse by (by apply ahead_0).
    intros H. apply drain_spec in H as (O & A & (p' & Hp' & Hh)); [|done| |done].
    2:{ rewrite I4, I5, <- Hse. by rewrite lookup_insert_eq. }
    split; [auto|]. split; [auto|]. intros _. rewrite Hh. rewrite I4, I5, <- Hse, lookup_insert_eq in Hp'. congruence.
  - assert (Sequence p <> expected q) as Hne by (intros E; apply Hd0, ahead_0; done).
    destruct (window q1 <=? _) eqn:Ew.
    + intros H. apply FlushGap_spec in H as (O & A & _); [|done|done|rewrite I4; apply insert_non_empty].
      split; [auto|split; [auto|done]].
    + intros [= <- <-]. split; [apply Hstep|split; [apply Hacc|done]].
      * destruct Hready as [R1 R2 R3 R4]. split; [split; try done|done|done|].
        -- rewrite I4, I5, lookup_insert_ne; done.
        -- lia.
        -- unfold next_state. done.
      * by split; cbn; try done; lia.
Qed.

Lemma Push_ok q p out q' : inv q -> Rtp.wf p -> Push q p = (out, q') -> step_ok q out q'.
Proof.
  intros Hi Hp H. pose proof (inv_window q Hi) as Hw.
  destruct (same_stream q p && (stale q p || (ahead (Sequence p) (expected q) <=? s16 (window q * 8)))) eqn:E.
  - apply andb_true_iff in E as [Es E]. rewrite window_s16 in E by done.
    destruct (stale q p) eqn:Est.
    + rewrite Push_stale in H by done. injection H as <- <-. destruct Hi. by split; [split|..].
    + destruct (Push_accept q p out q') as [? _]; try done. cbn in E. lia.
  - eapply restarted_ok; [done|done|by apply Push_restart].
Qed.

Lemma FlushGap_ok q out q' : inv q -> FlushGap q = (out, q') -> step_ok q out q'.
Proof.
  intros Hi H. destruct (initialized q) eqn:E.
  2:{ unfold FlushGap in H. rewrite E in H. injection H as <- <-. by split. }
  destruct (decide (pending q = ∅)) as [Hp|Hp].
  { unfold FlushGap in H. rewrite E, Hp, map_size_empty in H. injection H as <- <-. by split. }
  destruct (FlushGap_spec q out q') as [? _]; try done. destruct Hi. split; done || lia.
Qed.

Inductive op := OpPush (p : Packet) | OpFlush.
Definition do_op (q : rtpSequencer) (o : op) : list sequencedPacket * rtpSequencer :=
  match o with OpPush p => Push q p | OpFlush => FlushGap q end.
Fixpoint run_ops (q : rtpSequencer) (ops : list op) : list sequencedPacket * rtpSequencer :=
  match ops with
  | [] => ([], q)
  | o :: r => let '(o1, q1) := do_op q o in let '(o2, q2) := run_ops q1 r in (o1 ++ o2, q2)
  end.
Definition op_ok (o : op) : Prop := match o with OpPush p => Rtp.wf p | OpFlush => True end.

Lemma run_ops_ok ops : forall q out q',
  inv q -> Forall op_ok ops -> run_ops q ops = (out, q') ->
  inv q' /\ window q' = window q /\ ordered (reach q) (stream q) out.
Proof.
  induction ops as [|o ops IH]; intros q out q' Hi Ho; cbn [run_ops].
  - by intros [= <- <-].
  - apply Forall_cons in Ho as [Ho1 Ho2]. destruct (do_op q o) as [o1 q1] eqn:E1.
    destruct (run_ops q1 ops) as [o2 q2] eqn:E2. intros [= <- <-].
    assert (step_ok q o1 q1) as [S1 S2 S3 S4].
    { destruct o; [by eapply Push_ok|by apply FlushGap_ok]. }
    apply IH in E2 as (I1 & I2 & I3); [|done|done].
    split; [done|]. split; [congruence|]. apply ordered_app. split; [done|].
    rewrite S4. by replace (reach q) with (reach q1) by (unfold reach; by rewrite S2).
Qed.

Lemma ordered_adjacent w st out i a b :
  0 <= w < 32767 -> ordered w st out -> out !! i = Some a -> out !! S i = Some b -> reset b = false ->
  fits 16 (Sequence (packet a)) -> fits 16 (Sequence (packet b)) ->
  SSRC (packet b) = SSRC (packet a) /\ 1 <= ahead (Sequence (packet b)) (Sequence (packet a)) <= w + 1.
Proof.
  intros Hw. revert st out. induction i as [|i IH]; intros st out Ho Ha Hb Hr Fa Fb.
  - destruct out as [|a' [|b' r]]; [done|done|]. cbn in Ha, Hb. injection Ha as ->. injection Hb as ->.
    cbn in Ho. destruct Ho as (_ & [H | (src & e & [= <- <-] & -> & H)] & _); [congruence|].
    split; [done|]. unfold ahead in *. width.
  - destruct out as [|f r]; [done|]. cbn in Ha, Hb. cbn [ordered] in Ho. destruct Ho as [_ Ho]. by apply (IH _ _ Ho).
Qed.

(** Whatever arrives in whatever order, and whenever the gap timer flushes,
    the sequencer holds back fewer packets than its window, and what it emits
    is in order: two consecutive packets of one timeline belong to the same
    source and their sequence numbers strictly advance (modulo 2^16, by at most
    eight windows and one), so no packet is emitted twice or late; only a frame
    marked as a reset starts elsewhere, and the first one is. *)
Theorem sequencer_orders (w : Z) (ops : list op) (out : list sequencedPacket) (q : rtpSequencer) :
  1 <= w <= 4095 -> Forall op_ok ops -> run_ops (newRTPSequencer w) ops = (out, q) ->
  Z.of_nat (size (pending q)) < w /\
  (forall a, head out = Some a -> reset a = true) /\
  (forall i a b, out !! i = Some a -> out !! S i = Some b -> reset b = false ->
     fits 16 (Sequence (packet a)) -> fits 16 (Sequence (packet b)) ->
     SSRC (packet b) = SSRC (packet a) /\
     1 <= ahead (Sequence (packet b)) (Sequence (packet a)) <= w * 8 + 1).
Proof.
  intros Hw Ho H. apply run_ops_ok in H as (I1 & I2 & I3); [|apply sequencer_new_inv; lia|done].
  assert (window (newRTPSequencer w) = w) as Ew by (cbn; ifs; lia).
  unfold reach in I3. rewrite Ew in I2, I3. split; [rewrite <- I2; apply I1|]. split.
  - intros a Ha. destruct out; [done|]. cbn in Ha. injection Ha as ->.
    destruct I3 as [[?|(? & ? & [=] & _)] _]. done.
  - intros i a b Ha Hb. eapply ordered_adjacent; [lia|exact I3|done|done].
Qed.

Definition packet_at (seq : Z) : Packet := mkPacket 8 false seq (seq * 160) 7 [1; 2].

Lemma packet_at_wf seq : 0 <= seq < 65536 -> Rtp.wf (packet_at seq).
Proof.
  intros. unfold Rtp.wf, packet_at. cbn. split; [width|]. split; [width|]. split; [width|]. split; [width|].
  by repeat constructor; width.
Qed.

Definition reordered : list op :=
  [OpPush (packet_at 65535); OpPush (packet_at 1); OpPush (packet_at 0); OpPush (packet_at 1); OpPush (packet_at 3); OpFlush].

Lemma sequencer_orders_witness :
  let '(out, q) := run_ops (newRTPSequencer 3) reordered in
  map (fun f => Sequence (packet f)) out = [65535; 0; 1; 3] /\ Z.of_nat (size (pending q)) < 3.
Proof.
  assert (map (fun f => Sequence (packet f)) (run_ops (newRTPSequencer 3) reordered).1 = [65535; 0; 1; 3]) as Ho.
  { vm_compute. reflexivity. }
  destruct (run_ops (newRTPSequencer 3) reordered) as [out q] eqn:E. split; [exact Ho|].
  apply (sequencer_orders 3 reordered out q); [lia| |exact E].
  repeat (apply Forall_cons; split); try exact I; try (apply packet_at_wf; lia). constructor.
Defined.

(** [Push] accounts for every packet: one from another source or beyond
    the window comes out at once as a new timeline (and what was held back is
    dropped); one already held or behind the stream is counted and nothing
    changes; any other one is emitted or held - none is lost or duplicated -
    and the next expected packet is emitted immediately. *)
Theorem Push_accounts (q q' : rtpSequencer) (p : Packet) (out : list sequencedPacket) :
  inv q -> Rtp.wf p -> Push q p = (out, q') ->
  inv q' /\
  if negb (same_stream q p) then restarted q p out q'
  else if stale q p then
    out = [] /\ q' = bump (fun s => s <| PacketsDuplicateLate ::= incr |>) q
  else if window q * 8 <? ahead (Sequence p) (expected q) then restarted q p out q'
  else
    accepted q (<[Sequence p := p]> (pending q)) out q' /\
    (Sequence p = expected q -> head out = Some (mkFrame p false)).
Proof.
  intros Hi Hp H. split; [apply (Push_ok _ _ _ _ Hi Hp H)|]. pose proof (inv_window q Hi) as Hw.
  destruct (same_stream q p) eqn:Es; cbn [negb]; [|apply Push_restart; [by rewrite Es|done]].
  destruct (stale q p) eqn:Est; [rewrite Push_stale in H by done; by injection H as <- <-|].
  destruct (window q * 8 <? _) eqn:E.
  - apply Push_restart; [|done]. rewrite Es, Est, window_s16 by done. cbn. unfold reach. lia.
  - apply (Push_accept q p out q'); try done. unfold reach. lia.
Qed.

Definition after_first : rtpSequencer := (Push (newRTPSequencer 3) (packet_at 65535)).2.

Lemma after_first_inv : inv after_first.
Proof.
  eapply step_inv, Push_ok; [apply (sequencer_new_inv 3); lia|apply packet_at_wf|apply surjective_pairing]. lia.
Qed.

Lemma Push_accounts_witness :
  stale after_first (packet_at 0) = false /\ head (Push after_first (packet_at 0)).1 = Some (mkFrame (packet_at 0) false).
Proof.
  assert (stale after_first (packet_at 0) = false) as E2 by (vm_compute; reflexivity).
  split; [exact E2|]. destruct (Push after_first (packet_at 0)) as [out q'] eqn:E.
  destruct (Push_accounts after_first q' (packet_at 0) out) as [_ H]; [apply after_first_inv|apply packet_at_wf; lia|exact E|].
  assert (same_stream after_first (packet_at 0) = true) as E1 by (vm_compute; reflexivity).
  assert ((window after_first * 8 <? ahead (Sequence (packet_at 0)) (expected after_first)) = false) as E3
    by (vm_compute; reflexivity).
  rewrite E1, E2, E3 in H. apply H. vm_compute. reflexivity.
Defined.
End Sequencer.
