(* ===== verification/G711.v ===== *)
(** G.711 companding and transcoding: [internal/g711]. *)
From S2P Require Import Prelude GoBytes GoStrings.

Module G711.

Definition PCMA : string := "pcma".
Definition PCMU : string := "pcmu".

(** ** Tables: [tables.go] *)

Definition aLawToMuLaw : list Z := [
  41; 42; 39; 40; 45; 46; 43; 44; 33; 34; 32; 32; 37; 38; 35; 36;
  57; 58; 55; 56; 61; 62; 59; 60; 49; 50; 47; 48; 53; 54; 51; 52;
  10; 11; 8; 9; 14; 15; 12; 13; 2; 3; 0; 1; 6; 7; 4; 5;
  26; 27; 24; 25; 30; 31; 28; 29; 18; 19; 16; 17; 22; 23; 20; 21;
  98; 99; 96; 97; 102; 103; 100; 101; 93; 93; 92; 92; 95; 95; 94; 94;
  116; 118; 112; 114; 124; 126; 120; 122; 106; 107; 104; 105; 110; 111; 108; 109;
  72; 73; 70; 71; 76; 77; 74; 75; 64; 65; 63; 63; 68; 69; 66; 67;
  86; 87; 84; 85; 90; 91; 88; 89; 79; 79; 78; 78; 82; 83; 80; 81;
  169; 170; 167; 168; 173; 174; 171; 172; 161; 162; 160; 160; 165; 166; 163; 164;
  185; 186; 183; 184; 189; 190; 187; 188; 177; 178; 175; 176; 181; 182; 179; 180;
  138; 139; 136; 137; 142; 143; 140; 141; 130; 131; 128; 129; 134; 135; 132; 133;
  154; 155; 152; 153; 158; 159; 156; 157; 146; 147; 144; 145; 150; 151; 148; 149;
  226; 227; 224; 225; 230; 231; 228; 229; 221; 221; 220; 220; 223; 223; 222; 222;
  244; 246; 240; 242; 252; 254; 248; 250; 234; 235; 232; 233; 238; 239; 236; 237;
  200; 201; 198; 199; 204; 205; 202; 203; 192; 193; 191; 191; 196; 197; 194; 195;
  214; 215; 212; 213; 218; 219; 216; 217; 207; 207; 206; 206; 210; 211; 208; 209].

Definition muLawToALaw : list Z := [
  42; 43; 40; 41; 46; 47; 44; 45; 34; 35; 32; 33; 38; 39; 36; 37;
  58; 59; 56; 57; 62; 63; 60; 61; 50; 51; 48; 49; 54; 55; 52; 53;
  11; 8; 9; 14; 15; 12; 13; 2; 3; 0; 1; 6; 7; 4; 5; 26;
  27; 24; 25; 30; 31; 28; 29; 18; 19; 16; 17; 22; 23; 20; 21; 107;
  104; 105; 110; 111; 108; 109; 98; 99; 96; 97; 102; 103; 100; 101; 123; 121;
  126; 127; 124; 125; 114; 115; 112; 113; 118; 119; 116; 117; 75; 73; 79; 77;
  66; 67; 64; 65; 70; 71; 68; 69; 90; 91; 88; 89; 94; 95; 92; 93;
  82; 82; 83; 83; 80; 80; 81; 81; 86; 86; 87; 87; 84; 84; 85; 213;
  170; 171; 168; 169; 174; 175; 172; 173; 162; 163; 160; 161; 166; 167; 164; 165;
  186; 187; 184; 185; 190; 191; 188; 189; 178; 179; 176; 177; 182; 183; 180; 181;
  139; 136; 137; 142; 143; 140; 141; 130; 131; 128; 129; 134; 135; 132; 133; 154;
  155; 152; 153; 158; 159; 156; 157; 146; 147; 144; 145; 150; 151; 148; 149; 235;
  232; 233; 238; 239; 236; 237; 226; 227; 224; 225; 230; 231; 228; 229; 251; 249;
  254; 255; 252; 253; 242; 243; 240; 241; 246; 247; 244; 245; 203; 201; 207; 205;
  194; 195; 192; 193; 198; 199; 196; 197; 218; 219; 216; 217; 222; 223; 220; 221;
  210; 210; 211; 211; 208; 208; 209; 209; 214; 214; 215; 215; 212; 212; 213; 213].

(** ** Linear codecs: [g711.go]

    [int] is 64 bits wide and no intermediate value leaves 16 bits, so the
    arithmetic on [int] is that of [Z]; the conversions to [byte] and [int16]
    are written out. *)

Definition decodeMuLaw (v : Z) : Z :=
  let v := u8 (Z.lnot v) in
  let t := Z.shiftl (Z.land v 0x0f) 3 + 0x84 in
  let t := Z.shiftl t (Z.shiftr (Z.land v 0x70) 4) in
  if negb (Z.land v 0x80 =? 0) then s16 (0x84 - t) else s16 (t - 0x84).

Definition decodeALaw (v : Z) : Z :=
  let v := Z.lxor v 0x55 in
  let t := Z.shiftl (Z.land v 0x0f) 4 + 8 in
  let seg := Z.shiftr (Z.land v 0x70) 4 in
  let t := if 1 <=? seg then t + 0x100 else t in
  let t := if 1 <? seg then Z.shiftl t (seg - 1) else t in
  if negb (Z.land v 0x80 =? 0) then s16 t else s16 (- t).

(** The loop [for exponent > 0 && pcm&mask == 0]; the exponent is the measure. *)
Fixpoint muExponent (exponent : nat) (mask pcm : Z) : nat :=
  match exponent with
  | O => O
  | S e => if Z.land pcm mask =? 0 then muExponent e (Z.shiftr mask 1) pcm else exponent
  end.

Definition encodeMuLaw (sample : Z) : Z :=
  let sign := if sample <? 0 then 0x80 else 0 in
  let pcm := if sample <? 0 then (if 32767 <? - sample then 32767 else - sample) else sample in
  let pcm := if 32635 <? pcm then 32635 else pcm in
  let pcm := pcm + 0x84 in
  let exponent := Z.of_nat (muExponent 7 0x4000 pcm) in
  let mantissa := Z.land (Z.shiftr pcm (exponent + 3)) 0x0f in
  u8 (Z.lnot (u8 (Z.lor (Z.lor sign (Z.shiftl exponent 4)) mantissa))).

(** The loop [for threshold := 0x200; exponent < 7 && pcm >= threshold]; [n] is
    [7 - exponent]. *)
Fixpoint aExponent (n : nat) (exponent threshold pcm : Z) : Z :=
  match n with
  | O => exponent
  | S n' => if threshold <=? pcm then aExponent n' (exponent + 1) (Z.shiftl threshold 1) pcm
            else exponent
  end.

Definition encodeALaw (sample : Z) : Z :=
  let mask := if sample <? 0 then 0x55 else 0xd5 in
  let pcm := if sample <? 0 then - sample - 1 else sample in
  let pcm := if 32767 <? pcm then 32767 else pcm in
  let aval :=
    if pcm <? 256 then Z.shiftr pcm 4
    else let exponent := aExponent 6 1 0x200 pcm in
         Z.lor (Z.shiftl exponent 4) (Z.land (Z.shiftr pcm (exponent + 3)) 0x0f) in
  u8 (Z.lxor aval mask).

(** ** Payloads *)

(** [table[b]]: the table has 256 entries and [b] is a byte. *)
Definition at_table (table : list Z) (b : Z) : Z := nth (Z.to_nat b) table 0.

Section payloads.
Context `{U : Unicode}.

Definition ConvertPayload (payload : bytes) (from to : string) : bytes :=
  let from := ToLower from in
  let to := ToLower to in
  if decide (from = to) then payload
  else if decide (from = PCMA /\ to = PCMU) then map (at_table aLawToMuLaw) payload
  else if decide (from = PCMU /\ to = PCMA) then map (at_table muLawToALaw) payload
  else payload.

(** [None] is the nil slice an unknown codec gives. *)
Definition DecodePayload (payload : bytes) (codec : string) : option (list Z) :=
  if decide (ToLower codec = PCMA) then Some (map decodeALaw payload)
  else if decide (ToLower codec = PCMU) then Some (map decodeMuLaw payload)
  else None.

Definition EncodePCM (pcm : list Z) (codec : string) : option bytes :=
  if decide (ToLower codec = PCMA) then Some (map encodeALaw pcm)
  else if decide (ToLower codec = PCMU) then Some (map encodeMuLaw pcm)
  else None.
End payloads.

(** ** The companding interface

    What the payload functions need of a law, and what the two laws promise.
    [requant] says that the law is a quantiser: a decoded sample is encoded
    without further loss. *)

Class Law := { law_enc : Z -> Z; law_dec : Z -> Z; law_err : Z -> Z }.

Class LawOk (L : Law) : Prop := {
  dec_range b : fits 8 b -> sfits 16 (law_dec b);
  enc_range s : sfits 16 s -> fits 8 (law_enc s);
  requant b : fits 8 b -> law_dec (law_enc (law_dec b)) = law_dec b;
  error_bound s : sfits 16 s -> Z.abs (law_dec (law_enc s) - s) <= law_err s;
  step_up s : sfits 16 s -> sfits 16 (s + 1) ->
    law_dec (law_enc s) <= law_dec (law_enc (s + 1));
}.

Definition a_law : Law :=
  {| law_enc := encodeALaw; law_dec := decodeALaw; law_err s := Z.max 8 (Z.abs s / 32) |}.
Definition mu_law : Law :=
  {| law_enc := encodeMuLaw; law_dec := decodeMuLaw; law_err s := Z.abs s / 32 + 5 |}.

(** Everything a law promises about one code and about one sample, decided. *)
Definition code_check (L : Law) (b : Z) : bool :=
  let d := law_dec b in
  (- 32768 <=? d) && (d <=? 32767) && (law_dec (law_enc d) =? d).
Definition sample_check (L : Law) (s : Z) : bool :=
  let e := law_enc s in
  let d := law_dec e in
  (0 <=? e) && (e <=? 255) && (Z.abs (d - s) <=? law_err s) &&
  ((s =? 32767) || (d <=? law_dec (law_enc (s + 1)))).

Lemma law_ok_checked (L : Law) :
  all_below 256 (code_check L) = true -> all_samples (sample_check L) = true -> LawOk L.
Proof.
  intros Hc Hs.
  assert (forall b, fits 8 b -> code_check L b = true) as Hc'
    by (intros b Hb; apply (all_below_spec _ _ b Hc); width).
  assert (forall s, sfits 16 s -> sample_check L s = true) as Hs'
    by (intros s; apply all_samples_spec, Hs).
  unfold code_check, sample_check in *. cbv beta zeta in *.
  split; intros x Hx.
  - specialize (Hc' x Hx). clear Hs' Hs Hc. width.
  - specialize (Hs' x Hx). clear Hc' Hs Hc. width.
  - specialize (Hc' x Hx). lia.
  - specialize (Hs' x Hx). lia.
  - intros Hx1. specialize (Hs' x Hx). clear Hc' Hs Hc. width.
Qed.

Lemma a_law_samples : all_samples (sample_check a_law) = true.
Proof. by vm_compute. Qed.
Lemma mu_law_samples : all_samples (sample_check mu_law) = true.
Proof. by vm_compute. Qed.

#[export] Instance a_law_ok : LawOk a_law.
Proof. apply law_ok_checked; [by vm_compute|apply a_law_samples]. Qed.
#[export] Instance mu_law_ok : LawOk mu_law.
Proof. apply law_ok_checked; [by vm_compute|apply mu_law_samples]. Qed.

Section law.
Context (L : Law) `{!LawOk L}.

(** The quantiser a law amounts to. *)
Definition quantise (s : Z) : Z := law_dec (law_enc s).

Lemma quantise_mono s t : sfits 16 s -> sfits 16 t -> s <= t -> quantise s <= quantise t.
Proof.
  intros Hs Ht Hst. replace t with (s + Z.of_nat (Z.to_nat (t - s))) in * by lia.
  induction (Z.to_nat (t - s)) as [|n IH]; [by rewrite Z.add_0_r|].
  rewrite Nat2Z.inj_succ in *.
  assert (sfits 16 (s + Z.of_nat n)) as Hn by (clear IH; width).
  etransitivity; [apply IH; [done|lia]|].
  replace (s + Z.succ (Z.of_nat n)) with (s + Z.of_nat n + 1) in * by lia.
  by apply step_up.
Qed.

Lemma map_dec_range p : bytes_ok p -> pcm_ok (map law_dec p).
Proof. intros H. apply Forall_map. eapply Forall_impl; [exact H|]. apply dec_range. Qed.
Lemma map_enc_range p : pcm_ok p -> bytes_ok (map law_enc p).
Proof. intros H. apply Forall_map. eapply Forall_impl; [exact H|]. apply enc_range. Qed.
Lemma map_requant p :
  bytes_ok p -> map law_dec (map law_enc (map law_dec p)) = map law_dec p.
Proof. induction 1 as [|b p Hb _ IH]; simpl; [done|]. by rewrite requant, IH. Qed.
End law.

(** The law a codec name selects. *)
Definition law_of `{Unicode} (codec : string) : option Law :=
  if decide (ToLower codec = PCMA) then Some a_law
  else if decide (ToLower codec = PCMU) then Some mu_law else None.

Lemma law_of_ok `{Unicode} codec L : law_of codec = Some L -> LawOk L.
Proof. unfold law_of. repeat case_decide; intros [= <-]; apply _. Qed.
Lemma DecodePayload_law `{Unicode} payload codec :
  DecodePayload payload codec = (fun L => map (@law_dec L) payload) <$> law_of codec.
Proof. unfold DecodePayload, law_of. by repeat case_decide. Qed.
Lemma EncodePCM_law `{Unicode} pcm codec :
  EncodePCM pcm codec = (fun L => map (@law_enc L) pcm) <$> law_of codec.
Proof. unfold EncodePCM, law_of. by repeat case_decide. Qed.

Lemma at_table_ok table b :
  length table = 256%nat -> bytes_ok table -> fits 8 b -> fits 8 (at_table table b).
Proof.
  intros Hl Ht Hb. unfold at_table. rewrite Forall_forall in Ht. apply Ht.
  apply list_elem_of_In, nth_In. width.
Qed.
Lemma aLawToMuLaw_ok : bytes_ok aLawToMuLaw.
Proof. apply (bool_decide_unpack _). by vm_compute. Qed.
Lemma muLawToALaw_ok : bytes_ok muLawToALaw.
Proof. apply (bool_decide_unpack _). by vm_compute. Qed.

(** ** Properties *)

(** A-law and mu-law are monotone quantisers of bounded error over the
    whole [int16] range: a louder sample never decodes to a quieter one, the
    error is at most a 32nd of the sample (plus the step at silence), and
    encoding a decoded A-law byte gives that byte back (for mu-law too, save
    the second code of zero). *)
Theorem companding_quantiser (L : Law) (s t : Z) :
  L = a_law \/ L = mu_law -> sfits 16 s -> sfits 16 t -> s <= t ->
  quantise L s <= quantise L t /\ Z.abs (quantise L s - s) <= Z.abs s / 32 + 8 /\
  (forall b, fits 8 b -> encodeALaw (decodeALaw b) = b) /\
  (forall b, fits 8 b -> encodeMuLaw (decodeMuLaw b) = if b =? 0x7F then 0xFF else b).
Proof.
  intros HL Hs Ht Hst.
  assert (LawOk L) as HLo by (destruct HL as [-> | ->]; apply _).
  split; [by apply quantise_mono|]. split.
  { pose proof (error_bound s Hs) as He. unfold quantise.
    destruct HL as [-> | ->]; cbn [law_err a_law mu_law] in He; [|lia].
    pose proof (Z.div_pos (Z.abs s) 32). lia. }
  split; intros b Hb.
  - finite_check 256%nat (fun b => encodeALaw (decodeALaw b) =? b) b as H. lia.
  - finite_check 256%nat (fun b => encodeMuLaw (decodeMuLaw b) =? (if b =? 0x7F then 0xFF else b)) b as H. lia.
Qed.

Lemma companding_quantiser_witness :
  quantise a_law (-1000) <= quantise a_law 31000 /\
  Z.abs (quantise a_law (-1000) - (-1000)) <= Z.abs (-1000) / 32 + 8.
Proof.
  destruct (companding_quantiser a_law (-1000) 31000) as (H1 & H2 & _);
    [by left|vm_compute; intuition congruence|vm_compute; intuition congruence|lia|].
  split; [exact H1|exact H2].
Defined.

(** Decoding a payload and encoding the samples again, in the same codec,
    keeps the number of samples and every sample value: the PCM paths may
    re-encode camera or telephone audio any number of times without further
    loss. *)
Theorem reencode_lossless `{Unicode} (payload : bytes) (codec : string) (pcm : list Z) :
  bytes_ok payload -> DecodePayload payload codec = Some pcm ->
  length pcm = length payload /\ pcm_ok pcm /\
  exists again, EncodePCM pcm codec = Some again /\ bytes_ok again /\
    length again = length payload /\ DecodePayload again codec = Some pcm.
Proof.
  rewrite DecodePayload_law, EncodePCM_law. intros Hp Hd.
  destruct (law_of codec) as [L|] eqn:HL; [|done]. cbn in Hd. injection Hd as <-.
  pose proof (law_of_ok _ _ HL) as HLo.
  rewrite length_map. split; [done|]. split; [by apply map_dec_range|].
  eexists. split; [done|]. split; [by apply map_enc_range, map_dec_range|].
  rewrite !length_map. split; [done|].
  rewrite DecodePayload_law, HL. cbn. by rewrite map_requant.
Qed.

Lemma reencode_lossless_witness :
  let U := ascii_tables in
  bytes_ok [0; 0x7F; 0xD5] /\ DecodePayload [0; 0x7F; 0xD5] "PCMU" = Some [-32124; 0; 716] /\
  exists again, EncodePCM [-32124; 0; 716] "PCMU" = Some again /\
    DecodePayload again "PCMU" = Some [-32124; 0; 716].
Proof.
  intros U. assert (bytes_ok [0; 0x7F; 0xD5]) as Hb by (apply (bool_decide_unpack _); by vm_compute).
  split; [done|]. split; [by vm_compute|].
  destruct (reencode_lossless [0; 0x7F; 0xD5] "PCMU" [-32124; 0; 716] Hb)
    as (_ & _ & again & H1 & _ & _ & H2); [by vm_compute|]. by exists again.
Defined.

(** [ConvertPayload] keeps the payload length, so RTP time stamps advance
    unchanged; between equal codecs it is the identity, and between A-law and
    mu-law each byte decodes to within one quantiser step of what it decoded
    to before. *)
Theorem ConvertPayload_transcodes `{Unicode} (payload : bytes) (from to : string) :
  bytes_ok payload ->
  length (ConvertPayload payload from to) = length payload /\
  bytes_ok (ConvertPayload payload from to) /\
  (ToLower from = ToLower to -> ConvertPayload payload from to = payload) /\
  (ToLower from = PCMA -> ToLower to = PCMU ->
   Forall2 (fun b c => Z.abs (decodeMuLaw c - decodeALaw b) <= Z.abs (decodeALaw b) / 32)
     payload (ConvertPayload payload from to)) /\
  (ToLower from = PCMU -> ToLower to = PCMA ->
   Forall2 (fun b c => Z.abs (decodeALaw c - decodeMuLaw b) <= Z.abs (decodeMuLaw b) / 32 + 8)
     payload (ConvertPayload payload from to)).
Proof.
  intros Hp. unfold ConvertPayload.
  assert (forall t, length t = 256%nat -> bytes_ok t -> bytes_ok (map (at_table t) payload)) as Hok.
  { intros t Hl Ht. apply Forall_map. eapply Forall_impl; [exact Hp|]. intros b. by apply at_table_ok. }
  split; [repeat case_decide; by rewrite ?length_map|].
  split; [repeat case_decide; auto using aLawToMuLaw_ok, muLawToALaw_ok|].
  split; [intros E; by rewrite decide_True|].
  split; intros -> ->.
  - rewrite decide_False, decide_True by done. apply Forall2_fmap_r, Forall_Forall2_diag.
    eapply Forall_impl; [exact Hp|]. intros b Hb. unfold compose.
    finite_check 256%nat (fun b => Z.abs (decodeMuLaw (at_table aLawToMuLaw b) - decodeALaw b) <=?
      Z.abs (decodeALaw b) / 32) b as Hc. lia.
  - rewrite !decide_False, decide_True by (done || by intros []). apply Forall2_fmap_r, Forall_Forall2_diag.
    eapply Forall_impl; [exact Hp|]. intros b Hb. unfold compose.
    finite_check 256%nat (fun b => Z.abs (decodeALaw (at_table muLawToALaw b) - decodeMuLaw b) <=?
      Z.abs (decodeMuLaw b) / 32 + 8) b as Hc. lia.
Qed.

Lemma ConvertPayload_transcodes_witness :
  let U := ascii_tables in
  bytes_ok [0; 200] /\ bytes_ok (ConvertPayload [0; 200] "pcma" "PCMU") /\
  length (ConvertPayload [0; 200] "pcma" "PCMU") = 2%nat.
Proof.
  intros U. assert (bytes_ok [0; 200]) as Hb by (apply (bool_decide_unpack _); by vm_compute).
  split; [done|]. destruct (ConvertPayload_transcodes [0; 200] "pcma" "PCMU" Hb) as (Hl & Ho & _).
  by split.
Defined.

End G711.
