(* ===== verification/PhoneBuffer.v ===== *)
(** The talkback queue of a call: [phoneAudioBuffer] of
    [internal/media/talkback_audio.go], fed by the RTP sequencer and drained
    once per Baichuan block. *)
From S2P Require Import Prelude GoBytes GoStrings Rtp G711 Resample Playout Sequencer.
Import Rtp G711 Resample Stats Sequencer.

Module PhoneBuffer.
Import Playout.Fifo Playout.Elastic.

Definition maxInputGapSamples : Z := 1600.
Definition Microsecond : Z := 1000.

Record phoneAudioBuffer := mkBuffer {
  codecName : string;
  resampler : linearResampler;
  fifo : sampleFIFO;
  elastic : playout;
  bstats : audioBridgeStats;
  haveTimeline : bool;
  nextTimestamp : Z;     (** uint32 *)
  receivedAudio : bool;
}.
#[export] Instance eta_buffer : Eta phoneAudioBuffer := fun b =>
  mkBuffer (codecName b) (resampler b) (fifo b) (elastic b) (bstats b) (haveTimeline b)
    (nextTimestamp b) (receivedAudio b).

Section buffer.
Context `{U : Unicode}.

(** [cos_gain] is the half-Hann formula of the playout window. *)
Definition newPhoneAudioBuffer (cos_gain : Z -> Z -> Z) (codec : string) (outputRate blockSamples : Z) : result phoneAudioBuffer :=
  _ ← fail_if (negb (bool_decide (codec = PCMA)) && negb (bool_decide (codec = PCMU)))
        "unsupported SIP talkback codec";
  r ← newLinearResampler outputRate;
  Ok (mkBuffer codec r (newSampleFIFO (blockSamples * 4)) (newElasticTalkbackPlayout cos_gain outputRate)
        zero_stats false 0 false).

Definition resetLocked (b : phoneAudioBuffer) : phoneAudioBuffer :=
  b <| haveTimeline := false |> <| nextTimestamp := 0 |>
    <| resampler ::= Resample.Reset |> <| fifo ::= Fifo.Reset |> <| elastic ::= ResetTimeline |>.

Definition pushPCM8Locked (b : phoneAudioBuffer) (pcm : list Z) : phoneAudioBuffer :=
  let '(resampled, r) := Resample.Push (resampler b) pcm in
  let '(dropped, f) := Fifo.Push (fifo b) resampled in
  let b := b <| resampler := r |> <| fifo := f |> in
  let b := if 0 <? dropped
           then b <| bstats ::= fun s => s <| FIFOOverflowSamples ::= plus64 dropped |> |> <| elastic ::= MarkOverflow |>
           else b in
  let n := Len (fifo b) in
  if FIFOMaxSamples (bstats b) <? n then b <| bstats ::= fun s => s <| FIFOMaxSamples := n |> |> else b.

(** The alignment of a packet on the timeline: the buffer with any gap filled,
    and the payload and timestamp to play; [None] for a packet wholly behind.
    The negation is one of [int32], and the slice expression can panic. *)
Definition align (b : phoneAudioBuffer) (payload : bytes) (timestamp : Z)
    : result (phoneAudioBuffer * option (bytes * Z)) :=
  if negb (haveTimeline b) then Ok (b, Some (payload, timestamp))
  else
    let delta := s32 (u32 (timestamp - nextTimestamp b)) in
    if (0 <? delta) && (delta <=? maxInputGapSamples) then
      Ok (pushPCM8Locked b (replicate (Z.to_nat delta) 0)
            <| bstats ::= fun s => s <| SilenceInsertedInput ::= plus64 delta |> |>, Some (payload, timestamp))
    else if maxInputGapSamples <? delta then
      Ok (resetLocked b <| bstats ::= fun s => s <| TimelineResets ::= incr |> |>, Some (payload, timestamp))
    else if delta <? 0 then
      let overlap := s32 (- delta) in
      if len payload <=? overlap then
        Ok (b <| bstats ::= fun s => s <| PacketsDuplicateLate ::= incr |> |>, None)
      else
        rest ← sub payload overlap (len payload);
        Ok (b, Some (rest, u32 (timestamp + u32 overlap)))
    else Ok (b, Some (payload, timestamp)).

(** The rest of [Push]: the aligned payload is decoded and queued. *)
Definition play (b : phoneAudioBuffer) (payload : bytes) (timestamp : Z) : phoneAudioBuffer :=
  let pcm := default [] (DecodePayload payload (codecName b)) in
  if len pcm =? 0 then b
  else
    pushPCM8Locked b pcm <| haveTimeline := true |> <| nextTimestamp := u32 (timestamp + len payload) |>
      <| receivedAudio := true |> <| bstats ::= fun s => s <| PacketsAccepted ::= incr |> |>.

Definition Push (b : phoneAudioBuffer) (frame : sequencedPacket) : result phoneAudioBuffer :=
  let b := if reset frame
           then resetLocked b <| bstats ::= fun s => s <| TimelineResets ::= incr |> |> else b in
  let p := packet frame in
  if len (Payload p) =? 0 then Ok b
  else
    r ← align b (Payload p) (Timestamp p);
    match r with
    | (b, None) => Ok b
    | (b, Some (payload, timestamp)) => Ok (play b payload timestamp)
    end.

(** The counters [PopBlock] updates once audio has been received. *)
Definition observe_pop (r : popResult) (s : audioBridgeStats) : audioBridgeStats :=
  let s := s <| FIFORawShortage ::= plus64 (rawShortage r) |> <| FIFOUnderrunSamples ::= plus64 (missing r) |>
             <| FIFOPlayoutBlocks ::= incr |> <| FIFOPlayoutTotal ::= plus64 (depthBefore r) |> in
  let s := if (FIFOPlayoutBlocks s =? 1) || (depthBefore r <? FIFOPlayoutMin s)
           then s <| FIFOPlayoutMin := depthBefore r |> else s in
  let s := if FIFOPlayoutMax s <? depthBefore r then s <| FIFOPlayoutMax := depthBefore r |> else s in
  let s := if 0 <? stretched r
           then s <| ElasticStretchBlocks ::= incr |> <| ElasticStretchedSamples ::= plus64 (stretched r) |> else s in
  let s := if 0 <? compressed r
           then s <| ElasticCompressBlocks ::= incr |> <| ElasticCompressedSamples ::= plus64 (compressed r) |> else s in
  let s :=
    if (0 <? consumed r) && (0 <? validOutput r) then
      let ratio := ratioPPM r in
      let s := s <| ElasticCurrentRatioPPM := ratio |> in
      let s := if (ElasticRatioMinPPM s =? 0) || (ratio <? ElasticRatioMinPPM s)
               then s <| ElasticRatioMinPPM := ratio |> else s in
      if ElasticRatioMaxPPM s <? ratio then s <| ElasticRatioMaxPPM := ratio |> else s
    else s in
  let s := if fadeOut r then s <| ElasticFadeOuts ::= incr |> else s in
  let s := if fadeIn r then s <| ElasticFadeIns ::= incr |> else s in
  let s := if overflowSplice r then s <| ElasticOverflowSplices ::= incr |> else s in
  s <| ElasticSupplyTrend := trend r |>.

Definition PopBlock (b : phoneAudioBuffer) (n : Z) : list Z * phoneAudioBuffer :=
  let '(r, e, f) := Elastic.Pop (elastic b) (fifo b) n in
  let b := b <| elastic := e |> <| fifo := f |> in
  (block r, if receivedAudio b then b <| bstats ::= observe_pop r |> else b).

Definition MergeSequencerStats (b : phoneAudioBuffer) (st : audioBridgeStats) : phoneAudioBuffer :=
  b <| bstats ::= fun s =>
    s <| PacketsDuplicateLate ::= plus64 (PacketsDuplicateLate st) |>
      <| PacketsReordered ::= plus64 (PacketsReordered st) |> <| SequenceGaps ::= plus64 (SequenceGaps st) |>
      <| TimelineResets ::= plus64 (TimelineResets st) |> <| SSRCChanges ::= plus64 (SSRCChanges st) |> |>.

(** Durations are in nanoseconds. *)
Definition ObserveRTPJitter (b : phoneAudioBuffer) (d : Z) : phoneAudioBuffer :=
  let d := if d <? 0 then - d else d in
  let us := Z.quot d Microsecond in
  if RTPJitterMaxUS (bstats b) <? us then b <| bstats ::= fun s => s <| RTPJitterMaxUS := us |> |> else b.

Definition RecordBaichuanWrite (b : phoneAudioBuffer) (d : Z) : phoneAudioBuffer :=
  let d := if d <? 0 then 0 else d in
  let us := Z.quot d Microsecond in
  let b := b <| bstats ::= fun s => s <| BaichuanBlocks ::= incr |> <| BaichuanWriteTotalUS ::= plus64 us |> |> in
  if BaichuanWriteMaxUS (bstats b) <? us then b <| bstats ::= fun s => s <| BaichuanWriteMaxUS := us |> |> else b.

(** ** Invariant *)

(** [bs] is the camera's block size. *)
Record inv (bs : Z) (b : phoneAudioBuffer) : Prop := {
  inv_law : is_Some (law_of (codecName b));
  inv_resampler : Resample.wf (resampler b);
  inv_prev : havePrev (resampler b) = true -> sfits 16 (prev (resampler b));
  inv_fifo : Fifo.wf (fifo b) /\ Fifo.max (fifo b) = Z.max 1 (bs * 4);
  inv_pcm : pcm_ok (buf (fifo b));
  inv_playout : playout_ok (elastic b);
}.

Lemma reset_inv bs b : inv bs b -> inv bs (resetLocked b).
Proof.
  intros [H1 [H2 H2'] H3 [[H4 H4'] H5] H6 H7]. split; cbn; try done.
  split; [split; cbn; lia|done].
Qed.

(** The invariant does not see the counters and the timeline. *)
Lemma inv_ext bs b b' :
  inv bs b -> codecName b' = codecName b -> resampler b' = resampler b -> fifo b' = fifo b ->
  elastic b' = elastic b -> inv bs b'.
Proof. intros [H1 H2 H3 H4 H5 H6] E1 E2 E3 E4. split; rewrite ?E1, ?E2, ?E3, ?E4; done. Qed.

Lemma resample_push_spec r pcm out r' n k :
  Resample.wf r -> (havePrev r = true -> sfits 16 (prev r)) -> pcm_ok pcm -> Resample.Push r pcm = (out, r') ->
  Resample.wf r' /\ (havePrev r' = true -> sfits 16 (prev r')) /\ outRate r' = outRate r /\ pcm_ok out /\
  (outRate r <> Resample.g711SampleRate -> Resample.position r n k -> Resample.position r' (n + len pcm) (k + len out)).
Proof.
  intros Hw Hp Hpcm. unfold Resample.Push. destruct (Z.eqb_spec (outRate r) Resample.g711SampleRate) as [E|E].
  { by intros [= <- <-]. }
  intros H. destruct (push_samples_pcm pcm r out r' Hw Hp Hpcm H) as (W & R & P & O).
  do 4 (split; [done|]). intros _ Hpos.
  apply (push_samples_spec pcm r n k out r' (-32768) 32767) in H as (_ & _ & H & _); try done.
  - intros E'. specialize (Hp E'). width.
  - eapply Forall_impl; [exact Hpcm|]. intros x Hx. width.
Qed.

(** [pushPCM8Locked] touches nothing but the two queues and the counters. *)
Lemma pushPCM8_spec bs b pcm n k :
  inv bs b -> pcm_ok pcm ->
  let b' := pushPCM8Locked b pcm in
  inv bs b' /\ codecName b' = codecName b /\ haveTimeline b' = haveTimeline b /\
  nextTimestamp b' = nextTimestamp b /\ outRate (resampler b') = outRate (resampler b) /\
  (outRate (resampler b) <> Resample.g711SampleRate -> Resample.position (resampler b) n k ->
     exists k', Resample.position (resampler b') (n + len pcm) k').
Proof.
  intros [H1 H2 H3 [H4 H4'] H5 H6] Hpcm. unfold pushPCM8Locked.
  destruct (Resample.Push (resampler b) pcm) as [out r] eqn:Er.
  apply (resample_push_spec _ _ _ _ n k) in Er as (R1 & R2 & R3 & R4 & R5); [|done..].
  pose proof (Fifo.fifo_Push_wf (fifo b) out H4) as Hwf. rewrite Fifo.fifo_Push_spec in Hwf |- * by done.
  set (f := mkFIFO _ _) in *.
  assert (pcm_ok (buf f)) as Hf by (by apply Forall_drop, Forall_app).
  set (b1 := b <| resampler := r |> <| fifo := f |>).
  assert (inv bs b1) as Hi1 by (by split).
  match goal with |- context [if 0 <? ?d then ?x else b1] => set (b2 := if 0 <? d then x else b1) end.
  assert (inv bs b2 /\ codecName b2 = codecName b /\ haveTimeline b2 = haveTimeline b /\
    nextTimestamp b2 = nextTimestamp b /\ resampler b2 = r) as (Hi & E1 & E2 & E3 & E4).
  { subst b2. destruct (0 <? _); [|by subst b1]. split; [|by subst b1].
    destruct Hi1 as [? ? ? ? ? ?]. by split. }
  clearbody b2. cbv zeta.
  destruct (_ <? _); (split; [first [done|by apply (inv_ext bs b2)]|]); cbn; rewrite ?E4;
    (do 4 (split; [done|])); eauto.
Qed.

Lemma decode_spec codec payload :
  is_Some (law_of codec) -> bytes_ok payload ->
  exists pcm, DecodePayload payload codec = Some pcm /\ pcm_ok pcm /\ length pcm = length payload.
Proof.
  intros [L HL] Hp. rewrite DecodePayload_law, HL. cbn. pose proof (law_of_ok _ _ HL) as HLo.
  eexists. split; [done|]. split; [by apply map_dec_range|apply length_map].
Qed.

Lemma play_spec bs b payload timestamp n k :
  inv bs b -> bytes_ok payload -> payload <> [] ->
  let b' := play b payload timestamp in
  inv bs b' /\ haveTimeline b' = true /\ nextTimestamp b' = u32 (timestamp + len payload) /\
  receivedAudio b' = true /\
  (outRate (resampler b) <> Resample.g711SampleRate -> Resample.position (resampler b) n k ->
     exists k', Resample.position (resampler b') (n + len payload) k').
Proof.
  intros Hi Hp Hne. destruct (decode_spec (codecName b) payload (inv_law _ _ Hi) Hp) as (pcm & Hd & Hpcm & Hl).
  unfold play. rewrite Hd. change (default [] (Some pcm)) with pcm.
  destruct (Z.eqb_spec (len pcm) 0) as [E|_]. { destruct Hne. apply len_0. lia. }
  destruct (pushPCM8_spec bs b pcm n k Hi Hpcm) as (P1 & P2 & P3 & P4 & P5 & P6). cbv zeta.
  split; [|repeat (split; [done|]); rewrite Hl in P6; apply P6].
  destruct P1. by split.
Qed.

Definition is_gap (b : phoneAudioBuffer) (timestamp : Z) : Z := s32 (u32 (timestamp - nextTimestamp b)).

Lemma overlap_neg d : sfits 32 d -> d < 0 -> s32 (- d) = if d =? - 2 ^ 31 then d else - d.
Proof. intros. ifs; width. Qed.

Lemma align_inv bs b payload ts b' r :
  inv bs b -> bytes_ok payload -> payload <> [] -> align b payload ts = Ok (b', r) ->
  inv bs b' /\ match r with None => True | Some (rest, _) => bytes_ok rest /\ rest <> [] end.
Proof.
  intros Hi Hp Hne. unfold align. destruct (haveTimeline b); cbn [negb]; [|by intros [= <- <-]].
  set (d := s32 _). destruct ((0 <? d) && (d <=? maxInputGapSamples)).
  { intros [= <- <-]. split; [|done].
    apply (inv_ext bs (pushPCM8Locked b (replicate (Z.to_nat d) 0))); [|done..].
    apply (pushPCM8_spec bs b (replicate (Z.to_nat d) 0) 0 0 Hi). apply Forall_replicate. width. }
  destruct (maxInputGapSamples <? d). { intros [= <- <-]. split; [|done]. by apply (inv_ext bs (resetLocked b)); [apply reset_inv|..]. }
  destruct (d <? 0) eqn:Ed; [|by intros [= <- <-]].
  destruct (len payload <=? s32 (- d)) eqn:Eo. { intros [= <- <-]. split; [|done]. by apply (inv_ext bs b). }
  intros (rest & Hs & [= <- <-])%bind_ok. split; [done|].
  apply sub_inv in Hs as (Hb & ->). split; [by apply forall_slice|].
  intros E. apply (f_equal length) in E. cbn in E. pose proof (len_slice payload (s32 (- d)) (len payload) ltac:(lia)). lia.
Qed.

Lemma Push_inv bs b frame b' :
  inv bs b -> bytes_ok (Payload (packet frame)) -> Push b frame = Ok b' -> inv bs b'.
Proof.
  intros Hi Hp. unfold Push. set (b1 := if reset frame then _ else b).
  assert (inv bs b1) as Hi1 by (subst b1; destruct (reset frame); [by apply (inv_ext bs (resetLocked b)); [apply reset_inv|..]|done]).
  clearbody b1. destruct (Z.eqb_spec (len (Payload (packet frame))) 0) as [E|E]; [by intros [= <-]|].
  intros ([b2 r] & Ha & H)%bind_ok.
  apply (align_inv bs) in Ha as [Hi2 Hr]; [|done|done|intros E'; by rewrite E' in E].
  destruct r as [[rest ts]|]; injection H as <-; [|done]. destruct Hr. by apply (play_spec bs b2 rest ts 0 0).
Qed.

Lemma PopBlock_inv bs b n out b' :
  inv bs b -> PopBlock b n = (out, b') -> inv bs b' /\ len out = Z.max 0 n /\ pcm_ok out.
Proof.
  intros [H1 H2 H3 [H4 H4'] H5 H6]. unfold PopBlock.
  destruct (Elastic.Pop _ _ _) as [[r e] f] eqn:E.
  assert (inv bs (b <| elastic := e |> <| fifo := f |>) /\ len (block r) = Z.max 0 n /\ pcm_ok (block r)) as (Hi & Hl & Hp).
  { destruct (Z.leb_spec n 0) as [Hn|Hn].
    - unfold Elastic.Pop in E. rewrite (proj2 (Z.leb_le _ _)) in E by done. injection E as <- <- <-.
      split; [by split|]. cbn. split; [lia|done].
    - destruct (Pop_block _ _ _ _ _ _ Hn H4 H5 H6 E) as (B1 & B2 & B3 & B4 & B5 & B6).
      split; [split; cbn; try done|split; [lia|done]]. by rewrite B5. }
  destruct (receivedAudio _); intros [= <- <-]; (split; [|done]); [by apply (inv_ext bs _ _ Hi)|done].
Qed.

(** ** Properties *)

Inductive op :=
| OpPush (frame : sequencedPacket)
| OpPop (n : Z)
| OpMerge (st : audioBridgeStats)
| OpJitter (d : Z)
| OpWrite (d : Z).

(** The calls of the two goroutines, in the order the mutex admits them; each
    block popped with its size. *)
Fixpoint run_ops (b : phoneAudioBuffer) (ops : list op) : result (list (Z * list Z) * phoneAudioBuffer) :=
  match ops with
  | [] => Ok ([], b)
  | OpPush f :: r => b ← Push b f; run_ops b r
  | OpPop n :: r => let '(blk, b) := PopBlock b n in
                    '(blks, b) ← run_ops b r; Ok ((n, blk) :: blks, b)
  | OpMerge st :: r => run_ops (MergeSequencerStats b st) r
  | OpJitter d :: r => run_ops (ObserveRTPJitter b d) r
  | OpWrite d :: r => run_ops (RecordBaichuanWrite b d) r
  end.
Definition op_ok (o : op) : Prop := match o with OpPush f => bytes_ok (Payload (packet f)) | _ => True end.

Lemma run_ops_inv bs ops : forall b blks b',
  inv bs b -> Forall op_ok ops -> run_ops b ops = Ok (blks, b') ->
  inv bs b' /\ Forall (fun nb => len nb.2 = Z.max 0 nb.1 /\ pcm_ok nb.2) blks.
Proof.
  induction ops as [|o ops IH]; intros b blks b' Hi Ho; cbn [run_ops]; [by intros [= <- <-]|].
  apply Forall_cons in Ho as [Ho Hr]. destruct o as [f|n|st|d|d].
  - intros (b1 & H1 & H)%bind_ok. apply (IH b1); try done. by eapply Push_inv.
  - destruct (PopBlock b n) as [blk b1] eqn:E. apply (PopBlock_inv bs) in E as (Hi1 & Hl); [|done].
    intros ([bl b2] & H1 & [= <- <-])%bind_ok. destruct (IH b1 bl b2) as [H2 H3]; try done.
    split; [done|]. by constructor.
  - apply IH; [by apply (inv_ext bs b)|done].
  - apply IH; [|done]. unfold ObserveRTPJitter. by destruct (_ <? Z.quot _ _); [apply (inv_ext bs b)|].
  - apply IH; [|done]. unfold RecordBaichuanWrite. destruct (_ <? Z.quot _ _); by apply (inv_ext bs b).
Qed.

Lemma law_of_G711 : law_of PCMA = Some a_law /\ law_of PCMU = Some mu_law.
Proof. split; reflexivity. Qed.

Lemma buffer_new_inv cos_gain codec rate bs b :
  (forall n i, 0 <= cos_gain n i <= pcmGainScale) ->
  newPhoneAudioBuffer cos_gain codec rate bs = Ok b -> inv bs b.
Proof.
  intros Hc. unfold newPhoneAudioBuffer, newLinearResampler.
  intros ([] & Hcodec%fail_if_ok & (r & ([] & Hr%fail_if_ok & [= <-])%bind_ok & [= <-])%bind_ok)%bind_ok.
  split; cbn; try done.
  - apply andb_false_iff in Hcodec as [H|H]; apply negb_false_iff, bool_decide_eq_true in H as ->;
      destruct law_of_G711 as [E1 E2]; rewrite ?E1, ?E2; eauto.
  - split; cbn; [unfold g711SampleRate in *; lia|done].
  - split; [apply Fifo.fifo_new_wf|]. cbn. ifs; lia.
  - by apply new_playout_ok.
Qed.

(** The talkback latency is bounded whatever arrives: for any sequence of
    packets, blocks taken and statistics calls, the queue holds at most four
    camera blocks and every block taken has exactly the requested length and
    holds [int16] samples. *)
Theorem buffer_bounded (cos_gain : Z -> Z -> Z) (codec : string) (rate bs : Z) (b0 b : phoneAudioBuffer) (ops : list op)
    (blks : list (Z * list Z)) :
  (forall n i, 0 <= cos_gain n i <= pcmGainScale) ->
  newPhoneAudioBuffer cos_gain codec rate bs = Ok b0 -> Forall op_ok ops -> run_ops b0 ops = Ok (blks, b) ->
  Len (fifo b) <= Z.max 1 (bs * 4) /\
  Forall (fun nb => len nb.2 = Z.max 0 nb.1 /\ pcm_ok nb.2) blks.
Proof.
  intros Hc H0 Ho H. apply (run_ops_inv bs) in H as [Hi Hb]; [|by eapply buffer_new_inv|done].
  destruct Hi as [_ _ _ [[_ Hl] <-] _ _]. by split.
Qed.

(** The queue follows the RTP clock exactly.  When a packet continues a
    timeline on which the resampler has taken [n] samples, it has taken
    [n + adv] afterwards, where [adv] is how far the end of the packet lies
    beyond the timestamp expected: a gap of at most 200 ms is filled with
    silence, an overlap is cut off, a packet wholly behind changes nothing but
    a counter, and a larger jump starts afresh.  The next timestamp expected is
    the end of the packet. *)
Theorem Push_follows_timestamps (bs n k : Z) (b b' : phoneAudioBuffer) (p : Packet) :
  inv bs b -> outRate (resampler b) <> g711SampleRate -> position (resampler b) n k ->
  haveTimeline b = true -> fits 32 (nextTimestamp b) -> fits 32 (Timestamp p) ->
  Payload p <> [] -> bytes_ok (Payload p) -> len (Payload p) < 2 ^ 31 - 1600 ->
  Push b (mkFrame p false) = Ok b' ->
  let gap := is_gap b (Timestamp p) in
  let adv := gap + len (Payload p) in
  if adv <=? 0 then b' = b <| bstats ::= fun s => s <| PacketsDuplicateLate ::= incr |> |>
  else
    haveTimeline b' = true /\ receivedAudio b' = true /\
    nextTimestamp b' = u32 (Timestamp p + len (Payload p)) /\
    if gap <=? maxInputGapSamples
    then nextTimestamp b' = u32 (nextTimestamp b + adv) /\ exists k', position (resampler b') (n + adv) k'
    else exists k', position (resampler b') (len (Payload p)) k'.
Proof.
  intros Hi Hr Hpos Ht Hnf Htf Hne Hp Hlen. unfold Push. cbn [reset packet].
  assert (0 < len (Payload p)) as Hpl by (destruct (Payload p); [done|cbn [length]; lia]).
  rewrite (proj2 (Z.eqb_neq _ _)) by lia.
  intros ([b1 r] & Ha & H)%bind_ok. revert Ha. unfold align, is_gap. rewrite Ht. cbn [negb]. cbv zeta.
  set (d := s32 (u32 (Timestamp p - nextTimestamp b))).
  assert (sfits 32 d /\ u32 (nextTimestamp b + d) = Timestamp p) as [Hd Hdt] by (subst d; width).
  clearbody d. unfold maxInputGapSamples in *.
  destruct ((0 <? d) && (d <=? 1600)) eqn:E1; [|destruct (1600 <? d) eqn:E2; [|destruct (d <? 0) eqn:E3]].
  - intros [= <- <-]. injection H as <-.
    set (sil := replicate (Z.to_nat d) 0).
    assert (pcm_ok sil) as Hsil by (apply Forall_replicate; width).
    destruct (pushPCM8_spec bs b sil n k Hi Hsil) as (P1 & P2 & P3 & P4 & P5 & P6).
    destruct (P6 Hr Hpos) as [k1 Hk1]. unfold sil in Hk1 at 2. rewrite len_replicate, Z2Nat.id in Hk1 by lia.
    match goal with |- context [play ?x (Payload p) _] => set (b1 := x) end.
    destruct (play_spec bs b1 (Payload p) (Timestamp p) (n + d) k1) as (Q1 & Q2 & Q3 & Q4 & Q5);
      [by apply (inv_ext bs (pushPCM8Locked b sil))|done|done|].
    rewrite (proj2 (Z.leb_gt _ _)) by lia. do 3 (split; [done|]). rewrite (proj2 (Z.leb_le d _)) by lia.
    split; [rewrite Q3, <- Hdt, wrap_add_l; f_equal; lia|]. rewrite Z.add_assoc. apply Q5; [|done].
    cbn. by rewrite P5.
  - intros [= <- <-]. injection H as <-.
    match goal with |- context [play ?x (Payload p) _] => set (b1 := x) end.
    destruct (play_spec bs b1 (Payload p) (Timestamp p) 0 0) as (Q1 & Q2 & Q3 & Q4 & Q5);
      [apply (inv_ext bs (resetLocked b)); try done; by apply reset_inv|done|done|].
    rewrite (proj2 (Z.leb_gt _ _)) by lia. do 3 (split; [done|]). rewrite (proj2 (Z.leb_gt d _)) by lia.
    by apply Q5.
  - rewrite overlap_neg by (done || lia). destruct (d =? - 2 ^ 31) eqn:E4.
    { rewrite (proj2 (Z.leb_gt (len _) d)) by lia. unfold sub. rewrite decide_False by lia. done. }
    destruct (len (Payload p) <=? - d) eqn:E5.
    { intros [= <- <-]. injection H as <-. by rewrite (proj2 (Z.leb_le _ _)) by lia. }
    rewrite sub_ok by lia. intros [= <- <-]. injection H as <-.
    pose proof (len_slice (Payload p) (- d) (len (Payload p)) ltac:(lia) ltac:(lia)) as Hsl.
    set (rest := slice _ _ _) in *.
    destruct (play_spec bs b rest (u32 (Timestamp p + u32 (- d))) n k) as (Q1 & Q2 & Q3 & Q4 & Q5);
      [done|by apply forall_slice|intros E; rewrite E in Hsl; cbn [length] in Hsl; lia|].
    rewrite Hsl in Q3, Q5. rewrite (proj2 (Z.leb_gt _ _)) by lia. rewrite (proj2 (Z.leb_le d _)) by lia.
    split; [done|]. split; [done|].
    assert (nextTimestamp (play b rest (u32 (Timestamp p + u32 (- d)))) = u32 (Timestamp p + len (Payload p))) as ->.
    { rewrite Q3. autorewrite with width. f_equal. lia. }
    split; [done|]. split; [rewrite <- Hdt, wrap_add_l; f_equal; lia|].
    replace (n + (d + len (Payload p))) with (n + (len (Payload p) - - d)) by lia. by apply Q5.
  - intros [= <- <-]. injection H as <-. assert (d = 0) as -> by lia.
    destruct (play_spec bs b (Payload p) (Timestamp p) n k) as (Q1 & Q2 & Q3 & Q4 & Q5); [done..|].
    rewrite (proj2 (Z.leb_gt _ _)) by lia. do 3 (split; [done|]). cbn [Z.leb Z.compare].
    rewrite Z.add_0_r in Hdt. split; [by rewrite Q3, <- Hdt, wrap_add_l|]. by apply Q5.
Qed.

Lemma half_clock x : fits 32 x -> x = 2 ^ 31 <-> s32 x = - 2 ^ 31.
Proof. intros. split; width. Qed.

Lemma align_panics b payload ts :
  align b payload ts = Panic <-> haveTimeline b = true /\ u32 (ts - nextTimestamp b) = 2 ^ 31.
Proof.
  unfold align. destruct (haveTimeline b); cbn [negb]; [|split; [discriminate|by intros [? _]]].
  cbv zeta. assert (fits 32 (u32 (ts - nextTimestamp b))) as Hx by (apply wrap_fits; lia).
  rewrite (half_clock _ Hx).
  assert (sfits 32 (s32 (u32 (ts - nextTimestamp b)))) as Hd by (apply swrap_fits; lia).
  set (d := s32 _) in *. clearbody d. unfold maxInputGapSamples.
  destruct ((0 <? d) && (d <=? 1600)) eqn:E1; [split; [discriminate|intros [_ ?]; lia]|].
  destruct (1600 <? d) eqn:E2; [split; [discriminate|intros [_ ?]; lia]|].
  destruct (d <? 0) eqn:E3; [|split; [discriminate|intros [_ ?]; lia]].
  rewrite overlap_neg by (done || lia). destruct (Z.eqb_spec d (- 2 ^ 31)) as [E4|E4].
  - rewrite (proj2 (Z.leb_gt (len _) d)) by lia. unfold sub. rewrite decide_False by lia. by split.
  - destruct (len payload <=? - d) eqn:E5; [split; [discriminate|tauto]|].
    rewrite sub_ok by lia. split; [discriminate|tauto].
Qed.

(** The only way to bring [Push] down is a packet whose timestamp lies
    exactly half the clock range from the expected one: the [int32] difference
    is then its own negation, the overlap is negative and the slice expression
    panics.  No other packet does. *)
Theorem Push_panics (b : phoneAudioBuffer) (frame : sequencedPacket) :
  Push b frame = Panic <->
  reset frame = false /\ Payload (packet frame) <> [] /\ haveTimeline b = true /\
  u32 (Timestamp (packet frame) - nextTimestamp b) = 2 ^ 31.
Proof.
  unfold Push. destruct (Z.eqb_spec (len (Payload (packet frame))) 0) as [E|E].
  { apply len_0 in E. rewrite E. split; [discriminate|by intros (_ & ? & _)]. }
  assert (Payload (packet frame) <> []) as Hne by (intros E'; by rewrite E' in E).
  match goal with |- (?r ≫= ?f) = Panic <-> _ => assert ((r ≫= f) = Panic <-> r = Panic) as -> end.
  { destruct (align _ _ _) as [[? [[? ?]|]]|e|]; cbn; split; done. }
  rewrite align_panics. destruct (reset frame); [|tauto].
  split; [by intros [? _]|by intros [? _]].
Qed.
End buffer.

(** ** Witnesses *)

Definition flat_gain (n i : Z) : Z := 16384.
Definition audio_packet (timestamp n : Z) : Packet := mkPacket 8 false 1 timestamp 7 (replicate (Z.to_nat n) 0x55).
Definition buffer16 `{Unicode} : phoneAudioBuffer :=
  mkBuffer PCMA (mkResampler 16000 false 0 0 0) (newSampleFIFO 4096) (newElasticTalkbackPlayout flat_gain 16000)
    zero_stats false 0 false.

Lemma flat_gain_ok n i : 0 <= flat_gain n i <= pcmGainScale.
Proof. done. Qed.

Lemma audio_packet_bytes ts n : bytes_ok (Payload (audio_packet ts n)).
Proof. apply Forall_replicate. width. Qed.

Lemma buffer_bounded_witness :
  let U := ascii_tables in
  let ops := [OpPush (mkFrame (audio_packet 0 160) true); OpPop 64; OpPush (mkFrame (audio_packet 200 160) false); OpPop 512] in
  match run_ops buffer16 ops with
  | Ok (blks, b) => Len (fifo b) <= 4096 /\ length blks = 2%nat
  | _ => False
  end.
Proof.
  cbv zeta. set (U := ascii_tables).
  set (ops := [OpPush _; OpPop 64; OpPush _; OpPop 512]).
  assert (match run_ops buffer16 ops with Ok (blks, _) => length blks = 2%nat | _ => False end) as H
    by (vm_compute; reflexivity).
  destruct (run_ops buffer16 ops) as [[blks b]|e|] eqn:E; [|destruct H|destruct H].
  split; [|exact H].
  eapply (buffer_bounded flat_gain PCMA 16000 1024 buffer16 b ops blks flat_gain_ok); [reflexivity| |exact E].
  repeat (apply Forall_cons_2; [first [exact I|apply audio_packet_bytes]|]). constructor.
Defined.

Definition playing16 `{Unicode} : phoneAudioBuffer :=
  match Push buffer16 (mkFrame (audio_packet 1000 160) false) with Ok b => b | _ => buffer16 end.

Lemma playing16_ok `{Unicode} : exists k, inv 1024 playing16 /\ position (resampler playing16) 160 k.
Proof.
  assert (inv 1024 buffer16) as Hi by (apply (buffer_new_inv flat_gain PCMA 16000); [apply flat_gain_ok|reflexivity]).
  assert (playing16 = play buffer16 (replicate 160 0x55) 1000) as -> by reflexivity.
  destruct (play_spec 1024 buffer16 (replicate 160 0x55) 1000 0 0 Hi) as (H1 & _ & _ & _ & H2);
    [apply Forall_replicate; width|done|].
  destruct H2 as [k Hk]; [done|done|]. exists k. split; [exact H1|exact Hk].
Qed.

Lemma Push_follows_timestamps_witness :
  let U := ascii_tables in
  exists b', Push playing16 (mkFrame (audio_packet 1200 160) false) = Ok b' /\
    nextTimestamp b' = 1360 /\ exists k', position (resampler b') 360 k'.
Proof.
  cbv zeta. set (U := ascii_tables). destruct playing16_ok as (k & Hi & Hpos).
  assert (is_ok (Push playing16 (mkFrame (audio_packet 1200 160) false)) = true) as Hok by (vm_compute; reflexivity).
  destruct (Push playing16 (mkFrame (audio_packet 1200 160) false)) as [b'|e|] eqn:E; [|discriminate Hok|discriminate Hok].
  exists b'. split; [reflexivity|].
  destruct (Push_follows_timestamps 1024 160 k playing16 b' (audio_packet 1200 160) Hi)
    as (_ & _ & Hn & _ & Hk).
  - vm_compute. discriminate.
  - exact Hpos.
  - vm_compute. reflexivity.
  - vm_compute. split; [discriminate|reflexivity].
  - vm_compute. split; [discriminate|reflexivity].
  - vm_compute. discriminate.
  - apply audio_packet_bytes.
  - vm_compute. reflexivity.
  - exact E.
  - split; [rewrite Hn; vm_compute; reflexivity|exact Hk].
Defined.

(** The panic happens: a packet 2^31 ahead of the expected timestamp. *)
Lemma Push_panics_example :
  let U := ascii_tables in Push playing16 (mkFrame (audio_packet (1160 + 2 ^ 31) 160) false) = Panic.
Proof. vm_compute. reflexivity. Qed.
End PhoneBuffer.
