(* ===== verification/CameraPlayout.v ===== *)
(** The jitter smoother of the camera's audio: [internal/media/playout_pll.go].

    Decoded PCM comes in bursts; a frame of 20 ms goes out every 20 ms.  Floats are
    IEEE binary64, times are nanoseconds; a zero [time.Time] is [None], and what the
    callers pass is a reading of the clock, never zero. *)
From S2P Require Import Prelude GoBytes Resample Playout Sequencer.
Import Stats.

Module CameraPlayout.

Definition cameraPlayoutFrameSamples : Z := 160.
Definition cameraPlayoutStartupSamples : Z := 960.
Definition cameraPlayoutMaxSamples : Z := 2560.
Definition cameraPlayoutRecoverySamples : Z := 1440.
Definition fraction (n d : Z) : F64.t := F64.div (F64.of_Z n) (F64.of_Z d).
Definition cameraPLLMaxCorrection : F64.t := fraction 20 100.
Definition cameraPLLKp : F64.t := fraction 1 4000.
Definition cameraPLLKi : F64.t := fraction 1 800000.
Definition cameraPLLIntegralLimit : F64.t := fraction 10 100.
Definition cameraPLLLowWatermark : Z := 480.
Definition cameraPLLHighWatermark : Z := 2080.
Definition Millisecond : Z := 1000000.
Definition cameraInputTimelineRebase : Z := 750 * Millisecond.

Record cameraPlayoutPLL := mkPLL {
  buf : list Z;
  phase : F64.t; integral : F64.t; correction : F64.t; active : bool;
  bufStartAt : option Z; inputNextAt : option Z; lastFrameAt : option Z; lastArrival : option Z;
  frames : Z; queueSamplesTotal : Z; queueObservations : Z; queueMin : Z; queueMax : Z;
  hardDropped : Z; underrunOutput : Z; correctionSum : F64.t; maxAbsCorrection : F64.t;
  haveQueueStatistic : bool; inputRebases : Z; inputChunks : Z; inputMaxChunk : Z; inputMaxArrivalGap : Z;
}.
#[export] Instance eta_pll : Eta cameraPlayoutPLL := fun p =>
  mkPLL (buf p) (phase p) (integral p) (correction p) (active p) (bufStartAt p) (inputNextAt p) (lastFrameAt p) (lastArrival p)
    (frames p) (queueSamplesTotal p) (queueObservations p) (queueMin p) (queueMax p) (hardDropped p) (underrunOutput p)
    (correctionSum p) (maxAbsCorrection p) (haveQueueStatistic p) (inputRebases p) (inputChunks p) (inputMaxChunk p)
    (inputMaxArrivalGap p).

Definition newCameraPlayoutPLL : cameraPlayoutPLL :=
  mkPLL [] F64.zero F64.zero F64.zero false None None None None 0 0 0 0 0 0 0 F64.zero F64.zero false 0 0 0 0.

Definition samplesDuration (n : Z) : Z := Z.quot (n * 1000000000) 8000.
Definition samplesDurationFloat (n : F64.t) : Z :=
  F64.trunc_int (F64.div (F64.mul n (F64.of_Z 1000000000)) (F64.of_Z 8000)).
Definition advanceBufferClock (samples : F64.t) (p : cameraPlayoutPLL) : cameraPlayoutPLL :=
  match bufStartAt p with
  | Some t => if F64.ltb F64.zero samples then p <| bufStartAt := Some (t + samplesDurationFloat samples) |> else p
  | None => p
  end.
Definition observeQueue (n : Z) (p : cameraPlayoutPLL) : cameraPlayoutPLL :=
  let p :=
    if negb (haveQueueStatistic p) then p <| queueMin := n |> <| queueMax := n |> <| haveQueueStatistic := true |>
    else p <| queueMin ::= Z.min n |> <| queueMax ::= Z.max n |> in
  p <| queueSamplesTotal ::= plus64 n |> <| queueObservations ::= incr |>.

(** * [Push] *)

(** The counters of the input. *)
Definition observe_input (n arrival : Z) (p : cameraPlayoutPLL) : cameraPlayoutPLL :=
  let p := p <| inputChunks ::= incr |> in
  let p := if inputMaxChunk p <? n then p <| inputMaxChunk := n |> else p in
  let p := match lastArrival p with
           | Some t => if inputMaxArrivalGap p <? Z.abs (arrival - t) then p <| inputMaxArrivalGap := Z.abs (arrival - t) |> else p
           | None => p
           end in
  p <| lastArrival := Some arrival |>.
(** Where the chunk lies on the media timeline: its start, what was dropped, whether the timeline was rebased. *)
Definition place (nominalStart : Z) (p : cameraPlayoutPLL) : Z * Z * bool * cameraPlayoutPLL :=
  match inputNextAt p with
  | None => (nominalStart, 0, false, p)
  | Some next =>
    if Z.abs (nominalStart - next) <=? cameraInputTimelineRebase then (next, 0, false, p)
    else
      let n := len (buf p) in
      let p := p <| inputRebases ::= incr |> in
      let p := if 0 <? n then p <| hardDropped ::= plus64 n |> <| buf := [] |> else p in
      (nominalStart, n, true, p <| phase := F64.zero |> <| integral := F64.zero |> <| correction := F64.zero |> <| bufStartAt := None |>)
  end.
(** Late data after an underrun resumes at the next frame. *)
Definition resume (chunkStart : Z) (p : cameraPlayoutPLL) : Z * bool :=
  match lastFrameAt p with
  | Some t =>
    if active p && bool_decide (buf p = []) && (chunkStart <? t + 20 * Millisecond) then (t + 20 * Millisecond, true)
    else (chunkStart, false)
  | None => (chunkStart, false)
  end.
(** A backlog is cut to the recovery mark. *)
Definition cut_backlog (p : cameraPlayoutPLL) : Z * cameraPlayoutPLL :=
  if cameraPlayoutMaxSamples <? len (buf p) then
    let drop_ := len (buf p) - cameraPlayoutRecoverySamples in
    let p := p <| buf ::= drop (Z.to_nat drop_) |> in
    (drop_, advanceBufferClock (F64.of_Z drop_) p <| phase := F64.zero |> <| hardDropped ::= plus64 drop_ |>)
  else (0, p).
Definition Push (samples : list Z) (arrival : Z) (p : cameraPlayoutPLL) : Z * bool * cameraPlayoutPLL :=
  if decide (samples = []) then (0, false, p)
  else
    let p := observe_input (len samples) arrival p in
    let chunkDur := samplesDuration (len samples) in
    let '(chunkStart, dropped, rebased, p) := place (arrival - chunkDur) p in
    let '(chunkStart, late) := resume chunkStart p in
    let p := p <| inputNextAt := Some (chunkStart + chunkDur) |> in
    let p := if decide (buf p = []) then p <| bufStartAt := Some chunkStart |> else p in
    let '(cut, p) := cut_backlog (p <| buf ::= fun l => l ++ samples |>) in
    let p := if negb (active p) && (cameraPlayoutStartupSamples <=? len (buf p)) then p <| active := true |> else p in
    (dropped + cut, rebased || late || (0 <? cut), observeQueue (len (buf p)) p).

Definition Len (p : cameraPlayoutPLL) : Z := len (buf p).
Definition Ready (p : cameraPlayoutPLL) : bool := active p.

(** * [PopFrame] *)

(** [if x > limit { x = limit } else if x < -limit { x = -limit }]. *)
Definition clamp (limit x : F64.t) : F64.t :=
  if F64.ltb limit x then limit else if F64.ltb x (F64.neg limit) then F64.neg limit else x.
(** The control loop: the correction for a queue of [depth]. *)
Definition control (depth : Z) (p : cameraPlayoutPLL) : cameraPlayoutPLL :=
  let low := depth <? cameraPLLLowWatermark in
  let high := cameraPLLHighWatermark <? depth in
  let errorSamples :=
    if low then F64.of_Z (depth - cameraPLLLowWatermark)
    else if high then F64.of_Z (depth - cameraPLLHighWatermark) else F64.zero in
  let relaxed := if low || high then integral p else F64.mul (integral p) (fraction 98 100) in
  let i := clamp cameraPLLIntegralLimit (F64.add relaxed (F64.mul errorSamples cameraPLLKi)) in
  p <| integral := i |> <| correction := clamp cameraPLLMaxCorrection (F64.add (F64.mul errorSamples cameraPLLKp) i) |>.
Definition media_time (now : Z) (p : cameraPlayoutPLL) : Z :=
  match bufStartAt p, lastFrameAt p with
  | Some t, _ => if decide (buf p = []) then match lastFrameAt p with Some l => l + 20 * Millisecond | None => now end
                 else t + samplesDurationFloat (phase p)
  | None, Some l => l + 20 * Millisecond
  | None, None => now
  end.
(** The sample at position [pos] of the queue, [None] outside of it. *)
Definition interpolate (l : list Z) (pos : F64.t) : option Z :=
  let idx := F64.floor_int pos in
  let frac := F64.sub pos (F64.of_Z idx) in
  if (idx <? 0) || (len l <=? idx) then None
  else
    let a := Resample.at_ l idx in
    let b := if idx + 1 <? len l then Resample.at_ l (idx + 1) else a in
    let v := F64.add (F64.of_Z a) (F64.mul (F64.sub (F64.of_Z b) (F64.of_Z a)) frac) in
    let v := if F64.ltb (F64.of_Z 32767) v then F64.of_Z 32767
             else if F64.ltb v (F64.of_Z (-32768)) then F64.of_Z (-32768) else v in
    Some (s16 (F64.round_int v)).
Definition frame_ratio (p : cameraPlayoutPLL) : F64.t :=
  F64.div (F64.add (F64.of_Z cameraPlayoutFrameSamples) (correction p)) (F64.of_Z cameraPlayoutFrameSamples).
Definition frame (p : cameraPlayoutPLL) : list (option Z) :=
  map (fun i => interpolate (buf p) (F64.add (phase p) (F64.mul (F64.of_Z i) (frame_ratio p)))) (seqZ 0 cameraPlayoutFrameSamples).
(** The queue moves on; [missing] samples of the frame were not there. *)
Definition consume (missing : Z) (p : cameraPlayoutPLL) : cameraPlayoutPLL :=
  let endPos := F64.add (phase p) (F64.mul (F64.of_Z cameraPlayoutFrameSamples) (frame_ratio p)) in
  let n := F64.floor_int endPos in
  let p := p <| phase := F64.sub endPos (F64.of_Z n) |> in
  if len (buf p) <=? n then
    let p := advanceBufferClock (F64.of_Z (len (buf p))) p <| buf := [] |> in
    if 0 <? missing then p <| phase := F64.zero |> else p
  else if 0 <? n then advanceBufferClock (F64.of_Z n) (p <| buf ::= drop (Z.to_nat n) |>)
  else p.
(** [None] when not ready; otherwise the frame, the samples missing to it and its media time. *)
Definition PopFrame (now : Z) (p : cameraPlayoutPLL) : option (list Z * Z * Z) * cameraPlayoutPLL :=
  if negb (active p) then (None, p)
  else
    let depth := len (buf p) in
    let p := control depth (observeQueue depth p) in
    let mediaAt := media_time now p in
    let samples := frame p in
    let missing := len (filter (fun s => s = None) samples) in
    let p := consume missing p <| frames ::= incr |> <| underrunOutput ::= plus64 missing |>
               <| correctionSum := F64.add (correctionSum p) (correction p) |> in
    let p := if F64.ltb (maxAbsCorrection p) (F64.abs (correction p)) then p <| maxAbsCorrection := F64.abs (correction p) |> else p in
    let p := p <| lastFrameAt := Some mediaAt |> in
    (Some (map (default 0) samples, missing, mediaAt), observeQueue (len (buf p)) p).

(** ** Durations and the control loop *)

(** Up to [10560] samples the float conversion is exact. *)
Lemma duration_exact n : 0 <= n <= 10560 -> samplesDurationFloat (F64.of_Z n) = n * 125000.
Proof.
  intros H. assert (all_below (Z.to_nat 10561) (fun n => samplesDurationFloat (F64.of_Z n) =? n * 125000) = true) as Hc by (vm_compute; reflexivity).
  apply (all_below_spec _ _ n) in Hc; [|rewrite Z2Nat.id; lia]. by apply Z.eqb_eq in Hc.
Qed.
Lemma positive_float n : 0 < n <= 10560 -> F64.ltb F64.zero (F64.of_Z n) = true.
Proof.
  intros H. assert (all_below (Z.to_nat 10561) (fun n => (n <=? 0) || F64.ltb F64.zero (F64.of_Z n)) = true) as Hc by (vm_compute; reflexivity).
  apply (all_below_spec _ _ n) in Hc; [|rewrite Z2Nat.id; lia].
  cbv beta in Hc. destruct (Z.leb_spec n 0); [lia|exact Hc].
Qed.
Lemma samplesDuration_exact n : samplesDuration n = n * 125000.
Proof. unfold samplesDuration. replace (n * 1000000000) with (n * 125000 * 8000) by lia. by apply Z.quot_mul. Qed.

Definition within (limit x : F64.t) : Prop := F64.ltb limit x = false /\ F64.ltb x (F64.neg limit) = false.
Lemma clamp_within x : within cameraPLLMaxCorrection (clamp cameraPLLMaxCorrection x).
Proof.
  unfold clamp, within. destruct (F64.ltb cameraPLLMaxCorrection x) eqn:E1; [split; by vm_compute|].
  destruct (F64.ltb x _) eqn:E2; [split; by vm_compute|]. done.
Qed.

(** ** Invariant *)

Record inv (p : cameraPlayoutPLL) : Prop := {
  i_size : len (buf p) <= cameraPlayoutMaxSamples;
  i_pcm : pcm_ok (buf p);
  i_waiting : active p = false -> len (buf p) < cameraPlayoutStartupSamples /\ lastFrameAt p = None;
  i_clock : buf p <> [] -> exists t, bufStartAt p = Some t /\ inputNextAt p = Some (t + len (buf p) * 125000);
  i_correction : within cameraPLLMaxCorrection (correction p);
}.
Lemma inv_new : inv newCameraPlayoutPLL.
Proof. split; try done. Qed.
(** The invariant sees neither the counters nor the phase. *)
Lemma smoother_ext p p' : inv p -> buf p' = buf p -> active p' = active p -> bufStartAt p' = bufStartAt p -> inputNextAt p' = inputNextAt p ->
  (active p = false -> lastFrameAt p' = lastFrameAt p) -> correction p' = correction p -> inv p'.
Proof.
  intros [H1 H2 H3 H4 H5] E1 E2 E3 E4 E5 E6. split; rewrite ?E1, ?E2, ?E3, ?E4, ?E6; try done.
  intros Ha. rewrite E5 by done. by apply H3.
Qed.

Lemma observeQueue_same n p :
  let p' := observeQueue n p in
  buf p' = buf p /\ active p' = active p /\ bufStartAt p' = bufStartAt p /\ inputNextAt p' = inputNextAt p /\
  lastFrameAt p' = lastFrameAt p /\ correction p' = correction p /\ hardDropped p' = hardDropped p /\ phase p' = phase p.
Proof. cbv zeta. unfold observeQueue. destruct (negb _); done. Qed.
Lemma observe_input_same n t p :
  let p' := observe_input n t p in
  buf p' = buf p /\ active p' = active p /\ bufStartAt p' = bufStartAt p /\ inputNextAt p' = inputNextAt p /\
  lastFrameAt p' = lastFrameAt p /\ correction p' = correction p /\ hardDropped p' = hardDropped p.
Proof. cbv zeta. unfold observe_input. cbn. destruct (_ <? n), (lastArrival p); cbn; try done; by destruct (_ <? Z.abs _). Qed.

(** The queue loses [n] samples at its head: the clock of the others stands still. *)
Lemma advance_clock p n : 0 < n <= 10560 -> n < len (buf p) -> pcm_ok (buf p) ->
  (exists t, bufStartAt p = Some t /\ inputNextAt p = Some (t + len (buf p) * 125000)) ->
  let p' := advanceBufferClock (F64.of_Z n) (p <| buf ::= drop (Z.to_nat n) |>) in
  buf p' = drop (Z.to_nat n) (buf p) /\ pcm_ok (buf p') /\ active p' = active p /\ lastFrameAt p' = lastFrameAt p /\ correction p' = correction p /\
  hardDropped p' = hardDropped p /\ inputNextAt p' = inputNextAt p /\
  exists t, bufStartAt p' = Some t /\ inputNextAt p' = Some (t + len (buf p') * 125000).
Proof.
  intros Hn Hl Hp (t & Et & En). cbv zeta. unfold advanceBufferClock. cbn. rewrite Et, positive_float, duration_exact by lia. cbn.
  split; [done|]. split; [by apply Forall_drop|]. do 5 (split; [done|]). eexists. split; [done|]. rewrite En, length_drop. f_equal. lia.
Qed.

(** ** [Push] *)

Lemma place_spec nominal p start d r p' : inv p -> place nominal p = (start, d, r, p') ->
  active p' = active p /\ lastFrameAt p' = lastFrameAt p /\ 0 <= d <= len (buf p) /\ buf p' = drop (Z.to_nat d) (buf p) /\
  within cameraPLLMaxCorrection (correction p') /\
  (buf p' <> [] -> inputNextAt p = Some start /\ exists t, bufStartAt p' = Some t /\ start = t + len (buf p') * 125000) /\
  (r = false -> d = 0 /\ (inputNextAt p = Some start \/ inputNextAt p = None /\ start = nominal)).
Proof.
  intros [H1 H2 H3 H4 H5]. unfold place. destruct (inputNextAt p) as [next|] eqn:En.
  - destruct (_ <=? cameraInputTimelineRebase).
    + intros [= <- <- <- <-]. do 2 (split; [done|]). split; [lia|]. split; [done|]. split; [done|]. split; [|eauto].
      intros Hb. split; [done|]. destruct (H4 Hb) as (t & Et & [= ->]). eauto.
    + set (p1 := if 0 <? len (buf p) then _ else _).
      assert (buf p1 = [] /\ active p1 = active p /\ lastFrameAt p1 = lastFrameAt p) as (B1 & B2 & B3).
      { subst p1. destruct (buf p) eqn:E; cbn; by rewrite ?E. }
      clearbody p1. intros [= <- <- <- <-]. cbn. rewrite Nat2Z.id, drop_all, B1.
      do 2 (split; [done|]). split; [lia|]. split; [done|]. split; [by vm_compute|]. done.
  - intros [= <- <- <- <-]. do 2 (split; [done|]). split; [lia|]. split; [done|]. split; [done|]. split; [|by eauto].
    intros Hb. destruct (H4 Hb) as (t & _ & [=]).
Qed.

Lemma cut_backlog_spec p d p' : pcm_ok (buf p) -> len (buf p) <= 10560 ->
  (exists t, bufStartAt p = Some t /\ inputNextAt p = Some (t + len (buf p) * 125000)) -> cut_backlog p = (d, p') ->
  0 <= d <= len (buf p) /\ buf p' = drop (Z.to_nat d) (buf p) /\ len (buf p') <= cameraPlayoutMaxSamples /\ pcm_ok (buf p') /\
  active p' = active p /\ lastFrameAt p' = lastFrameAt p /\ correction p' = correction p /\ inputNextAt p' = inputNextAt p /\
  exists t, bufStartAt p' = Some t /\ inputNextAt p' = Some (t + len (buf p') * 125000).
Proof.
  unfold cut_backlog. intros Hp Hl Hc. destruct (Z.ltb_spec cameraPlayoutMaxSamples (len (buf p))) as [E|E]; intros [= <- <-].
  - unfold cameraPlayoutMaxSamples, cameraPlayoutRecoverySamples in *.
    destruct (advance_clock p (len (buf p) - 1440) ltac:(lia) ltac:(lia) Hp Hc) as (A1 & A2 & A3 & A4 & A5 & _ & A7 & A8).
    split; [lia|]. cbn [buf bufStartAt inputNextAt active lastFrameAt correction alter_field] in *.
    split; [exact A1|]. split; [|by split_and!].
    cbn. rewrite A1. rewrite length_drop. lia.
  - split; [lia|]. by split_and!.
Qed.

Lemma Push_spec samples arrival p d r p' : inv p -> pcm_ok samples -> len samples <= 8000 -> Push samples arrival p = (d, r, p') ->
  inv p' /\ 0 <= d <= len (buf p) + len samples /\ buf p' = drop (Z.to_nat d) (buf p ++ samples) /\
  active p' = active p || (cameraPlayoutStartupSamples <=? len (buf p')) /\
  (samples <> [] -> r = false -> d = 0 /\ exists start, inputNextAt p' = Some (start + len samples * 125000) /\
     (inputNextAt p = Some start \/ inputNextAt p = None /\ start = arrival - len samples * 125000)).
Proof.
  intros Hi Hs Hl. unfold Push. destruct (decide (samples = [])) as [->|Hne].
  { intros [= <- <- <-]. split; [done|]. split; [lia|]. rewrite app_nil_r. split; [done|]. split; [|done].
    destruct (active p) eqn:Ea; [done|]. destruct (i_waiting p Hi Ea) as [H _]. symmetry. apply Z.leb_gt. exact H. }
  pose proof (observe_input_same (len samples) arrival p) as (O1 & O2 & O3 & O4 & O5 & O6 & O7).
  set (p1 := observe_input (len samples) arrival p) in *.
  assert (inv p1) as Hi1 by (by apply (smoother_ext p)).
  destruct (place _ p1) as [[[st d1] r1] p2] eqn:E2. pose proof (place_spec _ _ _ _ _ _ Hi1 E2) as (P1 & P2 & P3 & P4 & P5 & P6 & P7).
  destruct (resume st p2) as [st' late] eqn:E3.
  assert (late = false -> st' = st) as R1 by (unfold resume in E3; repeat case_match; by simplify_eq).
  assert (buf p2 <> [] -> st' = st) as R2.
  { intros Hb. unfold resume in E3. rewrite (bool_decide_false _ Hb), andb_false_r in E3. repeat case_match; by simplify_eq. }
  rewrite samplesDuration_exact in *.
  match goal with |- context [if decide ?P then ?a else ?b] => set (p3 := if decide P then a else b) in * end.
  assert (buf p3 = buf p2 /\ active p3 = active p2 /\ lastFrameAt p3 = lastFrameAt p2 /\ correction p3 = correction p2 /\
    inputNextAt p3 = Some (st' + len samples * 125000) /\ exists t, bufStartAt p3 = Some t /\ st' = t + len (buf p2) * 125000) as (Q1 & Q2 & Q3 & Q4 & Q5 & t & Q6 & Q7).
  { subst p3. destruct (decide _) as [E|E]; cbn in E |- *; do 5 (split; [done|]).
    - exists st'. rewrite E. cbn. split; [done|lia].
    - destruct (P6 E) as (_ & t & Et & ->). exists t. rewrite Et. split; [done|]. by rewrite R2. }
  clearbody p3. destruct (cut_backlog _) as [d2 p4] eqn:E4.
  assert (len (buf p2) <= 2560) as Hb2 by (rewrite P4, O1, length_drop; pose proof (i_size p Hi) as H; unfold cameraPlayoutMaxSamples in H; lia).
  apply cut_backlog_spec in E4 as (C1 & C2 & C3 & C4 & C5 & C6 & C7 & C8 & C9); cbn in *.
  2:{ rewrite Q1. apply Forall_app. split; [|done]. rewrite P4, O1. apply Forall_drop, Hi. }
  2:{ rewrite Q1, length_app. lia. }
  2:{ exists t. split; [done|]. rewrite Q5, Q1, length_app, Q7. f_equal. lia. }
  match goal with |- context [if ?c then ?a else p4] => set (p5 := if c then a else p4) in * end.
  assert (buf p5 = buf p4 /\ bufStartAt p5 = bufStartAt p4 /\ inputNextAt p5 = inputNextAt p4 /\ lastFrameAt p5 = lastFrameAt p4 /\
    correction p5 = correction p4 /\ active p5 = active p4 || (cameraPlayoutStartupSamples <=? len (buf p4))) as (S1 & S2 & S3 & S4 & S5 & S6).
  { subst p5. destruct (active p4) eqn:Ea; cbn; [by rewrite Ea|]. destruct (_ <=? _); cbn; by rewrite ?Ea. }
  clearbody p5. intros [= <- <- <-].
  pose proof (observeQueue_same (len (buf p5)) p5) as (T1 & T2 & T3 & T4 & T5 & T6 & _).
  split; [split|].
  - by rewrite T1, S1.
  - by rewrite T1, S1.
  - rewrite T1, T2, T5, S1, S4, S6, C5, C6, Q2, Q3, P1, P2, O2, O5. intros [Ha Hb]%orb_false_iff. split; [by apply Z.leb_gt|]. by apply Hi.
  - intros _. by rewrite T1, T3, T4, S1, S2, S3.
  - by rewrite T6, S5, C7, Q4.
  - rewrite Q1, P4, O1, length_app, length_drop in C1. rewrite O1 in P3. split; [lia|]. split.
    { rewrite T1, S1, C2, Q1, P4, O1. rewrite Z2Nat.inj_add, <- drop_drop by lia. f_equal. rewrite drop_app_le by lia. done. }
    split. { by rewrite T1, T2, S1, S6, C5, Q2, P1, O2. }
    intros _ [[-> ->]%orb_false_iff Hd2]%orb_false_iff. apply Z.ltb_ge in Hd2. destruct (P7 eq_refl) as [-> Hst]. split; [lia|].
    exists st. rewrite T4, S3, C8, Q5, (R1 eq_refl). split; [done|]. rewrite <- O4. destruct Hst as [Hst|[Hst ->]]; [by left|right]. split; [done|lia].
Qed.

(** ** [PopFrame] *)

Lemma interpolate_pcm l pos v : interpolate l pos = Some v -> sfits 16 v.
Proof. unfold interpolate. destruct (_ || _); [done|]. intros [= <-]. width. Qed.
Lemma control_same depth p :
  let p' := control depth p in
  buf p' = buf p /\ active p' = active p /\ bufStartAt p' = bufStartAt p /\ inputNextAt p' = inputNextAt p /\
  lastFrameAt p' = lastFrameAt p /\ phase p' = phase p /\ within cameraPLLMaxCorrection (correction p').
Proof. do 6 (split; [done|]). apply clamp_within. Qed.

Lemma consume_spec missing p : inv p ->
  let p' := consume missing p in
  inv p' /\ active p' = active p /\ exists n, buf p' = drop n (buf p).
Proof.
  intros Hi. cbv zeta. unfold consume. set (n := F64.floor_int _). pose proof (i_size p Hi) as Hl. unfold cameraPlayoutMaxSamples in Hl.
  destruct (Z.leb_spec (len (buf (p <| phase := F64.sub (F64.add (phase p) (F64.mul (F64.of_Z cameraPlayoutFrameSamples) (frame_ratio p))) (F64.of_Z n) |>))) n) as [E|E]; cbn in E.
  - match goal with |- context [advanceBufferClock ?x ?q] => set (p1 := advanceBufferClock x q) end.
    assert (active p1 = active p /\ lastFrameAt p1 = lastFrameAt p /\ correction p1 = correction p) as (A1 & A2 & A3).
    { subst p1. unfold advanceBufferClock. repeat case_match; done. }
    assert (inv (p1 <| buf := [] |>)) as Hi1.
    { split; cbn; rewrite ?A1, ?A2, ?A3; try done; try apply Hi. intros Ha. split; [done|]. by apply Hi. }
    split; [|split].
    + destruct (0 <? missing); [|done]. by apply (smoother_ext (p1 <| buf := [] |>)).
    + destruct (0 <? missing); exact A1.
    + exists (length (buf p)). rewrite drop_all. by destruct (0 <? missing).
  - destruct (Z.ltb_spec 0 n) as [E0|E0]; [|split; [by apply (smoother_ext p)|split; [done|by exists 0%nat]]].
    assert (buf p <> []) as Hne by (intros H; rewrite H in E; cbn in E; lia).
    match goal with |- context [advanceBufferClock _ (?q <| buf ::= _ |>)] => set (q0 := q) end.
    destruct (advance_clock q0 n ltac:(lia) E (i_pcm p Hi) (i_clock p Hi Hne)) as (A1 & A2 & A3 & A4 & A5 & _ & A7 & A8).
    split; [split|].
    + rewrite A1, length_drop. cbn. unfold cameraPlayoutMaxSamples. lia.
    + exact A2.
    + rewrite A3, A4, A1, length_drop. cbn. intros Ha. destruct (i_waiting p Hi Ha). split; [lia|done].
    + intros _. exact A8.
    + rewrite A5. apply Hi.
    + split; [exact A3|]. eexists. exact A1.
Qed.

Lemma media_time_queue p now : inv p -> buf p <> [] -> exists t, bufStartAt p = Some t /\ media_time now p = t + samplesDurationFloat (phase p).
Proof. intros Hi Hb. destruct (i_clock p Hi Hb) as (t & Et & _). exists t. split; [done|]. unfold media_time. by rewrite Et, decide_False. Qed.

Lemma PopFrame_spec now p : inv p ->
  match PopFrame now p with
  | (None, p') => active p = false /\ p' = p
  | (Some (f, missing, t), p') =>
    active p = true /\ inv p' /\ active p' = true /\ len f = cameraPlayoutFrameSamples /\ pcm_ok f /\ 0 <= missing <= cameraPlayoutFrameSamples /\
    (exists n, buf p' = drop n (buf p)) /\ inputNextAt p' = inputNextAt p /\ lastFrameAt p' = Some t /\
    (buf p <> [] -> exists b, bufStartAt p = Some b /\ t = b + samplesDurationFloat (phase p)) /\
    (missing = cameraPlayoutFrameSamples -> f = replicate 160 0)
  end.
Proof.
  intros Hi. unfold PopFrame. destruct (active p) eqn:Ea; cbn [negb]; [|done].
  pose proof (observeQueue_same (len (buf p)) p) as (O1 & O2 & O3 & O4 & O5 & O6 & _ & O8).
  set (p1 := observeQueue (len (buf p)) p) in *.
  pose proof (control_same (len (buf p)) p1) as (C1 & C2 & C3 & C4 & C5 & C6 & C7). set (p2 := control (len (buf p)) p1) in *.
  assert (inv p2) as Hi2 by (destruct Hi as [H1 H2 H3 H4 H5]; split; rewrite ?C1, ?C2, ?C3, ?C4, ?C5, ?O1, ?O2, ?O3, ?O4, ?O5; done).
  set (mt := media_time now p2). set (fr := frame p2). set (missing := len (filter (fun s : option Z => s = None) fr)).
  assert (length fr = 160%nat) as Hfr by (subst fr; unfold frame; by rewrite length_map, length_seqZ).
  assert (0 <= missing <= cameraPlayoutFrameSamples) as Hm.
  { subst missing. pose proof (length_filter (fun s : option Z => s = None) fr). unfold cameraPlayoutFrameSamples. lia. }
  pose proof (consume_spec missing p2 Hi2) as (S1 & S2 & n & S3). set (p3 := consume missing p2) in *.
  assert (inputNextAt p3 = inputNextAt p2) as S4.
  { subst p3. unfold consume, advanceBufferClock. repeat (case_match; cbn; try done). }
  clearbody p3. match goal with |- context [if ?c then ?a else ?b] => set (p4 := if c then a else b) end.
  assert (buf p4 = buf p3 /\ active p4 = active p3 /\ bufStartAt p4 = bufStartAt p3 /\ inputNextAt p4 = inputNextAt p3 /\ correction p4 = correction p3) as (D1 & D2 & D3 & D4 & D5).
  { subst p4. by destruct (F64.ltb _ _). }
  clearbody p4. set (p5 := p4 <| lastFrameAt := Some mt |>).
  pose proof (observeQueue_same (len (buf p5)) p5) as (T1 & T2 & T3 & T4 & T5 & T6 & _).
  assert (active p3 = true) as Ha3 by (by rewrite S2, C2, O2).
  split; [done|]. split.
  { apply (smoother_ext p3); rewrite ?T1, ?T2, ?T3, ?T4, ?T6; try done. by rewrite Ha3. }
  split; [by rewrite T2; cbn; rewrite D2|]. split; [by rewrite length_map, Hfr|].
  split. { apply Forall_map, Forall_forall. intros [v|] Hv; [|by vm_compute]. subst fr. unfold frame in Hv. apply list_elem_of_fmap in Hv as (i & Hv & _). by eapply interpolate_pcm. }
  split; [done|]. split. { exists n. rewrite T1. cbn. by rewrite D1, S3, C1, O1. }
  split. { rewrite T4. cbn. by rewrite D4, S4, C4, O4. }
  split; [by rewrite T5|]. split.
  - intros Hb. destruct (media_time_queue p2 now Hi2) as (b & Eb & Em); [by rewrite C1, O1|]. exists b. rewrite <- O3, <- C3, <- O8, <- C6. done.
  - intros Hall. clear -Hall Hfr. subst missing. unfold cameraPlayoutFrameSamples in Hall.
    assert (Forall (fun s => s = None) fr) as HN.
    { assert (length (filter (fun s : option Z => s = None) fr) = length fr) as E by (rewrite Hfr; lia). clear -E.
      induction fr as [|s l IH]; [constructor|]. rewrite filter_cons in E. pose proof (length_filter (fun s : option Z => s = None) l).
      destruct (decide (s = None)); cbn in E; [|lia]. constructor; [done|]. apply IH. lia. }
    rewrite <- Hfr. clear -HN. induction HN as [|s l -> _ IH]; [done|]. cbn. by f_equal.
Qed.

(** ** The smoother as a whole *)

Inductive op := OpPush (samples : list Z) (arrival : Z) | OpPop (now : Z).
Definition op_ok (o : op) : Prop := match o with OpPush l _ => pcm_ok l /\ len l <= 8000 | OpPop _ => True end.
Definition pushed (ops : list op) : list Z := flat_map (fun o => match o with OpPush l _ => l | OpPop _ => [] end) ops.
(** What was dropped, the results of [PopFrame] and the state. *)
Fixpoint run (p : cameraPlayoutPLL) (ops : list op) : list Z * list (option (list Z * Z * Z)) * cameraPlayoutPLL :=
  match ops with
  | [] => ([], [], p)
  | OpPush l t :: ops =>
    let '(d, _, p) := Push l t p in
    let '(ds, fs, p) := run p ops in (d :: ds, fs, p)
  | OpPop now :: ops =>
    let '(f, p) := PopFrame now p in
    let '(ds, fs, p) := run p ops in (ds, f :: fs, p)
  end.
Definition total (l : list Z) : Z := foldr Z.add 0 l.
Definition good_frame (x : list Z * Z * Z) : Prop := len x.1.1 = cameraPlayoutFrameSamples /\ pcm_ok x.1.1 /\ 0 <= x.1.2 <= cameraPlayoutFrameSamples.

Lemma suffix_drop {A} n (l : list A) : drop n l `suffix_of` l.
Proof. exists (take n l). by rewrite take_drop. Qed.
Lemma smoother_run ops : Forall op_ok ops -> forall p before, inv p -> buf p `suffix_of` before ->
  (active p = true -> cameraPlayoutStartupSamples <= len before) ->
  let '(ds, fs, p') := run p ops in
  inv p' /\ buf p' `suffix_of` before ++ pushed ops /\ (active p' = true -> cameraPlayoutStartupSamples <= len (before ++ pushed ops)) /\
  Forall (fun d => 0 <= d) ds /\ total ds + len (buf p') <= len (buf p) + len (pushed ops) /\
  exists k l, fs = replicate k None ++ map Some l /\ Forall good_frame l /\ (active p = true -> k = 0%nat /\ active p' = true) /\ (active p' = false -> l = []).
Proof.
  induction 1 as [|o ops Ho Hops IH]; intros p before Hi Hb Ha; cbn [run].
  { cbn. rewrite app_nil_r. do 3 (split; [done|]). split; [constructor|]. split; [lia|]. exists 0%nat, []. by repeat constructor. }
  destruct o as [l t|now]; cbn [pushed flat_map].
  - destruct Ho as [Hl1 Hl2]. destruct (Push l t p) as [[d r] p1] eqn:E.
    apply Push_spec in E as (Hi1 & Hd & Eb & Ea & _); [|done..].
    assert (buf p1 `suffix_of` before ++ l) as Hb1.
    { rewrite Eb. etrans; [apply suffix_drop|]. destruct Hb as [k ->]. exists k. by rewrite app_assoc. }
    assert (active p1 = true -> cameraPlayoutStartupSamples <= len (before ++ l)) as Ha1.
    { rewrite Ea. intros [H|H%Z.leb_le]%orb_true_iff; [specialize (Ha H); rewrite length_app; lia|].
      apply suffix_length in Hb1. lia. }
    specialize (IH p1 (before ++ l) Hi1 Hb1 Ha1). destruct (run p1 ops) as [[ds fs] p2].
    destruct IH as (I1 & I2 & I3 & I4 & I5 & k & fl & I6 & I7 & I8 & I9). rewrite <- app_assoc in I2, I3. do 3 (split; [done|]).
    split; [by constructor; [lia|]|]. split.
    + cbn. rewrite length_app. fold (pushed ops). rewrite Eb, length_drop, length_app in I5. unfold total in I5. lia.
    + exists k, fl. do 2 (split; [done|]). split; [|done]. intros H. apply I8. by rewrite Ea, H.
  - pose proof (PopFrame_spec now p Hi) as H. destruct (PopFrame now p) as [[[[f m] t]|] p1]; cbn [app].
    + destruct H as (Hact & Hi1 & Ha1 & Hf & Hp & Hm & (n & En) & _).
      assert (buf p1 `suffix_of` before) as Hb1 by (rewrite En; etrans; [apply suffix_drop|done]).
      specialize (IH p1 before Hi1 Hb1 (fun _ => Ha Hact)). destruct (run p1 ops) as [[ds fs] p2].
      destruct IH as (I1 & I2 & I3 & I4 & I5 & k & fl & I6 & I7 & I8 & I9). rewrite (proj1 (I8 Ha1)) in I6. do 4 (split; [done|]).
      split. { rewrite En, length_drop in I5. fold (pushed ops). lia. }
      exists 0%nat, ((f, m, t) :: fl). split; [by rewrite I6|]. split; [by constructor|]. split; [intros _; split; [done|by apply I8]|].
      intros E2. destruct (I8 Ha1) as [_ E3]. congruence.
    + destruct H as [Hact ->]. specialize (IH p before Hi Hb Ha). destruct (run p ops) as [[ds fs] p2].
      destruct IH as (I1 & I2 & I3 & I4 & I5 & k & fl & I6 & I7 & I8 & I9). do 5 (split; [done|]).
      exists (S k), fl. split; [by rewrite I6|]. split; [done|]. split; [congruence|done].
Qed.

(** C25: The smoother is bounded.  Whatever chunks come in whatever bursts, and however frames
    are popped in between: at most 320 ms are queued, and they are the last samples that came
    in; what was dropped, what is queued and what was played add up to no more than what came;
    until 120 ms have come nothing is played, and from then on every pop gives a frame of exactly
    20 ms of 16-bit samples, silent where the queue ran dry; and the correction stays within
    1250 ppm. *)
Theorem smoother_bounded (ops : list op) :
  Forall op_ok ops ->
  let '(ds, fs, p) := run newCameraPlayoutPLL ops in
  len (buf p) <= cameraPlayoutMaxSamples /\ buf p `suffix_of` pushed ops /\
  Forall (fun d => 0 <= d) ds /\ total ds + len (buf p) <= len (pushed ops) /\
  (exists k l, fs = replicate k None ++ map Some l /\ Forall good_frame l /\
     (len (pushed ops) < cameraPlayoutStartupSamples -> l = [])) /\
  (active p = false -> len (buf p) < cameraPlayoutStartupSamples) /\
  within cameraPLLMaxCorrection (correction p).
Proof.
  intros Ho. pose proof (smoother_run ops Ho newCameraPlayoutPLL [] inv_new ltac:(done) ltac:(done)) as H.
  destruct (run newCameraPlayoutPLL ops) as [[ds fs] p]. destruct H as (I1 & I2 & I3 & I4 & I5 & k & l & I6 & I7 & _ & I9).
  cbn [app buf newCameraPlayoutPLL length] in I2, I3, I5. split; [apply I1|]. do 2 (split; [done|]). split; [cbn in I5; lia|].
  split; [|split; [|apply I1]].
  - exists k, l. do 2 (split; [done|]). intros Hs. apply I9. destruct (active p); [|done]. specialize (I3 eq_refl). lia.
  - intros Ha. by apply I1.
Qed.

Definition chunks : list op :=
  [OpPop 0; OpPush (replicate 512 7) 1000000000; OpPop 1010000000; OpPush (replicate 512 9) 1020000000; OpPop 1030000000; OpPop 1050000000;
   OpPush (replicate 2048 1) 1060000000; OpPush (replicate 2 3) 5000000000; OpPop 5010000000; OpPop 5030000000].
Lemma smoother_bounded_witness :
  let '(ds, fs, p) := run newCameraPlayoutPLL chunks in
  ds = [0; 0; 1312; 1440] /\ len (buf p) <= 2560 /\ exists l, Forall good_frame l /\ fs = [None; None] ++ map Some l.
Proof.
  pose proof (smoother_bounded chunks) as H.
  assert ((run newCameraPlayoutPLL chunks).1.1 = [0; 0; 1312; 1440]) as Hd by (vm_compute; reflexivity).
  assert (map (fun f => match f with None => true | Some _ => false end) (run newCameraPlayoutPLL chunks).1.2 = [true; true; false; false; false; false]) as Hn
    by (vm_compute; reflexivity).
  destruct (run newCameraPlayoutPLL chunks) as [[ds fs] p]. cbn [fst snd] in Hd, Hn.
  destruct H as (H1 & _ & _ & _ & (k & l & -> & Hl & _) & _).
  - repeat constructor; try (apply (bool_decide_unpack _); vm_compute; exact I); vm_compute; discriminate.
  - split; [exact Hd|]. split; [exact H1|]. exists l. split; [exact Hl|].
    destruct k as [|[|[|k]]]; [destruct l; discriminate Hn|destruct l; discriminate Hn|reflexivity|discriminate Hn].
Defined.

(** C24: The camera's clock.  At any moment the queued samples lie 125 microseconds apart on
    the media timeline, up to where the next chunk is expected; a chunk that is pushed without
    the report of a discontinuity loses nothing and begins exactly where the one before ended,
    however early or late it arrived within 750 ms (the first one ends at its arrival); and the time that a frame carries is
    that of the first queued sample, with the fraction the resampler stands at. *)
Theorem smoother_clock (ops : list op) (samples : list Z) (arrival now : Z) :
  Forall op_ok ops -> op_ok (OpPush samples arrival) -> samples <> [] ->
  let p := (run newCameraPlayoutPLL ops).2 in
  (buf p <> [] -> exists t, bufStartAt p = Some t /\ inputNextAt p = Some (t + len (buf p) * 125000) /\
     match (PopFrame now p).1 with Some (_, _, at_) => at_ = t + samplesDurationFloat (phase p) | None => active p = false end) /\
  let '(dropped, rebased, p') := Push samples arrival p in
  (rebased = false -> dropped = 0 /\ buf p' = buf p ++ samples /\
     inputNextAt p' = Some (match inputNextAt p with Some t => t + len samples * 125000 | None => arrival end)) /\
  (match inputNextAt p with Some t => cameraInputTimelineRebase < Z.abs (arrival - len samples * 125000 - t) | None => False end ->
     rebased = true).
Proof.
  intros Ho [Hs Hl] Hne. cbv zeta. pose proof (smoother_run ops Ho newCameraPlayoutPLL [] inv_new ltac:(done) ltac:(done)) as H.
  destruct (run newCameraPlayoutPLL ops) as [[ds fs] p]. destruct H as (Hi & _). cbn [snd]. split.
  - intros Hb. destruct (i_clock p Hi Hb) as (t & Et & En). exists t. split; [done|]. split; [done|].
    pose proof (PopFrame_spec now p Hi) as H. destruct (PopFrame now p) as [[[[f m] x]|] p1]; cbn [fst].
    + destruct H as (_ & _ & _ & _ & _ & _ & _ & _ & _ & Ht & _). destruct (Ht Hb) as (b & Eb & ->). congruence.
    + apply H.
  - destruct (Push samples arrival p) as [[d r] p1] eqn:E. split.
    + apply Push_spec in E as (_ & _ & Eb & _ & Hr); [|done..]. intros Er. destruct (Hr Hne Er) as (Ed & start & En & Hst).
      split; [done|]. rewrite Ed in Eb. cbn in Eb. split; [exact Eb|]. rewrite En.
      destruct Hst as [->|[-> ->]]; [done|]. f_equal. lia.
    + intros Hgap. unfold Push in E. rewrite decide_False in E by done. rewrite samplesDuration_exact in E.
      pose proof (observe_input_same (len samples) arrival p) as (_ & _ & _ & O4 & _).
      destruct (place _ _) as [[[st d1] r1] p2] eqn:E2. assert (r1 = true) as ->.
      { unfold place in E2. rewrite O4 in E2. destruct (inputNextAt p) as [t|]; [|done].
        rewrite (proj2 (Z.leb_gt _ _)) in E2 by lia. by injection E2. }
      destruct (resume st p2) as [st' late]. destruct (cut_backlog _) as [d2 p3]. by injection E.
Qed.
Lemma smoother_clock_witness :
  let p := (run newCameraPlayoutPLL (take 5 chunks)).2 in
  (exists t, bufStartAt p = Some t /\ inputNextAt p = Some (t + len (buf p) * 125000)) /\
  inputNextAt (Push [1; 2] 1070000000 p).2 = Some 1064250000.
Proof.
  destruct (smoother_clock (take 5 chunks) [1; 2] 1070000000 0) as [H1 H2].
  - repeat constructor; try (apply (bool_decide_unpack _); vm_compute; exact I); vm_compute; discriminate.
  - split; [apply (bool_decide_unpack _); vm_compute; exact I|vm_compute; discriminate].
  - discriminate.
  - cbv zeta. assert (negb (bool_decide (buf (run newCameraPlayoutPLL (take 5 chunks)).2 = [])) = true) as Hne by (vm_compute; reflexivity).
    split.
    + apply negb_true_iff, bool_decide_eq_false in Hne. destruct (H1 Hne) as (t & E1 & E2 & _). exists t. split; [exact E1|exact E2].
    + vm_compute. reflexivity.
Defined.
End CameraPlayout.
