(* ===== verification/AcousticDelay.v ===== *)
(** The acoustic marker and the search for it in what the camera heard: [internal/acousticmarker/marker.go] and the
    correlation of [internal/calibration/measure.go].

    Floating point is IEEE binary64 without fused operations; [math.Sin] is a parameter.  Times are nanoseconds. *)
From Stdlib Require Import SpecFloat.
From S2P Require Import Prelude GoBytes Playout.

Module AcousticDelay.

Definition Second : Z := 1000000000.
Definition ratio_f (n d : Z) : F64.t := F64.div (F64.of_Z n) (F64.of_Z d).
(** [time.Duration.Seconds]. *)
Definition Seconds (d : Z) : F64.t := F64.add (F64.of_Z (Z.quot d Second)) (F64.div (F64.of_Z (Z.rem d Second)) (F64.of_Z Second)).

(** * The marker *)

Definition SymbolDuration : Z := 64000000.
Definition CalibrationSymbols : nat := 16.
Definition ConnectionSymbols : nat := 4.
Definition CalibrationDuration : Z := SymbolDuration * Z.of_nat CalibrationSymbols.
Definition CalibrationAmplitude : F64.t := F64.of_Z 10000.
Definition frequencies : list F64.t := map F64.of_Z [850; 1200; 1700; 2300].
Definition calibrationCode : list Z := [0; 3; 1; 2; 3; 0; 2; 1; 2; 0; 3; 1; 1; 3; 0; 2].
(** [math.Pi]. *)
Definition Pi : F64.t := S754_finite false 7074237752028440 (-51).

Section marker.
Context (sin : F64.t -> F64.t) (rate : Z).
Definition frate : F64.t := F64.of_Z rate.
Definition total_samples (code : list Z) : Z := F64.round_int (F64.mul (Seconds (len code * SymbolDuration)) frate).
Definition fade_samples : Z := let fade := F64.round_int (F64.mul (ratio_f 6 1000) frate) in if fade <? 1 then 1 else fade.
Definition symbol_start (index : Z) : Z := F64.round_int (F64.mul (F64.mul (F64.of_Z index) (Seconds SymbolDuration)) frate).
Definition squared_sine (i fade : Z) : F64.t :=
  let s := sin (F64.div (F64.mul (F64.div (F64.of_Z i) (F64.of_Z fade)) Pi) (F64.of_Z 2)) in F64.mul s s.
(** The envelope at sample [i] of a symbol of [n] samples. *)
Definition envelope (n fade i : Z) : F64.t :=
  let e := if i <? fade then squared_sine i fade else F64.one in
  let tail := n - 1 - i in
  if tail <? fade then F64.mul e (squared_sine tail fade) else e.
(** The samples [i], ..., [n - 1] of a symbol; [phase] is that of sample [i]. *)
Fixpoint symbol (fuel : nat) (amplitude step phase : F64.t) (n fade i : Z) : list Z :=
  match fuel with
  | O => []
  | S fuel =>
    s16 (F64.round_int (F64.mul (F64.mul amplitude (envelope n fade i)) (sin phase))) :: symbol fuel amplitude step (F64.add phase step) n fade (i + 1)
  end.
(** [copy(out[start:], l)] within the output. *)
Definition write_at (out : list Z) (start : Z) (l : list Z) : list Z :=
  let n := Z.to_nat start in take n out ++ take (length out - n) l ++ drop (n + length l) out.
Definition put_symbol (amplitude : F64.t) (out : list Z) (symbolIndex codeValue : Z) : list Z :=
  match frequencies !! Z.to_nat codeValue with
  | None => out
  | Some freq =>
    let start := symbol_start symbolIndex in
    let end_ := Z.min (symbol_start (symbolIndex + 1)) (len out) in
    if end_ <=? start then out
    else
      let n := end_ - start in
      let symbolFade := if n <=? fade_samples * 2 then Z.quot n 4 else fade_samples in
      let phaseStep := F64.div (F64.mul (F64.mul (F64.of_Z 2) Pi) freq) frate in
      write_at out start (symbol (Z.to_nat n) amplitude phaseStep F64.zero n symbolFade 0)
  end.
Fixpoint put_symbols (amplitude : F64.t) (out : list Z) (index : Z) (code : list Z) : list Z :=
  match code with [] => out | c :: code => put_symbols amplitude (put_symbol amplitude out index c) (index + 1) code end.
Definition generate (code : list Z) (amplitude : F64.t) : list Z :=
  if (rate <=? 0) || bool_decide (code = []) then []
  else
    let totalSamples := total_samples code in
    if totalSamples <? len code * 8 then [] else put_symbols amplitude (replicate (Z.to_nat totalSamples) 0) 0 code.
Definition Calibration : list Z := generate calibrationCode CalibrationAmplitude.
Definition Connection : list Z := generate (take ConnectionSymbols calibrationCode) CalibrationAmplitude.
End marker.

(** * The search *)

Definition latencyCorrelationFloor : F64.t := ratio_f 12 100.
Definition latencyPeakMarginFloor : F64.t := ratio_f 35 1000.
Definition latencyPeakRatioFloor : F64.t := ratio_f 120 100.
Definition latencyIndependentPeakGuard : Z := CalibrationDuration.
Definition leb (x y : F64.t) : bool := SFleb x y.
Definition sqrt (x : F64.t) : F64.t := SFsqrt 53 1024 x.
Definition sum (l : list F64.t) : F64.t := foldl F64.add F64.zero l.

(** The averages of [n] groups of [k] samples. *)
Fixpoint averages (n k : nat) (input : list Z) : list F64.t :=
  match n with
  | O => []
  | S n => F64.div (sum (map F64.of_Z (take k input))) (F64.of_Z (Z.of_nat k)) :: averages n k (drop k input)
  end.
Definition downsampleAverage (input : list Z) (factor : Z) : list F64.t :=
  if factor <=? 1 then map F64.of_Z input else let k := Z.to_nat factor in averages (length input / k) k input.
Definition difference (l : list F64.t) : list F64.t := zip_with F64.sub (drop 1 l) l.
Fixpoint prefix_sums (acc : F64.t) (l : list F64.t) : list F64.t :=
  match l with [] => [acc] | v :: l => acc :: prefix_sums (F64.add acc (F64.mul v v)) l end.

Record acousticPeaks := mkPeaks { Delay : Z; Best : F64.t; Second_ : F64.t; Margin : F64.t; Ratio : F64.t; Reliable : bool }.
Record candidate := mkCandidate { lag : Z; score : F64.t }.
Definition no_candidate : candidate := mkCandidate 0 F64.zero.
Definition better (best c : candidate) : candidate := if F64.ltb (score best) (score c) then c else best.

Section search.
Context (capDS refDS : list F64.t) (refEnergy : F64.t).
Definition window : Z := len refDS.
Definition maxLag : Z := len capDS - window.
Definition energyPrefix : list F64.t := prefix_sums F64.zero capDS.
Definition dot (l : Z) : F64.t := foldl (fun acc p => F64.add acc (F64.mul p.1 p.2)) F64.zero (zip refDS (drop (Z.to_nat l) capDS)).
Definition eval (l : Z) : F64.t :=
  if (l <? 0) || (maxLag <? l) then F64.zero
  else
    let at_ i := default F64.zero (energyPrefix !! Z.to_nat i) in
    let winEnergy := F64.sub (at_ (l + window)) (at_ l) in
    if leb winEnergy F64.zero then F64.zero
    else F64.div (F64.abs (dot l)) (sqrt (F64.mul refEnergy winEnergy)).
Definition scored (l : Z) : candidate := mkCandidate l (eval l).
(** The lags of the coarse grid, the last one among them. *)
Definition coarse_lags (coarseStep : Z) : list Z :=
  let grid := map (fun i => i * coarseStep) (seqZ 0 (maxLag / coarseStep + 1)) in
  if maxLag mod coarseStep =? 0 then grid else grid ++ [maxLag].
Definition outside (from guard l : Z) : bool := (l <? from - guard) || (from + guard <? l).
(** [independentFrom] and [guard] where the code passes a lag that is not -1. *)
Definition refine (coarseStep center : Z) (independent : option (Z * Z)) : candidate :=
  let from := Z.max 0 (center - coarseStep) in
  let to := Z.min maxLag (center + coarseStep) in
  let ok l := match independent with Some (at_, guard) => outside at_ guard l | None => true end in
  foldl better (scored center) (map scored (filter (fun l => ok l = true) (seqZ from (to - from + 1)))).
Definition find_peaks (dsRate : F64.t) : acousticPeaks :=
  let coarseStep := Z.max 1 (F64.round_int (F64.mul dsRate (ratio_f 1 1000))) in
  let candidates := map scored (coarse_lags coarseStep) in
  let bestCoarse := foldl better no_candidate candidates in
  let best := refine coarseStep (lag bestCoarse) None in
  let guardSamples := Z.max 1 (F64.round_int (F64.mul (Seconds latencyIndependentPeakGuard) dsRate)) in
  let secondCoarse := foldl better no_candidate (filter (fun c => outside (lag best) guardSamples (lag c) = true) candidates) in
  let second := if F64.ltb F64.zero (score secondCoarse) then refine coarseStep (lag secondCoarse) (Some (lag best, guardSamples)) else secondCoarse in
  let margin := F64.sub (score best) (score second) in
  let ratio := if F64.ltb F64.zero (score second) then F64.div (score best) (score second) else S754_infinity false in
  let reliable := leb latencyCorrelationFloor (score best) && (leb latencyPeakMarginFloor margin || leb latencyPeakRatioFloor ratio) in
  let delay := F64.trunc_int (F64.mul (F64.div (F64.of_Z (lag best)) dsRate) (F64.of_Z Second)) in
  mkPeaks delay (score best) (score second) margin ratio reliable.
End search.

(** [None] where the code returns false. *)
Definition estimateAcousticDelay (captured reference : list Z) (sampleRate : Z) : option acousticPeaks :=
  if (sampleRate <=? 0) || (len reference <? 32) || (len captured <? len reference) then None
  else
    let factor := Z.max 1 (Z.quot sampleRate 8000) in
    let capDS := difference (downsampleAverage captured factor) in
    let refDS := difference (downsampleAverage reference factor) in
    if (len refDS <? 16) || (len capDS <? len refDS) then None
    else
      let refEnergy := sum (map (fun v => F64.mul v v) refDS) in
      if leb refEnergy F64.zero && leb F64.zero refEnergy then None
      else Some (find_peaks capDS refDS refEnergy (F64.div (F64.of_Z sampleRate) (F64.of_Z factor))).
(** * Properties *)

(** ** The order of the scores *)

Lemma ltb_trans x y z : F64.ltb x y = true -> F64.ltb y z = true -> F64.ltb x z = true.
Proof.
  unfold F64.ltb, SFltb. 
  destruct x as [sx|sx| |sx mx ex], y as [sy|sy| |sy my ey], z as [sz|sz| |sz mz ez]; try done; cbn;
    repeat match goal with b : bool |- _ => destruct b end; try done; cbn;
    repeat match goal with |- context [Z.compare ?a ?b] => destruct (Z.compare_spec a b); cbn end;
    change (Pos.compare_cont Eq) with Pos.compare;
    repeat match goal with |- context [Pos.compare ?a ?b] => destruct (Pos.compare_spec a b); cbn end; try done; lia.
Qed.
Lemma ltb_irrefl x : F64.ltb x x = false.
Proof.
  unfold F64.ltb, SFltb. destruct x as [[]|[]| |[] m e]; cbn; try done; rewrite Z.compare_refl;
    change (Pos.compare_cont Eq) with Pos.compare; by rewrite Pos.compare_refl.
Qed.

(** The fold keeps the first of the best: nothing it has seen is above it. *)
Lemma best_unbeaten l : forall b, let r := foldl better b l in
  (r = b \/ r ∈ l /\ F64.ltb (score b) (score r) = true) /\ F64.ltb (score r) (score b) = false /\
  forall c, c ∈ l -> F64.ltb (score r) (score c) = false.
Proof.
  induction l as [|c l IH]; intros b; cbn [foldl].
  { split; [by left|]. split; [apply ltb_irrefl|]. intros c Hc. by apply elem_of_nil in Hc. }
  destruct (IH (better b c)) as (H1 & H2 & H3). cbv zeta in *. set (r := foldl better (better b c) l) in *.
  unfold better in H1, H2. destruct (F64.ltb (score b) (score c)) eqn:E.
  - assert (F64.ltb (score b) (score r) = true) as Hbr by (destruct H1 as [->|[_ H1]]; [done|by eapply ltb_trans]).
    split; [right; split; [destruct H1 as [->|[? _]]; set_solver|done]|]. split.
    + destruct (F64.ltb (score r) (score b)) eqn:E'; [|done]. pose proof (ltb_trans _ _ _ E' Hbr) as H. by rewrite ltb_irrefl in H.
    + intros x [->|Hx]%elem_of_cons; [done|by apply H3].
  - split; [destruct H1 as [->|[? ?]]; [by left|right; set_solver]|]. split; [done|].
    intros x [->|Hx]%elem_of_cons; [|by apply H3].
    destruct (F64.ltb (score r) (score c)) eqn:E'; [|done].
    destruct H1 as [Hr|[_ Hr]]; [rewrite Hr in E'; congruence|]. by rewrite (ltb_trans _ _ _ Hr E') in E.
Qed.
(** ** The search *)
Section peaks.
Context (capDS refDS : list F64.t) (E : F64.t).
Hypothesis (Hw : len refDS <= len capDS).
#[local] Abbreviation maxLag := (maxLag capDS refDS).
#[local] Abbreviation scored := (scored capDS refDS E).
#[local] Abbreviation eval := (eval capDS refDS E).
#[local] Abbreviation coarse_lags := (coarse_lags capDS refDS).
#[local] Abbreviation refine := (refine capDS refDS E).

Lemma maxLag_nonneg : 0 <= maxLag. Proof. unfold AcousticDelay.maxLag, window. lia. Qed.
Lemma elem_seqZ m n x : x ∈ seqZ m n <-> m <= x < m + n. Proof. apply elem_of_seqZ. Qed.
Lemma coarse_range step l : 0 < step -> l ∈ coarse_lags step -> 0 <= l <= maxLag.
Proof.
  intros Hs. pose proof maxLag_nonneg as Hm. unfold AcousticDelay.coarse_lags. set (m := maxLag) in *.
  assert (forall x, x ∈ map (fun i => i * step) (seqZ 0 (m / step + 1)) -> 0 <= x <= m) as Hg.
  { intros x (i & -> & Hi)%list_elem_of_fmap. apply elem_seqZ in Hi. Z.to_euclidean_division_equations. nia. }
  destruct (m mod step =? 0); [apply Hg|]. intros [H|H]%elem_of_app; [by apply Hg|]. apply list_elem_of_singleton in H. lia.
Qed.
(** The grid leaves no gap wider than its step. *)
Lemma coarse_dense step l : 0 < step -> 0 <= l <= maxLag -> exists c, c ∈ coarse_lags step /\ 0 <= l - c < step.
Proof.
  intros Hs Hl. exists (l / step * step). split; [|Z.to_euclidean_division_equations; lia].
  assert (l / step * step ∈ map (fun i => i * step) (seqZ 0 (maxLag / step + 1))) as Hg.
  { apply list_elem_of_fmap. exists (l / step). split; [done|]. apply elem_seqZ.
    pose proof (Z.div_le_mono l maxLag step Hs ltac:(lia)). pose proof (Z.div_pos l step). lia. }
  unfold AcousticDelay.coarse_lags. destruct (_ =? 0); [done|]. apply elem_of_app. by left.
Qed.
Lemma refine_spec step center indep :
  0 < step -> 0 <= center <= maxLag -> (forall a g, indep = Some (a, g) -> outside a g center = true) ->
  let r := refine step center indep in
  0 <= lag r <= maxLag /\ Z.abs (lag r - center) <= step /\ score r = eval (lag r) /\
  (forall a g, indep = Some (a, g) -> outside a g (lag r) = true) /\
  (r = scored center \/ F64.ltb (eval center) (score r) = true) /\
  (forall l, 0 <= l <= maxLag -> Z.abs (l - center) <= step -> (forall a g, indep = Some (a, g) -> outside a g l = true) -> F64.ltb (score r) (eval l) = false).
Proof.
  intros Hs Hc Hi. cbv zeta. unfold AcousticDelay.refine.
  set (ok := fun l => match indep with Some (a, g) => outside a g l | None => true end).
  set (from := Z.max 0 (center - step)). set (to := Z.min maxLag (center + step)).
  set (lags := filter (fun l => ok l = true) (seqZ from (to - from + 1))).
  destruct (best_unbeaten (map scored lags) (scored center)) as (H1 & H2 & H3). cbv zeta in *. set (r := foldl better _ _) in *.
  assert (forall l, ok l = true <-> (forall a g, indep = Some (a, g) -> outside a g l = true)) as Hok.
  { intros l. unfold ok. destruct indep as [[a g]|]; [|by split]. split; [by intros H ? ? [= <- <-]|intros H; by apply H]. }
  assert (forall l, l ∈ lags <-> ok l = true /\ 0 <= l <= maxLag /\ Z.abs (l - center) <= step) as Hlags.
  { intros l. unfold lags. rewrite list_elem_of_filter, elem_seqZ. unfold from, to. clear -Hs Hc. split; intros [? ?]; (split; [done|]); lia. }
  assert (r = scored center \/ exists l, l ∈ lags /\ r = scored l) as Hr.
  { destruct H1 as [H1|[H1 _]]; [by left|right]. apply list_elem_of_fmap in H1 as (l & ? & ?). by exists l. }
  assert (0 <= lag r <= maxLag /\ Z.abs (lag r - center) <= step /\ score r = eval (lag r) /\ ok (lag r) = true) as (R1 & R2 & R3 & R4).
  { destruct Hr as [->|(l & Hl & ->)]; cbn; [repeat split; try lia; by apply Hok|]. apply Hlags in Hl. tauto. }
  split; [done|]. split; [done|]. split; [done|]. split; [by apply Hok|].
  split; [destruct H1 as [?|[_ ?]]; [by left|by right]|].
  intros l L1 L2 L3. apply (H3 (scored l)). apply list_elem_of_fmap. exists l. split; [done|]. apply Hlags. split; [by apply Hok|]. lia.
Qed.
(** The best of some of the grid's candidates: none, or one of them. *)
Lemma coarse_best (cs : list candidate) :
  let r := foldl better no_candidate cs in
  (r = no_candidate \/ r ∈ cs /\ F64.ltb F64.zero (score r) = true) /\ forall c, c ∈ cs -> F64.ltb (score r) (score c) = false.
Proof. cbv zeta. destruct (best_unbeaten cs no_candidate) as (H1 & _ & H3). cbv zeta in *. split; [exact H1|exact H3]. Qed.
End peaks.

Section found.
Context (capDS refDS : list F64.t) (E dsRate : F64.t).
Hypothesis (Hw : len refDS <= len capDS).
#[local] Abbreviation maxLag := (maxLag capDS refDS).
#[local] Abbreviation eval := (eval capDS refDS E).
#[local] Abbreviation coarse_lags := (coarse_lags capDS refDS).

(** What [find_peaks] reports: the best peak and the best one far from it. *)
Record peaks_found (step guard best : Z) (p : acousticPeaks) : Prop := {
  pf_range : 0 <= best <= maxLag;
  pf_delay : Delay p = F64.trunc_int (F64.mul (F64.div (F64.of_Z best) dsRate) (F64.of_Z Second));
  pf_best : Best p = eval best;
  pf_unbeaten : F64.ltb F64.zero (Best p) = true -> forall l, l ∈ coarse_lags step -> F64.ltb (Best p) (eval l) = false;
  pf_second : Second_ p = F64.zero \/ exists l, 0 <= l <= maxLag /\ guard < Z.abs (l - best) /\ Second_ p = eval l;
  pf_second_unbeaten : forall l, l ∈ coarse_lags step -> guard < Z.abs (l - best) -> F64.ltb (Second_ p) (eval l) = false;
  pf_reliable : Reliable p = true -> leb latencyCorrelationFloor (Best p) = true /\
    (leb latencyPeakMarginFloor (F64.sub (Best p) (Second_ p)) = true \/ leb latencyPeakRatioFloor (Ratio p) = true);
}.
Lemma outside_spec a g l : 0 <= g -> outside a g l = true <-> g < Z.abs (l - a).
Proof. unfold outside. intros Hg. destruct (Z.ltb_spec l (a - g)), (Z.ltb_spec (a + g) l); cbn; split; try done; lia. Qed.
Lemma find_peaks_spec :
  let step := Z.max 1 (F64.round_int (F64.mul dsRate (ratio_f 1 1000))) in
  let guard := Z.max 1 (F64.round_int (F64.mul (Seconds latencyIndependentPeakGuard) dsRate)) in
  exists best, peaks_found step guard best (find_peaks capDS refDS E dsRate).
Proof.
  cbv zeta. set (step := Z.max 1 _). set (guard := Z.max 1 (F64.round_int (F64.mul (Seconds _) _))).
  assert (0 < step) as Hs by lia. assert (0 <= guard) as Hg by lia. pose proof (maxLag_nonneg _ _ Hw) as Hm.
  unfold find_peaks. cbv zeta. fold step guard. set (cands := map _ (coarse_lags step)).
  assert (forall c, c ∈ cands <-> exists l, l ∈ coarse_lags step /\ c = scored capDS refDS E l) as Hcs.
  { intros c. unfold cands. rewrite list_elem_of_fmap. naive_solver. }
  destruct (coarse_best cands) as [B1 B2]. set (bc := foldl better no_candidate cands) in *. cbv zeta in B1, B2.
  assert (0 <= lag bc <= maxLag) as Hbc.
  { destruct B1 as [->|[B1 _]]; [cbn; lia|]. apply Hcs in B1 as (l & Hl & ->). by apply coarse_range in Hl. }
  destruct (refine_spec capDS refDS E step (lag bc) None Hs Hbc ltac:(done)) as (R1 & _ & R3 & _ & R5 & _).
  set (best := refine _ _ _ _ _ _) in *. cbv zeta in R1, R3, R5.
  set (far := filter _ cands). destruct (coarse_best far) as [F1 F2]. set (sc := foldl better no_candidate far) in *. cbv zeta in F1, F2.
  assert (forall l, l ∈ coarse_lags step -> guard < Z.abs (l - lag best) -> scored capDS refDS E l ∈ far) as Hfar.
  { intros l Hl Ho. apply list_elem_of_filter. split; [by apply outside_spec|]. apply Hcs. by exists l. }
  assert (F64.ltb F64.zero (score sc) = true -> 0 <= lag sc <= maxLag /\ outside (lag best) guard (lag sc) = true /\ score sc = eval (lag sc)) as Hcenter.
  { intros Ez. destruct F1 as [F1|[F1 _]]; [by rewrite F1 in Ez|]. apply list_elem_of_filter in F1 as [Ho F1].
    apply Hcs in F1 as (l & Hl & ->). cbn in *. apply coarse_range in Hl; [by split|done..]. }
  exists (lag best). split; cbn [Delay Best Second_ Ratio Reliable]; [done|done|done| | | |].
  - intros H0 l Hl. destruct (F64.ltb (score best) (eval l)) eqn:El; [|done]. pose proof (ltb_trans _ _ _ H0 El) as Hp.
    specialize (B2 (scored capDS refDS E l) ltac:(apply Hcs; by exists l)). cbn in B2.
    destruct B1 as [B1|[B1 _]]; [rewrite B1 in B2; cbn in B2; congruence|].
    apply Hcs in B1 as (c & _ & B1). assert (score bc = eval (lag bc)) as Hb by by rewrite B1.
    destruct R5 as [R5|R5]; [rewrite R5 in El; cbn in El; congruence|].
    rewrite Hb in B2. pose proof (ltb_trans _ _ _ R5 El). congruence.
  - destruct (F64.ltb F64.zero (score sc)) eqn:Ez.
    + right. destruct (Hcenter eq_refl) as (C1 & C2 & _).
      destruct (refine_spec capDS refDS E step (lag sc) (Some (lag best, guard)) Hs C1 ltac:(by intros ? ? [= <- <-])) as (S1 & _ & S3 & S4 & _).
      eexists. split; [exact S1|]. split; [|exact S3]. by apply outside_spec, (S4 (lag best) guard).
    + left. destruct F1 as [->|[_ F1]]; [done|congruence].
  - intros l Hl Ho. specialize (F2 _ (Hfar l Hl Ho)). cbn in F2. destruct (F64.ltb F64.zero (score sc)) eqn:Ez; [|done].
    destruct (Hcenter eq_refl) as (C1 & C2 & C3).
    destruct (refine_spec capDS refDS E step (lag sc) (Some (lag best, guard)) Hs C1 ltac:(by intros ? ? [= <- <-])) as (_ & _ & _ & _ & S5 & _).
    cbv zeta in S5. cbv iota. set (r := refine _ _ _ _ (lag sc) _) in *. destruct (F64.ltb (score r) (eval l)) eqn:El; [|done].
    destruct S5 as [S5|S5]; [rewrite S5 in El; cbn in El; congruence|]. rewrite C3 in F2. pose proof (ltb_trans _ _ _ S5 El). congruence.
  - intros [H1 H2]%andb_true_iff. split; [done|]. by apply orb_true_iff in H2.
Qed.
End found.

(** ** The connection tone *)

Lemma length_write_at out start l : 0 <= start -> start + len l <= len out -> length (write_at out start l) = length out.
Proof. intros H1 H2. unfold write_at. rewrite !length_app, !length_take, length_drop. lia. Qed.
Lemma write_at_app out ext start l : 0 <= start -> start + len l <= len out -> write_at (out ++ ext) start l = write_at out start l ++ ext.
Proof.
  intros H1 H2. unfold write_at. rewrite take_app_le by lia. rewrite length_app, drop_app_le by lia.
  rewrite (take_ge l) by lia. rewrite (take_ge l) by lia. by rewrite <- !app_assoc.
Qed.
Lemma write_at_beyond out ext start l : len out <= start -> take (length out) (write_at (out ++ ext) start l) = out.
Proof.
  intros H. unfold write_at. rewrite take_app_le by (rewrite length_take, length_app; lia).
  rewrite take_take, Nat.min_l by lia. by rewrite take_app_length.
Qed.
Section prefix.
Context (sin : F64.t -> F64.t) (rate : Z).
#[local] Abbreviation put_symbol := (put_symbol sin rate).
#[local] Abbreviation put_symbols := (put_symbols sin rate).
Lemma length_symbol fuel a st ph n f i : length (symbol sin fuel a st ph n f i) = fuel.
Proof. revert ph i. induction fuel as [|fuel IH]; intros; cbn; [done|]. by rewrite IH. Qed.
Lemma put_symbol_app a out ext i c :
  0 <= symbol_start rate i -> symbol_start rate (i + 1) <= len out -> put_symbol a (out ++ ext) i c = put_symbol a out i c ++ ext.
Proof.
  intros H1 H2. unfold AcousticDelay.put_symbol. destruct (frequencies !! _); [|done]. cbv zeta.
  rewrite (Z.min_l _ (len out)) by done. rewrite (Z.min_l _ (len (out ++ ext))) by (rewrite len_app; pose proof (len_nonneg ext); lia).
  destruct (Z.leb_spec (symbol_start rate (i + 1)) (symbol_start rate i)); [done|].
  apply write_at_app; [done|]. rewrite length_symbol. lia.
Qed.
Lemma put_symbol_length a out i c : 0 <= symbol_start rate i -> length (put_symbol a out i c) = length out.
Proof.
  intros H1. unfold AcousticDelay.put_symbol. destruct (frequencies !! _); [|done]. cbv zeta.
  destruct (Z.leb_spec (Z.min (symbol_start rate (i + 1)) (len out)) (symbol_start rate i)); [done|].
  apply length_write_at; [done|]. rewrite length_symbol. lia.
Qed.
Lemma put_symbol_beyond a out ext i c :
  len out <= symbol_start rate i -> exists ext', put_symbol a (out ++ ext) i c = out ++ ext' /\ length ext' = length ext.
Proof.
  intros H. pose proof (len_nonneg out) as H0. pose proof (put_symbol_length a (out ++ ext) i c ltac:(lia)) as Hl.
  assert (take (length out) (put_symbol a (out ++ ext) i c) = out) as Ht.
  { unfold AcousticDelay.put_symbol. destruct (frequencies !! _); [|by rewrite take_app_length]. cbv zeta.
    destruct (_ <=? _); [by rewrite take_app_length|]. by apply write_at_beyond. }
  exists (drop (length out) (put_symbol a (out ++ ext) i c)). split; [by rewrite <- Ht at 2; rewrite take_drop|].
  rewrite length_drop, Hl, length_app. lia.
Qed.
(** Symbols that end within [out] write only there; symbols that start behind it leave it alone. *)
Lemma put_symbols_app a code : forall i out ext,
  (forall j, i <= j < i + len code -> 0 <= symbol_start rate j /\ symbol_start rate (j + 1) <= len out) ->
  put_symbols a (out ++ ext) i code = put_symbols a out i code ++ ext.
Proof.
  induction code as [|c code IH]; intros i out ext H; [done|]. cbn [AcousticDelay.put_symbols]. rewrite len_cons in H. pose proof (len_nonneg code).
  destruct (H i) as [H1 H2]; [lia|]. rewrite put_symbol_app by done. apply IH. intros j Hj. destruct (H j); [lia|].
  by rewrite put_symbol_length.
Qed.
Lemma put_symbols_beyond a code : forall i out ext,
  (forall j, i <= j < i + len code -> len out <= symbol_start rate j) -> exists ext', put_symbols a (out ++ ext) i code = out ++ ext' /\ length ext' = length ext.
Proof.
  induction code as [|c code IH]; intros i out ext H; cbn [AcousticDelay.put_symbols]; [by exists ext|]. rewrite len_cons in H. pose proof (len_nonneg code).
  destruct (put_symbol_beyond a out ext i c) as (e1 & -> & Hl); [apply H; lia|]. destruct (IH (i + 1) out e1) as (e2 & -> & Hl2); [intros; apply H; lia|].
  exists e2. split; [done|]. lia.
Qed.
Lemma put_symbols_length a code : forall i out,
  (forall j, i <= j < i + len code -> 0 <= symbol_start rate j) -> length (put_symbols a out i code) = length out.
Proof.
  induction code as [|c code IH]; intros i out H; [done|]. cbn [AcousticDelay.put_symbols]. rewrite len_cons in H. pose proof (len_nonneg code).
  rewrite IH by (intros; apply H; lia). apply put_symbol_length. apply H. lia.
Qed.
Lemma put_symbols_split a l1 l2 : forall i out, put_symbols a out i (l1 ++ l2) = put_symbols a (put_symbols a out i l1) (i + len l1) l2.
Proof.
  induction l1 as [|c l1 IH]; intros i out; cbn [app AcousticDelay.put_symbols]; [by rewrite Z.add_0_r|]. rewrite IH, len_cons. by replace (i + 1 + len l1) with (i + (len l1 + 1)) by lia.
Qed.
End prefix.

(** ** The reported delay *)

Lemma length_difference l : length (difference l) = (length l - 1)%nat.
Proof. unfold difference. rewrite length_zip_with, length_drop. lia. Qed.
Lemma length_prefix acc l : length (prefix_sums acc l) = S (length l).
Proof. revert acc. induction l as [|v l IH]; intros acc; cbn; [done|]. by rewrite IH. Qed.

(** C31: the echo delay that calibration reports is a peak of the correlation, and the second peak is a rival.  For any
    capture and marker: the delay is that of a lag at which the whole marker still lies within the capture, its
    correlation is unbeaten on the grid of one millisecond steps, which leaves no lag further than a step from it;
    the second peak lies further than the length of the marker from it, or is 0, and no lag of the grid that far away
    exceeds it; and the result is reliable only when the correlation reaches 0.12 and it exceeds the rival by 0.035
    or by a factor of 1.2. *)
Theorem delay_found (captured reference : list Z) (rate : Z) (p : acousticPeaks) :
  estimateAcousticDelay captured reference rate = Some p ->
  let factor := Z.max 1 (Z.quot rate 8000) in
  let dsRate := F64.div (F64.of_Z rate) (F64.of_Z factor) in
  let capDS := difference (downsampleAverage captured factor) in
  let refDS := difference (downsampleAverage reference factor) in
  let E := sum (map (fun v => F64.mul v v) refDS) in
  let step := Z.max 1 (F64.round_int (F64.mul dsRate (ratio_f 1 1000))) in
  let guard := Z.max 1 (F64.round_int (F64.mul (Seconds latencyIndependentPeakGuard) dsRate)) in
  (exists best, peaks_found capDS refDS E dsRate step guard best p) /\
  (forall l, 0 <= l <= maxLag capDS refDS ->
     len refDS <= len (drop (Z.to_nat l) capDS) /\ l + window refDS < len (energyPrefix capDS) /\
     exists c, c ∈ coarse_lags capDS refDS step /\ 0 <= l - c < step).
Proof.
  unfold estimateAcousticDelay. destruct (_ || _ || _); [done|]. cbv zeta.
  set (factor := Z.max 1 _). set (dsRate := F64.div _ _). set (capDS := difference (downsampleAverage captured _)).
  set (refDS := difference (downsampleAverage reference _)). set (E := sum _).
  destruct ((len refDS <? 16) || (len capDS <? len refDS)) eqn:Hl; [done|]. apply orb_false_iff in Hl as [H16%Z.ltb_ge Hw%Z.ltb_ge].
  destruct (_ && _); [done|]. intros [= <-]. split; [by apply find_peaks_spec|].
  intros l Hl. unfold maxLag, window in Hl. split; [rewrite length_drop; lia|]. split.
  - unfold energyPrefix, window. rewrite length_prefix. lia.
  - apply coarse_dense; [lia|exact Hl].
Qed.

(** The rates at which devices talk and calibration captures. *)
Definition talk_rates : list Z := [8000; 11025; 16000; 22050; 24000; 32000; 44100; 48000].
Definition starts_ok (rate : Z) : bool :=
  let n4 := total_samples rate (take ConnectionSymbols calibrationCode) in
  (8 * 16 <=? n4) && (n4 <=? total_samples rate calibrationCode) &&
  forallb (fun j => (0 <=? symbol_start rate j) && (symbol_start rate (j + 1) <=? n4)) [0; 1; 2; 3] &&
  forallb (fun j => n4 <=? symbol_start rate j) [4; 5; 6; 7; 8; 9; 10; 11; 12; 13; 14; 15].
Lemma talk_rates_ok : forallb starts_ok talk_rates = true.
Proof. vm_compute. reflexivity. Qed.

(** C32: the tone before an incoming call is answered is the beginning of the calibration signal, which the echo canceller was
    aligned with: at every rate devices talk at, and whatever the sine, the samples of [Connection] are exactly the
    first samples of [Calibration], and there are some. *)
Theorem connection_is_prefix (sin : F64.t -> F64.t) (rate : Z) :
  rate ∈ talk_rates -> Connection sin rate `prefix_of` Calibration sin rate /\ Connection sin rate <> [].
Proof.
  intros Hin. pose proof talk_rates_ok as Hok. rewrite forallb_forall in Hok. specialize (Hok rate ltac:(by apply list_elem_of_In)).
  unfold starts_ok in Hok. cbv zeta in Hok. set (n4 := total_samples rate (take ConnectionSymbols calibrationCode)) in *.
  set (n16 := total_samples rate calibrationCode) in *.
  apply andb_true_iff in Hok as [[[H1 H2]%andb_true_iff H3]%andb_true_iff H4]. apply Z.leb_le in H1, H2.
  rewrite forallb_forall in H3, H4.
  assert (0 < rate) as Hr by (unfold talk_rates in Hin; repeat (apply elem_of_cons in Hin as [->|Hin]; [lia|]); by apply elem_of_nil in Hin).
  unfold Connection, Calibration, generate. destruct (Z.leb_spec rate 0); [lia|]. cbn [orb].
  change (bool_decide (take ConnectionSymbols calibrationCode = [])) with false. change (bool_decide (calibrationCode = [])) with false. cbv zeta iota.
  fold n4 n16. change (len (take ConnectionSymbols calibrationCode) * 8) with 32. change (len calibrationCode * 8) with 128.
  destruct (Z.ltb_spec n4 32); [lia|]. destruct (Z.ltb_spec n16 128); [lia|].
  set (a := CalibrationAmplitude). set (out := replicate (Z.to_nat n4) 0).
  replace (replicate (Z.to_nat n16) 0) with (out ++ replicate (Z.to_nat (n16 - n4)) 0) by (unfold out; rewrite <- replicate_add; f_equal; lia).
  assert (forall l, put_symbols sin rate a l 0 calibrationCode =
    put_symbols sin rate a l 0 (take ConnectionSymbols calibrationCode ++ drop ConnectionSymbols calibrationCode)) as Hcode by (intros l; by rewrite take_drop).
  rewrite Hcode, put_symbols_split.
  assert (len out = n4) as Hout by (clear -H1; subst out; rewrite length_replicate; lia).
  assert (forall j, 0 <= j < 0 + len (take ConnectionSymbols calibrationCode) -> 0 <= symbol_start rate j /\ symbol_start rate (j + 1) <= len out) as Hs.
  { change (0 + len (take ConnectionSymbols calibrationCode)) with 4. intros j Hj. rewrite Hout.
    assert (In j [0; 1; 2; 3]) as Hj' by (cbn; lia). apply H3, andb_true_iff in Hj' as [? ?]. lia. }
  rewrite put_symbols_app by exact Hs.
  assert (length (put_symbols sin rate a out 0 (take ConnectionSymbols calibrationCode)) = length out) as Hlen
    by (apply put_symbols_length; intros j Hj; by apply Hs).
  destruct (put_symbols_beyond sin rate a (drop ConnectionSymbols calibrationCode) (0 + len (take ConnectionSymbols calibrationCode))
    (put_symbols sin rate a out 0 (take ConnectionSymbols calibrationCode)) (replicate (Z.to_nat (n16 - n4)) 0)) as (e & -> & _).
  { change (0 + len (take ConnectionSymbols calibrationCode)) with 4. change (len (drop ConnectionSymbols calibrationCode)) with 12. intros j Hj. rewrite Hlen, Hout.
    assert (In j [4; 5; 6; 7; 8; 9; 10; 11; 12; 13; 14; 15]) as Hj' by (cbn; lia). apply H4 in Hj'. lia. }
  split; [by exists e|]. intros Hn. rewrite Hn in Hlen. clear -Hlen Hout H1. clearbody out n4. destruct out; [|done]. change (len (@nil Z)) with 0 in Hout. lia.
Qed.

(** * Witnesses *)

(** A short marker, and what a camera heard of it forty samples later. *)
Definition chirp : list Z := map (fun i => (i * i * 137) mod 2003 - 1000) (seqZ 0 40).
Definition heard : list Z := replicate 40 0 ++ chirp ++ replicate 20 0.
Definition heard_peaks : acousticPeaks :=
  default (mkPeaks 0 F64.zero F64.zero F64.zero F64.zero false) (estimateAcousticDelay heard chirp 8000).
Lemma heard_found : estimateAcousticDelay heard chirp 8000 = Some heard_peaks /\ Delay heard_peaks = 5000000 /\ Reliable heard_peaks = true.
Proof. vm_compute. repeat split. Qed.

Lemma delay_found_witness :
  estimateAcousticDelay heard chirp 8000 = Some heard_peaks /\
  exists best, peaks_found (difference (downsampleAverage heard 1)) (difference (downsampleAverage chirp 1))
    (sum (map (fun v => F64.mul v v) (difference (downsampleAverage chirp 1)))) (F64.div (F64.of_Z 8000) (F64.of_Z 1))
    (Z.max 1 (F64.round_int (F64.mul (F64.div (F64.of_Z 8000) (F64.of_Z 1)) (ratio_f 1 1000))))
    (Z.max 1 (F64.round_int (F64.mul (Seconds latencyIndependentPeakGuard) (F64.div (F64.of_Z 8000) (F64.of_Z 1))))) best heard_peaks.
Proof. split; [exact (proj1 heard_found)|]. exact (proj1 (delay_found heard chirp 8000 heard_peaks (proj1 heard_found))). Defined.
Lemma connection_is_prefix_witness :
  16000 ∈ talk_rates /\ Connection (fun x => x) 16000 `prefix_of` Calibration (fun x => x) 16000.
Proof.
  assert (16000 ∈ talk_rates) as H by (apply list_elem_of_In; cbn; tauto).
  split; [exact H|]. exact (proj1 (connection_is_prefix (fun x => x) 16000 H)).
Defined.
End AcousticDelay.
