(* ===== verification/CallControl.v ===== *)
(** The single-call controller and the forking dialler:
    [internal/callcontrol/controller.go] and [fork.go]. *)
From S2P Require Import Prelude GoStrings.

(** * [Controller]

    The mutex makes every locked region one step; a call's goroutine is alive
    from [Start] until its deferred function has run. *)
Module Controller.

(** A call: a number of its own, the generation its goroutine captured, and
    whether its context is cancelled. *)
Record call := mkCall { id : Z; generation_of : Z; canceled : bool }.

Record Controller := mkController {
  active : bool;
  generation : Z;          (** uint64 *)
  cancel : option Z;       (** the call whose context it cancels *)
}.

(** The controller with the goroutines it has started; [next] numbers the calls. *)
Record world := mkWorld { ctl : Controller; running : list call; next : Z }.

Inductive outcome := Started | Busy | Refused (e : string) | Cancelled | NoActiveCall.

(** [parent_err] is [parent.Err()]; [fn_nil] tells whether [fn] is nil. *)
Definition Start (w : world) (parent_err : option string) (fn_nil : bool) : outcome * world :=
  match parent_err with
  | Some e => (Refused e, w)
  | None =>
    if fn_nil then (Refused "call function is nil", w)
    else if active (ctl w) then (Busy, w)
    else
      let g := u64 (generation (ctl w) + 1) in
      (Started, mkWorld (mkController true g (Some (next w))) (mkCall (next w) g false :: running w) (next w + 1))
  end.

(** The deferred function of the goroutine of call [c], once [fn] returned. *)
Definition finish (w : world) (c : call) : world :=
  let k := ctl w in
  let k' := if generation k =? generation_of c then mkController false (generation k) None else k in
  mkWorld k' (filter (fun c' => id c' <> id c) (running w)) (next w).

Definition CancelActive (w : world) : outcome * world :=
  match active (ctl w), cancel (ctl w) with
  | true, Some i =>
    (Cancelled, mkWorld (ctl w)
       (map (fun c => if id c =? i then mkCall (id c) (generation_of c) true else c) (running w)) (next w))
  | _, _ => (NoActiveCall, w)
  end.

Definition Active (w : world) : bool := active (ctl w).

Inductive event :=
| EvStart (parent_err : option string) (fn_nil : bool) (r : outcome)
| EvCancel (r : outcome)
| EvFinish (c : call).

Inductive step : world -> event -> world -> Prop :=
| step_start w pe fn r w' : Start w pe fn = (r, w') -> step w (EvStart pe fn r) w'
| step_cancel w r w' : CancelActive w = (r, w') -> step w (EvCancel r) w'
| step_finish w c : c ∈ running w -> step w (EvFinish c) (finish w c).

#[export] Instance controller_machine : Machine world event := {
  m_init w := w = mkWorld (mkController false 0 None) [] 0;
  m_step := step;
}.

(** At most one call, and the controller describes it. *)
Definition inv (w : world) : Prop :=
  match running w with
  | [] => active (ctl w) = false /\ cancel (ctl w) = None
  | [c] => active (ctl w) = true /\ cancel (ctl w) = Some (id c) /\ generation (ctl w) = generation_of c
  | _ => False
  end.

Lemma controller_inv_preserved : preserved inv.
Proof.
  intros w e w' Hi Hs. destruct Hs as [w pe fn r w' H|w r w' H|w c Hc]; unfold inv in *.
  - unfold Start in H. destruct pe; [by injection H as <- <-|]. destruct fn; [by injection H as <- <-|].
    destruct (running w) as [|c [|? ?]] eqn:E; [| |done]; destruct Hi as [Ha Hi]; rewrite Ha in H;
      injection H as <- <-; cbn; rewrite ?E; done.
  - unfold CancelActive in H. destruct (running w) as [|c [|? ?]] eqn:E; [| |done]; destruct Hi as [Ha Hi].
    + rewrite Ha in H. injection H as <- <-. by rewrite ?E.
    + destruct Hi as [Hk Hg]. rewrite Ha, Hk in H. injection H as <- <-. cbn. rewrite ?E. cbn.
      by rewrite Z.eqb_refl.
  - destruct (running w) as [|c' [|? ?]] eqn:E; [by apply elem_of_nil in Hc| |done].
    apply list_elem_of_singleton in Hc as ->. unfold finish. cbn. rewrite E.
    rewrite filter_cons_False by (intros H; by apply H). cbn.
    destruct Hi as (_ & _ & ->). by rewrite Z.eqb_refl.
Qed.

Lemma controller_inv_reachable w : reachable w -> inv w.
Proof. apply invariant_reachable; [|exact controller_inv_preserved]. by intros w0 ->. Qed.

(** C35: one call at a time.  In every reachable state at most one call function
    runs, whatever calls of [Start], [CancelActive] and completions came
    before; the slot is taken exactly while it runs, so [Start] succeeds if and
    only if none does (and [ErrBusy] is returned otherwise), [CancelActive]
    cancels precisely the context of the running call, and the slot is free
    again once it has finished. *)
Theorem controller_single_call (w : world) :
  reachable w ->
  (length (running w) <= 1)%nat /\
  Active w = negb (bool_decide (running w = [])) /\
  (Start w None false).1 = (if bool_decide (running w = []) then Started else Busy) /\
  (forall c, running w = [c] ->
     CancelActive w = (Cancelled, mkWorld (ctl w) [mkCall (id c) (generation_of c) true] (next w)) /\
     Active (finish w c) = false /\ running (finish w c) = []) /\
  (running w = [] -> CancelActive w = (NoActiveCall, w)).
Proof.
  intros Hi%controller_inv_reachable. unfold inv in Hi. unfold Active, Start, CancelActive.
  destruct (running w) as [|c [|? ?]] eqn:E; [| |done].
  - destruct Hi as [Ha _]. rewrite Ha. cbn. by repeat (split; [lia || done|]).
  - destruct Hi as (Ha & Hk & Hg). rewrite Ha, Hk. cbn. split; [lia|]. split; [done|]. split; [done|]. split; [|done].
    intros c' [= <-]. rewrite Z.eqb_refl. split; [done|]. rewrite Hg, Z.eqb_refl, E.
    rewrite filter_cons_False by (intros H; by apply H). done.
Qed.

Lemma controller_single_call_witness :
  let w := (CancelActive (Start (mkWorld (mkController false 0 None) [] 0) None false).2).2 in
  (length (running w) <= 1)%nat /\ (Start w None false).1 = Busy.
Proof.
  cbv zeta. set (w0 := mkWorld (mkController false 0 None) [] 0).
  destruct (controller_single_call (CancelActive (Start w0 None false).2).2) as (H1 & _ & H2 & _).
  - eapply (reachable_step (Start w0 None false).2); [eapply reachable_step; [by apply reachable_init|]|].
    + apply (step_start w0 None false Started). reflexivity.
    + apply (step_cancel _ Cancelled). reflexivity.
  - split; [exact H1|exact H2].
Defined.
End Controller.

(** * [DialFirst]

    The legs run concurrently and deliver their results over a channel; the
    loop takes them in the order they arrive, or leaves when the context is
    done.  A result that arrives after the loop is left is handled by
    [drainLosingDialogs]. *)
Module Fork.
Section fork.
(** A leg's dialog, as an identity. *)
Context {Dialog : Type}.

Record dialResult := mkResult { leg : string; destination : string; dialog : option Dialog; err : option string }.

(** What the [select] sees: a result, or [ctx.Done()] with the context's error. *)
Inductive event := Result (r : dialResult) | Done (e : string).

Inductive verdict :=
| Winner (r : dialResult) (d : Dialog)
| Stopped (e : string)
| AllFailed (failures : list string).

Definition failure (r : dialResult) : option string :=
  match err r, dialog r with
  | Some e, _ => Some (leg r +:+ " (" +:+ destination r +:+ "): " +:+ e)
  | None, None => Some (leg r +:+ " (" +:+ destination r +:+ "): dial returned no dialog")
  | None, Some _ => None
  end.

(** The dialog [drainLosingDialogs] hangs up. *)
Definition established (r : dialResult) : option Dialog := if err r then None else dialog r.

(** The results among the next [remaining] arrivals that carry a dialog. *)
Fixpoint drainLosingDialogs (evs : list event) (remaining : nat) : list Dialog :=
  match remaining, evs with
  | S n, Result r :: evs => option_list (established r) ++ drainLosingDialogs evs n
  | S n, Done _ :: evs => drainLosingDialogs evs (S n)
  | _, _ => []
  end.

(** [None] while the loop waits for more events; otherwise the verdict and the
    dialogs hung up in the background. *)
Fixpoint select_loop (evs : list event) (remaining : nat) (failures : list string)
    : option (verdict * list Dialog) :=
  match remaining with
  | O => Some (AllFailed failures, [])
  | S n =>
    match evs with
    | [] => None
    | Done e :: evs => Some (Stopped e, drainLosingDialogs evs remaining)
    | Result r :: evs =>
      match established r with
      | Some d => Some (Winner r d, drainLosingDialogs evs n)
      | None => select_loop evs n (failures ++ option_list (failure r))
      end
    end
  end.

Inductive reply := Rejected (e : string) | Waiting | Settled (v : verdict) (hungUp : list Dialog).

(** [ctx_err] is [ctx.Err()] at entry; each leg is given by its identity and
    whether it has a dial function. *)
Definition DialFirst (ctx_err : option string) (legs : list (string * bool)) (evs : list event) : reply :=
  match ctx_err with
  | Some e => Rejected e
  | None =>
    match legs with
    | [] => Rejected "no SIP call legs are available"
    | _ =>
      match filter (fun l => l.2 = false) legs with
      | (i, _) :: _ => Rejected ("SIP call leg " +:+ i +:+ " has no dial function")
      | [] =>
        match select_loop evs (length legs) [] with
        | None => Waiting
        | Some (v, hungUp) => Settled v hungUp
        end
      end
    end
  end.

(** ** Every dialog is accounted for *)

Definition results (evs : list event) : list dialResult :=
  omap (fun e => match e with Result r => Some r | Done _ => None end) evs.
Definition dialogs (evs : list event) : list Dialog := omap established (results evs).

Lemma results_cons e evs :
  results (e :: evs) = match e with Result r => r :: results evs | Done _ => results evs end.
Proof. by destruct e. Qed.

Lemma drain_all evs n : (length (results evs) <= n)%nat -> drainLosingDialogs evs n = dialogs evs.
Proof.
  revert n. induction evs as [|[r|e] evs IH]; intros n; unfold dialogs; rewrite ?results_cons; cbn [length].
  - by destruct n.
  - destruct n as [|n]; [lia|]. intros H. cbn. rewrite IH by lia. unfold dialogs. by destruct (established r).
  - intros H. destruct n as [|n]; cbn; [|by apply IH].
    destruct (results evs); [done|cbn in H; lia].
Qed.

Lemma failure_none r : established r = None -> is_Some (failure r).
Proof. unfold established, failure. destruct (err r), (dialog r); intros; eauto; done. Qed.

Lemma select_loop_spec evs n fs v h :
  length (results evs) = n -> select_loop evs n fs = Some (v, h) ->
  match v with
  | Winner r d => established r = Some d /\ r ∈ results evs /\ head (dialogs evs) = Some d /\ dialogs evs = d :: h
  | Stopped e => Done e ∈ evs /\ h = dialogs evs
  | AllFailed fs' => dialogs evs = [] /\ h = [] /\ length fs' = (length fs + n)%nat
  end.
Proof.
  revert n fs. induction evs as [|[r|e] evs IH]; intros n fs; unfold dialogs; rewrite ?results_cons; cbn [length].
  - intros <-. cbn. intros [= <- <-]. by rewrite Nat.add_0_r.
  - intros <-. cbn [select_loop]. destruct (established r) as [d|] eqn:Er.
    + intros [= <- <-]. rewrite drain_all by done. cbn [omap list_omap]. rewrite Er.
      repeat split; try done. by left.
    + intros H. apply IH in H; [|done]. cbn [omap list_omap]. rewrite Er.
      destruct v as [r' d|e|fs'].
      * destruct H as (H1 & H2 & H3 & H4). repeat split; try done. by right.
      * destruct H as (H1 & H2). split; [by right|done].
      * destruct H as (H1 & H2 & H3). split; [done|]. split; [done|]. rewrite H3, length_app.
        destruct (failure_none r Er) as [f ->]. cbn. lia.
  - intros Hn. destruct n as [|n]; cbn [select_loop].
    + intros [= <- <-]. destruct (results evs) eqn:E; [|done]. cbn. by rewrite Nat.add_0_r.
    + intros [= <- <-]. split; [by left|]. apply drain_all. lia.
Qed.

Lemma select_loop_settles evs n fs : (n <= length (results evs))%nat -> is_Some (select_loop evs n fs).
Proof.
  revert n fs. induction evs as [|[r|e] evs IH]; intros [|n] fs; rewrite ?results_cons; cbn; eauto; [lia|].
  intros H. destruct (established r); eauto. apply IH. lia.
Qed.

Lemma all_dialable (legs : list (string * bool)) :
  Forall (fun l => l.2 = true) legs -> filter (fun l => l.2 = false) legs = [].
Proof.
  induction 1 as [|l legs Hl _ IH]; [done|]. rewrite filter_cons_False by (by rewrite Hl). exact IH.
Qed.

(** Forking loses no dialog.  Once every leg has reported, in whatever
    order and with the context ending at whatever point, [DialFirst] has
    returned: with the first established dialog to arrive as the only winner,
    every other established dialog being hung up exactly once and the winner
    not; or, when the context ended first, with every established dialog hung
    up; or with one failure per leg when there was no dialog at all. *)
Theorem DialFirst_accounts (legs : list (string * bool)) (evs : list event) :
  legs <> [] -> Forall (fun l => l.2 = true) legs -> length (results evs) = length legs ->
  match DialFirst None legs evs with
  | Settled (Winner r d) hungUp =>
      r ∈ results evs /\ head (dialogs evs) = Some d /\ dialogs evs = d :: hungUp
  | Settled (Stopped e) hungUp => Done e ∈ evs /\ hungUp = dialogs evs
  | Settled (AllFailed fs) hungUp => dialogs evs = [] /\ hungUp = [] /\ length fs = length legs
  | _ => False
  end.
Proof.
  intros Hne Hd Hl. unfold DialFirst. destruct legs as [|l legs]; [done|].
  rewrite all_dialable by done.
  destruct (select_loop_settles evs (length (l :: legs)) []) as [[v h] Hs]; [lia|].
  rewrite Hs. apply select_loop_spec in Hs; [|done]. destruct v; [|done|done]. tauto.
Qed.
End fork.

Lemma DialFirst_accounts_witness :
  let late := mkResult "mobile-2" "0176" (Some 2%nat) None in
  let evs := [Result (mkResult "mobile-1" "0163" None (Some "486 Busy Here"));
              Result (mkResult "door" "**610" (Some 1%nat) None); Result late] in
  match DialFirst None [("door", true); ("mobile-1", true); ("mobile-2", true)] evs with
  | Settled (Winner r d) hungUp => d = 1%nat /\ dialogs evs = d :: hungUp
  | _ => False
  end.
Proof.
  cbv zeta. set (evs := [Result _; Result _; Result _]).
  destruct (DialFirst_accounts [("door", true); ("mobile-1", true); ("mobile-2", true)] evs) as (_ & _ & H).
  - discriminate.
  - repeat constructor.
  - reflexivity.
  - split; [reflexivity|exact H].
Defined.
End Fork.
