(* ===== verification/GoCrypto.v ===== *)
(** The parts of Go's [crypto] packages that the gateway uses: MD5 (RFC 1321),
    SHA-256 (FIPS 180-4), AES-128 (FIPS 197) and the CFB mode of
    [crypto/cipher].  The test vectors of the standards are checked at the end of
    each section. *)
From S2P Require Import Prelude GoBytes GoStrings.

(** * 32-bit words *)
Definition rotl (n x : Z) : Z := u32 (Z.lor (Z.shiftl x n) (Z.shiftr x (32 - n))).
Definition rotr (n x : Z) : Z := rotl (32 - n) x.
Definition not32 (x : Z) : Z := Z.lxor x 0xFFFFFFFF.
Definition nth0 (l : list Z) (n : nat) : Z := nth n l 0.

(** Merkle-Damgard padding: a 1 bit, zeros, and the bit length in 8 bytes, put
    by [put]; and the cut into blocks of 64 bytes. *)
Definition pad64 (put : nat -> Z -> bytes) (m : bytes) : bytes :=
  m ++ [0x80] ++ replicate (Z.to_nat ((55 - len m) mod 64)) 0 ++ put 8%nat (u64 (8 * len m)).
Fixpoint blocks (fuel n : nat) (l : bytes) : list bytes :=
  match fuel, l with
  | S f, _ :: _ => take n l :: blocks f n (drop n l)
  | _, _ => []
  end.
Definition words (dec : bytes -> Z) (b : bytes) : list Z := map dec (blocks (length b) 4 b).

(** * MD5 *)
Module MD5.
Definition K : list Z := [
  0xd76aa478; 0xe8c7b756; 0x242070db; 0xc1bdceee; 0xf57c0faf; 0x4787c62a; 0xa8304613; 0xfd469501;
  0x698098d8; 0x8b44f7af; 0xffff5bb1; 0x895cd7be; 0x6b901122; 0xfd987193; 0xa679438e; 0x49b40821;
  0xf61e2562; 0xc040b340; 0x265e5a51; 0xe9b6c7aa; 0xd62f105d; 0x2441453; 0xd8a1e681; 0xe7d3fbc8;
  0x21e1cde6; 0xc33707d6; 0xf4d50d87; 0x455a14ed; 0xa9e3e905; 0xfcefa3f8; 0x676f02d9; 0x8d2a4c8a;
  0xfffa3942; 0x8771f681; 0x6d9d6122; 0xfde5380c; 0xa4beea44; 0x4bdecfa9; 0xf6bb4b60; 0xbebfbc70;
  0x289b7ec6; 0xeaa127fa; 0xd4ef3085; 0x4881d05; 0xd9d4d039; 0xe6db99e5; 0x1fa27cf8; 0xc4ac5665;
  0xf4292244; 0x432aff97; 0xab9423a7; 0xfc93a039; 0x655b59c3; 0x8f0ccc92; 0xffeff47d; 0x85845dd1;
  0x6fa87e4f; 0xfe2ce6e0; 0xa3014314; 0x4e0811a1; 0xf7537e82; 0xbd3af235; 0x2ad7d2bb; 0xeb86d391].
Definition shifts : list Z := [
  7; 12; 17; 22; 7; 12; 17; 22; 7; 12; 17; 22; 7; 12; 17; 22;
  5; 9; 14; 20; 5; 9; 14; 20; 5; 9; 14; 20; 5; 9; 14; 20;
  4; 11; 16; 23; 4; 11; 16; 23; 4; 11; 16; 23; 4; 11; 16; 23;
  6; 10; 15; 21; 6; 10; 15; 21; 6; 10; 15; 21; 6; 10; 15; 21].

Definition round (w : list Z) (s : Z * Z * Z * Z) (i : nat) : Z * Z * Z * Z :=
  let '(a, b, c, d) := s in
  let '(f, g) :=
    if (i <? 16)%nat then (Z.lor (Z.land b c) (Z.land (not32 b) d), i)
    else if (i <? 32)%nat then (Z.lor (Z.land d b) (Z.land (not32 d) c), ((5 * i + 1) mod 16)%nat)
    else if (i <? 48)%nat then (Z.lxor (Z.lxor b c) d, ((3 * i + 5) mod 16)%nat)
    else (Z.lxor c (Z.lor b (not32 d)), ((7 * i) mod 16)%nat) in
  let f := u32 (f + a + nth0 K i + nth0 w g) in
  (d, u32 (b + rotl (nth0 shifts i) f), b, c).

Definition compress (s : Z * Z * Z * Z) (block : bytes) : Z * Z * Z * Z :=
  let '(a, b, c, d) := s in
  let '(a', b', c', d') := foldl (round (words le_dec block)) s (seq 0 64) in
  (u32 (a + a'), u32 (b + b'), u32 (c + c'), u32 (d + d')).

Definition init : Z * Z * Z * Z := (0x67452301, 0xefcdab89, 0x98badcfe, 0x10325476).

(** [md5.Sum]. *)
Definition Sum (m : bytes) : bytes :=
  let p := pad64 le_put m in
  let '(a, b, c, d) := foldl compress init (blocks (length p) 64 p) in
  le_put 4 a ++ le_put 4 b ++ le_put 4 c ++ le_put 4 d.

Lemma length_Sum m : length (Sum m) = 16%nat.
Proof. unfold Sum. destruct (foldl _ _ _) as [[[a b] c] d]. by rewrite !length_app, !length_le_put. Qed.
Lemma Sum_ok m : bytes_ok (Sum m).
Proof. unfold Sum. destruct (foldl _ _ _) as [[[a b] c] d]. rewrite !Forall_app. by repeat split; apply le_put_ok. Qed.

Example empty_vector : hex_encode (Sum []) = "d41d8cd98f00b204e9800998ecf8427e".
Proof. vm_compute. reflexivity. Qed.
Example digest_vector : hex_encode (Sum (s2b "message digest")) = "f96b697d7cb7938d525a2f31aaf161d0".
Proof. vm_compute. reflexivity. Qed.
End MD5.

(** * SHA-256 *)
Module SHA256.
(** The constants are the first 32 bits behind the binary point of the cube and
    square roots of the first primes. *)
Definition is_prime (n : Z) : bool := forallb (fun d => negb (n mod Z.of_nat d =? 0)) (seq 2 (Z.to_nat (Z.sqrt n) - 1)).
Definition primes : list Z := List.filter is_prime (map Z.of_nat (seq 2 310)).
(** The integer cube root, [2 ^ n] being more than it. *)
Fixpoint cube_root (n : nat) (root z : Z) : Z :=
  match n with
  | O => root
  | S n' => let r := root + 2 ^ Z.of_nat n' in cube_root n' (if r * r * r <=? z then r else root) z
  end.
Definition K : list Z := Eval vm_compute in map (fun p => u32 (cube_root 36 0 (p * 2 ^ 96))) primes.
Definition init : list Z := Eval vm_compute in map (fun p => u32 (Z.sqrt (p * 2 ^ 64))) (take 8 primes).

(** The message schedule: 48 more words behind the 16 of the block. *)
Fixpoint extend (n : nat) (w : list Z) : list Z :=
  match n with
  | O => w
  | S n' =>
    let t := length w in
    let w15 := nth0 w (t - 15) in
    let w2 := nth0 w (t - 2) in
    let s0 := Z.lxor (Z.lxor (rotr 7 w15) (rotr 18 w15)) (Z.shiftr w15 3) in
    let s1 := Z.lxor (Z.lxor (rotr 17 w2) (rotr 19 w2)) (Z.shiftr w2 10) in
    extend n' (w ++ [u32 (nth0 w (t - 16) + s0 + nth0 w (t - 7) + s1)])
  end.

Definition round (w : list Z) (s : list Z) (i : nat) : list Z :=
  match s with
  | [a; b; c; d; e; f; g; h] =>
    let S1 := Z.lxor (Z.lxor (rotr 6 e) (rotr 11 e)) (rotr 25 e) in
    let ch := Z.lxor (Z.land e f) (Z.land (not32 e) g) in
    let t1 := u32 (h + S1 + ch + nth0 K i + nth0 w i) in
    let S0 := Z.lxor (Z.lxor (rotr 2 a) (rotr 13 a)) (rotr 22 a) in
    let maj := Z.lxor (Z.lxor (Z.land a b) (Z.land a c)) (Z.land b c) in
    [u32 (t1 + u32 (S0 + maj)); a; b; c; u32 (d + t1); e; f; g]
  | _ => s
  end.

Definition compress (s : list Z) (block : bytes) : list Z :=
  zip_with (fun x y => u32 (x + y)) s (foldl (round (extend 48 (words be_dec block))) s (seq 0 64)).

(** [sha256.Sum256]. *)
Definition Sum (m : bytes) : bytes :=
  let p := pad64 be_put m in
  concat (map (be_put 4) (foldl compress init (blocks (length p) 64 p))).

Lemma Sum256_ok m : bytes_ok (Sum m).
Proof. unfold Sum. apply Forall_concat, Forall_map, Forall_true. intros x. apply be_put_ok. Qed.

Example abc_vector :
  hex_encode (Sum (s2b "abc")) = "ba7816bf8f01cfea414140de5dae2223b00361a396177a9cb410ff61f20015ad".
Proof. vm_compute. reflexivity. Qed.
End SHA256.

(** * AES-128 *)
Module AES.
Definition sbox : list Z := [
  0x63; 0x7c; 0x77; 0x7b; 0xf2; 0x6b; 0x6f; 0xc5; 0x30; 0x1; 0x67; 0x2b; 0xfe; 0xd7; 0xab; 0x76;
  0xca; 0x82; 0xc9; 0x7d; 0xfa; 0x59; 0x47; 0xf0; 0xad; 0xd4; 0xa2; 0xaf; 0x9c; 0xa4; 0x72; 0xc0;
  0xb7; 0xfd; 0x93; 0x26; 0x36; 0x3f; 0xf7; 0xcc; 0x34; 0xa5; 0xe5; 0xf1; 0x71; 0xd8; 0x31; 0x15;
  0x4; 0xc7; 0x23; 0xc3; 0x18; 0x96; 0x5; 0x9a; 0x7; 0x12; 0x80; 0xe2; 0xeb; 0x27; 0xb2; 0x75;
  0x9; 0x83; 0x2c; 0x1a; 0x1b; 0x6e; 0x5a; 0xa0; 0x52; 0x3b; 0xd6; 0xb3; 0x29; 0xe3; 0x2f; 0x84;
  0x53; 0xd1; 0x0; 0xed; 0x20; 0xfc; 0xb1; 0x5b; 0x6a; 0xcb; 0xbe; 0x39; 0x4a; 0x4c; 0x58; 0xcf;
  0xd0; 0xef; 0xaa; 0xfb; 0x43; 0x4d; 0x33; 0x85; 0x45; 0xf9; 0x2; 0x7f; 0x50; 0x3c; 0x9f; 0xa8;
  0x51; 0xa3; 0x40; 0x8f; 0x92; 0x9d; 0x38; 0xf5; 0xbc; 0xb6; 0xda; 0x21; 0x10; 0xff; 0xf3; 0xd2;
  0xcd; 0xc; 0x13; 0xec; 0x5f; 0x97; 0x44; 0x17; 0xc4; 0xa7; 0x7e; 0x3d; 0x64; 0x5d; 0x19; 0x73;
  0x60; 0x81; 0x4f; 0xdc; 0x22; 0x2a; 0x90; 0x88; 0x46; 0xee; 0xb8; 0x14; 0xde; 0x5e; 0xb; 0xdb;
  0xe0; 0x32; 0x3a; 0xa; 0x49; 0x6; 0x24; 0x5c; 0xc2; 0xd3; 0xac; 0x62; 0x91; 0x95; 0xe4; 0x79;
  0xe7; 0xc8; 0x37; 0x6d; 0x8d; 0xd5; 0x4e; 0xa9; 0x6c; 0x56; 0xf4; 0xea; 0x65; 0x7a; 0xae; 0x8;
  0xba; 0x78; 0x25; 0x2e; 0x1c; 0xa6; 0xb4; 0xc6; 0xe8; 0xdd; 0x74; 0x1f; 0x4b; 0xbd; 0x8b; 0x8a;
  0x70; 0x3e; 0xb5; 0x66; 0x48; 0x3; 0xf6; 0xe; 0x61; 0x35; 0x57; 0xb9; 0x86; 0xc1; 0x1d; 0x9e;
  0xe1; 0xf8; 0x98; 0x11; 0x69; 0xd9; 0x8e; 0x94; 0x9b; 0x1e; 0x87; 0xe9; 0xce; 0x55; 0x28; 0xdf;
  0x8c; 0xa1; 0x89; 0xd; 0xbf; 0xe6; 0x42; 0x68; 0x41; 0x99; 0x2d; 0xf; 0xb0; 0x54; 0xbb; 0x16].

Definition sub_byte (x : Z) : Z := nth0 sbox (Z.to_nat x).
Definition xtime (x : Z) : Z := let y := Z.shiftl x 1 in if 256 <=? y then Z.lxor y 0x11b else y.
Definition xor_bytes (a b : bytes) : bytes := zip_with Z.lxor a b.

(** [n] more words of the key schedule; the key is a list of words. *)
Fixpoint expand (n : nat) (i : nat) (rcon : Z) (w : list bytes) : list bytes :=
  match n with
  | O => w
  | S n' =>
    let prev := nth (i - 1) w [] in
    let '(t, rcon') :=
      if (i mod 4 =? 0)%nat then
        match prev with
        | [a; b; c; d] => ([Z.lxor (sub_byte b) rcon; sub_byte c; sub_byte d; sub_byte a], xtime rcon)
        | _ => (prev, rcon)
        end
      else (prev, rcon) in
    expand n' (S i) rcon' (w ++ [xor_bytes (nth (i - 4) w []) t])
  end.
Definition round_keys (key : bytes) : list bytes :=
  map (@concat Z) (let fix group (fuel : nat) (l : list bytes) :=
    match fuel, l with S f, _ :: _ => take 4 l :: group f (drop 4 l) | _, _ => [] end in
    group 11%nat (expand 40 4 1 (blocks 4 4 key))).

(** The state is the 16 bytes in the order of the block, column by column. *)
Definition shift_rows (s : bytes) : bytes :=
  map (fun i => nth0 s i) [0; 5; 10; 15; 4; 9; 14; 3; 8; 13; 2; 7; 12; 1; 6; 11]%nat.
Definition mix_column (c : bytes) : bytes :=
  match c with
  | [a; b; c; d] =>
    let x := Z.lxor (Z.lxor a b) (Z.lxor c d) in
    [Z.lxor a (Z.lxor x (xtime (Z.lxor a b))); Z.lxor b (Z.lxor x (xtime (Z.lxor b c)));
     Z.lxor c (Z.lxor x (xtime (Z.lxor c d))); Z.lxor d (Z.lxor x (xtime (Z.lxor d a)))]
  | _ => c
  end.
Definition mix_columns (s : bytes) : bytes := concat (map mix_column (blocks 4 4 s)).

Definition encrypt (key block : bytes) : bytes :=
  match round_keys key with
  | [] => block
  | k0 :: ks =>
    let s := xor_bytes block k0 in
    let s := foldl (fun s k => xor_bytes (mix_columns (shift_rows (map sub_byte s))) k) s (take 9 ks) in
    xor_bytes (shift_rows (map sub_byte s)) (nth 9 ks [])
  end.

(** FIPS 197, appendix B. *)
Example fips_vector :
  hex_encode (encrypt [0x2b; 0x7e; 0x15; 0x16; 0x28; 0xae; 0xd2; 0xa6; 0xab; 0xf7; 0x15; 0x88; 0x09; 0xcf; 0x4f; 0x3c]
                      [0x32; 0x43; 0xf6; 0xa8; 0x88; 0x5a; 0x30; 0x8d; 0x31; 0x31; 0x98; 0xa2; 0xe0; 0x37; 0x07; 0x34])
  = "3925841d02dc09fbdc118597196a0b32".
Proof. vm_compute. reflexivity. Qed.
End AES.

(** * CFB mode

    [NewCFBEncrypter]/[NewCFBDecrypter] over a block cipher with blocks of [n]
    bytes: the key stream block is the encryption of the previous ciphertext
    block, the first one that of the IV; the last block may be short. *)
Section cfb.
Context (n : nat) (E : bytes -> bytes).

Fixpoint cfb_encrypt (fuel : nat) (iv plain : bytes) : bytes :=
  match fuel, plain with
  | S f, _ :: _ =>
    let c := zip_with Z.lxor (take n plain) (E iv) in c ++ cfb_encrypt f c (drop n plain)
  | _, _ => []
  end.
Fixpoint cfb_decrypt (fuel : nat) (iv cipher : bytes) : bytes :=
  match fuel, cipher with
  | S f, _ :: _ =>
    let c := take n cipher in zip_with Z.lxor c (E iv) ++ cfb_decrypt f c (drop n cipher)
  | _, _ => []
  end.
End cfb.

Section cfb_lemmas.
Context (n : nat) (E : bytes -> bytes).
Hypothesis n_pos : (0 < n)%nat.
Hypothesis E_length : forall b, length b = n -> length (E b) = n.

Lemma xor_cancel (a k : bytes) :
  (length a <= length k)%nat -> zip_with Z.lxor (zip_with Z.lxor a k) k = a.
Proof.
  revert k. induction a as [|x a IH]; intros [|y k] H; cbn in *; try done; [lia|].
  rewrite IH by lia. by rewrite Z.lxor_assoc, Z.lxor_nilpotent, Z.lxor_0_r.
Qed.

Lemma cfb_encrypt_length fuel iv p :
  length iv = n -> (length p <= fuel)%nat -> length (cfb_encrypt n E fuel iv p) = length p.
Proof.
  revert iv p. induction fuel as [|f IH]; intros iv p Hiv Hf; [destruct p; [done|cbn in Hf; lia]|].
  cbn [cfb_encrypt]. destruct p as [|x p]; [done|]. set (q := x :: p) in *.
  assert (length q = S (length p)) as Hq by done. clearbody q.
  rewrite length_app, length_zip_with, length_take, E_length by done.
  destruct (decide (length q <= n)%nat) as [Hs|Hs].
  - rewrite (drop_ge q n) by lia. destruct f; cbn; lia.
  - rewrite IH; rewrite ?length_zip_with, ?length_take, ?length_drop, ?E_length by done; lia.
Qed.

Lemma cfb_roundtrip fuel iv p :
  length iv = n -> (length p <= fuel)%nat ->
  cfb_decrypt n E fuel iv (cfb_encrypt n E fuel iv p) = p.
Proof.
  revert iv p. induction fuel as [|f IH]; intros iv p Hiv Hf; [destruct p; [done|cbn in Hf; lia]|].
  cbn [cfb_encrypt]. destruct p as [|x p]; [done|]. set (q := x :: p) in *.
  assert (length q = S (length p)) as Hq by done. clearbody q.
  set (c := zip_with Z.lxor (take n q) (E iv)).
  assert (length c = Nat.min n (length q)) as Hc.
  { subst c. rewrite length_zip_with, length_take, E_length by done. lia. }
  assert (zip_with Z.lxor c (E iv) = take n q) as Hx.
  { subst c. apply xor_cancel. rewrite length_take, E_length by done. lia. }
  destruct (decide (length q <= n)%nat) as [Hs|Hs].
  - rewrite (drop_ge q n) by lia.
    assert (c ++ cfb_encrypt n E f c [] = c) as -> by (destruct f; by rewrite app_nil_r).
    cbn [cfb_decrypt]. destruct c as [|y c'] eqn:Ec; [cbn in Hc; lia|]. rewrite <- Ec in Hc, Hx |- *.
    rewrite take_ge, drop_ge by lia. rewrite Hx, take_ge by lia.
    destruct f; by rewrite app_nil_r.
  - cbn [cfb_decrypt].
    destruct (c ++ _) as [|y c'] eqn:Ec; [destruct c; [cbn in Hc; lia|done]|]. rewrite <- Ec.
    rewrite take_app_length', drop_app_length' by lia.
    rewrite Hx, IH by (rewrite ?length_drop; lia). apply take_drop.
Qed.
End cfb_lemmas.

(** AES keeps the length of a block. *)
Lemma list16 {A} (l : list A) :
  length l = 16%nat -> exists a b c d e f g h i j k m n o p q, l = [a; b; c; d; e; f; g; h; i; j; k; m; n; o; p; q].
Proof. intros H. do 16 (destruct l as [|? l]; [done|]). destruct l; [|done]. eauto 20. Qed.

Lemma aes_keys_length key : length key = 16%nat -> map length (AES.round_keys key) = replicate 11 16%nat.
Proof. intros (a & b & c & d & e & f & g & h & i & j & k & m & n & o & p & q & ->)%list16. reflexivity. Qed.

Lemma aes_mix_length s : length s = 16%nat -> length (AES.mix_columns s) = 16%nat.
Proof. intros (a & b & c & d & e & f & g & h & i & j & k & m & n & o & p & q & ->)%list16. reflexivity. Qed.

Lemma aes_length key block : length key = 16%nat -> length block = 16%nat -> length (AES.encrypt key block) = 16%nat.
Proof.
  intros Hk Hb. pose proof (aes_keys_length key Hk) as HK. unfold AES.encrypt.
  destruct (AES.round_keys key) as [|k0 ks]; [done|].
  do 11 (destruct ks as [|? ks]; [first [done|idtac]|]); [|done].
  cbn [map replicate] in HK. injection HK as H0 H1 H2 H3 H4 H5 H6 H7 H8 H9 H10.
  assert (forall a b, length a = 16%nat -> length b = 16%nat -> length (AES.xor_bytes a b) = 16%nat) as Hx.
  { intros a b' Ha Hb'. unfold AES.xor_bytes. rewrite length_zip_with. lia. }
  cbn [take foldl nth]. repeat (apply Hx; [|assumption]); try reflexivity; try apply aes_mix_length; reflexivity.
Qed.
