(* ===== verification/BcWire.v ===== *)
(** The Baichuan wire format: [internal/baichuan/types.go], [crypto.go],
    [message.go] and the helpers of [xml.go].

    [encoding/xml] is a parameter, the class [Xml]: what [Unmarshal] finds in a
    document.  Nothing is assumed of it.  A TCP stream is the list of the bytes
    still to come; it ends with an error. *)
From S2P Require Import Prelude GoBytes GoStrings GoCrypto.

Module BcWire.

(** * Constants and data *)

Definition magicHeader : Z := 0x0ABCDEF0.
Definition classLegacy : Z := 0x6514.
Definition classModern : Z := 0x6614.
Definition classModernWithOffset : Z := 0x6414.
Definition msgIDLogin : Z := 1.
Definition msgIDVideo : Z := 3.
Definition msgIDVideoStop : Z := 4.
Definition msgIDTalkAbility : Z := 10.
Definition msgIDTalkReset : Z := 11.
Definition msgIDPing : Z := 93.
Definition msgIDTalkConfig : Z := 201.
Definition msgIDTalk : Z := 202.
Definition maxBody : Z := 8 * 1024 * 1024.

Inductive EncryptionMode := EncryptionNone | EncryptionBC | EncryptionAES.

Record Header := mkHeader {
  MsgID : Z; BodyLen : Z; ChannelID : Z; StreamType : Z; MsgNum : Z; ResponseCode : Z; Class_ : Z; PayloadOffset : Z;
}.
Definition HasPayloadOffset (cls : Z) : bool := (cls =? classModernWithOffset) || (cls =? 0).
Definition IsModern (h : Header) : bool := negb (Class_ h =? classLegacy).

(** Nil pointers are [None]. *)
Record Extension := mkExtension { BinaryData : option Z; ExtChannelID : option Z; EncryptLen : option Z }.

Record Message := mkMessage {
  MHeader : Header; MExtension : bytes; Payload : bytes; XML : string; Binary : bool; ExtensionMeta : option Extension;
}.

Record request := mkRequest {
  rMsgID : Z; rChannelID : Z; rStreamType : Z; rClass : Z; rMsgNum : Z;
  rExtension : bytes; rBody : bytes; rBinary : bool; rForceBC : bool;
}.

Definition success (m : Message) : result unit :=
  if negb (HasPayloadOffset (Class_ (MHeader m))) then Ok tt
  else if bool_decide (ResponseCode (MHeader m) ∈ [200; 201; 300]) then Ok tt
  else Err "baichuan cmd failed with status".

(** * Ciphers *)

Definition bcXMLKey : list Z := [0x1F; 0x2D; 0x3C; 0x4B; 0x5A; 0x69; 0x78; 0xFF].
Definition aesIV : bytes := s2b "0123456789abcdef".

Definition BCXOR (offset : Z) (buf : bytes) : bytes :=
  imap (fun i b => Z.lxor (Z.lxor b (nth (Z.to_nat ((offset + Z.of_nat i) mod len bcXMLKey)) bcXMLKey 0)) offset) buf.

Definition aesCFB (buf key : bytes) (encrypt : bool) : bytes :=
  if encrypt then cfb_encrypt 16 (AES.encrypt key) (length buf) aesIV buf
  else cfb_decrypt 16 (AES.encrypt key) (length buf) aesIV buf.

(** The cipher state a client keeps under [stateMu]. *)
Record cipher := mkCipher { mode : EncryptionMode; aesKey : bytes; hasAESKey : bool }.
#[export] Instance eta_cipher : Eta cipher := fun c => mkCipher (mode c) (aesKey c) (hasAESKey c).

Definition encryptXML (offset : Z) (buf : bytes) (c : cipher) : bytes :=
  match mode c with
  | EncryptionNone => buf
  | EncryptionBC => BCXOR offset buf
  | EncryptionAES => if negb (hasAESKey c) then BCXOR offset buf else aesCFB buf (aesKey c) true
  end.
Definition decryptXML (offset : Z) (buf : bytes) (c : cipher) : bytes :=
  match mode c with
  | EncryptionNone => buf
  | EncryptionBC => BCXOR offset buf
  | EncryptionAES => if negb (hasAESKey c) then BCXOR offset buf else aesCFB buf (aesKey c) false
  end.

Definition hex_upper (d : Z) : ascii := if d <? 10 then chr (48 + d) else chr (55 + d).
Fixpoint MD5Modern_digits (sum : bytes) : string :=
  match sum with
  | [] => ""
  | b :: r => String (hex_upper (Z.shiftr b 4)) (String (hex_upper (Z.land b 0x0F)) (MD5Modern_digits r))
  end.
Definition MD5Modern (input : string) : string := stake 31 (MD5Modern_digits (MD5.Sum (s2b input))).
Definition DeriveAESKey (nonce password : string) : bytes :=
  s2b (stake 16 (MD5Modern (nonce +:+ "-" +:+ password))).

(** * XML *)

(** [None] is an error of [Unmarshal]. *)
Class Xml := {
  unmarshal_extension : bytes -> option Extension;
  unmarshal_encrypt_len : string -> option Z;  (** the [encryptLen] of a body *)
}.

Section wire.
Context `{U : Unicode} `{X : Xml}.

Definition parseExtension (buf : bytes) : option Extension :=
  if len buf =? 0 then None else unmarshal_extension buf.
Definition trimXML (buf : bytes) : string := TrimSpace (b2s buf).
Definition parseEncryptLen (xmlText : string) : option Z :=
  if decide (xmlText = "") then None
  else match unmarshal_encrypt_len xmlText with
       | Some n => if n <=? 0 then None else Some n
       | None => None
       end.

(** * Messages *)

(** What [readMessage] uses of a client. *)
Record reader := mkReader { ciph : cipher; binaryMsgNums : gset Z }.

Definition setNegotiatedEncryption (c : cipher) (code : Z) : cipher :=
  let b := u8 code in
  if b =? 0x00 then c <| mode := EncryptionNone |>
  else if (b =? 0x01) || (b =? 0x12) then c <| mode := EncryptionBC |>
  else if (b =? 0x02) || (b =? 0x03) then c <| mode := EncryptionAES |>
  else c.

(** The fixed header and, if the class has one, the payload offset. *)
Definition readHeader (stream : bytes) : result (Header * bytes) :=
  '(hb, stream) ← ReadFull stream 20;
  magic ← le_get 4 hb 0;
  _ ← fail_if (negb (magic =? magicHeader)) "unexpected baichuan magic";
  msgID ← le_get 4 hb 4;
  bodyLen ← le_get 4 hb 8;
  channel ← index hb 12;
  streamType ← index hb 13;
  msgNum ← le_get 2 hb 14;
  code ← le_get 2 hb 16;
  cls ← le_get 2 hb 18;
  '(offset, stream) ←
    (if HasPayloadOffset cls then
       '(ob, stream) ← ReadFull stream 4; off ← le_get 4 ob 0; Ok (off, stream)
     else Ok (0, stream));
  Ok (mkHeader msgID bodyLen channel streamType msgNum code cls offset, stream).

(** The payload of a message whose binary flag is known, and its XML text. *)
Definition readPayload (h : Header) (c : cipher) (meta : option Extension) (binaryPayload : bool)
    (prePayloadXML : string) (payloadEncrypted : bytes) : result (bytes * string) :=
  if len payloadEncrypted =? 0 then Ok ([], "")
  else if binaryPayload then
    let encryptLen :=
      match meta ≫= EncryptLen with
      | Some n => n
      | None => default 0 (parseEncryptLen prePayloadXML)
      end in
    payload ←
      (if (0 <? encryptLen) && hasAESKey c && (encryptLen <=? len payloadEncrypted) then
         prefix ← sub payloadEncrypted 0 encryptLen;
         rest ← sub payloadEncrypted encryptLen (len payloadEncrypted);
         Ok (aesCFB prefix (aesKey c) false ++ rest)
       else Ok payloadEncrypted);
    Ok (payload, prePayloadXML)
  else
    let payload := decryptXML (ChannelID h) payloadEncrypted c in
    Ok (payload, trimXML payload).

Definition is_binary (meta : option Extension) : bool :=
  match meta ≫= BinaryData with Some n => n =? 1 | None => false end.

Definition readMessage (r : reader) (stream : bytes) : result (Message * reader * bytes) :=
  '(h, stream) ← readHeader stream;
  _ ← fail_if (maxBody <? BodyLen h) "implausibly large baichuan body length";
  '(body, stream) ← ReadFull stream (BodyLen h);
  let c := if (MsgID h =? msgIDLogin) && IsModern h && (Z.shiftr (ResponseCode h) 8 =? 0xDD)
           then setNegotiatedEncryption (ciph r) (ResponseCode h) else ciph r in
  let extLen := if HasPayloadOffset (Class_ h) && (0 <? PayloadOffset h) then PayloadOffset h else 0 in
  _ ← fail_if (BodyLen h <? extLen) "invalid payload offset";
  extEncrypted ← sub body 0 extLen;
  payloadEncrypted ← sub body extLen (len body);
  let extension := if 0 <? len extEncrypted then decryptXML (ChannelID h) extEncrypted c else [] in
  let prePayloadXML := if 0 <? len extEncrypted then trimXML extension else "" in
  let meta := parseExtension extension in
  let nums := if is_binary meta then {[MsgNum h]} ∪ binaryMsgNums r else binaryMsgNums r in
  let binaryPayload := is_binary meta || bool_decide (MsgNum h ∈ binaryMsgNums r) in
  '(payload, xml) ← readPayload h c meta binaryPayload prePayloadXML payloadEncrypted;
  Ok (mkMessage h extension payload xml binaryPayload meta, mkReader c nums, stream).

(** The body sections [encodeRequest] writes. *)
Definition sealed (c : cipher) (req : request) : bytes * bytes :=
  let c := if rForceBC req then c <| mode := EncryptionBC |> else c in
  if negb (rClass req =? classLegacy) then
    (if 0 <? len (rExtension req) then encryptXML (rChannelID req) (rExtension req) c else rExtension req,
     if negb (rBinary req) && (0 <? len (rBody req)) then encryptXML (rChannelID req) (rBody req) c else rBody req)
  else (rExtension req, rBody req).

Definition encodeRequest (c : cipher) (req : request) : bytes :=
  let '(extension, body) := sealed c req in
  let responseCode := if (rClass req =? classLegacy) && (rMsgID req =? msgIDLogin) && (len body =? 0) then 0xDC12 else 0 in
  le_put 4 magicHeader ++ le_put 4 (rMsgID req) ++ le_put 4 (u32 (len extension + len body)) ++
  [rChannelID req; rStreamType req] ++ le_put 2 (rMsgNum req) ++ le_put 2 responseCode ++ le_put 2 (rClass req) ++
  (if (rClass req =? classModernWithOffset) || (rClass req =? 0) then le_put 4 (u32 (len extension)) else []) ++
  extension ++ body.

(** ** Ciphers undo each other *)

Lemma BCXOR_involutive o b : BCXOR o (BCXOR o b) = b.
Proof.
  unfold BCXOR. apply list_eq. intros i. rewrite !list_lookup_imap.
  destruct (b !! i) as [x|]; [|reflexivity]. cbn [fmap option_fmap option_map]. f_equal.
  generalize (nth (Z.to_nat ((o + Z.of_nat i) mod len bcXMLKey)) bcXMLKey 0). intros k.
  rewrite (Z.lxor_assoc (Z.lxor x k) o k), (Z.lxor_comm o k), <- (Z.lxor_assoc (Z.lxor x k) k o).
  rewrite (Z.lxor_assoc x k k), Z.lxor_nilpotent, Z.lxor_0_r.
  by rewrite Z.lxor_assoc, Z.lxor_nilpotent, Z.lxor_0_r.
Qed.
Lemma length_BCXOR o b : length (BCXOR o b) = length b.
Proof. apply length_imap. Qed.

Definition cipher_ok (c : cipher) : Prop := hasAESKey c = true -> length (aesKey c) = 16%nat.

Lemma aes_roundtrip key b : length key = 16%nat -> aesCFB (aesCFB b key true) key false = b.
Proof.
  intros Hk. unfold aesCFB. rewrite cfb_encrypt_length; try done; [|lia|intros; by apply aes_length].
  apply cfb_roundtrip; try done; [lia|intros; by apply aes_length].
Qed.
Lemma length_aes key b : length key = 16%nat -> length (aesCFB b key true) = length b.
Proof. intros Hk. unfold aesCFB. apply cfb_encrypt_length; try done; [lia|intros; by apply aes_length]. Qed.

Lemma decrypt_encrypt o b c : cipher_ok c -> decryptXML o (encryptXML o b c) c = b.
Proof.
  intros Hc. unfold decryptXML, encryptXML. destruct (mode c); [done|apply BCXOR_involutive|].
  destruct (hasAESKey c) eqn:E; cbn [negb]; [apply aes_roundtrip; auto|apply BCXOR_involutive].
Qed.
Lemma length_encrypt o b c : cipher_ok c -> length (encryptXML o b c) = length b.
Proof.
  intros Hc. unfold encryptXML. destruct (mode c); [done|apply length_BCXOR|].
  destruct (hasAESKey c) eqn:E; cbn [negb]; [apply length_aes; auto|apply length_BCXOR].
Qed.

(** ** Reading back the header *)

Definition request_ok (req : request) : Prop :=
  fits 32 (rMsgID req) /\ fits 8 (rChannelID req) /\ fits 8 (rStreamType req) /\ fits 16 (rMsgNum req) /\
  HasPayloadOffset (rClass req) = true /\ len (rExtension req) + len (rBody req) <= maxBody.

(** The header a request is read back with. *)
Definition header_of (req : request) : Header :=
  mkHeader (rMsgID req) (len (rExtension req) + len (rBody req)) (rChannelID req) (rStreamType req)
    (rMsgNum req) 0 (rClass req) (len (rExtension req)).

Definition fixed_header (req : request) (total : Z) : bytes :=
  le_put 4 magicHeader ++ le_put 4 (rMsgID req) ++ le_put 4 total ++ [rChannelID req; rStreamType req] ++
  le_put 2 (rMsgNum req) ++ le_put 2 0 ++ le_put 2 (rClass req).

Lemma len_fixed_header req total : len (fixed_header req total) = 20.
Proof. unfold fixed_header. rewrite !length_app, !length_le_put. done. Qed.

Lemma offset_class cls : HasPayloadOffset cls = true -> cls = classModernWithOffset \/ cls = 0.
Proof. unfold HasPayloadOffset. lia. Qed.

Lemma readHeader_fixed req total off rest :
  request_ok req -> fits 32 total -> fits 32 off ->
  readHeader (fixed_header req total ++ le_put 4 off ++ rest) =
  Ok (mkHeader (rMsgID req) total (rChannelID req) (rStreamType req) (rMsgNum req) 0 (rClass req) off, rest).
Proof.
  intros (H1 & H2 & H3 & H4 & H5 & _) Ht Hoff. unfold readHeader.
  rewrite ReadFull_app by (by rewrite len_fixed_header). cbn [mbind result_bind].
  assert (fits 16 (rClass req)) as H6 by (destruct (offset_class _ H5) as [-> | ->]; unfold classModernWithOffset; width).
  assert (le_get 4 (fixed_header req total) 0 = Ok magicHeader) as ->.
  { unfold fixed_header. by rewrite le_get_head. }
  assert (le_get 4 (fixed_header req total) 4 = Ok (rMsgID req)) as ->.
  { unfold fixed_header. rewrite (le_get_app 4 (le_put 4 magicHeader)) by done. f_equal. width. }
  assert (le_get 4 (fixed_header req total) 8 = Ok total) as ->.
  { unfold fixed_header. rewrite app_assoc, (le_get_app 4) by lensolve. f_equal. width. }
  assert (le_get 2 (fixed_header req total) 14 = Ok (rMsgNum req)) as ->.
  { unfold fixed_header. rewrite !app_assoc, <- (app_assoc _ (le_put 2 0)), <- (app_assoc _ (le_put 2 (rMsgNum req))).
    rewrite (le_get_app 2) by lensolve. f_equal. width. }
  assert (le_get 2 (fixed_header req total) 16 = Ok 0) as ->.
  { unfold fixed_header. rewrite !app_assoc, <- (app_assoc _ (le_put 2 0)).
    rewrite (le_get_app 2) by lensolve. done. }
  assert (le_get 2 (fixed_header req total) 18 = Ok (rClass req)) as ->.
  { unfold fixed_header. rewrite !app_assoc. rewrite (le_get_last 2) by lensolve. f_equal. width. }
  change (index (fixed_header req total) 12) with (Ok (rChannelID req)).
  change (index (fixed_header req total) 13) with (Ok (rStreamType req)).
  cbn [mbind result_bind]. pass. rewrite H5, ReadFull_app by (by rewrite len_le_put). cbn [mbind result_bind].
  assert (le_get 4 (le_put 4 off) 0 = Ok off) as ->.
  { rewrite <- (app_nil_r (le_put 4 off)), le_get_head by done. f_equal. width. }
  reflexivity.
Qed.

(** What is on the wire for a request of a modern class. *)
Lemma encode_shape c req :
  cipher_ok c -> request_ok req ->
  exists ext body,
    sealed c req = (ext, body) /\ len ext = len (rExtension req) /\ len body = len (rBody req) /\
    encodeRequest c req =
      fixed_header req (len (rExtension req) + len (rBody req)) ++ le_put 4 (len (rExtension req)) ++ ext ++ body.
Proof.
  intros Hc (_ & _ & _ & _ & H5 & H6). unfold encodeRequest.
  destruct (sealed c req) as [ext body] eqn:Es. exists ext, body. split; [done|].
  assert (len ext = len (rExtension req) /\ len body = len (rBody req)) as [He Hb].
  { unfold sealed in Es. assert (cipher_ok (if rForceBC req then c <| mode := EncryptionBC |> else c)) as Hc'
      by (destruct (rForceBC req); done).
    revert Es. generalize (if rForceBC req then c <| mode := EncryptionBC |> else c) Hc'. intros c' Hc''.
    destruct (negb _); [|by intros [= <- <-]]. intros [= <- <-].
    split; [destruct (0 <? _)|destruct (_ && _)]; rewrite ?length_encrypt; done. }
  split; [done|]. split; [done|]. rewrite He, Hb.
  assert ((rClass req =? classModernWithOffset) || (rClass req =? 0) = true) as -> by exact H5.
  assert ((rClass req =? classLegacy) = false) as ->.
  { apply Z.eqb_neq. destruct (offset_class _ H5) as [-> | ->]; discriminate. }
  cbn [andb]. unfold fixed_header, maxBody in *.
  replace (u32 (len (rExtension req) + len (rBody req))) with (len (rExtension req) + len (rBody req)) by width.
  replace (u32 (len (rExtension req))) with (len (rExtension req)) by width.
  by rewrite <- !app_assoc.
Qed.

(** The cipher a request is sealed with. *)
Definition sealing (c : cipher) (req : request) : cipher := if rForceBC req then c <| mode := EncryptionBC |> else c.

Lemma sealed_modern c req :
  HasPayloadOffset (rClass req) = true ->
  sealed c req =
    (if 0 <? len (rExtension req) then encryptXML (rChannelID req) (rExtension req) (sealing c req) else rExtension req,
     if negb (rBinary req) && (0 <? len (rBody req)) then encryptXML (rChannelID req) (rBody req) (sealing c req)
     else rBody req).
Proof.
  intros H. unfold sealed. assert ((rClass req =? classLegacy) = false) as ->; [|done].
  apply Z.eqb_neq. destruct (offset_class _ H) as [-> | ->]; discriminate.
Qed.

(** The message a request becomes on the other side. *)
Definition message_of (req : request) : Message :=
  let ext := rExtension req in
  mkMessage (header_of req) ext (rBody req)
    (if len (rBody req) =? 0 then "" else trimXML (if rBinary req then ext else rBody req))
    (rBinary req) (parseExtension ext).

(** What one side of a Baichuan connection encodes, the other side reads
    back: header fields, decrypted extension and payload are those of the
    request, in every encryption mode (plain, XOR, AES-CFB), and the rest of
    the stream is untouched, provided the reader has the cipher the request was
    sealed with and the binary flag of the request is the one its extension
    declares.  Binary payloads travel unencrypted. *)
Theorem encode_decode (c : cipher) (r : reader) (req : request) (rest : bytes) :
  cipher_ok c -> request_ok req -> ciph r = sealing c req ->
  is_binary (parseExtension (rExtension req)) = rBinary req ->
  (rBinary req = false -> rMsgNum req ∉ binaryMsgNums r) ->
  (rBinary req = true -> parseExtension (rExtension req) ≫= EncryptLen = None /\
     parseEncryptLen (trimXML (rExtension req)) = None) ->
  readMessage r (encodeRequest c req ++ rest) =
    Ok (message_of req,
        mkReader (ciph r) (if rBinary req then {[rMsgNum req]} ∪ binaryMsgNums r else binaryMsgNums r), rest).
Proof.
  intros Hc Hreq Hciph Hbin Hnum Hlen.
  destruct (encode_shape c req Hc Hreq) as (ext & body & Hs & He & Hb & ->).
  pose proof Hreq as (_ & _ & _ & _ & H5 & H6). rewrite (sealed_modern _ _ H5) in Hs. injection Hs as Hext Hbody.
  unfold readMessage. rewrite <- !app_assoc.
  rewrite readHeader_fixed by (done || (unfold maxBody in H6; width)). cbn [mbind result_bind BodyLen].
  pass. rewrite (app_assoc ext body), ReadFull_app by (rewrite len_app; lia).
  cbn [mbind result_bind MsgID ResponseCode ciph Class_ PayloadOffset ChannelID MsgNum].
  change (Z.shiftr 0 8 =? 0xDD) with false. rewrite andb_false_r. rewrite H5. cbn [andb].
  assert ((if 0 <? len (rExtension req) then len (rExtension req) else 0) = len ext) as -> by (rewrite He; ifs; lia).
  pass.
  assert (sub (ext ++ body) 0 (len ext) = Ok ext) as ->.
  { rewrite sub_ok by (rewrite ?len_app; lia). by rewrite slice_app_l. }
  assert (sub (ext ++ body) (len ext) (len (ext ++ body)) = Ok body) as ->.
  { rewrite sub_ok by (rewrite ?len_app; lia). rewrite slice_app_r, Z.sub_diag by lia.
    by rewrite slice_full by (rewrite len_app; lia). }
  cbn [mbind result_bind].
  assert (cipher_ok (sealing c req)) as Hc' by (unfold sealing; destruct (rForceBC req); done).
  assert ((if 0 <? len ext then decryptXML (rChannelID req) ext (ciph r) else []) = rExtension req) as ->.
  { rewrite He. destruct (0 <? len (rExtension req)) eqn:E; [by rewrite <- Hext, Hciph, decrypt_encrypt|].
    symmetry. apply len_0. lia. }
  rewrite Hbin.
  assert (rBinary req || bool_decide (rMsgNum req ∈ binaryMsgNums r) = rBinary req) as ->.
  { destruct (rBinary req); [done|]. cbn. apply bool_decide_eq_false. by apply Hnum. }
  set (nums := if rBinary req then _ else _).
  unfold message_of, readPayload. rewrite Hb. destruct (len (rBody req) =? 0) eqn:E0.
  { cbn [mbind result_bind]. do 4 f_equal. symmetry. apply len_0. lia. }
  destruct (rBinary req) eqn:Eb.
  - destruct (Hlen eq_refl) as [L1 L2]. rewrite L1.
    assert (parseEncryptLen (if 0 <? len ext then trimXML (rExtension req) else "") = None) as ->.
    { destruct (0 <? len ext); [done|]. reflexivity. }
    cbn [mbind result_bind default from_option id Z.ltb Z.compare andb]. subst body. cbn [negb andb].
    do 4 f_equal. destruct (0 <? len ext) eqn:E; [done|].
    assert (rExtension req = []) as -> by (apply len_0; lia). reflexivity.
  - rewrite <- Hbody. cbn [negb andb]. rewrite (proj2 (Z.ltb_lt _ _)) by lia.
    cbn [mbind result_bind]. by rewrite Hciph, decrypt_encrypt.
Qed.

Lemma readHeader_safe stream : bytes_ok stream -> safe (readHeader stream).
Proof.
  intros Hb. unfold readHeader, ReadFull.
  apply bind_safe; [apply bind_safe; auto with safe|]. intros [hb s1].
  intros ([] & Hl%fail_if_ok & [= <- <-])%bind_ok.
  assert (len (take (Z.to_nat 20) stream) = 20) as H20 by (rewrite len_take; lia).
  set (hb := take (Z.to_nat 20) stream) in *. clearbody hb.
  repeat (apply bind_safe; [auto with safe; apply le_get_safe || apply index_safe; lia|intros ? _]).
  apply bind_safe; [|intros [? ?] _; auto with safe].
  destruct (HasPayloadOffset _); [|auto with safe].
  apply bind_safe; [apply bind_safe; auto with safe|]. intros [ob s2].
  intros ([] & Hl2%fail_if_ok & [= <- <-])%bind_ok.
  apply bind_safe; [|intros; auto with safe]. apply le_get_safe; rewrite ?len_take; lia.
Qed.

Lemma readHeader_ok stream h rest :
  bytes_ok stream -> readHeader stream = Ok (h, rest) ->
  exists used, stream = used ++ rest /\ len used = (if HasPayloadOffset (Class_ h) then 24 else 20) /\
    0 <= BodyLen h /\ 0 <= PayloadOffset h.
Proof.
  intros Hb. unfold readHeader.
  intros ([hb s1] & H1 & (magic & _ & (u & _ & (i & _ & (bl & Hbl & (ch & _ & (st & _ & (mn & _ & (rc & _ & (cls & _ &
    ([off s2] & Ho & [= <- <-])%bind_ok)%bind_ok)%bind_ok)%bind_ok)%bind_ok)%bind_ok)%bind_ok)%bind_ok)%bind_ok)%bind_ok)%bind_ok.
  apply ReadFull_ok in H1 as [L1 ->]; [|lia]. apply Forall_app in Hb as [Hb1 Hb2].
  apply le_get_bounds in Hbl; [|done|lia]. cbn. destruct (HasPayloadOffset cls).
  - apply bind_ok in Ho as ([ob s3] & H2 & (o & Ho & [= <- <-])%bind_ok).
    apply ReadFull_ok in H2 as [L2 ->]; [|lia]. apply Forall_app in Hb2 as [Hb2 _].
    apply le_get_bounds in Ho; [|done|lia].
    exists (hb ++ ob). rewrite <- app_assoc, len_app. split; [done|]. split; [lia|]. lia.
  - injection Ho as <- <-. exists hb. split; [done|]. split; [lia|]. lia.
Qed.

Lemma readPayload_safe h c meta bin pre enc : safe (readPayload h c meta bin pre enc).
Proof.
  unfold readPayload. destruct (_ =? 0); [auto with safe|]. destruct bin; [|auto with safe].
  cbv zeta. generalize (match meta ≫= EncryptLen with Some n => n | None => default 0 (parseEncryptLen pre) end).
  intros n. apply bind_safe; [|intros; auto with safe].
  destruct (_ && _) eqn:E; [|auto with safe].
  apply bind_safe; [apply sub_safe; lia|intros ? _]. apply bind_safe; [apply sub_safe; lia|intros; auto with safe].
Qed.

(** No byte stream a peer can send makes [readMessage] index or slice out
    of range, whatever its lengths, offsets and XML say; a message it accepts
    has a body of at most 8 MiB and took exactly its header and body off the
    stream. *)
Theorem readMessage_safe (r : reader) (stream : bytes) :
  bytes_ok stream ->
  safe (readMessage r stream) /\
  (forall m r' rest, readMessage r stream = Ok (m, r', rest) ->
     exists used, stream = used ++ rest /\ 0 <= BodyLen (MHeader m) <= maxBody /\
       len used = (if HasPayloadOffset (Class_ (MHeader m)) then 24 else 20) + BodyLen (MHeader m)).
Proof.
  intros Hb. unfold readMessage. split.
  - apply bind_safe; [by apply readHeader_safe|]. intros [h s1] Hh.
    apply readHeader_ok in Hh as (used & -> & _ & Hl & Ho); [|done].
    apply bind_safe; [auto with safe|intros u Hmax%fail_if_ok].
    apply bind_safe; [unfold ReadFull; apply bind_safe; auto with safe|intros [body s2] Hr].
    apply ReadFull_ok in Hr as [Lb ->]; [|done]. cbv zeta.
    apply bind_safe; [auto with safe|intros u' Hext%fail_if_ok].
    apply bind_safe; [apply sub_safe; ifs; lia|intros ext _].
    apply bind_safe; [apply sub_safe; revert Hext; ifs; lia|intros pay _].
    apply bind_safe; [apply readPayload_safe|intros [? ?] _; auto with safe].
  - intros m r' rest ([h s1] & Hh & (u & Hmax%fail_if_ok & ([body s2] & Hr & (u' & _ & (ext & _ & (pay & _ &
      ([p x] & _ & [= <- <- <-])%bind_ok)%bind_ok)%bind_ok)%bind_ok)%bind_ok)%bind_ok)%bind_ok.
    apply readHeader_ok in Hh as (used & -> & Hl & Hb0 & _); [|done].
    apply ReadFull_ok in Hr as [Lb ->]; [|done]. cbn.
    exists (used ++ body). rewrite <- app_assoc, len_app, Hl, Lb. split; [done|]. split; [lia|done].
Qed.
End wire.

(** ** Witnesses *)

(** A parser that knows one extension. *)
Definition sample_xml : Xml := {|
  unmarshal_extension b := if decide (b = s2b "<bin/>") then Some (mkExtension (Some 1) None None) else None;
  unmarshal_encrypt_len _ := None;
|}.
Definition sample_cipher : cipher := mkCipher EncryptionAES (DeriveAESKey "nonce" "secret") true.
Definition sample_request (ext : string) (bin : bool) : request :=
  mkRequest msgIDTalk 3 0 classModernWithOffset 41 (s2b ext) [10; 20; 30; 40; 50; 60; 70; 80; 90; 100; 110; 120; 130; 140; 150; 160; 170; 180; 190] bin false.

Lemma encode_decode_witness :
  let U := ascii_tables in let X := sample_xml in
  let r := mkReader sample_cipher ∅ in
  let plain := sample_request "<plain/>" false in
  let bin := sample_request "<bin/>" true in
  readMessage r (encodeRequest sample_cipher plain ++ [7]) = Ok (message_of plain, r, [7]) /\
  readMessage r (encodeRequest sample_cipher bin) = Ok (message_of bin, mkReader sample_cipher {[41]}, []).
Proof.
  cbv zeta. set (U := ascii_tables). set (X := sample_xml).
  assert (forall ext bin, len (s2b ext) <= 100 -> request_ok (sample_request ext bin)) as Hok.
  { intros ext bin H. unfold request_ok. cbn [rMsgID rChannelID rStreamType rMsgNum rClass rExtension rBody sample_request].
    unfold msgIDTalk, maxBody. cbn [length]. do 4 (split; [width|]). split; [reflexivity|lia]. }
  assert (cipher_ok sample_cipher) as Hc by (intros _; vm_compute; reflexivity).
  split.
  - apply (encode_decode sample_cipher (mkReader sample_cipher ∅) (sample_request "<plain/>" false) [7] Hc).
    + apply Hok. vm_compute. discriminate.
    + reflexivity.
    + vm_compute. reflexivity.
    + intros _. apply not_elem_of_empty.
    + discriminate.
  - rewrite <- (app_nil_r (encodeRequest _ _)).
    rewrite (encode_decode sample_cipher (mkReader sample_cipher ∅) (sample_request "<bin/>" true) [] Hc).
    + cbn [sample_request rBinary rMsgNum binaryMsgNums ciph]. rewrite union_empty_r_L. reflexivity.
    + apply Hok. vm_compute. discriminate.
    + reflexivity.
    + vm_compute. reflexivity.
    + discriminate.
    + intros _. vm_compute. by split.
Defined.

Lemma readMessage_safe_witness :
  let U := ascii_tables in let X := sample_xml in
  safe (readMessage (mkReader sample_cipher ∅) (le_put 4 magicHeader ++ replicate 30 255)).
Proof.
  cbv zeta. apply readMessage_safe. apply Forall_app. split; [apply le_put_ok|apply Forall_replicate; width].
Defined.
End BcWire.
