(* ===== verification/BcMedia.v ===== *)
(** The bcmedia byte stream: [internal/baichuan/media.go] and the talk block
    serialiser of [talk.go]. *)
From S2P Require Import Prelude GoBytes GoStrings.

Module BcMedia.

Definition bcmediaADPCM : Z := 0x62773130.
Definition bcmediaADPCMHeader : Z := 0x0100.
Definition bcmediaPadSize : Z := 8.
Definition bcmediaInfoV1 : Z := 0x31303031.
Definition bcmediaInfoV2 : Z := 0x32303031.
Definition bcmediaIFrameMin : Z := 0x63643030.
Definition bcmediaIFrameMax : Z := 0x63643039.
Definition bcmediaPFrameMin : Z := 0x63643130.
Definition bcmediaPFrameMax : Z := 0x63643139.
Definition bcmediaAAC : Z := 0x62773530.
Definition bcmediaAACV2 : Z := 0x62773531.

Inductive MediaPacketKind :=
| MediaPacketInfoV1 | MediaPacketInfoV2 | MediaPacketIFrame | MediaPacketPFrame | MediaPacketAAC | MediaPacketADPCM.
#[export] Instance kind_eq : EqDecision MediaPacketKind.
Proof. solve_decision. Defined.

Record MediaPacket := mkMedia {
  Kind : MediaPacketKind; Codec : string; Data : bytes; TimestampMicrosecs : Z; HasTimestamp : bool;
  UnixTime : option Z; Width : Z; Height : Z; FPS : Z;
}.

Definition padLen (size : Z) : Z :=
  if size mod bcmediaPadSize =? 0 then 0 else bcmediaPadSize - size mod bcmediaPadSize.

(** * Parsing

    [Ok None] asks for more data, [Ok (Some (packet, consumed))] is a packet. *)

Abbreviation parsed := (option (MediaPacket * Z)).

Definition parseVideoFrame (buf : bytes) (iframe copyPayload : bool) : result parsed :=
  if len buf <? 24 then Ok None
  else
    codec ← sub buf 4 8;
    let codec := b2s codec in
    _ ← fail_if (negb (bool_decide (codec = "H264")) && negb (bool_decide (codec = "H265"))) "unsupported video codec";
    payloadSize ← le_get 4 buf 8;
    additionalHeaderSize ← le_get 4 buf 12;
    microseconds ← le_get 4 buf 16;
    _ ← fail_if ((50 * 1024 * 1024 <? payloadSize) || (1024 * 1024 <? additionalHeaderSize))
          "implausible video frame sizes";
    let total := 24 + additionalHeaderSize + payloadSize + padLen payloadSize in
    if len buf <? total then Ok None
    else
      unixTime ← (if iframe && (4 <=? additionalHeaderSize) then ts ← le_get 4 buf 24; Ok (Some ts) else Ok None);
      let pos := 24 + additionalHeaderSize in
      data ← (if copyPayload then sub buf pos (pos + payloadSize) else Ok []);
      Ok (Some (mkMedia (if iframe then MediaPacketIFrame else MediaPacketPFrame) codec data microseconds true unixTime 0 0 0,
                total)).

Definition parseInfo (buf : bytes) (magic : Z) : result parsed :=
  if len buf <? 32 then Ok None
  else
    headerSize ← le_get 4 buf 4;
    _ ← fail_if (negb (headerSize =? 32)) "unexpected bcmedia info header size";
    width ← le_get 4 buf 8;
    height ← le_get 4 buf 12;
    fps ← index buf 17;
    Ok (Some (mkMedia (if magic =? bcmediaInfoV2 then MediaPacketInfoV2 else MediaPacketInfoV1) "" [] 0 false None width height fps, 32)).

Definition parseAAC (buf : bytes) : result parsed :=
  if len buf <? 8 then Ok None
  else
    payloadSize ← le_get 2 buf 4;
    _ ← fail_if ((payloadSize <? 0) || (1024 * 1024 <? payloadSize)) "implausible AAC payload size";
    let total := 8 + payloadSize + padLen payloadSize in
    if len buf <? total then Ok None
    else
      data ← sub buf 8 (8 + payloadSize);
      Ok (Some (mkMedia MediaPacketAAC "" data 0 false None 0 0 0, total)).

Definition parseADPCM (buf : bytes) : result parsed :=
  if len buf <? 12 then Ok None
  else
    payloadSize ← le_get 2 buf 4;
    _ ← fail_if ((payloadSize <? 4) || (1024 * 1024 <? payloadSize)) "implausible ADPCM payload size";
    let total := 8 + payloadSize + padLen payloadSize in
    if len buf <? total then Ok None
    else
      marker ← le_get 2 buf 8;
      _ ← fail_if (negb (marker =? bcmediaADPCMHeader)) "unexpected adpcm marker";
      data ← sub buf 12 (12 + (payloadSize - 4));
      Ok (Some (mkMedia MediaPacketADPCM "" data 0 false None 0 0 0, total)).

Definition parseMediaPacket (buf : bytes) (copyVideo : bool) : result parsed :=
  if len buf <? 4 then Ok None
  else
    magic ← le_get 4 buf 0;
    if (magic =? bcmediaInfoV1) || (magic =? bcmediaInfoV2) then parseInfo buf magic
    else if (bcmediaIFrameMin <=? magic) && (magic <=? bcmediaIFrameMax) then parseVideoFrame buf true copyVideo
    else if (bcmediaPFrameMin <=? magic) && (magic <=? bcmediaPFrameMax) then parseVideoFrame buf false copyVideo
    else if (magic =? bcmediaAAC) || (magic =? bcmediaAACV2) then parseAAC buf
    else if magic =? bcmediaADPCM then parseADPCM buf
    else Err "unknown bcmedia magic".

(** * [MediaParser] *)

Record MediaParser := mkParser { buf : bytes; AudioOnly : bool }.

Definition published (audioOnly : bool) (p : MediaPacket) : list MediaPacket :=
  if audioOnly && negb (bool_decide (Kind p = MediaPacketAAC)) && negb (bool_decide (Kind p = MediaPacketADPCM))
  then [] else [p].

(** The loop of [Append]: every packet takes bytes off the buffer, so its length
    bounds the number of turns.  The packets, the result of the call and the
    buffer left. *)
Fixpoint append_loop (fuel : nat) (audioOnly : bool) (b : bytes) : list MediaPacket * result unit * bytes :=
  match fuel with
  | O => ([], Ok tt, b)
  | S f =>
    match parseMediaPacket b (negb audioOnly) with
    | Err e => ([], Err e, b)
    | Panic => ([], Panic, b)
    | Ok None => ([], Ok tt, b)
    | Ok (Some (p, n)) =>
      let '(out, r, b') := append_loop f audioOnly (drop (Z.to_nat n) b) in (published audioOnly p ++ out, r, b')
    end
  end.

Definition Append (p : MediaParser) (data : bytes) : list MediaPacket * result unit * MediaParser :=
  let b := buf p ++ data in
  let '(out, r, b') := append_loop (S (length b)) (AudioOnly p) b in (out, r, mkParser b' (AudioOnly p)).

(** * [serializeTalkADPCMBlock] *)
Definition serializeTalkADPCMBlock (block : bytes) (seq : Z) : bytes :=
  let payloadSize := len block + 4 in
  le_put 4 bcmediaADPCM ++ le_put 2 (u16 payloadSize) ++ le_put 2 (u16 payloadSize) ++
  le_put 2 bcmediaADPCMHeader ++ le_put 2 seq ++ block ++ replicate (Z.to_nat (padLen payloadSize)) 0.

(** * A packet is decided by its own bytes *)

Lemma padLen_range n : 0 <= padLen n < 8.
Proof. unfold padLen, bcmediaPadSize. pose proof (Z.mod_pos_bound n 8). ifs; lia. Qed.

Lemma sub_ext {A} (b x : list A) i j : j <= len b -> sub (b ++ x) i j = sub b i j.
Proof.
  intros Hj. unfold sub. destruct (decide (0 <= i <= j /\ j <= len b)) as [H|H].
  - rewrite decide_True by (rewrite len_app; lia). f_equal. unfold slice.
    destruct H. rewrite drop_app_le by lia. rewrite take_app_le; [done|]. rewrite length_drop. lia.
  - rewrite decide_False; [done|]. intros [? _]. apply H. lia.
Qed.
Lemma le_get_ext n b x i : i + n <= len b -> le_get n (b ++ x) i = le_get n b i.
Proof. intros. unfold le_get. by rewrite sub_ext. Qed.
Lemma index_ext {A} (b x : list A) i : i < len b -> index (b ++ x) i = index b i.
Proof.
  intros. unfold index. destruct (decide (0 <= i)); [|done]. by rewrite lookup_app_l by lia.
Qed.

(** [settled f]: once [f] does not ask for more it does not change its mind, and
    a packet takes at least eight bytes, all of them there. *)
Definition settled (f : bytes -> result parsed) (b : bytes) : Prop :=
  safe (f b) /\
  (f b <> Ok None -> forall x, f (b ++ x) = f b) /\
  (forall p n, f b = Ok (Some (p, n)) -> 8 <= n <= len b).

Lemma settled_guard k g b :
  (k <= len b -> settled g b) -> settled (fun b => if len b <? k then Ok None else g b) b.
Proof.
  intros H. unfold settled. destruct (Z.ltb_spec (len b) k) as [Hk|Hk]; [by repeat split|].
  destruct (H Hk) as (H1 & H2 & H3). split; [done|]. split; [|done].
  intros Hn x. rewrite (proj2 (Z.ltb_ge _ _)) by (rewrite len_app; lia). by apply H2.
Qed.

Lemma settled_fail c e g b : (c = false -> settled g b) -> settled (fun b => _ ← fail_if c e; g b) b.
Proof. destruct c; [by repeat split|]. intros H. by apply H. Qed.

Lemma settled_if (c : bool) f g b : settled f b -> settled g b -> settled (fun b => if c then f b else g b) b.
Proof. by destruct c. Qed.

(** [fixed h b]: the field [h] is read inside [b]. *)
Definition fixed {A} (h : bytes -> result A) (b : bytes) : Prop := is_ok (h b) = true /\ forall x, h (b ++ x) = h b.

Lemma settled_field {A} (h : bytes -> result A) g b :
  fixed h b -> (forall v, h b = Ok v -> settled (g v) b) -> settled (fun b => v ← h b; g v b) b.
Proof.
  intros [Hok Hx] H. destruct (h b) as [v|e|] eqn:E; [|done..]. destruct (H v eq_refl) as (H1 & H2 & H3).
  unfold settled. rewrite E. cbn [mbind result_bind]. split; [done|]. split; [|done].
  intros Hn x. rewrite Hx. cbn [mbind result_bind]. by apply H2.
Qed.

Lemma settled_packet p n b : 8 <= n <= len b -> settled (fun _ => Ok (Some (p, n))) b.
Proof. intros H. repeat split; try done; injection H0; intros; subst; apply H. Qed.

Lemma fixed_get n b i : 0 <= i -> 0 <= n -> i + n <= len b -> fixed (fun b => le_get n b i) b.
Proof. intros. split; [by rewrite le_get_ok|]. intros x. by apply le_get_ext. Qed.
Lemma fixed_sub (b : bytes) i j : 0 <= i <= j -> j <= len b -> fixed (fun b => sub b i j) b.
Proof. intros. split; [by rewrite sub_ok|]. intros x. by apply sub_ext. Qed.
Lemma fixed_index (b : bytes) i : 0 <= i < len b -> fixed (fun b => index b i) b.
Proof.
  intros H. split; [by destruct (index_ok b i H) as (? & -> & _)|]. intros x. by apply index_ext, H.
Qed.

(** One turn of the proofs below: read a field, or pass an early return. *)
Ltac settle :=
  first [ apply settled_guard; intros ?
        | apply settled_fail; intros ?
        | apply settled_field; [first [apply fixed_get | apply fixed_sub | apply fixed_index]; lia|intros ? ?] ].

Lemma le_get_nonneg n b i v : bytes_ok b -> 0 <= n -> le_get n b i = Ok v -> 0 <= v.
Proof. intros Hb Hn H. apply le_get_bounds in H; [lia|done|done]. Qed.

Lemma parseInfo_settled magic b : settled (fun b => parseInfo b magic) b.
Proof. unfold parseInfo. repeat settle. apply settled_packet. lia. Qed.

Lemma parseAAC_settled b : bytes_ok b -> settled parseAAC b.
Proof.
  intros Hb. change parseAAC with (fun b => parseAAC b). unfold parseAAC. do 2 settle.
  apply le_get_nonneg in H0; [|done|done]. pose proof (padLen_range v). settle. cbv zeta. do 2 settle. 
  apply settled_packet. lia.
Qed.

Lemma parseADPCM_settled b : bytes_ok b -> settled parseADPCM b.
Proof.
  intros Hb. change parseADPCM with (fun b => parseADPCM b). unfold parseADPCM. do 3 settle.
  pose proof (padLen_range v). cbv zeta. do 4 settle. apply settled_packet. lia.
Qed.

Lemma parseVideoFrame_settled iframe cp b : bytes_ok b -> settled (fun b => parseVideoFrame b iframe cp) b.
Proof.
  intros Hb. unfold parseVideoFrame. cbv zeta. do 6 settle.
  match goal with H : le_get 4 b 8 = Ok ?p, H' : le_get 4 b 12 = Ok ?a |- _ =>
    apply le_get_nonneg in H; [|done|done]; apply le_get_nonneg in H'; [|done|done];
    pose proof (padLen_range p) end.
  do 2 settle.
  apply settled_field; [|intros ? ?; apply settled_field; [|intros ? ?; apply settled_packet; lia]].
  - destruct iframe; [|by split]. cbn [andb]. destruct (Z.leb_spec 4 v1); [|by split].
    destruct (fixed_get 4 b 24 ltac:(lia) ltac:(lia) ltac:(lia)) as [F1 F2].
    split; [by destruct (le_get 4 b 24)|]. intros x. by rewrite F2.
  - destruct cp; [apply fixed_sub; lia|by split].
Qed.

Lemma parseMediaPacket_settled cp b : bytes_ok b -> settled (fun b => parseMediaPacket b cp) b.
Proof.
  intros Hb. unfold parseMediaPacket. do 2 settle.
  apply settled_if; [apply parseInfo_settled|].
  apply settled_if; [exact (parseVideoFrame_settled true cp b Hb)|].
  apply settled_if; [exact (parseVideoFrame_settled false cp b Hb)|].
  apply settled_if; [exact (parseAAC_settled b Hb)|].
  apply settled_if; [exact (parseADPCM_settled b Hb)|]. by repeat split.
Qed.

(** ** The incremental parser *)

Lemma parse_settled_ok cp b p n x :
  bytes_ok b -> parseMediaPacket b cp = Ok (Some (p, n)) ->
  8 <= n <= len b /\ parseMediaPacket (b ++ x) cp = Ok (Some (p, n)) /\
  drop (Z.to_nat n) (b ++ x) = drop (Z.to_nat n) b ++ x.
Proof.
  intros Hb H. destruct (parseMediaPacket_settled cp b Hb) as (_ & H2 & H3).
  specialize (H3 p n H). split; [done|]. split; [rewrite H2; [done|by rewrite H]|].
  apply drop_app_le. lia.
Qed.

Lemma append_loop_safe ao fuel b : bytes_ok b -> safe (append_loop fuel ao b).1.2.
Proof.
  revert b. induction fuel as [|f IH]; intros b Hb; [done|]. cbn [append_loop].
  destruct (parseMediaPacket b (negb ao)) as [[[p n]|]|e|] eqn:E; try done.
  - specialize (IH (drop (Z.to_nat n) b) ltac:(by apply Forall_drop)).
    by destruct (append_loop f ao _) as [[o r] b'].
  - by destruct (parseMediaPacket_settled (negb ao) b Hb) as [Hs _].
Qed.

(** More fuel than the buffer is long changes nothing. *)
Lemma append_loop_fuel ao f1 : forall f2 b,
  bytes_ok b -> (length b < f1)%nat -> (length b < f2)%nat -> append_loop f1 ao b = append_loop f2 ao b.
Proof.
  induction f1 as [|f1 IH]; intros [|f2] b Hb H1 H2; try lia. cbn [append_loop].
  destruct (parseMediaPacket b (negb ao)) as [[[p n]|]|e|] eqn:E; try done.
  destruct (parse_settled_ok _ _ _ _ [] Hb E) as (Hn & _ & _).
  rewrite (IH f2); try (by apply Forall_drop); try done; rewrite length_drop; lia.
Qed.

(** The loop run to its end, and what an append behind it gives. *)
Definition loop (ao : bool) (b : bytes) := append_loop (S (length b)) ao b.

Lemma loop_unfold ao b :
  bytes_ok b ->
  loop ao b =
    match parseMediaPacket b (negb ao) with
    | Err e => ([], Err e, b)
    | Panic => ([], Panic, b)
    | Ok None => ([], Ok tt, b)
    | Ok (Some (p, n)) =>
      let '(out, r, b') := loop ao (drop (Z.to_nat n) b) in (published ao p ++ out, r, b')
    end.
Proof.
  intros Hb. unfold loop at 1. cbn [append_loop].
  destruct (parseMediaPacket b (negb ao)) as [[[p n]|]|e|] eqn:E; try done.
  destruct (parse_settled_ok _ _ _ _ [] Hb E) as (Hn & _ & _). unfold loop.
  rewrite (append_loop_fuel ao (length b) (S (length (drop (Z.to_nat n) b)))); try (by apply Forall_drop); try done;
    rewrite length_drop; lia.
Qed.

Lemma loop_app ao x : forall n b, 
  (length b <= n)%nat -> bytes_ok b -> bytes_ok x ->
  let '(o1, r1, b1) := loop ao b in
  bytes_ok b1 /\
  match r1 with
  | Ok tt => loop ao (b ++ x) = let '(o2, r2, b2) := loop ao (b1 ++ x) in (o1 ++ o2, r2, b2)
  | _ => loop ao (b ++ x) = (o1, r1, b1 ++ x)
  end.
Proof.
  induction n as [|n IH]; intros b Hn Hb Hx;
    (rewrite (loop_unfold ao b Hb); destruct (parseMediaPacket b (negb ao)) as [[[p k]|]|e|] eqn:E;
     [|split; [done|by destruct (loop ao (b ++ x)) as [[? ?] ?]]|
      split; [done|]; rewrite loop_unfold by (by apply Forall_app);
      destruct (parseMediaPacket_settled (negb ao) b Hb) as (_ & H2 & _); rewrite H2, E by (by rewrite E); done|
      by destruct (parseMediaPacket_settled (negb ao) b Hb) as (Hs & _)]);
    destruct (parse_settled_ok _ _ _ _ x Hb E) as (Hk & Ex & Dx).
  - lia.
  - rewrite (loop_unfold ao (b ++ x)) by (by apply Forall_app). rewrite Ex, Dx.
    specialize (IH (drop (Z.to_nat k) b) ltac:(rewrite length_drop; lia) ltac:(by apply Forall_drop) Hx).
    destruct (loop ao (drop (Z.to_nat k) b)) as [[o1 r1] b1]. destruct IH as [Hb1 IH]. split; [done|].
    destruct r1 as [[]|e|]; rewrite IH; [|done..].
    destruct (loop ao (b1 ++ x)) as [[o2 r2] b2]. by rewrite app_assoc.
Qed.

(** A caller that appends chunk after chunk and stops at the first error. *)
Fixpoint feed (p : MediaParser) (chunks : list bytes) : list MediaPacket * result unit :=
  match chunks with
  | [] => ([], Ok tt)
  | c :: r =>
    match Append p c with
    | (o, Ok tt, p') => let '(o', e) := feed p' r in (o ++ o', e)
    | (o, e, _) => (o, e)
    end
  end.

Lemma feed_concat ao chunks : forall b,
  bytes_ok b -> Forall bytes_ok chunks -> loop ao b = ([], Ok tt, b) ->
  feed (mkParser b ao) chunks = (loop ao (b ++ concat chunks)).1.
Proof.
  induction chunks as [|c chunks IH]; intros b Hb Hc Hq.
  - cbn [feed concat]. by rewrite app_nil_r, Hq.
  - apply Forall_cons in Hc as [Hc Hcs]. cbn [feed concat]. unfold Append. cbn [buf AudioOnly].
    fold (loop ao (b ++ c)). rewrite app_assoc.
    assert (bytes_ok (b ++ c)) as Hbc by (by apply Forall_app).
    pose proof (loop_app ao (concat chunks) _ (b ++ c) (Nat.le_refl _) Hbc ltac:(by apply Forall_concat)) as H.
    pose proof (loop_app ao [] _ (b ++ c) (Nat.le_refl _) Hbc ltac:(done)) as H0.
    destruct (loop ao (b ++ c)) as [[o1 r1] b1] eqn:El. destruct H as [Hb1 H]. destruct H0 as [_ H0].
    destruct r1 as [[]|e|]; rewrite H; [|done..].
    rewrite !app_nil_r, El in H0.
    rewrite IH; [by destruct (loop ao (b1 ++ concat chunks)) as [[? ?] ?]|done|done|].
    destruct (loop ao b1) as [[o2 r2] b2]. injection H0 as H1 -> ->.
    apply (f_equal length) in H1. rewrite length_app in H1. destruct o2; [done|cbn in H1; lia].
Qed.

(** The media parser does not see packet boundaries of the transport: the
    packets published and the error reported, if any, are the same however the
    byte stream is cut into chunks, and no byte stream makes it index or slice
    out of range. *)
Theorem parser_chunking (ao : bool) (chunks : list bytes) :
  Forall bytes_ok chunks ->
  feed (mkParser [] ao) chunks = feed (mkParser [] ao) [concat chunks] /\
  safe (feed (mkParser [] ao) chunks).2.
Proof.
  intros Hc. assert (bytes_ok (concat chunks)) as Hcc by (by apply Forall_concat).
  rewrite !feed_concat; try done; [|by repeat constructor]. cbn [concat app]. rewrite app_nil_r.
  split; [done|]. by apply append_loop_safe.
Qed.

Lemma serialize_len block seq :
  len (serializeTalkADPCMBlock block seq) = 8 + (len block + 4) + padLen (len block + 4).
Proof.
  unfold serializeTalkADPCMBlock. pose proof (padLen_range (len block + 4)).
  rewrite !length_app, !length_le_put, length_replicate. lia.
Qed.

Lemma padded n : 0 < n -> (8 + n + padLen n) mod 8 = 0.
Proof. intros. unfold padLen, bcmediaPadSize. ifs; Z.to_euclidean_division_equations; lia. Qed.

(** The fields of a serialised block. *)
Lemma serialize_fields block rest seq :
  len block + 4 < 2 ^ 16 ->
  let wire := serializeTalkADPCMBlock block seq ++ rest in
  le_get 4 wire 0 = Ok bcmediaADPCM /\ le_get 2 wire 4 = Ok (len block + 4) /\
  le_get 2 wire 8 = Ok bcmediaADPCMHeader /\ sub wire 12 (12 + len block) = Ok block /\
  len wire = 8 + (len block + 4) + padLen (len block + 4) + len rest.
Proof.
  intros Hl. cbv zeta. assert (u16 (len block + 4) = len block + 4) as Hu by width.
  unfold serializeTalkADPCMBlock at 1 2 3 4. rewrite Hu, <- !app_assoc.
  split; [by rewrite le_get_head|].
  split; [rewrite (le_get_app 2 (le_put 4 bcmediaADPCM)) by done; f_equal; width|].
  split; [rewrite !app_assoc, <- !(app_assoc _ (le_put 2 bcmediaADPCMHeader)), <- !app_assoc;
          rewrite (app_assoc (le_put 4 _)), (app_assoc _ (le_put 2 (len block + 4)));
          by rewrite (le_get_app 2) by lensolve|].
  split; [|rewrite len_app, serialize_len; lia].
  rewrite sub_ok by (rewrite ?len_app, ?len_le_put; lia).
  rewrite !app_assoc, <- (app_assoc _ _ rest), <- (app_assoc _ block).
  rewrite slice_app_r by lensolve. f_equal. rewrite slice_app_l; lensolve. done.
Qed.

Lemma serialize_parses block rest seq cp :
  len block + 4 < 2 ^ 16 ->
  parseMediaPacket (serializeTalkADPCMBlock block seq ++ rest) cp =
    Ok (Some (mkMedia MediaPacketADPCM "" block 0 false None 0 0 0, len (serializeTalkADPCMBlock block seq))).
Proof.
  intros Hl. rewrite serialize_len. pose proof (padLen_range (len block + 4)) as Hpad.
  destruct (serialize_fields block rest seq Hl) as (F1 & F2 & F3 & F4 & F5).
  unfold parseMediaPacket. rewrite (proj2 (Z.ltb_ge _ _)) by (rewrite F5; lia). rewrite F1. cbn [mbind result_bind].
  change ((bcmediaADPCM =? bcmediaInfoV1) || (bcmediaADPCM =? bcmediaInfoV2)) with false.
  change ((bcmediaIFrameMin <=? bcmediaADPCM) && (bcmediaADPCM <=? bcmediaIFrameMax)) with false.
  change ((bcmediaPFrameMin <=? bcmediaADPCM) && (bcmediaADPCM <=? bcmediaPFrameMax)) with false.
  change ((bcmediaADPCM =? bcmediaAAC) || (bcmediaADPCM =? bcmediaAACV2)) with false.
  rewrite Z.eqb_refl. unfold parseADPCM. rewrite (proj2 (Z.ltb_ge _ _)) by (rewrite F5; lia).
  rewrite F2. cbn [mbind result_bind]. pass. rewrite (proj2 (Z.ltb_ge _ _)) by (rewrite F5; lia).
  rewrite F3. cbn [mbind result_bind]. pass.
  replace (12 + (len block + 4 - 4)) with (12 + len block) by lia. by rewrite F4.
Qed.

(** The talk blocks the gateway sends parse back: [parseMediaPacket] finds
    an ADPCM packet with exactly the block, takes the whole serialisation,
    whose length is a multiple of eight, and leaves what follows. *)
Theorem talk_block_parses (block rest : bytes) (seq : Z) (cp : bool) :
  len block + 4 < 2 ^ 16 ->
  let wire := serializeTalkADPCMBlock block seq in
  len wire mod 8 = 0 /\
  parseMediaPacket (wire ++ rest) cp =
    Ok (Some (mkMedia MediaPacketADPCM "" block 0 false None 0 0 0, len wire)).
Proof.
  intros Hl. cbv zeta. split; [|by apply serialize_parses]. rewrite serialize_len. apply padded. lia.
Qed.

(** ** Witnesses *)
Definition talk_stream : bytes := serializeTalkADPCMBlock [1; 2; 3; 4; 5] 7 ++ serializeTalkADPCMBlock [9; 8; 7; 6; 5; 4] 8.

Lemma parser_chunking_witness :
  let chunks := [take 3 talk_stream; slice talk_stream 3 20; drop 20 talk_stream] in
  feed (mkParser [] true) chunks = feed (mkParser [] true) [talk_stream] /\
  map Data (feed (mkParser [] true) chunks).1 = [[1; 2; 3; 4; 5]; [9; 8; 7; 6; 5; 4]].
Proof.
  cbv zeta.
  destruct (parser_chunking true [take 3 talk_stream; slice talk_stream 3 20; drop 20 talk_stream]) as [H _].
  - repeat constructor; vm_compute; congruence.
  - split; [exact H|]. vm_compute. reflexivity.
Defined.

Lemma talk_block_parses_witness :
  parseMediaPacket (serializeTalkADPCMBlock [1; 2; 3; 4; 5] 7 ++ [0]) false =
    Ok (Some (mkMedia MediaPacketADPCM "" [1; 2; 3; 4; 5] 0 false None 0 0 0, 24)).
Proof.
  apply (talk_block_parses [1; 2; 3; 4; 5] [0] 7 false). reflexivity.
Defined.
End BcMedia.
