(* ===== verification/BcClient.v ===== *)
(** The Baichuan client: request multiplexing and subscriptions over one
    connection ([internal/baichuan/client.go]). *)
From S2P Require Import Prelude GoBytes GoStrings GoCrypto Adpcm BcWire BcMedia.
Import BcWire.

(** * Requests in flight

    Any number of goroutines issue requests over one connection; the read loop
    hands each message to the waiter registered under its key and to the
    subscribers of its id.  Each locked region, channel operation and turn of
    the read loop is one step. *)
Module Mux.

Abbreviation key := (Z * Z)%type.
Definition key_of (m : Message) : key := (MsgID (MHeader m), MsgNum (MHeader m)).

(** A waiter's channel, of capacity 1, and the key it was registered for. *)
Record waiter := mkWaiter { wkey : key; chan : option Message }.
(** A [subscription]: its channel, first message first. *)
Record subscription := mkSub { queue : list Message; capacity : Z; reliable : bool }.

Record conn := mkConn {
  msgNum : Z;                            (** uint16 *)
  pending : gmap key nat;
  waiters : gmap nat waiter;
  subs : gmap Z (gmap nat subscription);
  closed : bool;
  closeErr : option string;
}.
#[export] Instance eta_conn : Eta conn := fun c =>
  mkConn (msgNum c) (pending c) (waiters c) (subs c) (closed c) (closeErr c).

Definition empty_conn : conn := mkConn 0 ∅ ∅ ∅ false None.

Definition reserveMessageNumber (c : conn) : Z * conn := (msgNum c, c <| msgNum ::= fun n => u16 (n + 1) |>).

(** [shutdown]: only the first caller has an effect. *)
Definition shutdown (c : conn) (err : string) : conn :=
  if closed c then c
  else c <| closed := true |> <| closeErr ::= fun e => match e with None => Some err | Some _ => e end |>.

(** The head of [roundTripRequest]: a number, and a channel registered under it. *)
Definition register (c : conn) (id : Z) : key * nat * conn :=
  let '(n, c) := reserveMessageNumber c in
  let k := (id, n) in
  let ch := fresh (dom (waiters c)) in
  (k, ch, c <| pending ::= <[k := ch]> |> <| waiters ::= <[ch := mkWaiter k None]> |>).

(** The deferred [delete]. *)
Definition unregister (c : conn) (k : key) : conn := c <| pending ::= delete k |>.

(** The non-blocking send to a waiter's channel. *)
Definition offer (m : Message) (w : waiter) : waiter :=
  match chan w with None => mkWaiter (wkey w) (Some m) | Some _ => w end.

(** The non-blocking send to a subscriber: [None] when its channel is full. *)
Definition publish (m : Message) (s : subscription) : option subscription :=
  if len (queue s) <? capacity s then Some (mkSub (queue s ++ [m]) (capacity s) (reliable s)) else None.

(** The subscribers, in the order the map iteration yields, until a reliable
    one overflows. *)
Fixpoint fan_out (m : Message) (l : list (nat * subscription)) (ss : gmap nat subscription)
    : gmap nat subscription * bool :=
  match l with
  | [] => (ss, false)
  | (i, s) :: l =>
    match publish m s with
    | Some s' => fan_out m l (<[i := s']> ss)
    | None => if reliable s then (ss, true) else fan_out m l ss
    end
  end.

(** One turn of [readLoop], for a message or a read error. *)
Definition dispatch (c : conn) (m : Message) : conn :=
  let c := match pending c !! key_of m with
           | Some ch => c <| waiters ::= alter (offer m) ch |>
           | None => c
           end in
  let id := MsgID (MHeader m) in
  let ss := default ∅ (subs c !! id) in
  let '(ss', overflow) := fan_out m (map_to_list ss) ss in
  let c := if decide (ss = ∅) then c else c <| subs ::= <[id := ss']> |> in
  if overflow then shutdown c "Baichuan media subscriber overflow" else c.
Definition read_error (c : conn) (e : string) : conn := shutdown c e.

(** What [roundTripRequest] returns once its [select] can proceed: the buffered
    message if there is one, else the terminal state; [None] while it waits. *)
Definition await (c : conn) (ch : nat) (ctx_err : option string) : option (result Message) :=
  match waiters c !! ch ≫= chan with
  | Some m => Some (Ok m)
  | None =>
    if closed c then Some (Err (default "context canceled" (closeErr c)))
    else match ctx_err with Some e => Some (Err e) | None => None end
  end.

Definition subscribe (c : conn) (id : Z) (buffer : Z) (rel : bool) : nat * conn :=
  let buffer := if buffer <? 1 then 1 else buffer in
  let ss := default ∅ (subs c !! id) in
  let i := fresh (dom ss) in
  (i, c <| subs ::= <[id := <[i := mkSub [] buffer rel]> ss]> |>).
Definition unsubscribe (c : conn) (id : Z) (i : nat) : conn :=
  match subs c !! id with
  | None => c
  | Some ss =>
    let ss := delete i ss in
    if decide (ss = ∅) then c <| subs ::= delete id |> else c <| subs ::= <[id := ss]> |>
  end.
(** A subscriber takes the first message. *)
Definition receive (c : conn) (id : Z) (i : nat) : conn :=
  c <| subs ::= alter (alter (fun s => mkSub (tail (queue s)) (capacity s) (reliable s)) i) id |>.

Inductive event :=
| Register (id : Z) (k : key) (ch : nat)
| Unregister (k : key)
| Reserve
| Dispatch (m : Message)
| Fail (e : string)
| Subscribe (id buffer : Z) (rel : bool)
| Unsubscribe (id : Z) (i : nat)
| Receive (id : Z) (i : nat).

(** A message may be dispatched after the connection was closed: the read loop may have read it before. *)
Inductive step : conn -> event -> conn -> Prop :=
| step_register c id k ch c' : register c id = (k, ch, c') -> step c (Register id k ch) c'
| step_unregister c k : step c (Unregister k) (unregister c k)
| step_reserve c : step c Reserve (reserveMessageNumber c).2
| step_dispatch c m : step c (Dispatch m) (dispatch c m)
| step_fail c e : step c (Fail e) (shutdown c e)
| step_subscribe c id b rel : step c (Subscribe id b rel) (subscribe c id b rel).2
| step_unsubscribe c id i : step c (Unsubscribe id i) (unsubscribe c id i)
| step_receive c id i : step c (Receive id i) (receive c id i).

#[export] Instance mux_machine : Machine conn event := { m_init c := c = empty_conn; m_step := step }.

(** ** Invariant: no crossed responses *)

Definition waiter_ok (w : waiter) : Prop := forall m, chan w = Some m -> key_of m = wkey w.

Record inv (c : conn) : Prop := {
  inv_waiters : map_Forall (fun _ w => waiter_ok w) (waiters c);
  inv_pending : map_Forall (fun k ch => exists w, waiters c !! ch = Some w /\ wkey w = k) (pending c);
  inv_subs : map_Forall (fun id ss => map_Forall (fun _ s =>
      len (queue s) <= capacity s /\ Forall (fun m => MsgID (MHeader m) = id) (queue s)) ss) (subs c);
  inv_open : closed c = false -> closeErr c = None;
}.

Lemma shutdown_frame c e :
  waiters (shutdown c e) = waiters c /\ pending (shutdown c e) = pending c /\ subs (shutdown c e) = subs c.
Proof. unfold shutdown. by destruct (closed c). Qed.

Lemma shutdown_inv c e : inv c -> inv (shutdown c e).
Proof.
  intros Hi. unfold shutdown. destruct (closed c); [done|]. destruct Hi. by split.
Qed.

Lemma offer_inv c m ch :
  inv c -> pending c !! key_of m = Some ch -> inv (c <| waiters ::= alter (offer m) ch |>).
Proof.
  intros [H1 H2 H3 H4] Hp. split; cbn; try done.
  - intros i w. rewrite lookup_alter_Some. intros [(<- & w0 & Hw & ->)|[_ Hw]]; [|exact (H1 i w Hw)].
    destruct (H2 _ _ Hp) as (w1 & Hw1 & Hk). rewrite Hw in Hw1. injection Hw1 as <-.
    intros m'. unfold offer. destruct (chan w0) as [m0|] eqn:E; cbn.
    + intros E'. by apply (H1 ch w0 Hw).
    + by intros [= <-].
  - intros k i Hi. destruct (H2 _ _ Hi) as (w & Hw & Hk). destruct (decide (ch = i)) as [->|].
    + exists (offer m w). rewrite lookup_alter_eq, Hw. split; [done|]. unfold offer. by destruct (chan w).
    + exists w. by rewrite lookup_alter_ne.
Qed.

Definition subs_ok (id : Z) (ss : gmap nat subscription) : Prop :=
  map_Forall (fun _ s => len (queue s) <= capacity s /\ Forall (fun m => MsgID (MHeader m) = id) (queue s)) ss.

Lemma fan_out_ok m l : forall ss,
  subs_ok (MsgID (MHeader m)) ss ->
  Forall (fun p => len (queue p.2) <= capacity p.2 /\ Forall (fun m' => MsgID (MHeader m') = MsgID (MHeader m)) (queue p.2)) l ->
  subs_ok (MsgID (MHeader m)) (fan_out m l ss).1.
Proof.
  induction l as [|[i s] l IH]; intros ss Hs Hl; [done|]. apply Forall_cons in Hl as [Hi Hl]. cbn [fan_out].
  unfold publish. destruct (Z.ltb_spec (len (queue s)) (capacity s)) as [E|E].
  - apply IH; [|done]. apply map_Forall_insert_2; [|done]. cbn. rewrite len_app. cbn [length] in *.
    split; [lia|]. apply Forall_app. split; [apply Hi|by constructor].
  - destruct (reliable s); [done|]. by apply IH.
Qed.

Lemma dispatch_inv c m : inv c -> inv (dispatch c m).
Proof.
  intros Hi. unfold dispatch.
  set (c1 := match pending c !! key_of m with Some ch => _ | None => c end).
  assert (inv c1) as Hi1. { subst c1. destruct (pending c !! key_of m) eqn:E; [by apply offer_inv|done]. }
  clearbody c1. destruct Hi1 as [H1 H2 H3 H4].
  assert (subs_ok (MsgID (MHeader m)) (default ∅ (subs c1 !! MsgID (MHeader m)))) as Hs.
  { destruct (subs c1 !! MsgID (MHeader m)) eqn:E; [by apply (H3 _ _ E)|apply map_Forall_empty]. }
  pose proof (fan_out_ok m (map_to_list (default ∅ (subs c1 !! MsgID (MHeader m)))) _ Hs) as Hf.
  destruct (fan_out m _ _) as [ss' ov]. cbn in Hf.
  assert (inv (if decide (default ∅ (subs c1 !! MsgID (MHeader m)) = ∅) then c1
               else c1 <| subs ::= <[MsgID (MHeader m) := ss']> |>)) as Hi2.
  { case_decide; [by split|]. split; cbn; try done. apply map_Forall_insert_2; [|done]. apply Hf.
    apply Forall_forall. intros [i s] His. apply elem_of_map_to_list in His. by apply (Hs i s). }
  destruct ov; [by apply shutdown_inv|done].
Qed.

Lemma mux_inv_preserved : preserved inv.
Proof.
  intros c e c' Hi Hs.
  destruct Hs as [c id k ch c' H|c k|c|c m|c e|c id b rel|c id i|c id i];
    [|destruct Hi as [H1 H2 H3 H4]|destruct Hi; by split|by apply dispatch_inv|by apply shutdown_inv|
      destruct Hi as [H1 H2 H3 H4]..].
  - destruct Hi as [H1 H2 H3 H4]. unfold register in H. cbn in H. injection H as <- <- <-.
    assert (waiters c !! fresh (dom (waiters c)) = None) as Hfr by (apply not_elem_of_dom, is_fresh).
    split; cbn; try done.
    + apply map_Forall_insert_2; [|done]. intros m. done.
    + apply map_Forall_insert_2.
      * eexists. by rewrite lookup_insert_eq.
      * intros k i Hki. destruct (H2 _ _ Hki) as (w & Hw & Hk). exists w.
        rewrite lookup_insert_ne; [done|]. intros <-. congruence.
  - split; cbn; try done. by apply map_Forall_delete.
  - split; cbn; try done. apply map_Forall_insert_2; [|done]. apply map_Forall_insert_2; [cbn; split; [ifs; lia|done]|].
    destruct (subs c !! id) eqn:E; [by apply (H3 _ _ E)|apply map_Forall_empty].
  - unfold unsubscribe. destruct (subs c !! id) as [ss|] eqn:E; [|by split].
    case_decide; split; cbn; try done; [by apply map_Forall_delete|].
    apply map_Forall_insert_2; [|done]. apply map_Forall_delete. by apply (H3 _ _ E).
  - split; cbn; try done. intros j ss. rewrite lookup_alter_Some.
    intros [(<- & ss0 & E & ->)|[_ E]]; [|by apply (H3 _ _ E)].
    intros k s. rewrite lookup_alter_Some. intros [(<- & s0 & E' & ->)|[_ E']]; [|by apply (H3 _ _ E k)].
    destruct (H3 _ _ E _ _ E') as [Hq1 Hq2]. cbn. destruct (queue s0); [done|].
    apply Forall_cons in Hq2 as [_ Hq2]. cbn [tail length] in *. split; [lia|done].
Qed.

Lemma mux_inv_reachable c : reachable c -> inv c.
Proof.
  apply invariant_reachable; [|exact mux_inv_preserved]. intros c0 ->. by split.
Qed.

(** A waiter keeps its key, and the first message it gets, for ever. *)
Definition registered (ch : nat) (k : key) (first : option Message) (c : conn) : Prop :=
  exists w, waiters c !! ch = Some w /\ wkey w = k /\ (is_Some first -> chan w = first).

Lemma registered_waiters ch k first c c' :
  waiters c' = waiters c -> registered ch k first c -> registered ch k first c'.
Proof. intros E (w & Hw & H). exists w. by rewrite E. Qed.

Lemma registered_preserved ch k first : preserved (registered ch k first).
Proof.
  intros c e c' Hr Hs. destruct Hs as [c id k' ch' c' H|c k'|c|c m|c e|c id b rel|c id i|c id i];
    try (by apply (registered_waiters ch k first c)).
  - unfold register in H. cbn in H. injection H as <- <- <-. destruct Hr as (w & Hw & Hk).
    assert (waiters c !! fresh (dom (waiters c)) = None) as Hfr by (apply not_elem_of_dom, is_fresh).
    exists w. cbn. rewrite lookup_insert_ne; [done|]. intros <-. congruence.
  - unfold dispatch. set (c1 := match pending c !! key_of m with Some ch => _ | None => c end).
    assert (registered ch k first c1) as Hr1.
    { subst c1. destruct (pending c !! key_of m) as [ch'|]; [|done]. destruct Hr as (w & Hw & Hk & Hf).
      destruct (decide (ch' = ch)) as [->|].
      - exists (offer m w). cbn. rewrite lookup_alter_eq, Hw. split; [done|]. unfold offer.
        destruct (chan w) eqn:E; [by rewrite E|]. split; [done|]. intros [f ->]. by specialize (Hf ltac:(eauto)).
      - exists w. cbn. by rewrite lookup_alter_ne. }
    clearbody c1. destruct (fan_out m _ _) as [ss' ov]. 
    assert (registered ch k first (if decide (default ∅ (subs c1 !! MsgID (MHeader m)) = ∅) then c1
               else c1 <| subs ::= <[MsgID (MHeader m) := ss']> |>)) as Hr2 by (case_decide; [done|by apply (registered_waiters _ _ _ c1)]).
    destruct ov; [|done]. eapply registered_waiters; [apply shutdown_frame|done].
  - eapply registered_waiters; [apply shutdown_frame|done].
  - apply (registered_waiters ch k first c); [|done]. unfold unsubscribe.
    destruct (subs c !! id); [|done]. by case_decide.
Qed.

Lemma register_spec c id k ch c' :
  register c id = (k, ch, c') -> k = (id, msgNum c) /\ registered ch k None c' /\ pending c' !! k = Some ch.
Proof.
  unfold register. cbn. intros [= <- <- <-]. cbn. rewrite lookup_insert_eq. split; [done|]. split; [|done].
  eexists. cbn. rewrite lookup_insert_eq. split; [done|]. split; [done|]. by intros [? ?].
Qed.

Lemma await_registered ch k first c ctx m :
  inv c -> registered ch k first c -> await c ch ctx = Some (Ok m) -> key_of m = k.
Proof.
  intros [H1 _ _ _] (w & Hw & <- & _). unfold await. rewrite Hw. cbn.
  destruct (chan w) as [m'|] eqn:E.
  - intros [= ->]. by apply (H1 _ _ Hw).
  - destruct (closed c); [done|]. by destruct ctx.
Qed.

(** C36: responses are never crossed and a response that arrived is not lost.
    However requests, responses, subscriptions and failures interleave, the
    message a request returns carries the id and the number it was sent with;
    and once the read loop has seen the first such message while the request is
    pending, the request returns exactly that one, whatever follows: later
    messages under the same key, the end of the connection, or the end of the
    caller's context. *)
Theorem no_crossed_responses (c c1 c2 : conn) (id : Z) (k : key) (ch : nat) (es : list event) (ctx : option string) :
  reachable c -> register c id = (k, ch, c1) -> run c1 es c2 ->
  (forall m, await c2 ch ctx = Some (Ok m) -> MsgID (MHeader m) = id /\ MsgNum (MHeader m) = msgNum c) /\
  (forall m es' c3, pending c2 !! k = Some ch -> key_of m = k -> await c2 ch None = None ->
     run (dispatch c2 m) es' c3 -> await c3 ch ctx = Some (Ok m)).
Proof.
  intros Hr Hreg Hrun. pose proof (register_spec _ _ _ _ _ Hreg) as (-> & H0 & _).
  assert (reachable c1) as Hr1 by (eapply reachable_step; [exact Hr|by apply (step_register c id (id, msgNum c) ch)]).
  assert (inv c2) as Hi2.
  { eapply run_preserves; [exact mux_inv_preserved|exact Hrun|by apply mux_inv_reachable]. }
  pose proof (run_preserves _ _ _ _ (registered_preserved ch (id, msgNum c) None) Hrun H0) as H2.
  split.
  - intros m Ha. pose proof (await_registered _ _ _ _ _ _ Hi2 H2 Ha) as Hk. by injection Hk.
  - intros m es' c3 Hp Hk Hn Hrun'.
    assert (registered ch (id, msgNum c) (Some m) (dispatch c2 m)) as H3.
    { destruct H2 as (w & Hw & Hwk & _). unfold await in Hn. rewrite Hw in Hn. cbn in Hn.
      destruct (chan w) eqn:Ec; [done|]. unfold dispatch. rewrite Hk, Hp.
      set (c1' := c2 <| waiters ::= _ |>).
      assert (registered ch (id, msgNum c) (Some m) c1') as Hc1.
      { assert (offer m w = mkWaiter (wkey w) (Some m)) as Ho by (unfold offer; by rewrite Ec).
        exists (offer m w). subst c1'. cbn. rewrite lookup_alter_eq, Hw. cbn. split; [done|]. by rewrite Ho. }
      clearbody c1'. destruct (fan_out m _ _) as [ss' ov]. destruct ov.
      - eapply registered_waiters; [apply shutdown_frame|]. case_decide; [done|]. by apply (registered_waiters _ _ _ c1').
      - case_decide; [done|]. by apply (registered_waiters _ _ _ c1'). }
    pose proof (run_preserves _ _ _ _ (registered_preserved ch (id, msgNum c) (Some m)) Hrun' H3) as (w & Hw & _ & Hf).
    unfold await. rewrite Hw. cbn. by rewrite Hf by eauto.
Qed.

Definition reply (id num : Z) : Message := mkMessage (mkHeader id 0 0 0 num 200 classModernWithOffset 0) [] [] "" false None.

Lemma no_crossed_responses_witness :
  let '(k, ch, c1) := register empty_conn 10 in
  await (shutdown (dispatch c1 (reply 10 0)) "EOF") ch None = Some (Ok (reply 10 0)).
Proof.
  destruct (register empty_conn 10) as [[k ch] c1] eqn:E.
  destruct (no_crossed_responses empty_conn c1 c1 10 k ch [] None) as [_ H].
  - by apply reachable_init.
  - exact E.
  - constructor.
  - apply (H (reply 10 0) [Fail "EOF"]).
    + by apply register_spec in E as (_ & _ & ?).
    + apply register_spec in E as (-> & _). reflexivity.
    + vm_compute in E. injection E as _ <- <-. reflexivity.
    + eapply run_cons; [apply step_fail|apply run_nil].
Defined.
End Mux.
