(* ===== verification/BcTalk.v ===== *)
(** Login and talk sessions of the Baichuan client ([internal/baichuan/client.go]
    and [talk.go]).

    The connection is the list of the replies still to come, each a message or
    the error the round trip ends with; [sent] records every request attempted.
    A reply changes the cipher as [readMessage] does.  The XML documents are
    built and read by [encoding/xml], a parameter. *)
From S2P Require Import Prelude GoBytes GoStrings GoCrypto Adpcm BcWire BcMedia.
Import BcWire.

Module BcTalk.

(** * Errors, state, monad *)

Inductive error := StatusError (msgID code : Z) | UnsupportedTalkError (reason : string) | OtherError (e : string).

Record client := mkClient {
  username : string;
  password : string;
  ciph : cipher;
  loggedIn : bool;
  msgNum : Z;
  script : list (error + Message);
  sent : list request;
}.
#[export] Instance eta_client : Eta client := fun c =>
  mkClient (username c) (password c) (ciph c) (loggedIn c) (msgNum c) (script c) (sent c).

Definition M (A : Type) : Type := client -> (error + A) * client.
#[export] Instance m_ret : MRet M := fun A a c => (inr a, c).
#[export] Instance m_bind : MBind M := fun A B f m c =>
  match m c with (inl e, c') => (inl e, c') | (inr a, c') => f a c' end.
Definition throw {A} (e : error) : M A := fun c => (inl e, c).
Definition modify (f : client -> client) : M unit := fun c => (inr tt, f c).
Definition is_inr {A B} (s : A + B) : bool := match s with inr _ => true | inl _ => false end.
Definition get : M client := fun c => (inr c, c).
(** [x, err := m]: the error is a value. *)
Definition try {A} (m : M A) : M (error + A) := fun c => let '(r, c') := m c in (inr r, c').

(** * Talk profiles *)

Record TalkAudioConfig := mkAudio {
  Priority : option Z; AudioType : string; SampleRate : Z; SamplePrecision : Z; LengthPerEncode : Z; SoundTrack : string;
}.
Record TalkConfig := mkConfig {
  Version : string; ChannelID : Z; Duplex : string; AudioStreamMode : string; AudioConfig : TalkAudioConfig;
}.
Record TalkAbility := mkAbility {
  aVersion : string; DuplexList : list string; AudioStreamModeList : list string; AudioConfigList : list TalkAudioConfig;
}.

(** What [xml.Unmarshal] finds, [None] for an error, and what [xml.Marshal]
    writes. *)
Class TalkXml := {
  unmarshal_nonce : string -> option (option string);
  unmarshal_ability : string -> option (option TalkAbility);
  marshal_login : string -> string -> result bytes;
  marshal_extension : Z -> bool -> result bytes;
  marshal_config : TalkConfig -> result bytes;
}.

Definition of_result {A} (r : result A) : M A :=
  match r with Ok a => mret a | Err e => throw (OtherError e) | Panic => throw (OtherError "panic") end.

Section talk.
Context `{U : Unicode} `{X : TalkXml}.

(** * Requests *)

Definition on_reply (c : cipher) (m : Message) : cipher :=
  let h := MHeader m in
  if (MsgID h =? msgIDLogin) && IsModern h && (Z.shiftr (ResponseCode h) 8 =? 0xDD)
  then setNegotiatedEncryption c (ResponseCode h) else c.

Definition roundTripRequest (req : request) : M Message := fun c =>
  let req := mkRequest (rMsgID req) (rChannelID req) (rStreamType req) (rClass req) (msgNum c)
               (rExtension req) (rBody req) (rBinary req) (rForceBC req) in
  let c := c <| msgNum ::= fun n => u16 (n + 1) |> <| sent ::= fun l => l ++ [req] |> in
  match script c with
  | [] => (inl (OtherError "context canceled"), c)
  | inl e :: r => (inl e, c <| script := r |>)
  | inr m :: r => (inr m, c <| script := r |> <| ciph ::= fun k => on_reply k m |>)
  end.

(** [(m *Message) success] with the typed error. *)
Definition check_success (m : Message) : M unit :=
  match success m with Ok _ => mret tt | _ => throw (StatusError (MsgID (MHeader m)) (ResponseCode (MHeader m))) end.

Definition sendRequest (req : request) : M Message := m ← roundTripRequest req; _ ← check_success m; mret m.

Definition req_of (id ch cls : Z) (ext body : bytes) (force : bool) : request :=
  mkRequest id ch 0 cls 0 ext body false force.

Definition parseNonce (xmlText : string) : result string :=
  match unmarshal_nonce xmlText with
  | None => Err "xml"
  | Some None => Err "nonce missing from login response"
  | Some (Some n) => if decide (n = "") then Err "nonce missing from login response" else Ok n
  end.

Definition login_steps : M unit :=
  nonceResp ← sendRequest (req_of msgIDLogin 0 classLegacy [] [] true);
  nonce ← of_result (parseNonce (XML nonceResp));
  _ ← modify (fun c => c <| ciph ::= fun k => k <| aesKey := DeriveAESKey nonce (password c) |> <| hasAESKey := true |> |>);
  c ← get;
  body ← of_result (marshal_login (MD5Modern (username c +:+ nonce)) (MD5Modern (password c +:+ nonce)));
  _ ← sendRequest (req_of msgIDLogin 0 classModernWithOffset [] body true);
  modify (fun c =>
    (if hasAESKey (ciph c) then c <| ciph ::= fun k => k <| mode := EncryptionAES |> |> else c) <| loggedIn := true |>).

Definition Login : M unit := fun c => if loggedIn c then (inr tt, c) else login_steps c.

(** * Talk sessions *)

Definition getTalkAbility (channel : Z) : M TalkAbility :=
  ext ← of_result (marshal_extension channel false);
  resp ← try (sendRequest (req_of msgIDTalkAbility channel classModernWithOffset ext [] false));
  match resp with
  | inl (StatusError _ _) => throw (UnsupportedTalkError "status from talk ability")
  | inl e => throw e
  | inr resp =>
    match unmarshal_ability (XML resp) with
    | None => throw (OtherError "parse talk ability")
    | Some None => throw (UnsupportedTalkError "talk ability missing from response")
    | Some (Some a) => mret a
    end
  end.

(** The first entry that matches, else the first of all. *)
Definition prefer (good : string -> bool) (first : string) (l : list string) : string :=
  default first (head (filter (fun s => Is_true (good s)) l)).

Definition usable (a : TalkAudioConfig) : bool :=
  EqualFold (AudioType a) "adpcm" && negb (SampleRate a =? 0) && negb (LengthPerEncode a =? 0).

Definition defaultTalkConfig (channel : Z) (ability : TalkAbility) : error + TalkConfig :=
  match DuplexList ability, AudioStreamModeList ability, AudioConfigList ability with
  | duplex0 :: _, mode0 :: _, _ :: _ =>
    match filter (fun a => Is_true (usable a)) (AudioConfigList ability) with
    | [] => inl (UnsupportedTalkError "device does not advertise ADPCM talk")
    | cfg :: _ =>
      let version := if decide (aVersion ability = "") then "1.1" else aVersion ability in
      let cfg := mkAudio None (AudioType cfg) (SampleRate cfg) (SamplePrecision cfg) (LengthPerEncode cfg) (SoundTrack cfg) in
      let duplex := prefer (fun d => EqualFold d "fullDuplex" || EqualFold d "FDX") duplex0 (DuplexList ability) in
      let mode := prefer (fun m => EqualFold m "speaker") mode0 (AudioStreamModeList ability) in
      inr (mkConfig version channel duplex mode cfg)
    end
  | _, _, _ => inl (UnsupportedTalkError "device returned no talk profiles")
  end.
Definition of_sum {A} (r : error + A) : M A := match r with inl e => throw e | inr a => mret a end.

Definition stopTalk (channel : Z) : M unit :=
  ext ← of_result (marshal_extension channel false);
  r ← try (sendRequest (req_of msgIDTalkReset channel classModernWithOffset ext [] false));
  match r with
  | inl (StatusError id code) => if code =? 422 then mret tt else throw (StatusError id code)
  | inl e => throw e
  | inr _ => mret tt
  end.

Definition startTalkSession (channel : Z) (cfg : TalkConfig) : M unit :=
  ext ← of_result (marshal_extension channel false);
  body ← of_result (marshal_config cfg);
  let req := req_of msgIDTalkConfig channel classModernWithOffset ext body false in
  resp ← roundTripRequest req;
  resp ← (if ResponseCode (MHeader resp) =? 422 then _ ← stopTalk channel; roundTripRequest req else mret resp);
  r ← try (check_success resp);
  match r with
  | inl (StatusError _ _) => throw (UnsupportedTalkError "talk config rejected")
  | inl e => throw e
  | inr _ => mret tt
  end.

Record TalkSession := mkSession {
  channel : Z; binaryExtension : bytes; config : TalkConfig; samplesPerBlock : Z; bytesPerBlock : Z;
  sclosed : bool; once : bool; seq : Z;  (** uint16 *)
}.
#[export] Instance eta_session : Eta TalkSession := fun s =>
  mkSession (channel s) (binaryExtension s) (config s) (samplesPerBlock s) (bytesPerBlock s) (sclosed s) (once s) (seq s).

(** [StartTalk] up to the accepted profile, and from there on. *)
Definition negotiate (ch : Z) : M TalkConfig :=
  _ ← Login;
  ability ← getTalkAbility ch;
  cfg ← of_sum (defaultTalkConfig ch ability);
  _ ← startTalkSession ch cfg;
  mret cfg.

Definition abandon {A} (ch : Z) (e : string) : M A := _ ← try (stopTalk ch); throw (OtherError e).

Definition new_session (ch : Z) (cfg : TalkConfig) : M TalkSession :=
  match marshal_extension ch true with
  | Err e => abandon ch e
  | Panic => abandon ch "panic"
  | Ok ext =>
    let samples := LengthPerEncode (AudioConfig cfg) in
    if (samples <? 2) || negb (samples mod 2 =? 0) then abandon ch "invalid talk lengthPerEncoder"
    else mret (mkSession ch ext cfg samples (samples / 2 + 4) false false 0)
  end.

Definition StartTalk (ch : Z) : M TalkSession := cfg ← negotiate ch; new_session ch cfg.

(** [WriteADPCMBlock]: the request it writes, without waiting for a reply. *)
Definition WriteADPCMBlock (s : TalkSession) (ctx_err : option string) (block : bytes) (num : Z)
    : result (request * TalkSession) :=
  match ctx_err with
  | Some e => Err e
  | None =>
    if sclosed s then Err "context canceled"
    else
      _ ← fail_if (negb (len block =? bytesPerBlock s)) "unexpected adpcm block size";
      let s := s <| seq ::= fun n => u16 (n + 1) |> in
      Ok (mkRequest msgIDTalk (channel s) 0 classModernWithOffset num (binaryExtension s)
            (BcMedia.serializeTalkADPCMBlock block (seq s)) true false, s)
  end.

(** [(s *TalkSession) Close]. *)
Definition Close (s : TalkSession) : client -> (error + unit) * client * TalkSession := fun c =>
  if once s then (inr tt, c, s)
  else let '(r, c) := stopTalk (channel s) c in (r, c, s <| sclosed := true |> <| once := true |>).

(** * Properties *)

(** The ids of the requests attempted. *)
Definition ids (c : client) : list Z := map rMsgID (sent c).

Lemma bind_inv {A B} (m : M A) (f : A -> M B) c r c' :
  (m ≫= f) c = (r, c') ->
  (exists e, m c = (inl e, c') /\ r = inl e) \/ (exists a c1, m c = (inr a, c1) /\ f a c1 = (r, c')).
Proof. unfold mbind, m_bind. destruct (m c) as [[e|a] c1]; [intros [= <- <-]; eauto|eauto]. Qed.

#[local] Arguments BcMedia.serializeTalkADPCMBlock : simpl never.

Lemma derive_length nonce pw : length (DeriveAESKey nonce pw) = 16%nat.
Proof.
  unfold DeriveAESKey. rewrite length_s2b. unfold MD5Modern.
  assert (forall l, String.length (MD5Modern_digits l) = (2 * length l)%nat) as Hl.
  { induction l as [|b l IH]; cbn; [done|]. rewrite IH. lia. }
  assert (forall n s, String.length (stake n s) = Nat.min n (String.length s)) as Ht.
  { induction n as [|n IH]; intros [|? s]; cbn; try done. by rewrite IH. }
  rewrite !Ht, Hl, MD5.length_Sum. done.
Qed.

(** [appended c c' l]: the requests sent between the two states. *)
Definition appended (c c' : client) (l : list request) : Prop := sent c' = sent c ++ l.

Lemma roundTrip_spec req c r c' :
  roundTripRequest req c = (r, c') ->
  loggedIn c' = loggedIn c /\ password c' = password c /\ username c' = username c /\
  aesKey (ciph c') = aesKey (ciph c) /\ hasAESKey (ciph c') = hasAESKey (ciph c) /\
  exists q, appended c c' [q] /\ rMsgID q = rMsgID req /\ rChannelID q = rChannelID req /\ rForceBC q = rForceBC req.
Proof.
  unfold roundTripRequest. set (q := mkRequest _ _ _ _ _ _ _ _ _). unfold appended.
  assert (forall k m, aesKey (on_reply k m) = aesKey k /\ hasAESKey (on_reply k m) = hasAESKey k) as Hr.
  { intros k m. unfold on_reply, setNegotiatedEncryption. by repeat case_match. }
  cbn. destruct (script c) as [|[e|m] rest]; intros [= <- <-]; cbn.
  - eauto 12.
  - eauto 12.
  - destruct (Hr (ciph c) m) as [-> ->]. eauto 12.
Qed.

Lemma check_success_state m c r c' : check_success m c = (r, c') -> c' = c.
Proof. unfold check_success, throw. by destruct (success m); intros [= _ <-]. Qed.

Lemma sendRequest_spec req c r c' :
  sendRequest req c = (r, c') ->
  loggedIn c' = loggedIn c /\ password c' = password c /\ username c' = username c /\
  aesKey (ciph c') = aesKey (ciph c) /\ hasAESKey (ciph c') = hasAESKey (ciph c) /\
  exists q, appended c c' [q] /\ rMsgID q = rMsgID req /\ rChannelID q = rChannelID req /\ rForceBC q = rForceBC req.
Proof.
  unfold sendRequest. intros [(e & H & ->)|(m & c1 & H & H')]%bind_inv; [by eapply roundTrip_spec|].
  assert (c' = c1) as ->; [|by eapply roundTrip_spec].
  apply bind_inv in H' as [(e & H' & ->)|([] & c2 & H' & H'')]; [by eapply check_success_state|].
  injection H'' as <- <-. by eapply check_success_state.
Qed.

Lemma of_result_inv {A} (r : result A) c x c' :
  of_result r c = (x, c') -> c' = c /\ match x with inl _ => is_ok r = false | inr a => r = Ok a end.
Proof. destruct r; intros [= <- <-]; done. Qed.

(** A login that succeeds has sent exactly two requests, both in the BC
    encoding, and leaves the connection in AES mode with the 16-byte key
    derived from a non-empty nonce of the device and the password, whatever
    encryption the replies negotiated; one that fails leaves the client not
    logged in, so the next use starts over; and a client that is logged in
    sends nothing. *)
Theorem Login_spec (c c' : client) (r : error + unit) :
  Login c = (r, c') ->
  if loggedIn c then r = inr tt /\ c' = c
  else
    exists l, appended c c' l /\ Forall (fun q => rMsgID q = msgIDLogin /\ rForceBC q = true) l /\
    match r with
    | inr _ =>
      length l = 2%nat /\ loggedIn c' = true /\ mode (ciph c') = EncryptionAES /\ hasAESKey (ciph c') = true /\
      cipher_ok (ciph c') /\
      exists nonce, nonce <> "" /\ aesKey (ciph c') = DeriveAESKey nonce (password c)
    | inl _ => (length l <= 2)%nat /\ loggedIn c' = false
    end.
Proof.
  unfold Login. destruct (loggedIn c) eqn:El; [by intros [= <- <-]|]. unfold login_steps.
  intros [(e & H1 & ->)|(m & c1 & H1 & H)]%bind_inv.
  { apply sendRequest_spec in H1 as (L1 & _ & _ & _ & _ & q & A1 & I1 & _ & F1).
    exists [q]. split; [done|]. split; [by repeat constructor|]. rewrite L1. split; [cbn; lia|done]. }
  apply sendRequest_spec in H1 as (L1 & P1 & U1 & _ & _ & q & A1 & I1 & _ & F1).
  apply bind_inv in H as [(e & H2 & ->)|(nonce & c2 & H2 & H)].
  { apply of_result_inv in H2 as [-> _]. exists [q]. split; [done|]. split; [by repeat constructor|].
    rewrite L1. split; [cbn; lia|done]. }
  apply of_result_inv in H2 as [-> Hnonce].
  assert (nonce <> "") as Hne.
  { unfold parseNonce in Hnonce. destruct (unmarshal_nonce _) as [[n|]|]; try done.
    case_decide; [done|]. by injection Hnonce as ->. }
  apply bind_inv in H as [(e & H2 & _)|([] & c2 & [= <-] & H)]; [done|].
  apply bind_inv in H as [(e & H2 & _)|(? & ? & [= <- <-] & H)]; [done|].
  match type of H with (_ ≫= _) ?x = _ => set (c2 := x) in H end.
  apply bind_inv in H as [(e & H3 & ->)|(body & c3 & H3 & H)].
  { apply of_result_inv in H3 as [-> _]. exists [q]. split; [done|]. split; [by repeat constructor|].
    subst c2. cbn. rewrite L1. split; [lia|done]. }
  apply of_result_inv in H3 as [-> _].
  apply bind_inv in H as [(e & H4 & ->)|(m2 & c4 & H4 & H)].
  all: apply sendRequest_spec in H4 as (L4 & P4 & U4 & K4 & K4' & q4 & A4 & I4 & _ & F4).
  all: exists [q; q4]; unfold appended in *.
  - split; [rewrite A4; subst c2; cbn; by rewrite A1, <- app_assoc|].
    split; [by repeat constructor|]. rewrite L4. subst c2. cbn. rewrite L1. split; [lia|done].
  - unfold modify in H. injection H as <- <-. subst c2. cbn in *. rewrite K4'. cbn.
    split; [by rewrite A4, A1, <- app_assoc|]. split; [by repeat constructor|].
    split; [done|]. split; [done|]. split; [done|]. split; [done|].
    split; [intros _; cbn; rewrite K4; apply derive_length|].
    exists nonce. split; [done|]. by rewrite K4, P1.
Qed.

Lemma try_inv {A} (m : M A) c r c' : try m c = (r, c') -> exists x, m c = (x, c') /\ r = inr x.
Proof. unfold try. destruct (m c) as [x c1]. intros [= <- <-]. eauto. Qed.

Lemma stopTalk_sends ch c r c' ext :
  marshal_extension ch false = Ok ext -> stopTalk ch c = (r, c') ->
  exists q, appended c c' [q] /\ rMsgID q = msgIDTalkReset /\ rChannelID q = ch.
Proof.
  intros Hext. unfold stopTalk. rewrite Hext.
  intros [(e & [=] & _)|(ext' & c1 & [= <- <-] & H)]%bind_inv.
  apply bind_inv in H as [(e & H & _)|(x & c2 & H & H')].
  { apply try_inv in H as (? & _ & [=]). }
  apply try_inv in H as (y & H & [= ->]). apply sendRequest_spec in H as (_ & _ & _ & _ & _ & q & A & I & C & _).
  assert (c' = c2) as -> by (repeat case_match; by injection H').
  exists q. by repeat split.
Qed.

Lemma stopTalk_frame ch c r c' : stopTalk ch c = (r, c') -> exists l, appended c c' l.
Proof.
  destruct (marshal_extension ch false) as [ext|e|] eqn:E; intros H.
  - destruct (stopTalk_sends ch c r c' ext E H) as (q & A & _). by exists [q].
  - unfold stopTalk in H. rewrite E in H. injection H as _ <-. exists []. unfold appended. by rewrite app_nil_r.
  - unfold stopTalk in H. rewrite E in H. injection H as _ <-. exists []. unfold appended. by rewrite app_nil_r.
Qed.

(** The last request of an accepted profile is its configuration. *)
Lemma startTalkSession_ok ch cfg c c' u :
  startTalkSession ch cfg c = (inr u, c') ->
  is_ok (marshal_extension ch false) = true /\
  exists q, last (sent c') = Some q /\ rMsgID q = msgIDTalkConfig /\ rChannelID q = ch.
Proof.
  unfold startTalkSession.
  intros [(e & _ & [=])|(ext & c1 & H1 & H)]%bind_inv. apply of_result_inv in H1 as [-> Hext].
  apply bind_inv in H as [(e & _ & [=])|(body & c2 & H2 & H)]. apply of_result_inv in H2 as [-> _].
  apply bind_inv in H as [(e & _ & [=])|(resp & c3 & H3 & H)].
  split; [by rewrite Hext|].
  assert (exists q, last (sent c3) = Some q /\ rMsgID q = msgIDTalkConfig /\ rChannelID q = ch) as H3'.
  { apply roundTrip_spec in H3 as (_ & _ & _ & _ & _ & q & A & I & C & _). exists q.
    unfold appended in A. by rewrite A, last_snoc. }
  apply bind_inv in H as [(e & _ & [=])|(resp2 & c4 & H4 & H)].
  assert (exists q, last (sent c4) = Some q /\ rMsgID q = msgIDTalkConfig /\ rChannelID q = ch) as H4'.
  { destruct (_ =? 422); [|by injection H4 as <- <-].
    apply bind_inv in H4 as [(e & _ & [=])|(? & c5 & _ & H5)].
    apply roundTrip_spec in H5 as (_ & _ & _ & _ & _ & q & A & I & C & _). exists q.
    unfold appended in A. by rewrite A, last_snoc. }
  apply bind_inv in H as [(e & _ & [=])|(x & c6 & H6 & H)].
  apply try_inv in H6 as (y & H6 & [= ->]). apply check_success_state in H6 as ->.
  destruct y as [[]|]; try done. by injection H as <- <-.
Qed.

Lemma abandon_spec {A} ch e c (r : error + A) c' :
  is_ok (marshal_extension ch false) = true -> abandon ch e c = (r, c') ->
  r = inl (OtherError e) /\ exists q, appended c c' [q] /\ rMsgID q = msgIDTalkReset /\ rChannelID q = ch.
Proof.
  intros Hext. unfold abandon. destruct (marshal_extension ch false) as [ext|?|] eqn:E; [|done..].
  intros [(e' & H & _)|(x & c1 & H & H')]%bind_inv; [by apply try_inv in H as (? & _ & [=])|].
  injection H' as <- <-. split; [done|]. apply try_inv in H as (y & H & _). by eapply stopTalk_sends.
Qed.

(** No talk session is left open by accident.  Once the device has
    accepted a profile, [StartTalk] either returns a session for it - with an
    even number of at least two samples per block, the block size its ADPCM
    blocks have, and nothing further sent - or fails after sending a talk reset
    for the channel as the last request. *)
Theorem StartTalk_no_leak (ch : Z) (c c1 c' : client) (cfg : TalkConfig) (r : error + TalkSession) :
  negotiate ch c = (inr cfg, c1) -> StartTalk ch c = (r, c') ->
  (exists q, last (sent c1) = Some q /\ rMsgID q = msgIDTalkConfig /\ rChannelID q = ch) /\
  match r with
  | inr s =>
    c' = c1 /\ channel s = ch /\ config s = cfg /\ sclosed s = false /\ seq s = 0 /\
    samplesPerBlock s = LengthPerEncode (AudioConfig cfg) /\
    2 <= samplesPerBlock s /\ samplesPerBlock s mod 2 = 0 /\ bytesPerBlock s = samplesPerBlock s / 2 + 4
  | inl _ => exists q, sent c' = sent c1 ++ [q] /\ rMsgID q = msgIDTalkReset /\ rChannelID q = ch
  end.
Proof.
  intros Hn. unfold StartTalk. intros [(e & H & _)|(cfg' & c2 & H & H')]%bind_inv; rewrite Hn in H; [done|].
  injection H as <- <-. unfold negotiate in Hn.
  apply bind_inv in Hn as [(e & _ & [=])|(? & ? & _ & Hn)]. apply bind_inv in Hn as [(e & _ & [=])|(? & ? & _ & Hn)].
  apply bind_inv in Hn as [(e & _ & [=])|(cfg0 & c3 & H3 & Hn)].
  apply bind_inv in Hn as [(e & _ & [=])|(u & c4 & H4 & Hn)]. injection Hn as -> ->.
  apply startTalkSession_ok in H4 as [Hext H4]. split; [exact H4|].
  unfold new_session in H'. destruct (marshal_extension ch true) as [ext|e|].
  2,3: apply abandon_spec in H' as [-> H']; done.
  cbv zeta in H'. destruct (_ || _) eqn:E.
  { apply abandon_spec in H' as [-> H']; done. }
  injection H' as <- <-. cbn. repeat split; lia.
Qed.

(** A talk session carries every block.  With the profile of [StartTalk],
    encoding one block of the negotiated number of samples gives a block of
    exactly the size [WriteADPCMBlock] demands, so an open session never
    refuses it; what is written is a binary talk request for the channel whose
    payload the media parser reads back as that very block, with the sequence
    number advanced modulo 2^16; and after [Close] nothing is written. *)
Theorem session_carries_blocks (s : TalkSession) (e : Adpcm.ADPCM) (pcm : list Z) (num : Z) :
  bytesPerBlock s = samplesPerBlock s / 2 + 4 -> 2 <= samplesPerBlock s < 2 ^ 16 -> samplesPerBlock s mod 2 = 0 ->
  len pcm = samplesPerBlock s ->
  exists blk e',
    Adpcm.EncodeBlock e pcm = Ok (Some blk, e') /\
    (sclosed s = true -> is_ok (WriteADPCMBlock s None blk num) = false) /\
    (sclosed s = false ->
     exists req s', WriteADPCMBlock s None blk num = Ok (req, s') /\
       rMsgID req = msgIDTalk /\ rChannelID req = channel s /\ rBinary req = true /\ rMsgNum req = num /\
       seq s' = u16 (seq s + 1) /\ sclosed s' = false /\
       forall cp, BcMedia.parseMediaPacket (rBody req) cp =
         Ok (Some (BcMedia.mkMedia BcMedia.MediaPacketADPCM "" blk 0 false None 0 0 0, len (rBody req)))).
Proof.
  intros Hb Hn He Hl. destruct (Adpcm.EncodeBlock_len e pcm) as (blk & e' & Hblk & Hsize).
  { intros ->. cbn [length] in Hl. lia. } { by rewrite Hl. }
  exists blk, e'. split; [done|]. unfold WriteADPCMBlock. split; [by intros ->|]. intros Hcl. rewrite Hcl.
  assert (len blk = bytesPerBlock s) as Hs by (rewrite Hsize, Hl; lia).
  rewrite fail_if_false by (rewrite Hs; by rewrite Z.eqb_refl). cbn [mbind result_bind].
  eexists _, _. split; [reflexivity|]. cbn. do 6 (split; [done|]).
  intros cp. rewrite <- (app_nil_r (BcMedia.serializeTalkADPCMBlock _ _)) at 1.
  apply BcMedia.serialize_parses. rewrite Hs, Hb. Z.to_euclidean_division_equations; lia.
Qed.
End talk.

(** ** Witnesses: a device with one profile that answers in order *)

Definition profile : TalkAudioConfig := mkAudio None "adpcm" 16000 16 1024 "mono".
Definition test_xml : TalkXml := {|
  unmarshal_nonce _ := Some (Some "0123");
  unmarshal_ability _ := Some (Some (mkAbility "" ["FDX"] ["followVideoStream"] [profile]));
  marshal_login _ _ := Ok [1];
  marshal_extension _ b := Ok (if b then [2] else [3]);
  marshal_config _ := Ok [4];
|}.
Definition answer (id code : Z) : error + Message :=
  inr (mkMessage (mkHeader id 0 0 0 0 code classModernWithOffset 0) [] [] "" false None).
Definition fresh_client (script : list (error + Message)) : client :=
  mkClient "admin" "secret" (mkCipher EncryptionNone (replicate 16 0) false) false 0 script [].

(** The first login reply of a device carries the negotiation in its status,
    with a class that has no payload offset. *)
Definition hello : error + Message :=
  inr (mkMessage (mkHeader 1 0 0 0 0 0xDD02 classModern 0) [] [] "" false None).
Definition device_ok : client := fresh_client [hello; answer 1 200; answer 10 200; answer 201 422; answer 11 200; answer 201 200].

Lemma Login_spec_witness :
  let U := ascii_tables in let X := test_xml in
  loggedIn (Login device_ok).2 = true /\ cipher_ok (ciph (Login device_ok).2).
Proof.
  cbv zeta. set (U := ascii_tables). set (X := test_xml).
  destruct (Login device_ok) as [r c'] eqn:E.
  pose proof (Login_spec device_ok c' r E) as (l & _ & _ & H).
  assert (match r with inr _ => True | inl _ => False end) as Hr.
  { assert (match (Login device_ok).1 with inr _ => True | inl _ => False end) as Hr by (vm_compute; exact I).
    by rewrite E in Hr. }
  destruct r as [e|u]; [destruct Hr|]. destruct H as (_ & H1 & _ & _ & H2 & _). by split.
Defined.

Lemma StartTalk_no_leak_witness :
  let U := ascii_tables in let X := test_xml in
  exists s, (StartTalk 3 device_ok).1 = inr s /\ bytesPerBlock s = 516 /\ samplesPerBlock s = 1024.
Proof.
  cbv zeta. set (U := ascii_tables). set (X := test_xml).
  assert (is_inr (negotiate 3 device_ok).1 = true /\ is_inr (StartTalk 3 device_ok).1 = true) as [Hn Hs]
    by (split; vm_compute; reflexivity).
  destruct (negotiate 3 device_ok) as [[e|cfg] c1] eqn:En; [discriminate Hn|].
  destruct (StartTalk 3 device_ok) as [[e|s] c'] eqn:Es; [discriminate Hs|].
  destruct (StartTalk_no_leak 3 device_ok c1 c' cfg (inr s) En Es) as (_ & _ & _ & Hc & _ & _ & Hsamp & _ & _ & Hb).
  assert (match (negotiate 3 device_ok).1 with inr c => LengthPerEncode (AudioConfig c) = 1024 | inl _ => False end) as Hl
    by (vm_compute; reflexivity).
  rewrite En in Hl. cbn in Hl. exists s. split; [reflexivity|]. rewrite Hb, Hsamp, Hl. by split.
Defined.

Lemma session_carries_blocks_witness :
  let s := mkSession 3 [2] (mkConfig "1.1" 3 "FDX" "speaker" profile) 4 6 false false 65535 in
  exists blk e' req s', Adpcm.EncodeBlock Adpcm.zero [10; -20; 30; -40] = Ok (Some blk, e') /\
    WriteADPCMBlock s None blk 9 = Ok (req, s') /\ seq s' = 0.
Proof.
  cbv zeta. set (s := mkSession 3 [2] _ 4 6 false false 65535).
  destruct (session_carries_blocks s Adpcm.zero [10; -20; 30; -40] 9) as (blk & e' & H1 & _ & H2).
  - reflexivity.
  - split; [discriminate|reflexivity].
  - reflexivity.
  - reflexivity.
  - destruct (H2 eq_refl) as (req & s' & H3 & _ & _ & _ & _ & H4 & _). exists blk, e', req, s'. by repeat split.
Defined.
End BcTalk.
