(* ===== verification/AudioReceiver.v ===== *)
(** The camera's audio over Baichuan: the preview of [internal/baichuan/client.go]
    and the receiver of [internal/baichuanaudio/receiver.go], which turns it into PCM.

    The goroutine of the preview is a function of the events its [select] takes, and so
    is the receive loop; the connection is the script of its replies, as in [BcTalk].
    FFmpeg is what it writes: the reads of its standard output, in any pieces.  The texts
    of errors leave out the codec's name. *)
From S2P Require Import Prelude GoBytes GoStrings GoCrypto Adpcm Resample BcWire BcMedia BcTalk.
Import BcWire.

Module AudioReceiver.
#[local] Existing Instance BcMedia.kind_eq.

(** * The preview *)

Definition StreamSub : string := "subStream".
Definition StreamExtern : string := "externStream".
Definition streamParams (stream : string) : Z * Z :=
  if decide (stream = StreamSub) then (1, 256) else if decide (stream = StreamExtern) then (2, 1024) else (0, 0).

(** [buildPreviewXML] and [buildStopPreviewXML]: what [xml.Marshal] writes. *)
Class PreviewXml := {
  buildPreviewXML : Z -> Z -> string -> result bytes;
  buildStopPreviewXML : Z -> Z -> result bytes;
}.

Section preview.
Context `{U : Unicode} `{X : BcTalk.TalkXml} `{V : PreviewXml}.
Import BcTalk.

Definition preview_request (id channel streamType : Z) (body : bytes) : request :=
  mkRequest id channel streamType classModernWithOffset 0 [] body false false.
(** [startPreview] up to the start of its goroutine. *)
Definition startPreview (channel : Z) (stream : string) : M unit :=
  _ ← Login;
  let '(streamType, handle) := streamParams stream in
  body ← of_result (buildPreviewXML channel handle stream);
  _ ← sendRequest (preview_request msgIDVideo channel streamType body);
  mret tt.
Definition StopPreview (channel : Z) (stream : string) : M unit :=
  _ ← Login;
  let '(streamType, handle) := streamParams stream in
  body ← of_result (buildStopPreviewXML channel handle);
  r ← try (sendRequest (preview_request msgIDVideoStop channel streamType body));
  match r with
  | inl (StatusError id code) => throw (StatusError id code)
  | inl _ => mret tt
  | inr resp => check_success resp
  end.
Definition PreferredTalkAudioProfile (channel : Z) : M TalkAudioConfig :=
  _ ← Login;
  ability ← getTalkAbility channel;
  cfg ← of_sum (defaultTalkConfig channel ability);
  mret (AudioConfig cfg).
End preview.

(** The goroutine: a message is parsed, its packets are published one by one; in
    between the connection or the reader may be closed.  [Got msg n] is a message of
    which [n] packets are published before that, [None] for all of them. *)
Inductive pump_event := Closed | Stopped | Got (msg : option Message) (published : option nat).
Inductive pumped := Going (p : BcMedia.MediaParser) | Ended | Shutdown (e : string) | Crashed.
Definition relevant (streamType : Z) (m : Message) : bool :=
  Binary m && negb (bool_decide (Payload m = [])) && (StreamType (MHeader m) =? streamType).
Definition pump (streamType : Z) (p : BcMedia.MediaParser) (e : pump_event) : list BcMedia.MediaPacket * pumped :=
  match e with
  | Closed | Stopped | Got None _ => ([], match e with Got _ _ => Going p | _ => Ended end)
  | Got (Some m) n =>
    if relevant streamType m then
      match BcMedia.Append p (Payload m) with
      | (packets, Ok _, p') =>
        match n with
        | None => (packets, Going p')
        | Some n => (take n packets, Ended)
        end
      | (_, Err e, _) => ([], Shutdown ("bcmedia parse: " +:+ e +:+ " (payload_prefix=" +:+ hex_encode (take 32 (Payload m)) +:+ ")"))
      | (_, Panic, _) => ([], Crashed)
      end
    else ([], Going p)
  end.
Fixpoint pump_all (streamType : Z) (p : BcMedia.MediaParser) (es : list pump_event) : list BcMedia.MediaPacket * pumped :=
  match es with
  | [] => ([], Going p)
  | e :: es =>
    match pump streamType p e with
    | (l, Going p') => let '(l', r) := pump_all streamType p' es in (l ++ l', r)
    | (l, r) => (l, r)
    end
  end.

(** * The AAC decoder's output *)

(** One read of [n > 0] bytes: the samples and the odd byte kept. *)
Definition assemble (carry buf : bytes) : bytes * bytes :=
  let data := carry ++ buf in
  if negb (len data mod 2 =? 0) then (take (length data - 1) data, drop (length data - 1) data) else (data, []).
Fixpoint samples (data : bytes) : list Z :=
  match data with
  | a :: b :: r => s16 (le_dec [a; b]) :: samples r
  | _ => []
  end.
(** All reads until the first error; an empty read is skipped, and so is a block without samples. *)
Fixpoint read_stdout (carry : bytes) (reads : list bytes) : list (list Z) :=
  match reads with
  | [] => []
  | buf :: reads =>
    if decide (buf = []) then read_stdout carry reads
    else
      let '(data, carry) := assemble carry buf in
      (if decide (data = []) then [] else [samples data]) ++ read_stdout carry reads
  end.
(** The size of the read buffer. *)
Definition read_buffer (outputRate : Z) : Z :=
  let n := outputRate / 50 * 2 * 4 in if n <? 640 then 640 else n.

(** * Rates *)

Definition adtsSampleRate (frame : bytes) : Z :=
  match frame with
  | f0 :: f1 :: f2 :: _ :: _ =>
    if negb (f0 =? 0xff) || negb (Z.land f1 0xf6 =? 0xf0) then 0
    else
      let idx := Z.land (Z.shiftr f2 2) 0x0f in
      nth (Z.to_nat idx) [96000; 88200; 64000; 48000; 44100; 32000; 24000; 22050; 16000; 12000; 11025; 8000; 7350] 0
  | _ => 0
  end.
Definition linear_sample (l : list Z) (inRate outRate i : Z) : Z :=
  let posNum := i * inRate in
  let idx := posNum / outRate in
  let frac := posNum mod outRate in
  if len l - 1 <=? idx then Resample.at_ l (len l - 1)
  else
    let a := Resample.at_ l idx in
    let b := Resample.at_ l (idx + 1) in
    let v := a + Z.quot ((b - a) * frac) outRate in
    let v := if 32767 <? v then 32767 else if v <? - 32768 then - 32768 else v in
    s16 v.
(** The nil slice is the empty one here. *)
Definition resampleLinear (l : list Z) (inRate outRate : Z) : list Z :=
  if bool_decide (l = []) || (inRate <=? 0) || (outRate <=? 0) then []
  else if inRate =? outRate then l
  else
    let outLen := (len l * outRate + inRate / 2) / inRate in
    let outLen := if outLen <? 1 then 1 else outLen in
    if len l =? 1 then replicate (Z.to_nat outLen) (Resample.at_ l 0)
    else map (linear_sample l inRate outRate) (seqZ 0 outLen).

(** * The receiver *)

Record Config := mkConfig { Channel : Z; Stream : string; OutputRate : Z; FFmpegPath : string }.
Record Info := mkInfo { Codec : string; InputSampleRate : Z; OutputSampleRate : Z; IChannel : Z; IStream : string }.
Definition Details {U : Unicode} (i : Info) : string :=
  let inRate := if 0 <? InputSampleRate i then Itoa (InputSampleRate i) +:+ " Hz" else "unknown rate" in
  let short := if decide (IStream i = "mainStream") then "main" else if decide (IStream i = StreamSub) then "sub"
               else if decide (IStream i = StreamExtern) then "extern" else IStream i in
  "Baichuan " +:+ short +:+ " channel " +:+ Itoa (IChannel i) +:+ ", " +:+ ToUpper (Codec i) +:+ " " +:+ inRate +:+
  " -> PCM " +:+ Itoa (OutputSampleRate i) +:+ " Hz".

(** The variables of [run]; [pcm], [ready] and [fed] are what was sent on the channels
    [pcm] and [ready] and written to the decoder. *)
Record state := mkState {
  activeCodec : string; decoder : Adpcm.ADPCM; aac : bool; aacPCM : bool; aacDone : bool;
  pcm : list (list Z); ready : list Info; fed : list bytes;
}.
#[export] Instance eta_state : Eta state := fun s =>
  mkState (activeCodec s) (decoder s) (aac s) (aacPCM s) (aacDone s) (pcm s) (ready s) (fed s).
Definition state0 : state := mkState "" Adpcm.zero false false false [] [] [].

(** What a packet meets: [client.Err()], [ctx.Err()], the results of starting and feeding
    the decoder, and the error of the context if that is what ends [emitPCM]. *)
Record surroundings := mkSurroundings {
  client_err : option string; ctx_err : option string; start_err : option string; write_err : option string; emit_err : option string;
}.
Inductive event :=
| CtxDone (e : string)
| ClientDone (e : option string)
| AacPCM (chunk : option (list Z)) (emit_err : option string)
| AacDone (r : option (option (string * bool)))  (** closed, nil, or an error and whether it is [Canceled] *)
| Packet (p : option BcMedia.MediaPacket) (w : surroundings).

Definition signalReady (cfg : Config) (codecName : string) (inputRate : Z) (s : state) : state :=
  if decide (activeCodec s <> "") then s
  else s <| activeCodec := codecName |>
         <| ready ::= fun l => if len l <? 1
                               then l ++ [mkInfo codecName inputRate (OutputRate cfg) (Channel cfg) (Stream cfg)] else l |>.
Definition emitPCM (chunk : list Z) (err : option string) (s : state) : state * option string :=
  if decide (chunk = []) then (s, None)
  else match err with
       | None => (s <| pcm ::= fun l => l ++ [chunk] |>, None)
       | Some e => (s, Some e)
       end.
Definition on_adpcm (cfg : Config) (adpcmRate : Z) (data : bytes) (w : surroundings) (s : state) : state * option string :=
  if bool_decide (activeCodec s <> "") && bool_decide (activeCodec s <> "adpcm")
  then (s, Some "Baichuan preview audio codec changed to ADPCM")
  else
    let s := signalReady cfg "adpcm" adpcmRate s in
    let '(chunk, d) := Adpcm.Decode (decoder s) data in
    let s := s <| decoder := d |> in
    let chunk := default [] chunk in
    if len chunk =? 0 then (s, None)
    else emitPCM (if negb (adpcmRate =? OutputRate cfg) then resampleLinear chunk adpcmRate (OutputRate cfg) else chunk) (emit_err w) s.
Definition feed_aac (data : bytes) (w : surroundings) (s : state) : state * option string :=
  match write_err w with
  | Some e => (s, Some ("feed Baichuan AAC decoder: " +:+ e))
  | None => (s <| fed ::= fun l => l ++ [data] |>, None)
  end.
Definition on_aac {U : Unicode} (cfg : Config) (data : bytes) (w : surroundings) (s : state) : state * option string :=
  if bool_decide (activeCodec s <> "") && bool_decide (activeCodec s <> "aac")
  then (s, Some "Baichuan preview audio codec changed to AAC")
  else if aac s then feed_aac data w s
  else if decide (TrimSpace (FFmpegPath cfg) = "") then (s, Some "FFmpeg binary path is required to decode Baichuan AAC audio")
  else
    match start_err w with
    | Some e => (s, Some e)
    | None =>
      feed_aac data w (signalReady cfg "aac" (adtsSampleRate data) (s <| aac := true |>) <| aacPCM := true |> <| aacDone := true |>)
    end.
(** A receive from a nil channel blocks. *)
Definition possible (s : state) (e : event) : bool :=
  match e with AacPCM _ _ => aacPCM s | AacDone _ => aacDone s | _ => true end.
(** One turn of the loop; the error with which it ends. *)
Definition step {U : Unicode} (cfg : Config) (adpcmRate : Z) (s : state) (e : event) : state * option string :=
  match e with
  | CtxDone e => (s, Some e)
  | ClientDone e => (s, Some (default "Baichuan preview connection closed" e))
  | AacPCM None _ => (s <| aacPCM := false |>, None)
  | AacPCM (Some chunk) err => emitPCM chunk err s
  | AacDone (Some (Some (e, false))) => (s <| aacDone := false |>, Some ("Baichuan AAC decoder: " +:+ e))
  | AacDone _ => (s <| aacDone := false |>, None)
  | Packet None w =>
    (s, Some (match client_err w, ctx_err w with
              | Some e, _ => e
              | None, None => "Baichuan preview ended"
              | None, Some e => e  (* by the deferred function *)
              end))
  | Packet (Some p) w =>
    match BcMedia.Kind p with
    | BcMedia.MediaPacketADPCM => on_adpcm cfg adpcmRate (BcMedia.Data p) w s
    | BcMedia.MediaPacketAAC => on_aac cfg (BcMedia.Data p) w s
    | _ => (s, None)
    end
  end.
(** The state, what is sent on [done], and the events taken before it.  Events that are
    not possible do not happen. *)
Fixpoint run {U : Unicode} (cfg : Config) (adpcmRate : Z) (s : state) (es : list event) : state * option string * list event :=
  match es with
  | [] => (s, None, [])
  | e :: es =>
    if possible s e then
      match step cfg adpcmRate s e with
      | (s', None) => let '(s'', r, l) := run cfg adpcmRate s' es in (s'', r, e :: l)
      | (s', Some r) => (s', Some r, [])
      end
    else run cfg adpcmRate s es
  end.

(** ** [Open] and [Close] *)

Section open.
Context `{U : Unicode} `{X : BcTalk.TalkXml} `{V : PreviewXml}.
Definition defaultADPCMSampleRate : Z := 16000.
(** [dialed] is the result of [Dial].  The result, the connection and whether it was closed again. *)
Record opened := mkOpened { conn : BcTalk.client; closed : bool; rate : Z; config : Config }.
Definition adpcm_rate (profile : BcTalk.error + BcTalk.TalkAudioConfig) : Z :=
  match profile with
  | inr p => if (8000 <=? BcTalk.SampleRate p) && (BcTalk.SampleRate p <=? 48000) then BcTalk.SampleRate p else defaultADPCMSampleRate
  | inl _ => defaultADPCMSampleRate
  end.
Definition Open (cfg : Config) (dialed : result BcTalk.client) : option opened * result unit :=
  if (OutputRate cfg <? 8000) || (48000 <? OutputRate cfg) then (None, Err "unsupported Baichuan PCM output rate")
  else
    let cfg := if decide (Stream cfg = "")
               then mkConfig (Channel cfg) StreamSub (OutputRate cfg) (FFmpegPath cfg) else cfg in
    match dialed with
    | Ok c =>
      let '(profile, c) := PreferredTalkAudioProfile (Channel cfg) c in
      let rate := adpcm_rate profile in
      match startPreview (Channel cfg) (Stream cfg) c with
      | (inl _, c) => (Some (mkOpened c true rate cfg), Err "start Baichuan preview")
      | (inr _, c) => (Some (mkOpened c false rate cfg), Ok tt)
      end
    | _ => (None, Err "connect Baichuan preview")
    end.
(** [Close] the first time: the preview is stopped, then the connection is closed. *)
Definition Close (o : opened) : opened :=
  let '(_, c) := StopPreview (Channel (config o)) (Stream (config o)) (conn o) in mkOpened c true (rate o) (config o).
End open.

(** ** The resampler *)

(** The two linear resamplers of the program are the same function. *)
Lemma resampleLinear_block l inRate outRate :
  resampleLinear l inRate outRate = default [] (Resample.resampleBlockLinear l inRate outRate).
Proof.
  unfold resampleLinear, Resample.resampleBlockLinear. destruct (decide (l = [])) as [->|Hl]; [done|].
  rewrite bool_decide_false by done. cbn [orb]. destruct (_ || _); [done|]. destruct (_ =? _); [done|].
  fold (Resample.block_len (len l) inRate outRate). destruct (len l =? 1); [done|]. cbn [default].
  apply map_ext. intros i. unfold linear_sample, Resample.block_sample. cbv zeta. destruct (_ <=? _); [done|].
  unfold Resample.interp, Resample.clampInt16. by repeat case_match.
Qed.
Lemma resampleLinear_len l inRate outRate : 0 < inRate -> 0 < outRate ->
  len (resampleLinear l inRate outRate) =
    if decide (l = []) then 0 else if inRate =? outRate then len l else Resample.block_len (len l) inRate outRate.
Proof.
  intros Hi Ho. unfold resampleLinear. destruct (decide (l = [])) as [->|Hl]; [done|]. rewrite bool_decide_false by done.
  rewrite (proj2 (Z.leb_gt _ _) Hi), (proj2 (Z.leb_gt _ _) Ho). cbn [orb]. destruct (_ =? _); [done|].
  fold (Resample.block_len (len l) inRate outRate). pose proof (Resample.block_len_pos (len l) inRate outRate).
  destruct (len l =? 1); [rewrite length_replicate|rewrite Resample.length_map_seqZ]; lia.
Qed.

(** ** What FFmpeg writes *)

Definition whole (l : bytes) : Prop := len l mod 2 = 0.
Lemma samples_app a b : whole a -> samples (a ++ b) = samples a ++ samples b.
Proof.
  unfold whole. remember (length a) as n eqn:En. revert a En. induction n as [n IH] using lt_wf_ind. intros [|x [|y a]] En Hw.
  - done.
  - rewrite En in Hw. vm_compute in Hw. congruence.
  - cbn [samples app]. f_equal. apply (IH (length a)); [cbn in En; lia|done|].
    rewrite En, !len_cons in Hw. replace (len a + 1 + 1) with (len a + 1 * 2) in Hw by lia. by rewrite Z_mod_plus_full in Hw.
Qed.
Lemma samples_odd a x : whole a -> samples (a ++ [x]) = samples a.
Proof. intros Hw. rewrite samples_app by done. cbn. by rewrite app_nil_r. Qed.
Lemma samples_nonempty a : whole a -> a <> [] -> samples a <> [].
Proof. intros Hw Hn. destruct a as [|x [|y a]]; [done| |done]. vm_compute in Hw. congruence. Qed.

(** The data and the byte kept are what there was. *)
Lemma assemble_spec carry buf : (length carry <= 1)%nat ->
  let '(data, carry') := assemble carry buf in
  carry ++ buf = data ++ carry' /\ whole data /\ (length carry' <= 1)%nat.
Proof.
  intros Hc. unfold assemble, whole. set (d := carry ++ buf). destruct (Z.eqb_spec (len d mod 2) 0) as [E|E]; cbn [negb].
  - rewrite app_nil_r. repeat split; [done|cbn; lia].
  - assert (length d <> 0%nat) by (intros H; rewrite H in E; done). split; [by rewrite take_drop|]. rewrite length_take, length_drop.
    split; [|lia]. replace (Z.of_nat (length d - 1 `min` length d)) with (len d - 1) by lia. width.
Qed.
Lemma read_stdout_spec reads : forall carry, (length carry <= 1)%nat ->
  concat (read_stdout carry reads) = samples (carry ++ concat reads) /\ Forall (fun c => c <> []) (read_stdout carry reads).
Proof.
  induction reads as [|buf reads IH]; intros carry Hc; cbn [read_stdout concat].
  - rewrite app_nil_r. split; [|constructor]. destruct carry as [|x [|y c]]; [done|done|cbn in Hc; lia].
  - destruct (decide (buf = [])) as [->|Hb]; [by apply IH|].
    pose proof (assemble_spec carry buf Hc) as Ha. destruct (assemble carry buf) as [data c']. destruct Ha as (E & Hw & Hc').
    destruct (IH c' Hc') as [H1 H2]. assert (carry ++ buf ++ concat reads = data ++ c' ++ concat reads) as -> by (by rewrite !app_assoc, E).
    rewrite concat_app, H1, (samples_app data) by done.
    destruct (decide (data = [])) as [->|Hd]; cbn [concat app samples]; [done|]. rewrite app_nil_r. split; [done|].
    constructor; [by apply samples_nonempty|done].
Qed.
Definition s16le (pcm : list Z) : bytes := concat (map (fun x => le_put 2 (u16 x)) pcm).
Lemma samples_s16le pcm : pcm_ok pcm -> samples (s16le pcm) = pcm.
Proof.
  induction 1 as [|x l Hx Hl IH]; [done|]. unfold s16le in *. cbn [map concat].
  change (le_put 2 (u16 x)) with [u16 x mod 256; u16 x / 256 mod 256]. cbn [app samples]. rewrite IH. f_equal.
  change [u16 x mod 256; u16 x / 256 mod 256] with (le_put 2 (u16 x)). rewrite le_dec_put.
  change (u16 x mod 256 ^ Z.of_nat 2) with (u16 (u16 x)). rewrite wrap_idemp by done. rewrite swrap_wrap. by apply swrap_id.
Qed.
Lemma whole_s16le pcm : whole (s16le pcm).
Proof.
  unfold whole, s16le. induction pcm as [|x l IH]; [done|]. cbn [map concat]. rewrite len_app, len_le_put.
  set (n := len (concat _)) in *. replace (Z.of_nat 2 + n) with (n + 1 * 2) by lia. by rewrite Z_mod_plus_full.
Qed.
(** Linear PCM, cut into reads anywhere, arrives as it was written; a byte missing at the end costs one sample. *)
Lemma stdout_intact pcm reads tail : pcm_ok pcm -> concat reads = s16le pcm ++ tail -> (length tail <= 1)%nat ->
  concat (read_stdout [] reads) = pcm.
Proof.
  intros Hp E Ht. destruct (read_stdout_spec reads [] ltac:(cbn; lia)) as [-> _]. cbn [app]. rewrite E.
  rewrite samples_app, samples_s16le by (done || apply whole_s16le).
  destruct tail as [|x [|y t]]; cbn [samples]; [by rewrite app_nil_r..|cbn in Ht; lia].
Qed.

(** ** The preview *)

Definition undisturbed (e : pump_event) : bool := match e with Got _ None => true | _ => false end.
Definition payloads (streamType : Z) (es : list pump_event) : list bytes :=
  omap (fun e => match e with Got (Some m) _ => if relevant streamType m then Some (Payload m) else None | _ => None end) es.
Lemma pump_feed st es : forall p, Forall (fun e => undisturbed e = true) es ->
  (BcMedia.feed p (payloads st es)).2 = Ok tt ->
  exists p', pump_all st p es = ((BcMedia.feed p (payloads st es)).1, Going p').
Proof.
  induction es as [|e es IH]; intros p Hu Hf; [by exists p|]. apply Forall_cons in Hu as [He Hu].
  destruct e as [| |[m|] [n|]]; try done; cbn [pump_all pump].
  2: { cbn in Hf |- *. destruct (IH p Hu Hf) as [p' ->]. by exists p'. }
  unfold payloads in *. cbn [omap list_omap] in *. destruct (relevant st m).
  2: { destruct (IH p Hu Hf) as [p' ->]. by exists p'. }
  cbn [BcMedia.feed] in *. destruct (BcMedia.Append p (Payload m)) as [[o [[]|e|]] p1]; [|done|done].
  destruct (BcMedia.feed p1 _) as [o' r] eqn:E. cbn [snd] in Hf. subst r.
  destruct (IH p1 Hu) as [p' H]; [by rewrite E|]. rewrite E in H. rewrite H. by exists p'.
Qed.

(** A frame of the stream and what the parser makes of it. *)
Definition parses (f : bytes * BcMedia.MediaPacket) : Prop :=
  bytes_ok f.1 /\ forall rest, BcMedia.parseMediaPacket (f.1 ++ rest) false = Ok (Some (f.2, len f.1)).
Definition audio_of (frames : list (bytes * BcMedia.MediaPacket)) : list BcMedia.MediaPacket :=
  concat (map (fun f => BcMedia.published true f.2) frames).
Lemma bytes_ok_frames frames : Forall parses frames -> bytes_ok (concat (map fst frames)).
Proof. induction 1 as [|f l [Hf _] _ IH]; [constructor|]. cbn. by apply Forall_app. Qed.
Lemma loop_frames frames : Forall parses frames ->
  BcMedia.loop true (concat (map fst frames)) = (audio_of frames, Ok tt, []).
Proof.
  intros H. pose proof (bytes_ok_frames frames H) as Hb. induction H as [|f l [Hf Hp] Hl IH]; [done|].
  rewrite BcMedia.loop_unfold by done. cbn [map concat negb] in *. rewrite Hp. rewrite Nat2Z.id, drop_app_length.
  apply Forall_app in Hb as [_ Hb]. rewrite (IH Hb). done.
Qed.
Lemma pump_frames st es frames : Forall parses frames -> Forall (fun e => undisturbed e = true) es ->
  concat (payloads st es) = concat (map fst frames) ->
  exists p, pump_all st (BcMedia.mkParser [] true) es = (audio_of frames, Going p).
Proof.
  intros Hf Hu E. pose proof (bytes_ok_frames frames Hf) as Hb.
  assert (Forall bytes_ok (payloads st es)) as Hp by (apply Forall_concat; by rewrite E).
  pose proof (BcMedia.feed_concat true (payloads st es) [] ltac:(constructor) Hp eq_refl) as H. cbn [app] in H.
  rewrite E, loop_frames in H by done. destruct (pump_feed st es (BcMedia.mkParser [] true) Hu) as [p Hg]; [by rewrite H|].
  exists p. by rewrite Hg, H.
Qed.
Lemma adpcm_parses block seq : bytes_ok block -> fits 16 seq -> len block + 4 < 2 ^ 16 ->
  parses (BcMedia.serializeTalkADPCMBlock block seq, BcMedia.mkMedia BcMedia.MediaPacketADPCM "" block 0 false None 0 0 0).
Proof.
  intros Hb Hs Hl. split; [|intros rest; by apply BcMedia.serialize_parses]. cbn [fst]. unfold BcMedia.serializeTalkADPCMBlock.
  rewrite !Forall_app. repeat split; try apply le_put_ok; [done|]. apply Forall_replicate. done.
Qed.

(** ** The receive loop *)

(** What was taken. *)
Definition packets_of (l : list event) : list BcMedia.MediaPacket :=
  omap (fun e => match e with Packet p _ => p | _ => None end) l.
Definition data_of (k : BcMedia.MediaPacketKind) (l : list BcMedia.MediaPacket) : list bytes :=
  map BcMedia.Data (filter (fun p => BcMedia.Kind p = k) l).
Definition adpcm_data (l : list event) : list bytes := data_of BcMedia.MediaPacketADPCM (packets_of l).
Definition aac_data (l : list event) : list bytes := data_of BcMedia.MediaPacketAAC (packets_of l).
Definition aac_chunks (l : list event) : list (list Z) :=
  filter (fun c => c <> []) (omap (fun e => match e with AacPCM c _ => c | _ => None end) l).

(** What a block of ADPCM sounds like: a block carries the state it starts from. *)
Definition block_pcm (cfg : Config) (rate : Z) (data : bytes) : list (list Z) :=
  let c := default [] (Adpcm.Decode Adpcm.zero data).1 in
  if decide (c = []) then [] else [if negb (rate =? OutputRate cfg) then resampleLinear c rate (OutputRate cfg) else c].
Lemma Decode_fresh d data : (Adpcm.Decode d data).1 = (Adpcm.Decode Adpcm.zero data).1.
Proof. by destruct data as [|b0 [|b1 [|b2 [|b3 r]]]]. Qed.

Lemma resampled_nonempty cfg rate c : 0 < rate -> 0 < OutputRate cfg -> c <> [] ->
  (if negb (rate =? OutputRate cfg) then resampleLinear c rate (OutputRate cfg) else c) <> [].
Proof.
  intros Hr Ho Hc. destruct (Z.eqb_spec rate (OutputRate cfg)) as [E|E]; [done|]. cbn [negb]. intros H.
  apply (f_equal length), (f_equal Z.of_nat) in H. rewrite resampleLinear_len, decide_False, (proj2 (Z.eqb_neq _ _)) in H by done.
  pose proof (Resample.block_len_pos (len c) rate (OutputRate cfg)). cbn in H. lia.
Qed.
Lemma blocks_nonempty cfg rate ds : 0 < rate -> 0 < OutputRate cfg -> Forall (fun c => c <> []) (flat_map (block_pcm cfg rate) ds).
Proof.
  intros Hr Ho. induction ds as [|d ds IH]; [constructor|]. cbn [flat_map]. apply Forall_app. split; [|done].
  unfold block_pcm. cbv zeta. destruct (decide _) as [|Hn]; [constructor|]. constructor; [by apply resampled_nonempty|constructor].
Qed.

Definition info_of (cfg : Config) (codec : string) (inputRate : Z) : Info :=
  mkInfo codec inputRate (OutputRate cfg) (Channel cfg) (Stream cfg).
(** The state after the events [l], none of which ended the loop. *)
Inductive settled (cfg : Config) (rate : Z) (s : state) (l : list event) : Prop :=
| ByNone : activeCodec s = "" -> aac s = false -> aacPCM s = false -> aacDone s = false -> pcm s = [] -> ready s = [] -> fed s = [] ->
    adpcm_data l = [] -> aac_data l = [] -> aac_chunks l = [] -> settled cfg rate s l
| ByAdpcm : activeCodec s = "adpcm" -> aac s = false -> aacPCM s = false -> aacDone s = false -> fed s = [] ->
    aac_data l = [] -> aac_chunks l = [] -> pcm s = flat_map (block_pcm cfg rate) (adpcm_data l) ->
    ready s = [info_of cfg "adpcm" rate] -> settled cfg rate s l
| ByAac first : activeCodec s = "aac" -> aac s = true -> fed s = aac_data l -> adpcm_data l = [] -> head (aac_data l) = Some first ->
    pcm s = aac_chunks l -> ready s = [info_of cfg "aac" (adtsSampleRate first)] -> settled cfg rate s l.

Lemma packets_snoc l e : packets_of (l ++ [e]) = packets_of l ++ packets_of [e].
Proof. unfold packets_of. by rewrite omap_app. Qed.
Lemma adpcm_snoc l e : adpcm_data (l ++ [e]) = adpcm_data l ++ adpcm_data [e].
Proof. unfold adpcm_data, data_of. by rewrite packets_snoc, filter_app, map_app. Qed.
Lemma aac_snoc l e : aac_data (l ++ [e]) = aac_data l ++ aac_data [e].
Proof. unfold aac_data, data_of. by rewrite packets_snoc, filter_app, map_app. Qed.
Lemma chunks_snoc l e : aac_chunks (l ++ [e]) = aac_chunks l ++ aac_chunks [e].
Proof. unfold aac_chunks. by rewrite omap_app, filter_app. Qed.

(** An event that changes neither the codec nor what was heard. *)
Lemma settled_neutral cfg rate s s' l e : settled cfg rate s l ->
  activeCodec s' = activeCodec s -> aac s' = aac s -> pcm s' = pcm s -> ready s' = ready s -> fed s' = fed s ->
  (aacPCM s' = true -> aacPCM s = true) -> (aacDone s' = true -> aacDone s = true) ->
  adpcm_data [e] = [] -> aac_data [e] = [] -> aac_chunks [e] = [] -> settled cfg rate s' (l ++ [e]).
Proof.
  intros Hs E1 E2 E3 E4 E5 Hp Hd F1 F2 F3. destruct Hs as [| |first].
  - apply ByNone; rewrite ?adpcm_snoc, ?aac_snoc, ?chunks_snoc, ?F1, ?F2, ?F3, ?app_nil_r; try congruence.
    + destruct (aacPCM s'); naive_solver.
    + destruct (aacDone s'); naive_solver.
  - apply ByAdpcm; rewrite ?adpcm_snoc, ?aac_snoc, ?chunks_snoc, ?F1, ?F2, ?F3, ?app_nil_r; try congruence.
    + destruct (aacPCM s'); naive_solver.
    + destruct (aacDone s'); naive_solver.
  - apply (ByAac _ _ _ _ first); rewrite ?adpcm_snoc, ?aac_snoc, ?chunks_snoc, ?F1, ?F2, ?F3, ?app_nil_r; congruence.
Qed.

(** What holds also when an event ended the loop: nothing half done was heard. *)
Definition accounted (cfg : Config) (rate : Z) (s : state) (l : list event) : Prop :=
  fed s = aac_data l /\ pcm s = flat_map (block_pcm cfg rate) (adpcm_data l) ++ aac_chunks l /\
  (adpcm_data l = [] /\ (aac_data l = [] -> aac_chunks l = []) \/ aac_data l = [] /\ aac_chunks l = []) /\
  match ready s with
  | [] => adpcm_data l = [] /\ aac_data l = []
  | [i] => (adpcm_data l <> [] -> i = info_of cfg "adpcm" rate) /\
           (forall first, head (aac_data l) = Some first -> i = info_of cfg "aac" (adtsSampleRate first))
  | _ => False
  end.
Lemma settled_accounted cfg rate s l : settled cfg rate s l -> accounted cfg rate s l.
Proof.
  intros [? ? ? ? Hp Hr Hf Hd Ha Hc|? ? ? ? Hf Ha Hc Hp Hr|first ? ? Hf Hd Hh Hp Hr]; unfold accounted; rewrite Hr.
  - rewrite Hf, Hp, Hd, Ha, Hc. cbn. split_and!; auto.
  - rewrite Hf, Hp, Ha, Hc, app_nil_r. split_and!; auto; done.
  - rewrite Hf, Hp, Hd. cbn [flat_map app]. split_and!; auto.
    + left. split; [done|]. intros E. by rewrite E in Hh.
    + done.
    + intros f. rewrite Hh. by intros [= <-].
Qed.
(** An event that ended the loop may still have been the first of its codec. *)
Lemma accounted_last cfg rate s s' l : settled cfg rate s l -> pcm s' = pcm s -> fed s' = fed s ->
  (ready s' = ready s \/ ready s = [] /\ exists i, ready s' = [i]) -> accounted cfg rate s' l.
Proof.
  intros Hs Hp Hf Hr. pose proof (settled_accounted _ _ _ _ Hs) as (H1 & H2 & H3 & H4). unfold accounted.
  rewrite Hp, Hf. split_and!; try done. destruct Hr as [->|[E [i ->]]]; [done|]. rewrite E in H4. destruct H4 as [-> ->]. done.
Qed.

Lemma emit_spec chunk err s : let '(s', r) := emitPCM chunk err s in
  activeCodec s' = activeCodec s /\ decoder s' = decoder s /\ aac s' = aac s /\ aacPCM s' = aacPCM s /\ aacDone s' = aacDone s /\
  ready s' = ready s /\ fed s' = fed s /\ pcm s' = pcm s ++ (if r then [] else if decide (chunk = []) then [] else [chunk]).
Proof. unfold emitPCM. destruct (decide (chunk = [])); [|destruct err]; cbn; rewrite ?app_nil_r; auto 10. Qed.

Lemma on_adpcm_spec cfg rate data w s l e : 0 < rate -> 0 < OutputRate cfg -> settled cfg rate s l ->
  adpcm_data [e] = [data] -> aac_data [e] = [] -> aac_chunks [e] = [] ->
  match on_adpcm cfg rate data w s with
  | (s', None) => settled cfg rate s' (l ++ [e])
  | (s', Some _) => accounted cfg rate s' l
  end.
Proof.
  intros Hr Ho Hs F1 F2 F3. unfold on_adpcm.
  destruct (_ && _) eqn:Eg; [by apply settled_accounted|]. apply andb_false_iff in Eg.
  set (s1 := signalReady cfg "adpcm" rate s).
  assert (activeCodec s1 = "adpcm" /\ aac s1 = false /\ aacPCM s1 = false /\ aacDone s1 = false /\ fed s1 = [] /\ fed s = [] /\
    aac_data l = [] /\ aac_chunks l = [] /\ pcm s1 = pcm s /\ pcm s = flat_map (block_pcm cfg rate) (adpcm_data l) /\
    ready s1 = [info_of cfg "adpcm" rate] /\ (ready s1 = ready s \/ ready s = [])) as
    (A1 & A2 & A3 & A4 & A5 & A5' & A6 & A7 & A8 & A8' & A9 & A10).
  { subst s1. unfold signalReady. destruct Hs as [E ? ? ? Hp Hrd Hf Hd Ha Hc|E ? ? ? Hf Ha Hc Hp Hrd|first E ? Hf Hd Hh Hp Hrd].
    - rewrite decide_False by (intros Hx; by apply Hx). cbn. rewrite Hrd, Hp, Hd. cbn. split_and!; auto.
    - rewrite decide_True by (by rewrite E). split_and!; auto.
    - rewrite !bool_decide_eq_false, E in Eg. naive_solver. }
  destruct (Adpcm.Decode (decoder s1) data) as [o d] eqn:Ed. pose proof (Decode_fresh (decoder s1) data) as Hfr.
  rewrite Ed in Hfr. cbn [fst] in Hfr. set (c := default [] o). fold c.
  assert (block_pcm cfg rate data = if decide (c = []) then [] else
    [if negb (rate =? OutputRate cfg) then resampleLinear c rate (OutputRate cfg) else c]) as Hb by (unfold block_pcm; by rewrite <- Hfr).
  assert (forall s2, activeCodec s2 = activeCodec s1 -> aac s2 = aac s1 -> aacPCM s2 = aacPCM s1 -> aacDone s2 = aacDone s1 ->
    fed s2 = fed s1 -> ready s2 = ready s1 -> pcm s2 = pcm s1 ++ block_pcm cfg rate data -> settled cfg rate s2 (l ++ [e])) as Hok.
  { intros s2 B1 B2 B3 B4 B5 B6 B7. apply ByAdpcm; rewrite ?adpcm_snoc, ?aac_snoc, ?chunks_snoc, ?F1, ?F2, ?F3, ?app_nil_r; try congruence.
    rewrite flat_map_app. cbn [flat_map]. rewrite app_nil_r. congruence. }
  destruct (Z.eqb_spec (len c) 0) as [E0%len_0|E0].
  { apply Hok; try done. rewrite Hb, decide_True by done. by rewrite app_nil_r. }
  assert (c <> []) as Hc by (by intros ->).
  set (out := if negb (rate =? OutputRate cfg) then _ else c) in *.
  assert (out <> []) as Hout.
  { by apply resampled_nonempty. }
  pose proof (emit_spec out (emit_err w) (s1 <| decoder := d |>)) as He. destruct (emitPCM out _ _) as [s2 r].
  destruct He as (B1 & _ & B2 & B3 & B4 & B5 & B6 & B7). cbn in B1, B2, B3, B4, B5, B6, B7. destruct r as [err|].
  - rewrite app_nil_r in B7. apply (accounted_last cfg rate s); try congruence. destruct A10 as [A10|A10]; [left; congruence|].
    right. split; [done|]. rewrite B5, A9. eauto.
  - rewrite decide_False in B7 by done. apply Hok; try done. rewrite B7, Hb, decide_False by done. done.
Qed.

Lemma feed_spec data w s : match feed_aac data w s with
  | (s', None) => s' = s <| fed ::= fun l => l ++ [data] |>
  | (s', Some _) => s' = s
  end.
Proof. unfold feed_aac. by destruct (write_err w). Qed.
Lemma on_aac_spec {U : Unicode} cfg rate data w s l e : settled cfg rate s l ->
  adpcm_data [e] = [] -> aac_data [e] = [data] -> aac_chunks [e] = [] ->
  match on_aac cfg data w s with
  | (s', None) => settled cfg rate s' (l ++ [e])
  | (s', Some _) => accounted cfg rate s' l
  end.
Proof.
  intros Hs F1 F2 F3. unfold on_aac.
  destruct (_ && _) eqn:Eg; [by apply settled_accounted|]. apply andb_false_iff in Eg.
  destruct (aac s) eqn:Ea.
  - pose proof (feed_spec data w s) as H. destruct (feed_aac data w s) as [s' [err|]]; subst s'; [by apply settled_accounted|].
    destruct Hs as [| |first E ? Hf Hd Hh Hp Hr]; try congruence.
    apply (ByAac _ _ _ _ first); rewrite ?adpcm_snoc, ?aac_snoc, ?chunks_snoc, ?F1, ?F2, ?F3, ?app_nil_r; cbn; try congruence.
    destruct (aac_data l); [done|]. exact Hh.
  - destruct (decide _); [by apply settled_accounted|]. destruct (start_err w); [by apply settled_accounted|].
    destruct Hs as [E ? ? ? Hp Hr Hf Hd Ha Hc|E|? ? Ea']; [| |congruence].
    2: { rewrite !bool_decide_eq_false, E in Eg. naive_solver. }
    set (s1 := signalReady _ _ _ _ <| aacPCM := true |> <| aacDone := true |>).
    assert (s1 = mkState "aac" (decoder s) true true true [] [info_of cfg "aac" (adtsSampleRate data)] []) as ->.
    { subst s1. unfold signalReady. rewrite decide_False by (intros Hx; by apply Hx). cbn. by rewrite Hp, Hr, Hf. }
    match goal with |- context [feed_aac data w ?x] => pose proof (feed_spec data w x) as Hfs end.
    destruct (feed_aac data w _) as [s' [err|]]; subst s'.
    + apply (accounted_last cfg rate s); [by apply ByNone|by rewrite Hp|by rewrite Hf|]. right. split; [done|]. by eexists.
    + apply (ByAac _ _ _ _ data); rewrite ?adpcm_snoc, ?aac_snoc, ?chunks_snoc, ?F1, ?F2, ?F3, ?Hd, ?Ha, ?Hc; done.
Qed.

Lemma step_spec {U : Unicode} cfg rate s l e : 0 < rate -> 0 < OutputRate cfg -> settled cfg rate s l -> possible s e = true ->
  match step cfg rate s e with
  | (s', None) => settled cfg rate s' (l ++ [e])
  | (s', Some _) => accounted cfg rate s' l
  end.
Proof.
  intros Hr Ho Hs Hp. pose proof (settled_accounted _ _ _ _ Hs) as Hacc.
  destruct e as [x|x|[c|] err|r|[p|] w]; cbn [step]; try exact Hacc.
  - cbn in Hp. destruct Hs as [| |first E Ea Hf Hd Hh Hpc Hrd]; try congruence.
    pose proof (emit_spec c err s) as He. destruct (emitPCM c err s) as [s' r]. destruct He as (B1 & _ & B2 & B3 & B4 & B5 & B6 & B7).
    destruct r as [e|].
    + rewrite app_nil_r in B7. by apply (accounted_last cfg rate s); [apply (ByAac _ _ _ _ first)|..]; auto.
    + apply (ByAac _ _ _ _ first); rewrite ?adpcm_snoc, ?aac_snoc, ?chunks_snoc; try congruence.
      * cbn. by rewrite app_nil_r, B6.
      * cbn. by rewrite app_nil_r.
      * cbn. by rewrite app_nil_r.
      * rewrite B7, Hpc. f_equal. unfold aac_chunks. cbn. destruct (decide (c = [])) as [->|Hc]; [done|].
        unfold filter, list_filter. by rewrite decide_True.
  - by apply (settled_neutral cfg rate s).
  - cbn in Hp. destruct r as [[[e [|]]|]|]; try (by apply (settled_neutral cfg rate s)).
    by apply (accounted_last cfg rate s); [done..|left].
  - destruct (BcMedia.Kind p) eqn:Ek; try (apply (settled_neutral cfg rate s); try done;
      unfold adpcm_data, aac_data, data_of; cbn; unfold filter, list_filter; by rewrite Ek).
    + apply on_aac_spec; try done; unfold adpcm_data, aac_data, data_of; cbn; unfold filter, list_filter; by rewrite Ek.
    + apply on_adpcm_spec; try done; unfold adpcm_data, aac_data, data_of; cbn; unfold filter, list_filter; by rewrite Ek.
Qed.

Lemma run_spec {U : Unicode} cfg rate : 0 < rate -> 0 < OutputRate cfg -> forall es s l0, settled cfg rate s l0 ->
  let '(s', r, l) := run cfg rate s es in
  accounted cfg rate s' (l0 ++ l) /\ (r = None -> packets_of l = packets_of es) /\ l `sublist_of` es.
Proof.
  intros Hr Ho. induction es as [|e es IH]; intros s l0 Hs; cbn [run].
  { rewrite app_nil_r. split; [by apply settled_accounted|]. done. }
  destruct (possible s e) eqn:Ep.
  - pose proof (step_spec cfg rate s l0 e Hr Ho Hs Ep) as Hst. destruct (step cfg rate s e) as [s1 [x|]].
    + rewrite app_nil_r. split; [done|]. split; [done|]. apply sublist_nil_l.
    + specialize (IH s1 (l0 ++ [e]) Hst). destruct (run cfg rate s1 es) as [[s2 r] l]. destruct IH as (H1 & H2 & H3).
      rewrite <- app_assoc in H1. split; [done|]. split; [|by apply sublist_skip].
      intros Hn. specialize (H2 Hn). unfold packets_of in *. change (e :: l) with ([e] ++ l). change (e :: es) with ([e] ++ es).
      by rewrite !omap_app, H2.
  - specialize (IH s l0 Hs). destruct (run cfg rate s es) as [[s2 r] l]. destruct IH as (H1 & H2 & H3). split; [done|].
    split; [|by apply sublist_cons]. intros Hn. rewrite (H2 Hn). by destruct e.
Qed.
Lemma settled0 cfg rate : settled cfg rate state0 [].
Proof. by apply ByNone. Qed.

(** C23: The camera's audio is heard.  However the camera's stream, any sequence of frames
    the parser knows, is cut into preview messages, between whatever other messages,
    the preview publishes exactly its audio frames; and while the receiver runs on
    them, whatever happens in between, the PCM it hands out is the ADPCM blocks decoded
    one by one and brought to the output rate, or FFmpeg is fed exactly the AAC frames,
    and what it writes, cut into reads anywhere, is handed out as it was written. *)
Theorem camera_audio_heard {U : Unicode} (cfg : Config) (rate st : Z) (es : list pump_event)
    (frames : list (bytes * BcMedia.MediaPacket)) :
  0 < rate -> 0 < OutputRate cfg -> Forall parses frames -> Forall (fun e => undisturbed e = true) es ->
  concat (payloads st es) = concat (map fst frames) ->
  let packets := audio_of frames in
  (exists p, pump_all st (BcMedia.mkParser [] true) es = (packets, Going p)) /\
  forall evs s l, packets_of evs = packets -> run cfg rate state0 evs = (s, None, l) ->
    fed s = data_of BcMedia.MediaPacketAAC packets /\
    pcm s = flat_map (block_pcm cfg rate) (data_of BcMedia.MediaPacketADPCM packets) ++ aac_chunks l /\
    (data_of BcMedia.MediaPacketADPCM packets = [] \/ fed s = [] /\ aac_chunks l = []) /\
    (forall reads out tail, aac_chunks l = read_stdout [] reads -> concat reads = s16le out ++ tail ->
       pcm_ok out -> (length tail <= 1)%nat -> data_of BcMedia.MediaPacketADPCM packets = [] -> concat (pcm s) = out).
Proof.
  intros Hr Ho Hf Hu E. cbv zeta. split; [by apply pump_frames|]. intros evs s l Hp Hrun.
  pose proof (run_spec cfg rate Hr Ho evs state0 [] (settled0 cfg rate)) as H. rewrite Hrun in H. cbn [app] in H.
  destruct H as ((H1 & H2 & H3 & _) & H4 & _). specialize (H4 eq_refl). unfold adpcm_data, aac_data in *. rewrite H4, Hp in *.
  split_and!; try done.
  - destruct H3 as [[H3 _]|[H3 H3']]; [by left|right]. by rewrite H1, H3.
  - intros reads out tail Hc Hw Hok Ht Hn. rewrite H2, Hn, Hc. cbn [flat_map app]. by apply (stdout_intact out reads tail).
Qed.

(** The receiver never mixes codecs.  Whatever happens in whatever order, also up to
    and including the event that ends it: only one of the codecs was heard, the PCM is
    that of the packets taken, in order, without empty blocks, and what it announced,
    at most once and before the first PCM, is the codec and the rate of these packets;
    while it runs no packet is left out. *)
Theorem receiver_one_codec {U : Unicode} (cfg : Config) (rate : Z) (es : list event) :
  0 < rate -> 0 < OutputRate cfg ->
  let '(s, r, l) := run cfg rate state0 es in
  accounted cfg rate s l /\ Forall (fun c => c <> []) (pcm s) /\ (pcm s <> [] -> ready s <> []) /\
  l `sublist_of` es /\ (r = None -> packets_of l = packets_of es).
Proof.
  intros Hr Ho. pose proof (run_spec cfg rate Hr Ho es state0 [] (settled0 cfg rate)) as H.
  destruct (run cfg rate state0 es) as [[s r] l]. cbn [app] in H. destruct H as (H & H2 & H3).
  split; [done|]. destruct H as (H4 & H5 & H6 & H7). split_and!; try done.
  - rewrite H5. apply Forall_app. split.
    + by apply blocks_nonempty.
    + apply Forall_forall. intros c Hc. unfold aac_chunks in Hc. by apply list_elem_of_filter in Hc as [Hc _].
  - intros Hne Hrd. rewrite Hrd in H7. destruct H7 as [Hd Ha]. apply Hne. rewrite H5, Hd. cbn.
    destruct H6 as [[_ H6]|[_ H6]]; auto.
Qed.

(** ** [Open] and [Close] *)

Section open_close.
Context `{U : Unicode} `{X : BcTalk.TalkXml} `{V : PreviewXml}.

#[local] Existing Instances BcTalk.m_ret BcTalk.m_bind.
(** The requests sent and the replies taken go together, one reply for each request, until none comes any more. *)
Definition lockstep (c c' : BcTalk.client) : Prop :=
  exists l k, BcTalk.sent c' = BcTalk.sent c ++ l /\ BcTalk.script c = k ++ BcTalk.script c' /\ (length k = length l \/ BcTalk.script c' = []).
Definition steps {A} (m : BcTalk.M A) : Prop := forall c r c', m c = (r, c') -> lockstep c c'.
Lemma lockstep_same c c' : BcTalk.sent c' = BcTalk.sent c -> BcTalk.script c' = BcTalk.script c -> lockstep c c'.
Proof. intros H1 H2. exists [], []. rewrite app_nil_r, H2. do 2 (split; [done|]). by left. Qed.
Lemma lockstep_trans c1 c2 c3 : lockstep c1 c2 -> lockstep c2 c3 -> lockstep c1 c3.
Proof.
  intros (l1 & k1 & S1 & R1 & H1) (l2 & k2 & S2 & R2 & H2). exists (l1 ++ l2), (k1 ++ k2).
  rewrite S2, S1, R1, R2, <- !app_assoc, !length_app. do 2 (split; [done|]).
  destruct H2 as [H2|H2]; [|by right]. destruct H1 as [H1|H1]; [left; lia|right].
  rewrite R2 in H1. by apply app_eq_nil in H1 as [_ H1].
Qed.
Lemma steps_ret {A} (a : A) : steps (mret a). Proof. intros c r c' [= _ <-]. by apply lockstep_same. Qed.
Lemma steps_throw {A} e : steps (BcTalk.throw (A := A) e). Proof. intros c r c' [= _ <-]. by apply lockstep_same. Qed.
Lemma steps_bind {A B} (m : BcTalk.M A) (f : A -> BcTalk.M B) : steps m -> (forall a, steps (f a)) -> steps (m ≫= f).
Proof.
  intros Hm Hf c r c' [(e & H & _)|(a & c1 & H & H')]%BcTalk.bind_inv; [by eapply Hm|].
  eapply lockstep_trans; [by eapply Hm|by eapply Hf].
Qed.
Lemma steps_try {A} (m : BcTalk.M A) : steps m -> steps (BcTalk.try m).
Proof. intros Hm c r c' H. apply BcTalk.try_inv in H as (y & H & _). by eapply Hm. Qed.
Lemma steps_of_result {A} (r : result A) : steps (BcTalk.of_result r).
Proof. intros c x c' [-> _]%BcTalk.of_result_inv. by apply lockstep_same. Qed.
Lemma steps_of_sum {A} (r : BcTalk.error + A) : steps (BcTalk.of_sum r).
Proof. destruct r; [apply steps_throw|apply steps_ret]. Qed.
Lemma steps_roundTrip req : steps (BcTalk.roundTripRequest req).
Proof.
  intros c r c'. unfold BcTalk.roundTripRequest. cbn. set (q := mkRequest _ _ _ _ _ _ _ _ _). unfold lockstep.
  destruct (BcTalk.script c) as [|[e|m] rest]; intros [= _ <-]; cbn.
  - exists [q], []. do 2 (split; [done|]); by right.
  - exists [q], [inl e]. do 2 (split; [done|]); by left.
  - exists [q], [inr m]. do 2 (split; [done|]); by left.
Qed.
Lemma steps_sendRequest req : steps (BcTalk.sendRequest req).
Proof.
  apply steps_bind; [apply steps_roundTrip|intros m]. apply steps_bind; [|intros []; apply steps_ret].
  intros c r c' ->%BcTalk.check_success_state. by apply lockstep_same.
Qed.
#[local] Hint Resolve steps_ret steps_throw steps_bind steps_try steps_of_result steps_of_sum steps_sendRequest : lockstep.
Lemma steps_Login : steps BcTalk.Login.
Proof.
  intros c r c'. unfold BcTalk.Login. destruct (BcTalk.loggedIn c); [intros [= _ <-]; by apply lockstep_same|]. revert c r c'.
  change (steps BcTalk.login_steps). unfold BcTalk.login_steps.
  assert (forall f, (forall c, BcTalk.sent (f c) = BcTalk.sent c /\ BcTalk.script (f c) = BcTalk.script c) -> steps (BcTalk.modify f)) as Hmod
    by (intros f Hf c r c' [= _ <-]; destruct (Hf c); by apply lockstep_same).
  apply steps_bind; [auto with lockstep|intros nonceResp]. apply steps_bind; [auto with lockstep|intros nonce].
  apply steps_bind; [by apply Hmod|intros []]. apply steps_bind; [intros c r c' [= _ <-]; by apply lockstep_same|intros c0].
  apply steps_bind; [auto with lockstep|intros body]. apply steps_bind; [auto with lockstep|intros m].
  apply Hmod. intros c. by destruct (hasAESKey _).
Qed.
Lemma steps_profile ch : steps (PreferredTalkAudioProfile ch).
Proof.
  apply steps_bind; [apply steps_Login|intros []]. apply steps_bind; [|intros ability; auto with lockstep].
  unfold BcTalk.getTalkAbility. apply steps_bind; [auto with lockstep|intros ext]. apply steps_bind; [auto with lockstep|intros resp].
  repeat case_match; auto with lockstep.
Qed.

(** The request that is the last one sent: its numbers and its body, and the reply taken for it, a success. *)
Definition sent_last (q : request) (id channel streamType : Z) (body : result bytes) : Prop :=
  rMsgID q = id /\ rChannelID q = channel /\ rStreamType q = streamType /\ body = Ok (rBody q).
Definition accepting (m : Message) : Prop := HasPayloadOffset (Class_ (MHeader m)) = true -> ResponseCode (MHeader m) ∈ [200; 201; 300].
Lemma sendRequest_last req c r c' : BcTalk.sendRequest req c = (r, c') ->
  BcTalk.loggedIn c' = BcTalk.loggedIn c /\
  exists q, BcTalk.sent c' = BcTalk.sent c ++ [q] /\ rMsgID q = rMsgID req /\ rChannelID q = rChannelID req /\
    rStreamType q = rStreamType req /\ rBody q = rBody req /\
    forall m, r = inr m -> BcTalk.script c = inr m :: BcTalk.script c' /\ accepting m.
Proof.
  unfold BcTalk.sendRequest. intros H.
  assert (exists x, BcTalk.roundTripRequest req c = (x, c') /\ forall m, r = inr m -> x = inr m /\ accepting m) as (x & Hx & Hr).
  { apply BcTalk.bind_inv in H as [(e & H & ->)|(m & c1 & H & H')]; [by exists (inl e)|].
    apply BcTalk.bind_inv in H' as [(e & H' & ->)|(u & c2 & H' & H'')].
    - apply BcTalk.check_success_state in H' as ->. by exists (inr m).
    - injection H'' as <- <-. assert (success m = Ok tt) as Hm.
      { unfold BcTalk.check_success in H'. destruct (success m) as [[]| |]; [done|discriminate H'..]. }
      apply BcTalk.check_success_state in H' as ->. exists (inr m). split; [done|]. intros m' [= <-]. split; [done|]. intros Hc.
      unfold success in Hm. rewrite Hc in Hm. cbn [negb] in Hm. by case_bool_decide. }
  unfold BcTalk.roundTripRequest in Hx. cbn in Hx.
  destruct (BcTalk.script c) as [|[e|m] rest]; injection Hx as <- <-; cbn;
    (split; [done|eexists; split; [reflexivity|]; do 4 (split; [done|]); intros m' Hm; by destruct (Hr m' Hm) as [[= <-] ?]]).
Qed.
Lemma Login_logged c c' u : BcTalk.Login c = (inr u, c') -> BcTalk.loggedIn c' = true.
Proof.
  intros H. apply BcTalk.Login_spec in H. destruct (BcTalk.loggedIn c) eqn:E; [by destruct H as [_ ->]|].
  destruct H as (l & _ & _ & _ & H & _). exact H.
Qed.
Lemma startPreview_ok ch stream c c' u : startPreview ch stream c = (inr u, c') ->
  BcTalk.loggedIn c' = true /\
  exists c1 q m, lockstep c c1 /\ BcTalk.sent c' = BcTalk.sent c1 ++ [q] /\ BcTalk.script c1 = inr m :: BcTalk.script c' /\ accepting m /\
    sent_last q msgIDVideo ch (streamParams stream).1 (buildPreviewXML ch (streamParams stream).2 stream).
Proof.
  unfold startPreview. intros [(e & _ & [=])|([] & c1 & H1 & H)]%BcTalk.bind_inv.
  pose proof (steps_Login _ _ _ H1) as Hstep. apply Login_logged in H1.
  destruct (streamParams stream) as [st h]. cbn [fst snd].
  apply BcTalk.bind_inv in H as [(e & _ & [=])|(body & c2 & H2 & H)]. apply BcTalk.of_result_inv in H2 as [-> Hb].
  apply BcTalk.bind_inv in H as [(e & _ & [=])|(m & c3 & H3 & H)]. injection H as _ <-.
  apply sendRequest_last in H3 as (L & q & S & Q1 & Q2 & Q3 & Q4 & Q5). split; [congruence|]. destruct (Q5 m eq_refl) as [Q6 Q7].
  exists c1, q, m. unfold sent_last. cbn in *. split_and!; try done. congruence.
Qed.
Lemma StopPreview_sends ch stream c r c' body : BcTalk.loggedIn c = true ->
  buildStopPreviewXML ch (streamParams stream).2 = Ok body -> StopPreview ch stream c = (r, c') ->
  exists q, BcTalk.sent c' = BcTalk.sent c ++ [q] /\ rMsgID q = msgIDVideoStop /\ rChannelID q = ch /\
    rStreamType q = (streamParams stream).1 /\ rBody q = body.
Proof.
  intros Hl Hb. unfold StopPreview. intros H. apply BcTalk.bind_inv in H.
  assert (BcTalk.Login c = (inr tt, c)) as HL by (unfold BcTalk.Login; by rewrite Hl). rewrite HL in H.
  destruct H as [(e & [=] & _)|(? & c1 & [= <- <-] & H)].
  destruct (streamParams stream) as [st h]. cbn [fst snd] in *. rewrite Hb in H.
  apply BcTalk.bind_inv in H as [(e & [=] & _)|(? & c1 & [= <- <-] & H)].
  apply BcTalk.bind_inv in H as [(e & H & _)|(x & c2 & H & H')]; [by apply BcTalk.try_inv in H as (? & _ & [=])|].
  apply BcTalk.try_inv in H as (y & H & [= ->]). apply sendRequest_last in H as (_ & q & S & Q1 & Q2 & Q3 & Q4 & _).
  assert (c' = c2) as ->.
  { destruct y as [[]|m]; [by injection H'..|by apply BcTalk.check_success_state in H']. }
  exists q. by split.
Qed.

(** C28: A preview is started once and stopped.  [Open] succeeds only after the device
    accepted its request, the last one sent, for the channel and stream asked for, the
    substream by default: of the replies, which answer the requests one by one, the one
    to this request is the last one taken, and its status is a success unless its class carries none;
    and then the rate is one that can be resampled.  When [Open] fails no
    connection is left open; and [Close] sends just the stop of the same preview and
    closes the connection. *)
Theorem preview_paired (cfg : Config) (dialed : result BcTalk.client) (body : bytes) :
  let '(o, r) := Open cfg dialed in
  match r, o with
  | Ok _, Some o =>
    8000 <= OutputRate cfg <= 48000 /\ 8000 <= rate o <= 48000 /\
    Channel (config o) = Channel cfg /\ Stream (config o) = (if decide (Stream cfg = "") then StreamSub else Stream cfg) /\
    closed o = false /\
    let '(st, handle) := streamParams (Stream (config o)) in
    (exists c l q k m, dialed = Ok c /\ BcTalk.sent (conn o) = BcTalk.sent c ++ l ++ [q] /\ BcTalk.script c = k ++ inr m :: BcTalk.script (conn o) /\
       length l = length k /\ accepting m /\
       sent_last q msgIDVideo (Channel cfg) st (buildPreviewXML (Channel cfg) handle (Stream (config o)))) /\
    (buildStopPreviewXML (Channel cfg) handle = Ok body ->
       closed (Close o) = true /\
       exists q, BcTalk.sent (conn (Close o)) = BcTalk.sent (conn o) ++ [q] /\ rMsgID q = msgIDVideoStop /\
         rChannelID q = Channel cfg /\ rStreamType q = st /\ rBody q = body)
  | Ok _, None => False
  | _, o => match o with Some o => closed o = true | None => True end
  end.
Proof.
  unfold Open. destruct (_ || _) eqn:Er; [done|]. apply orb_false_iff in Er as [Hlo%Z.ltb_ge Hhi%Z.ltb_ge]. cbv zeta.
  set (cfg1 := if decide (Stream cfg = "") then _ else cfg).
  assert (Channel cfg1 = Channel cfg /\ Stream cfg1 = if decide (Stream cfg = "") then StreamSub else Stream cfg) as [Hc Hs]
    by (subst cfg1; by destruct (decide _)).
  destruct dialed as [c|e|]; [|done..].
  destruct (PreferredTalkAudioProfile (Channel cfg1) c) as [profile c1] eqn:Epr. apply steps_profile in Epr.
  destruct (startPreview (Channel cfg1) (Stream cfg1) c1) as [[e|u] c2] eqn:E; [done|].
  apply startPreview_ok in E as (Hl & c3 & q & m & Hstep & S & R & Ha & Hsent). cbn [rate config closed conn].
  split; [done|]. split.
  { unfold adpcm_rate, defaultADPCMSampleRate. destruct profile as [e|p]; [lia|].
    destruct (Z.leb_spec 8000 (BcTalk.SampleRate p)), (Z.leb_spec (BcTalk.SampleRate p) 48000); cbn; lia. }
  split; [done|]. split; [done|]. split; [done|]. rewrite Hc in Hsent. destruct (streamParams (Stream cfg1)) as [st h] eqn:Est.
  split.
  { destruct (lockstep_trans _ _ _ Epr Hstep) as (l & k & S1 & R1 & H1). exists c, l, q, k, m. rewrite S, S1, R1, R, <- app_assoc.
    do 3 (split; [done|]). split; [destruct H1 as [?|H1]; [done|by rewrite R in H1]|]. by split. }
  intros Hb. unfold Close. cbn [config conn rate].
  destruct (StopPreview (Channel cfg1) (Stream cfg1) c2) as [r c4] eqn:Ex. split; [done|].
  rewrite Hc in Ex. apply (StopPreview_sends _ _ _ _ _ body) in Ex; [|done|by rewrite Est]. by rewrite Est in Ex.
Qed.
End open_close.

(** * Witnesses *)

#[local] Existing Instances ascii_tables BcTalk.test_xml.
Lemma parses_at f p : bytes_ok f -> BcMedia.parseMediaPacket f false = Ok (Some (p, len f)) -> parses (f, p).
Proof. intros Hb E. split; [done|]. intros rest. by destruct (BcMedia.parse_settled_ok _ _ _ _ rest Hb E) as (_ & H & _). Qed.

Definition picture : bytes :=
  le_put 4 0x63643130 ++ s2b "H264" ++ le_put 4 3 ++ le_put 4 0 ++ le_put 4 7 ++ le_put 4 0 ++ [1; 2; 3; 0; 0; 0; 0; 0].
Definition block (p : Z) : bytes := le_put 2 p ++ [0; 0; 0x17; 0x80].
Definition sound (p : Z) : BcMedia.MediaPacket := BcMedia.mkMedia BcMedia.MediaPacketADPCM "" (block p) 0 false None 0 0 0.
Definition seen : BcMedia.MediaPacket := BcMedia.mkMedia BcMedia.MediaPacketPFrame "H264" [] 7 true None 0 0 0.
Definition camera_frames : list (bytes * BcMedia.MediaPacket) :=
  [(BcMedia.serializeTalkADPCMBlock (block 100) 1, sound 100); (picture, seen); (BcMedia.serializeTalkADPCMBlock (block 900) 2, sound 900)].
Definition camera_bytes : bytes := concat (map fst camera_frames).
Definition preview_message (st : Z) (b : bytes) : Message :=
  mkMessage (mkHeader msgIDVideo 0 0 st 0 200 classModernWithOffset 0) [] b "" true None.
Definition preview_events : list pump_event :=
  [Got (Some (preview_message 1 (take 5 camera_bytes))) None; Got None None; Got (Some (preview_message 0 [9; 9])) None;
   Got (Some (preview_message 1 (drop 5 camera_bytes))) None].
Definition calm : surroundings := mkSurroundings None None None None None.
Definition home : Config := mkConfig 0 StreamSub 8000 "".
Lemma camera_audio_heard_witness :
  exists s l, run home 16000 state0 [Packet (Some (sound 100)) calm; Packet (Some (sound 900)) calm] = (s, None, l) /\
    pcm s = flat_map (block_pcm home 16000) [block 100; block 900] ++ aac_chunks l /\ map (fun c => len c) (pcm s) = [2; 2].
Proof.
  destruct (camera_audio_heard home 16000 1 preview_events camera_frames) as [_ H].
  - lia.
  - cbn. lia.
  - unfold camera_frames. repeat (constructor; [apply parses_at; [apply (bool_decide_unpack _); vm_compute; exact I|vm_compute; reflexivity]|]). constructor.
  - repeat constructor.
  - vm_compute. reflexivity.
  - specialize (H [Packet (Some (sound 100)) calm; Packet (Some (sound 900)) calm]).
    assert ((let '(s, r, _) := run home 16000 state0 [Packet (Some (sound 100)) calm; Packet (Some (sound 900)) calm] in
             bool_decide (r = None) && bool_decide (map (fun c => len c) (pcm s) = [2; 2])) = true) as E by (vm_compute; reflexivity).
    destruct (run home 16000 state0 _) as [[s r] l]. apply andb_prop in E as [->%bool_decide_eq_true E%bool_decide_eq_true].
    exists s, l. split; [done|]. split; [|exact E]. by destruct (H s l) as (_ & Hp & _); [reflexivity|reflexivity|].
Defined.

Lemma receiver_one_codec_witness :
  let '(s, r, l) := run home 16000 state0
      [Packet (Some (sound 100)) calm; Packet (Some (BcMedia.mkMedia BcMedia.MediaPacketAAC "" [0xff; 0xf1; 0x6c; 0] 0 false None 0 0 0)) calm] in
  accounted home 16000 s l /\ r = Some "Baichuan preview audio codec changed to AAC" /\ map (fun c => len c) (pcm s) = [2].
Proof.
  pose proof (receiver_one_codec home 16000
    [Packet (Some (sound 100)) calm; Packet (Some (BcMedia.mkMedia BcMedia.MediaPacketAAC "" [0xff; 0xf1; 0x6c; 0] 0 false None 0 0 0)) calm]
    ltac:(lia) ltac:(cbn; lia)) as H.
  destruct (run home 16000 state0 _) as [[s r] l] eqn:E. split; [exact (proj1 H)|].
  assert ((s, r, l) = run home 16000 state0
    [Packet (Some (sound 100)) calm; Packet (Some (BcMedia.mkMedia BcMedia.MediaPacketAAC "" [0xff; 0xf1; 0x6c; 0] 0 false None 0 0 0)) calm]) as E' by (by rewrite E).
  vm_compute in E'. injection E' as -> -> _. split; reflexivity.
Defined.

#[local] Instance test_preview : PreviewXml := {|
  buildPreviewXML ch handle stream := Ok (s2b "preview"); buildStopPreviewXML ch handle := Ok (s2b "stop") |}.
Definition camera : BcTalk.client :=
  BcTalk.fresh_client [BcTalk.hello; BcTalk.answer 1 200; BcTalk.answer 10 200; BcTalk.answer 3 200; BcTalk.answer 4 200].
Lemma preview_paired_witness :
  exists o, Open (mkConfig 2 "" 8000 "") (Ok camera) = (Some o, Ok tt) /\ closed (Close o) = true /\
    map rMsgID (BcTalk.sent (conn (Close o))) = [1; 1; 10; 3; 4].
Proof.
  pose proof (preview_paired (mkConfig 2 "" 8000 "") (Ok camera) (s2b "stop")) as H.
  assert ((let '(o, r) := Open (mkConfig 2 "" 8000 "") (Ok camera) in is_ok r && match o with
             | Some o => bool_decide (map rMsgID (BcTalk.sent (conn (Close o))) = [1; 1; 10; 3; 4]) | None => false end) = true) as E
    by (vm_compute; reflexivity).
  destruct (Open _ _) as [o [[]|e|]]; [|done|done]. destruct o as [o|]; [|done].
  apply andb_prop in E as [_ E%bool_decide_eq_true]. exists o. split; [done|].
  destruct H as (_ & _ & _ & _ & _ & H). destruct (streamParams _). destruct H as [_ H]. split; [by apply H|exact E].
Defined.
End AudioReceiver.
