(* ===== verification/SipText.v ===== *)
(** SIP messages as text: [internal/sip/client.go] and [incoming.go], the parser
    and the builders of requests and responses. *)
From S2P Require Import Prelude GoBytes GoStrings GoText GoCrypto.

Module SipText.

Definition CRLF : string := String (chr 13) (String (chr 10) "").
Definition quote : ascii := chr 34.
Definition quoted (s : string) : string := String quote s +:+ String quote "".

Record Message := mkMessage {
  IsResponse : bool; StatusCode : Z; Reason : string; Method : string; URI : string;
  Headers : gmap string (list string); Body : string; Raw : string;
}.

Section text.
Context `{U : Unicode}.

(** * Reading *)

(** The compact header names. *)
Definition long_name (name : string) : string :=
  if decide (name = "v") then "via"
  else if decide (name = "f") then "from"
  else if decide (name = "t") then "to"
  else if decide (name = "i") then "call-id"
  else if decide (name = "l") then "content-length"
  else if decide (name = "m") then "contact"
  else name.

Definition is_folded (line : string) : bool :=
  match line with String c _ => bool_decide (c = " "%char) || bool_decide (c = chr 9) | "" => false end.

(** [m.Headers[last][len-1] += suffix]. *)
Definition append_last (suffix : string) (vs : list string) : list string :=
  match rev vs with [] => vs | v :: r => rev r ++ [v +:+ suffix] end.

(** One line of the header section: the headers so far and the last name. *)
Definition parse_line (acc : gmap string (list string) * string) (line : string) : gmap string (list string) * string :=
  let '(hs, last) := acc in
  if is_folded line && negb (bool_decide (last = ""))
  then (alter (append_last (" " +:+ TrimSpace line)) last hs, last)
  else
    match SplitN2 line ":" with
    | [k; v] =>
      let name := long_name (ToLower (TrimSpace k)) in
      (<[name := default [] (hs !! name) ++ [TrimSpace v]]> hs, name)
    | _ => acc
    end.
Definition parse_headers (lines : list string) : gmap string (list string) := (foldl parse_line (∅, "") lines).1.

Definition parseMessage (s : string) : result Message :=
  match Index s (CRLF +:+ CRLF) with
  | None => Err "missing SIP header terminator"
  | Some sep =>
    let head := stake sep s in
    let body := sdrop (sep + 4) s in
    match Split head CRLF with
    | [] => Err "empty SIP"
    | first :: lines =>
      match Fields first with
      | f0 :: f1 :: rest =>
        let hs := parse_headers lines in
        if HasPrefix f0 "SIP/"
        then Ok (mkMessage true (Atoi f1).1 (Join rest " ") "" "" hs body s)
        else if decide (f0 = "") then Err "missing method"
        else Ok (mkMessage false 0 "" f0 f1 hs body s)
      | _ => Err "bad start line"
      end
    end
  end.

Definition Header (m : Message) (name : string) : string := default "" (head (default [] (Headers m !! ToLower name))).

Fixpoint param_in (ps : list string) (name : string) : string :=
  match ps with
  | [] => ""
  | p :: r =>
    match SplitN2 (TrimSpace p) "=" with
    | [k; v] => if EqualFold k name then Trim v [quote] else param_in r name
    | _ => param_in r name
    end
  end.
Definition param (h name : string) : string := param_in (tail (Split h ";")) name.

Definition extractURI (h : string) : string :=
  match Index h "<", Index h ">" with
  | Some start, Some end_ =>
    if (start <? end_)%nat then stake (end_ - (start + 1)) (sdrop (start + 1) h)
    else match Index h ";" with Some i => TrimSpace (stake i h) | None => TrimSpace h end
  | _, _ => match Index h ";" with Some i => TrimSpace (stake i h) | None => TrimSpace h end
  end.

Definition cseqMethod (h : string) : string := match Fields h with _ :: m :: _ => ToUpper m | _ => "" end.
Definition cseqNumber (h : string) : Z := match Fields h with [] => 0 | n :: _ => (ParseUint 32 n).1 end.

Fixpoint requestHeader (headers : list string) (name : string) : string :=
  match headers with
  | [] => ""
  | h :: r =>
    let prefix := ToLower name +:+ ":" in
    if HasPrefix (ToLower h) prefix then TrimSpace (sdrop (String.length prefix) h) else requestHeader r name
  end.

(** * Writing *)

Definition escapeDisplay (s : string) : string := ReplaceAll s (String quote "") "'".
Definition fromLine (v : string) : string := "From: " +:+ v.

Record Config := mkConfig {
  Registrar : string; RegistrarPort : Z; Username : string; Password : string; LocalPort : Z; DisplayName : string;
  CodecPreference : string; AcceptIncoming : bool; AllowedCallers : list string; MaxConcurrentCalls : Z;
}.

Definition contactLine (c : Config) (localIP : string) : string :=
  "Contact: <sip:" +:+ Username c +:+ "@" +:+ localIP +:+ ":" +:+ Itoa (LocalPort c) +:+ ";transport=udp>".

Definition baseHeaders (c : Config) (localIP method uri branch : string) (cseq : Z)
    (callID fromURI toURI fromTag toTag : string) : list string :=
  let to := "<" +:+ toURI +:+ ">" in
  let to := if decide (toTag = "") then to else to +:+ ";tag=" +:+ toTag in
  let from := quoted (escapeDisplay (DisplayName c)) +:+ " <" +:+ fromURI +:+ ">;tag=" +:+ fromTag in
  [ "Via: SIP/2.0/UDP " +:+ localIP +:+ ":" +:+ Itoa (LocalPort c) +:+ ";branch=" +:+ branch +:+ ";rport";
    "Max-Forwards: 70"; fromLine from; "To: " +:+ to; "Call-ID: " +:+ callID; "CSeq: " +:+ Itoa cseq +:+ " " +:+ method;
    contactLine c localIP;
    "User-Agent: ReolinkSIPGateway/1.5.0" ].

Definition buildRequest (method uri : string) (headers : list string) (body : string) : string :=
  Join ([method +:+ " " +:+ uri +:+ " SIP/2.0"] ++ headers ++
        ["Content-Length: " +:+ Itoa (Z.of_nat (String.length body)); ""; ""]) CRLF +:+ body.

(** The To header of a response: a tag is added unless there is one. *)
Definition response_to (req : Message) (toTag : string) : string :=
  let to := Header req "to" in
  if negb (bool_decide (toTag = "")) && bool_decide (param to "tag" = "") then to +:+ ";tag=" +:+ toTag else to.
Definition buildResponse (req : Message) (code : Z) (reason toTag : string) (extra : list string) (body : string) : string :=
  let to := response_to req toTag in
  Join (["SIP/2.0 " +:+ Itoa code +:+ " " +:+ reason] ++ map (fun v => "Via: " +:+ v) (default [] (Headers req !! "via")) ++
        ["From: " +:+ Header req "from"; "To: " +:+ to; "Call-ID: " +:+ Header req "call-id"; "CSeq: " +:+ Header req "cseq"] ++
        extra ++
        ["Server: ReolinkSIPGateway/1.5.0"; "Content-Length: " +:+ Itoa (Z.of_nat (String.length body)); ""; ""]) CRLF
  +:+ body.

(** For the names [sendResponse] passes. *)
Definition canonical (s : string) : string :=
  if decide (s = "call-id") then "Call-ID" else if decide (s = "cseq") then "CSeq"
  else ToUpper (stake 1 s) +:+ sdrop 1 s.

(** The packet of [sendResponse]. *)
Definition plainResponse (req : Message) (code : Z) (reason : string) : string :=
  Join (["SIP/2.0 " +:+ Itoa code +:+ " " +:+ reason] ++
        concat (map (fun name => map (fun v => canonical name +:+ ": " +:+ v) (default [] (Headers req !! name)))
                  ["via"; "from"; "to"; "call-id"; "cseq"]) ++
        ["Content-Length: 0"; ""; ""]) CRLF.

(** [sendCancel]: the headers of the INVITE that are repeated; the last of each
    kind wins. *)
Definition last_with (prefix : string) (headers : list string) : string :=
  default "" (last (filter (fun h => Is_true (HasPrefix (ToLower h) prefix)) headers)).
Definition cancelRequest (uri : string) (cseq : Z) (inviteHeaders : list string) : string :=
  buildRequest "CANCEL" uri
    [last_with "via:" inviteHeaders; "Max-Forwards: 70"; last_with "from:" inviteHeaders; last_with "to:" inviteHeaders;
     last_with "call-id:" inviteHeaders; "CSeq: " +:+ Itoa cseq +:+ " CANCEL"] "".

Definition serverInviteKey (req : Message) : string :=
  Join [Header req "call-id"; Itoa (cseqNumber (Header req "cseq")); param (Header req "via") "branch"] "|".

Definition statelessResponseTag (req : Message) : string :=
  hex_encode (take 8 (SHA256.Sum (s2b (serverInviteKey req)))).

Definition allowLine : string := "Allow: INVITE, ACK, CANCEL, BYE, OPTIONS".
Definition taggedResponse (req : Message) (code : Z) (reason : string) : string :=
  buildResponse req code reason (statelessResponseTag req) [allowLine] "".

Definition validateIncomingInviteHeaders (req : Message) : result unit :=
  _ ← fail_if (existsb (fun name => bool_decide (TrimSpace (Header req name) = "")) ["via"; "from"; "to"; "call-id"; "cseq"])
        "missing header";
  _ ← fail_if (bool_decide (param (Header req "via") "branch" = "")) "top Via has no branch";
  _ ← fail_if (bool_decide (param (Header req "from") "tag" = "")) "From has no tag";
  fail_if ((cseqNumber (Header req "cseq") =? 0) || negb (bool_decide (cseqMethod (Header req "cseq") = "INVITE")))
    "invalid INVITE CSeq".
End text.

(** * Reading back what was written *)

Section roundtrip.
Context `{U : Unicode}.

(** A header line as the builders write it. *)
Definition header_line (h : string * string) : string := h.1 +:+ ": " +:+ h.2.
(** The name under which the parser files it. *)
Definition filed_name (h : string * string) : string := long_name (ToLower (TrimSpace h.1)).

Definition no_cr (s : string) : bool := sall (isnt (chr 13)) s.
(** A header the wire can carry: one line, a name without a colon that is not
    a folding blank, and a value without surrounding white space. *)
Record header_ok (h : string * string) : Prop := {
  name_shape : sall (fun c => isnt ":" c && isnt (chr 13) c) h.1 = true;
  name_unfolded : is_folded h.1 = false;
  name_not_empty : h.1 <> "";
  value_line : no_cr h.2 = true;
  value_trimmed : TrimSpace h.2 = h.2;
}.

(** The values filed under a name, in order. *)
Definition values_of (hs : list (string * string)) (k : string) : list string :=
  map snd (filter (fun h => filed_name h = k) hs).

Lemma is_folded_app s t : s <> "" -> is_folded (s +:+ t) = is_folded s.
Proof. by destruct s. Qed.

Lemma parse_line_header acc h : header_ok h ->
  parse_line acc (header_line h) =
  (<[filed_name h := default [] (acc.1 !! filed_name h) ++ [h.2]]> acc.1, filed_name h).
Proof.
  intros [Hn Hf He _ Ht]. destruct acc as [hs last]. unfold parse_line, header_line.
  rewrite is_folded_app, Hf by done. cbn [andb].
  assert (h.1 +:+ ": " +:+ h.2 = h.1 +:+ String ":" (String " " h.2)) as -> by done.
  rewrite SplitN2_found by (eapply sall_weaken; [|exact Hn]; intros c Hc; by apply andb_prop in Hc as [-> _]).
  rewrite TrimSpace_blank, Ht. done.
Qed.

Lemma parse_headers_lookup hs k : Forall header_ok hs ->
  default [] (parse_headers (map header_line hs) !! k) = values_of hs k.
Proof.
  intros Hok. unfold parse_headers.
  assert (forall acc, default [] ((foldl parse_line acc (map header_line hs)).1 !! k) =
                      default [] (acc.1 !! k) ++ values_of hs k) as H; [|by rewrite H].
  induction Hok as [|h hs Hh Hhs IH]; intros acc; [cbn; by rewrite app_nil_r|].
  cbn [map foldl]. rewrite parse_line_header, IH by done. cbn [fst]. unfold values_of.
  rewrite filter_cons. destruct (decide (filed_name h = k)) as [<-|Hne].
  - rewrite lookup_insert_eq. cbn. by rewrite <- app_assoc.
  - by rewrite lookup_insert_ne.
Qed.

Lemma header_line_ok h : header_ok h -> no_cr (header_line h) = true /\ header_line h <> "".
Proof.
  intros [Hn _ He Hv _]. unfold no_cr, header_line. split; [|by destruct (h.1)].
  rewrite !sall_app. unfold no_cr in Hv. rewrite Hv. apply andb_true_intro. split; [|done].
  eapply sall_weaken; [|exact Hn]. intros c Hc. by apply andb_prop in Hc as [_ ->].
Qed.

(** A line end in front of a line that is not empty is no terminator. *)
Lemma Index_line_end c r : c <> chr 13 ->
  Index (CRLF +:+ String c r) (String (chr 13) (String (chr 10) CRLF)) =
  Nat.add 2 <$> Index (String c r) (String (chr 13) (String (chr 10) CRLF)).
Proof.
  intros Hc. change (CRLF +:+ String c r) with (String (chr 13) (String (chr 10) (String c r))).
  remember (String c r) as t eqn:Et. cbn [Index HasPrefix]. rewrite Et. unfold CRLF at 1. cbn [HasPrefix].
  rewrite !(decide_True _ _ eq_refl), !(decide_False (P := chr 13 = c)), (decide_False (P := chr 13 = chr 10)) by done.
  by destruct (Index (String c r) _).
Qed.

(** The end of the header section is found where the builders put it. *)
Lemma Index_terminator l body : l <> [] -> Forall (fun x => no_cr x = true /\ x <> "") l ->
  Index (Join l CRLF +:+ CRLF +:+ CRLF +:+ body) (CRLF +:+ CRLF) = Some (String.length (Join l CRLF)).
Proof.
  intros Hne Hall. induction l as [|x [|y l] IH]; [done| |].
  - apply Forall_cons_1 in Hall as [[Hx _] _]. cbn [Join].
    apply (Index_found (chr 13) (String (chr 10) CRLF) x body Hx).
  - apply Forall_cons_1 in Hall as [[Hx _] Hall]. specialize (IH ltac:(done) Hall).
    rewrite Join_cons2, !sapp_assoc. change (CRLF +:+ CRLF) with (String (chr 13) (String (chr 10) CRLF)) in *.
    rewrite (Index_skip (chr 13) _ x) by exact Hx.
    apply Forall_cons_1 in Hall as [[Hy Hye] _]. destruct y as [|c y]; [done|].
    assert (c <> chr 13) as Hc by (unfold no_cr in Hy; cbn [sall] in Hy; apply andb_prop in Hy as [Hy _]; by apply isnt_true).
    revert IH. set (rest := Join (String c y :: l) CRLF +:+ CRLF +:+ CRLF +:+ body). intros IH.
    assert (exists r, rest = String c r) as [r Hr].
    { unfold rest. destruct l; eexists; cbn [Join]; rewrite scons_app; reflexivity. }
    assert (Index (CRLF +:+ rest) (String (chr 13) (String (chr 10) CRLF)) = Nat.add 2 <$> Index rest (String (chr 13) (String (chr 10) CRLF))) as ->.
    { rewrite Hr. by apply Index_line_end. }
    rewrite IH. cbn. f_equal. rewrite !slength_app. cbn. lia.
Qed.

(** What [parseMessage] sees of a message of the builders' shape. *)
Lemma parse_built start hs body :
  no_cr start = true -> start <> "" -> Forall header_ok hs ->
  let s := Join ([start] ++ map header_line hs ++ [""; ""]) CRLF +:+ body in
  Index s (CRLF +:+ CRLF) = Some (String.length (Join (start :: map header_line hs) CRLF)) /\
  stake (String.length (Join (start :: map header_line hs) CRLF)) s = Join (start :: map header_line hs) CRLF /\
  sdrop (String.length (Join (start :: map header_line hs) CRLF) + 4) s = body /\
  Split (Join (start :: map header_line hs) CRLF) CRLF = start :: map header_line hs.
Proof.
  intros Hs Hse Hh s. set (ls := start :: map header_line hs).
  assert (Forall (fun x => no_cr x = true /\ x <> "") ls) as Hall.
  { constructor; [done|]. apply Forall_map. eapply Forall_impl; [exact Hh|]. intros h H. by apply header_line_ok. }
  assert (s = Join ls CRLF +:+ CRLF +:+ CRLF +:+ body) as ->.
  { unfold s. rewrite app_assoc. change ([start] ++ map header_line hs) with ls. rewrite Join_app by done.
    rewrite !sapp_assoc. do 2 f_equal. }
  split; [by apply Index_terminator|]. split; [apply stake_app|]. split.
  { rewrite sdrop_app. done. }
  apply (Split_Join (chr 13) (String (chr 10) "")); [done|]. eapply Forall_impl; [exact Hall|]. by intros x [? _].
Qed.

Lemma token_no_cr t : sall token_char t = true -> no_cr t = true.
Proof.
  apply sall_weaken. intros c Hc. apply isnt_true. intros ->. by vm_compute in Hc.
Qed.
Lemma no_cr_app s t : no_cr (s +:+ t) = no_cr s && no_cr t.
Proof. apply sall_app. Qed.
Lemma token_sall t : token t = true -> sall token_char t = true.
Proof. by destruct t. Qed.

(** A value the wire can carry. *)
Record wire_value (v : string) : Prop := { wire_line : no_cr v = true; wire_trimmed : TrimSpace v = v }.

Lemma token_runes t : sall token_char t = true ->
  runes t = map (fun z => (z, [z])) (s2b t) /\ Forall (fun z => is_space z = false) (s2b t).
Proof.
  induction t as [|c t IH]; [done|]. cbn [sall]. intros H. apply andb_prop in H as [[Hc Hs]%token_char_spec Ht].
  destruct (IH Ht) as [E F]. rewrite runes_cons, E by done. by split; [|constructor].
Qed.
Lemma drop_while_none {A} (f : A -> bool) l : Forall (fun x => f x = false) l -> drop_while f l = l.
Proof. intros H. destruct H as [|x l Hx _]; [done|]. cbn. by rewrite Hx. Qed.
Lemma token_wire t : sall token_char t = true -> wire_value t.
Proof.
  intros Ht. split; [by apply token_no_cr|]. destruct (token_runes t Ht) as [E F]. unfold TrimSpace. rewrite E.
  assert (Forall (fun r : Z * bytes => is_space r.1 = false) (map (fun z => (z, [z])) (s2b t))) as G
    by (apply Forall_map; exact F).
  rewrite (drop_while_none _ _ G), drop_while_none by (by apply Forall_rev). rewrite rev_involutive, map_map.
  assert (forall l, concat (map (fun z : Z => [z]) l) = l) as C by (induction l; cbn; congruence).
  cbn [snd]. rewrite C. apply b2s_s2b.
Qed.

(** A header the gateway itself names. *)
Lemma named_ok n v : sall (fun c => isnt ":" c && isnt (chr 13) c) n && negb (is_folded n) && negb (bool_decide (n = "")) = true ->
  wire_value v -> header_ok (n, v).
Proof.
  intros H [Hv Ht]. apply andb_prop in H as [[H1 H2]%andb_prop H3]. apply negb_true_iff in H2, H3.
  apply bool_decide_eq_false in H3. by split.
Qed.

Definition length_header (body : string) : string * string := ("Content-Length", Itoa (Z.of_nat (String.length body))).
Lemma length_header_ok body : header_ok (length_header body).
Proof. apply named_ok; [done|]. apply token_wire, token_Itoa. lia. Qed.

(** What the client sends can be read: a request built from a method, a
    URI and headers that fit a line parses back as exactly that request, every
    header under its lower-case long name with its values in order, the length
    of the body added and the body untouched. *)
Theorem request_parses (method uri : string) (hs : list (string * string)) (body : string) :
  token method = true -> HasPrefix method "SIP/" = false -> token uri = true -> Forall header_ok hs ->
  exists m, parseMessage (buildRequest method uri (map header_line hs) body) = Ok m /\
    IsResponse m = false /\ Method m = method /\ URI m = uri /\ Body m = body /\
    forall k, default [] (Headers m !! k) = values_of (hs ++ [length_header body]) k.
Proof.
  intros Hm Hsip Hu Hh. set (start := method +:+ " " +:+ uri +:+ " SIP/2.0").
  assert (Forall header_ok (hs ++ [length_header body])) as Hall
    by (apply Forall_app; split; [done|]; constructor; [apply length_header_ok|constructor]).
  assert (no_cr start = true /\ start <> "") as [Hs Hse].
  { split; [|by destruct method]. unfold start. rewrite !no_cr_app.
    by rewrite (token_no_cr method), (token_no_cr uri) by (by apply token_sall). }
  destruct (parse_built start _ body Hs Hse Hall) as (I & K & D & S).
  assert (buildRequest method uri (map header_line hs) body =
          Join ([start] ++ map header_line (hs ++ [length_header body]) ++ [""; ""]) CRLF +:+ body) as E
    by (unfold buildRequest; by rewrite map_app, <- !app_assoc).
  unfold parseMessage. rewrite E, I, K, D, S. cbv zeta.
  assert (Fields start = [method; uri; "SIP/2.0"]) as -> by (apply (Fields_Join [method; uri; "SIP/2.0"]); by repeat constructor).
  rewrite Hsip, decide_False by (by destruct method). eexists. do 5 (split; [done|]).
  intros k. cbn [Headers]. by apply parse_headers_lookup.
Qed.

Definition response_headers (req : Message) (toTag : string) (extra : list (string * string)) (body : string) :=
  map (pair "Via") (default [] (Headers req !! "via")) ++
  [("From", Header req "from"); ("To", response_to req toTag); ("Call-ID", Header req "call-id"); ("CSeq", Header req "cseq")] ++
  extra ++ [("Server", "ReolinkSIPGateway/1.5.0"); length_header body].

Lemma values_of_app l r k : values_of (l ++ r) k = values_of l k ++ values_of r k.
Proof. unfold values_of. by rewrite filter_app, map_app. Qed.
Lemma values_of_same n vs : values_of (map (pair n) vs) (filed_name (n, "")) = vs.
Proof. unfold values_of. induction vs as [|v vs IH]; [done|]. cbn [map]. rewrite filter_cons_True by done. cbn. by rewrite IH. Qed.
Lemma values_of_none hs k : Forall (fun h => filed_name h <> k) hs -> values_of hs k = [].
Proof. unfold values_of. induction 1 as [|h hs Hh _ IH]; [done|]. by rewrite filter_cons_False. Qed.

(** The headers that identify a transaction. *)
Definition dialog_names : list string := ["via"; "from"; "to"; "call-id"; "cseq"].

Lemma no_cr_Join ws : Forall (fun w => token w = true) ws -> no_cr (Join ws " ") = true.
Proof.
  induction 1 as [|w ws Hw _ IH]; [done|]. destruct ws as [|v ws]; [by apply token_no_cr, token_sall|].
  rewrite Join_cons2, !no_cr_app, IH. by rewrite (token_no_cr w) by (by apply token_sall).
Qed.

(** The dialog headers of a message whose headers are those of a response. *)
Lemma answered req m toTag extra body :
  (forall k, default [] (Headers m !! k) = values_of (response_headers req toTag extra body) k) ->
  Forall (fun h => filed_name h ∉ dialog_names) extra ->
  default [] (Headers m !! "via") = default [] (Headers req !! "via") /\
  Header m "from" = Header req "from" /\ Header m "to" = response_to req toTag /\
  Header m "call-id" = Header req "call-id" /\ Header m "cseq" = Header req "cseq" /\
  serverInviteKey m = serverInviteKey req.
Proof.
  intros H Hex.
  assert (forall k, k ∈ dialog_names -> default [] (Headers m !! k) =
    values_of (map (pair "Via") (default [] (Headers req !! "via"))) k ++
    values_of [("From", Header req "from"); ("To", response_to req toTag); ("Call-ID", Header req "call-id");
               ("CSeq", Header req "cseq")] k) as Hk.
  { intros k Hin. rewrite H. unfold response_headers. rewrite !values_of_app. f_equal.
    rewrite (values_of_none extra), (values_of_none [_; length_header body]); [by rewrite !app_nil_r| |].
    - assert (k <> "server" /\ k <> "content-length") as [H1 H2] by (split; intros ->; by apply bool_decide_unpack in Hin || by apply (bool_decide_pack _) in Hin).
      repeat constructor; [by intros <-|by intros <-].
    - eapply Forall_impl; [exact Hex|]. intros h Hh. cbv beta. by intros <-. }
  assert (default [] (Headers m !! "via") = default [] (Headers req !! "via")) as Hvia.
  { rewrite Hk by (by vm_compute; left). rewrite (values_of_same "Via"). by rewrite app_nil_r. }
  assert (forall k v, k ∈ dialog_names -> filed_name ("Via", "") <> k ->
    values_of [("From", Header req "from"); ("To", response_to req toTag); ("Call-ID", Header req "call-id");
               ("CSeq", Header req "cseq")] k = [v] -> default "" (head (default [] (Headers m !! k))) = v) as Hone.
  { intros k v Hin Hne Hv. rewrite Hk, Hv by done. rewrite values_of_none; [done|].
    apply Forall_map, Forall_true. intros w. exact Hne. }
  assert (Header m "from" = Header req "from") as Hf by (apply Hone; [set_solver|done|done]).
  assert (Header m "to" = response_to req toTag) as Ht by (apply Hone; [set_solver|done|done]).
  assert (Header m "call-id" = Header req "call-id") as Hi by (apply Hone; [set_solver|done|done]).
  assert (Header m "cseq" = Header req "cseq") as Hc by (apply Hone; [set_solver|done|done]).
  repeat (split; [done|]). unfold serverInviteKey. rewrite Hi, Hc. do 3 f_equal. unfold Header.
  change (ToLower "via") with "via". by rewrite Hvia.
Qed.

(** A response belongs to its request: it parses back with the given
    status and reason, with every Via of the request in order, its From, Call-ID
    and CSeq, and the To with the given tag, so both sides compute the same
    transaction key. *)
Theorem response_answers (req : Message) (code : Z) (words : list string) (toTag : string)
    (extra : list (string * string)) (body : string) :
  0 <= code < 2 ^ 63 -> Forall (fun w => token w = true) words ->
  Forall wire_value (default [] (Headers req !! "via")) ->
  Forall (fun n => wire_value (Header req n)) ["from"; "call-id"; "cseq"] -> wire_value (response_to req toTag) ->
  Forall header_ok extra -> Forall (fun h => filed_name h ∉ dialog_names) extra ->
  exists m, parseMessage (buildResponse req code (Join words " ") toTag (map header_line extra) body) = Ok m /\
    IsResponse m = true /\ StatusCode m = code /\ Reason m = Join words " " /\ Body m = body /\
    default [] (Headers m !! "via") = default [] (Headers req !! "via") /\
    Header m "from" = Header req "from" /\ Header m "to" = response_to req toTag /\
    Header m "call-id" = Header req "call-id" /\ Header m "cseq" = Header req "cseq" /\
    serverInviteKey m = serverInviteKey req.
Proof.
  intros Hc Hw Hvia Hn Hto Hex Hdis. set (start := "SIP/2.0 " +:+ Itoa code +:+ " " +:+ Join words " ").
  set (hs := response_headers req toTag extra body).
  apply Forall_cons in Hn as [Hfrom Hn]. apply Forall_cons in Hn as [Hid Hn]. apply Forall_cons in Hn as [Hcs _].
  assert (Forall header_ok hs) as Hall.
  { unfold hs, response_headers. rewrite !Forall_app. split.
    - apply Forall_map. eapply Forall_impl; [exact Hvia|]. intros v Hv. by apply named_ok.
    - split; [repeat (apply Forall_cons; split; [by apply named_ok|]); by apply Forall_nil|]. split; [done|].
      apply Forall_cons; split; [by apply named_ok|]. apply Forall_cons; split; [apply length_header_ok|by apply Forall_nil]. }
  assert (no_cr start = true /\ start <> "") as [Hs Hse].
  { split; [|done]. unfold start. rewrite !no_cr_app, (token_no_cr (Itoa code)) by (apply token_Itoa; lia).
    by rewrite (no_cr_Join words). }
  destruct (parse_built start _ body Hs Hse Hall) as (I & K & D & S).
  assert (buildResponse req code (Join words " ") toTag (map header_line extra) body =
          Join ([start] ++ map header_line hs ++ [""; ""]) CRLF +:+ body) as E.
  { unfold buildResponse, hs, response_headers. rewrite !map_app, map_map. cbv zeta.
    by rewrite <- !app_assoc. }
  unfold parseMessage. rewrite E, I, K, D, S. cbv zeta.
  assert (Fields start = "SIP/2.0" :: Itoa code :: words) as ->.
  { destruct words as [|w ws].
    - unfold start. cbn [Join]. change ("SIP/2.0 " +:+ Itoa code +:+ " " +:+ "") with ("SIP/2.0" +:+ String " " (Itoa code +:+ String " " "")).
      by rewrite !Fields_token by (done || apply Itoa_token; lia).
    - apply (Fields_Join ("SIP/2.0" :: Itoa code :: w :: ws)). constructor; [done|]. constructor; [apply Itoa_token; lia|done]. }
  change (HasPrefix "SIP/2.0" "SIP/") with true. cbv iota. rewrite Atoi_Itoa by done.
  eexists. do 5 (split; [done|]).
  apply (answered req _ toTag extra body); [|done]. intros k. cbn [Headers]. by apply parse_headers_lookup.
Qed.
End roundtrip.

(** ** Witnesses: an INVITE on the wire and its answer *)

Lemma header_ok_by `{U : Unicode} n v :
  sall (fun c => isnt ":" c && isnt (chr 13) c) n && negb (is_folded n) && negb (bool_decide (n = "")) &&
  no_cr v && bool_decide (TrimSpace v = v) = true -> header_ok (n, v).
Proof.
  intros H. apply andb_prop in H as [[H1 H2]%andb_prop H3]. apply named_ok; [done|]. split; [done|].
  by apply bool_decide_eq_true in H3.
Qed.

Definition invite_headers : list (string * string) :=
  [("v", "SIP/2.0/UDP 192.0.2.7:5060;branch=z9hG4bK-1;rport"); ("From", "<sip:anna@pbx>;tag=a1"); ("To", "<sip:door@pbx>");
   ("Call-ID", "77@192.0.2.7"); ("CSeq", "1 INVITE")].

Lemma request_parses_witness :
  let U := ascii_tables in
  exists m, parseMessage (buildRequest "INVITE" "sip:door@pbx" (map header_line invite_headers) "v=0") = Ok m /\
    Method m = "INVITE" /\ Body m = "v=0" /\ Header m "call-id" = "77@192.0.2.7" /\
    Header m "via" = "SIP/2.0/UDP 192.0.2.7:5060;branch=z9hG4bK-1;rport".
Proof.
  intros U.
  destruct (request_parses "INVITE" "sip:door@pbx" invite_headers "v=0") as (m & E & _ & Hm & _ & Hb & Hh);
    [reflexivity|reflexivity|reflexivity|repeat (apply Forall_cons; split; [apply header_ok_by; vm_compute; reflexivity|]); by apply Forall_nil|].
  exists m. split; [exact E|]. split; [exact Hm|]. split; [exact Hb|]. unfold Header. rewrite !Hh.
  split; vm_compute; reflexivity.
Defined.

Definition invite : Message :=
  mkMessage false 0 "" "INVITE" "sip:door@pbx"
    (list_to_map [("via", ["SIP/2.0/UDP 192.0.2.7:5060;branch=z9hG4bK-1;rport"]); ("from", ["<sip:anna@pbx>;tag=a1"]);
                  ("to", ["<sip:door@pbx>"]); ("call-id", ["77@192.0.2.7"]); ("cseq", ["1 INVITE"])]) "" "".

Lemma response_answers_witness :
  let U := ascii_tables in
  exists m, parseMessage (buildResponse invite 486 "Busy Here" "t9" [allowLine] "") = Ok m /\
    StatusCode m = 486 /\ Reason m = "Busy Here" /\ Header m "to" = "<sip:door@pbx>;tag=t9" /\
    serverInviteKey m = "77@192.0.2.7|1|z9hG4bK-1".
Proof.
  intros U.
  destruct (response_answers invite 486 ["Busy"; "Here"] "t9" [("Allow", "INVITE, ACK, CANCEL, BYE, OPTIONS")] "")
    as (m & E & _ & Hc & Hr & _ & _ & _ & Ht & _ & _ & Hk).
  { split; reflexivity || discriminate. }
  { repeat (apply Forall_cons; split; [reflexivity|]); by apply Forall_nil. }
  { repeat (apply Forall_cons; split; [split; vm_compute; reflexivity|]); by apply Forall_nil. }
  { repeat (apply Forall_cons; split; [split; vm_compute; reflexivity|]); by apply Forall_nil. }
  { split; vm_compute; reflexivity. }
  { apply Forall_cons; split; [apply header_ok_by; vm_compute; reflexivity|by apply Forall_nil]. }
  { apply Forall_cons; split; [|by apply Forall_nil]. apply (bool_decide_unpack _). vm_compute. exact I. }
  exists m. split; [exact E|]. split; [exact Hc|]. split; [exact Hr|].
  split; [rewrite Ht|rewrite Hk]; vm_compute; reflexivity.
Defined.
End SipText.
