(* ===== verification/Sdp.v ===== *)
(** SDP offers and answers: [internal/sip/client.go] and [incoming.go].

    [net.ParseIP], [net.ResolveIPAddr] and [net.IP.String] are the parameters
    of the class [NetIP]; the clock and the local address are arguments. *)
From S2P Require Import Prelude GoStrings GoText SipText.

(** The addresses of [net]. *)
Class NetIP := {
  IP : Type;
  ip_eq :: EqDecision IP;
  ParseIP : string -> option IP;
  ResolveIPAddr : string -> option IP;
  IPString : IP -> string;
}.

Module Sdp.
Import SipText.
Section sdp.
Context `{U : Unicode} `{N : NetIP}.

Record Codec := mkCodec { Name : string; PayloadType : Z }.
Record TelephoneEvent := mkTelephoneEvent { TEPayloadType : Z; ClockRate : Z }.
(** [net.UDPAddr]. *)
Record UDPAddr := mkAddr { AddrIP : IP; AddrPort : Z }.
Record negotiatedAudio := mkNegotiated {
  MCodec : Codec; MRemoteRTP : UDPAddr; MTelephoneEvent : option TelephoneEvent;
}.

(** * Parsing *)

(** The variables of the loop of [parseAudioSDP]. *)
Record scan := mkScan {
  payloads : list Z; rtpmap : gmap Z string; rtpclock : gmap Z Z;
  sessionIP : string; audioIP : string; port : Z; inAudio : bool; beforeMedia : bool;
}.
#[export] Instance eta_scan : Eta scan := fun s =>
  mkScan (payloads s) (rtpmap s) (rtpclock s) (sessionIP s) (audioIP s) (port s) (inAudio s) (beforeMedia s).
Definition scan0 : scan := mkScan [] ∅ ∅ "" "" 0 false true.

(** The payload types of a media line that are numbers from 0 to 127. *)
Definition payload_types (values : list string) : list Z :=
  omap (fun v => let '(pt, ok) := Atoi v in if ok && (0 <=? pt) && (pt <=? 127) then Some pt else None) values.

Definition media_line (s : scan) (line : string) : scan :=
  match Fields (TrimPrefix line "m=") with
  | _ :: p :: _ :: v :: rest =>
    if port s =? 0
    then s <| inAudio := true |> <| port := (Atoi p).1 |>
           <| payloads := payloads s ++ payload_types (v :: rest) |> <| beforeMedia := false |>
    else s <| inAudio := false |> <| beforeMedia := false |>
  | _ => s <| inAudio := false |> <| beforeMedia := false |>
  end.
Definition address_line (s : scan) (line : string) : scan :=
  match Fields (TrimSpace (TrimPrefix line "c=IN IP4 ")) with
  | [] => s
  | c :: _ =>
    if inAudio s then s <| audioIP := c |>
    else if beforeMedia s && bool_decide (sessionIP s = "") then s <| sessionIP := c |> else s
  end.
Definition rtpmap_line (s : scan) (line : string) : scan :=
  match SplitN2 (TrimPrefix line "a=rtpmap:") " " with
  | [p; e] =>
    let '(pt, ok) := Atoi p in
    if ok : bool then
      let encoding := Split e "/" in
      let s := s <| rtpmap ::= <[pt := ToUpper (default "" (head encoding))]> |> in
      match encoding with
      | _ :: clock :: _ => s <| rtpclock ::= <[pt := (Atoi clock).1]> |>
      | _ => s
      end
    else s
  | _ => s
  end.
Definition sdp_line (s : scan) (raw : string) : scan :=
  let line := TrimSpace raw in
  if HasPrefix line "m=audio " then media_line s line
  else if HasPrefix line "m=" then s <| inAudio := false |> <| beforeMedia := false |>
  else if HasPrefix line "c=IN IP4 " then address_line s line
  else if inAudio s && HasPrefix line "a=rtpmap:" then rtpmap_line s line
  else s.

Definition LF : string := String (chr 10) "".
Definition sdp_scan (text : string) : scan := foldl sdp_line scan0 (Split (ReplaceAll text CRLF LF) LF).

(** [parsedAudioSDP]: the scan and the remote address. *)
Definition parseAudioSDP (text : string) : result (scan * UDPAddr) :=
  let p := sdp_scan text in
  _ ← fail_if ((port p <? 1) || (65535 <? port p) || bool_decide (payloads p = [])) "has no usable audio media";
  let ipText := if decide (audioIP p = "") then sessionIP p else audioIP p in
  _ ← fail_if (bool_decide (ipText = "") || bool_decide (ipText = "0.0.0.0")) "has no usable audio address";
  match ParseIP ipText with
  | Some ip => Ok (p, mkAddr ip (port p))
  | None => match ResolveIPAddr ipText with
            | Some ip => Ok (p, mkAddr ip (port p))
            | None => Err "cannot resolve RTP address"
            end
  end.

Definition is_event (answer : bool) (p : scan) (pt : Z) : bool :=
  negb (answer && negb (pt =? 101)) && (96 <=? pt) && (pt <=? 127) &&
  bool_decide (rtpmap p !! pt = Some "TELEPHONE-EVENT") && bool_decide (rtpclock p !! pt = Some 8000).
Definition telephoneEventForPayloads (p : scan) (answer : bool) : option TelephoneEvent :=
  match List.filter (is_event answer p) (payloads p) with
  | pt :: _ => Some (mkTelephoneEvent pt (default 0 (rtpclock p !! pt)))
  | [] => None
  end.

Definition codecForPayload (pt : Z) (m : gmap Z string) : option Codec :=
  let name := default "" (m !! pt) in
  let name := if decide (name = "")
              then (if pt =? 8 then "PCMA" else if pt =? 0 then "PCMU" else "") else name in
  if decide (name = "PCMA" \/ name = "PCMU") then Some (mkCodec (ToLower name) pt) else None.

Definition parseAnswerMedia (text : string) : result negotiatedAudio :=
  '(p, remote) ← parseAudioSDP text;
  match omap (fun pt => codecForPayload pt (rtpmap p)) (payloads p) with
  | c :: _ => Ok (mkNegotiated c remote (telephoneEventForPayloads p true))
  | [] => Err "SIP answer did not select PCMA/PCMU"
  end.

Definition preference_order (preference : string) : list string :=
  if EqualFold (TrimSpace preference) "pcmu" then ["pcmu"; "pcma"] else ["pcma"; "pcmu"].
Definition codecs_named (p : scan) (wanted : string) : list Codec :=
  List.filter (fun c => bool_decide (Name c = wanted)) (omap (fun pt => codecForPayload pt (rtpmap p)) (payloads p)).
Definition parseOfferMedia (text preference : string) : result negotiatedAudio :=
  '(p, remote) ← parseAudioSDP text;
  match concat (map (codecs_named p) (preference_order preference)) with
  | c :: _ => Ok (mkNegotiated c remote (telephoneEventForPayloads p false))
  | [] => Err "SIP offer contains neither PCMA nor PCMU"
  end.

(** * Writing *)

Definition origin_line (now : Z) (localIP : IP) : string := "o=- " +:+ Itoa now +:+ " 1 IN IP4 " +:+ IPString localIP.

Definition offerSDP (codecPreference : string) (now : Z) (localIP : IP) (p : Z) : string :=
  let '(pts, m0, m1) :=
    if decide (codecPreference = "pcmu")
    then ("0 8 101", "a=rtpmap:0 PCMU/8000", "a=rtpmap:8 PCMA/8000")
    else ("8 0 101", "a=rtpmap:8 PCMA/8000", "a=rtpmap:0 PCMU/8000") in
  Join ["v=0"; origin_line now localIP; "s=Reolink SIP Gateway"; "c=IN IP4 " +:+ IPString localIP; "t=0 0";
        "m=audio " +:+ Itoa p +:+ " RTP/AVP " +:+ pts; m0; m1; "a=rtpmap:101 telephone-event/8000"; "a=fmtp:101 0-15";
        "a=ptime:20"; "a=sendrecv"; ""] CRLF.

Definition answerSDP (now : Z) (localIP : IP) (p : Z) (codec : Codec) (te : option TelephoneEvent) : string :=
  let payloads := Itoa (PayloadType codec) +:+
    match te with Some e => " " +:+ Itoa (TEPayloadType e) | None => "" end in
  Join (["v=0"; origin_line now localIP; "s=Reolink SIP Gateway"; "c=IN IP4 " +:+ IPString localIP; "t=0 0";
         "m=audio " +:+ Itoa p +:+ " RTP/AVP " +:+ payloads;
         "a=rtpmap:" +:+ Itoa (PayloadType codec) +:+ " " +:+ ToUpper (Name codec) +:+ "/8000"] ++
        match te with
        | Some e => ["a=rtpmap:" +:+ Itoa (TEPayloadType e) +:+ " telephone-event/" +:+ Itoa (ClockRate e);
                     "a=fmtp:" +:+ Itoa (TEPayloadType e) +:+ " 0-15"]
        | None => []
        end ++
        ["a=ptime:20"; "a=sendrecv"; ""]) CRLF.

(** * Reading back a description *)

(** A description whose lines are words. *)
Definition text_of (lines : list (list string)) : string := Join (map (fun ws => Join ws " ") lines) CRLF.

Lemma token_isnt c t : token_char c = false -> sall token_char t = true -> sall (isnt c) t = true.
Proof. intros Hc. apply sall_weaken. intros a Ha. apply isnt_true. intros ->. congruence. Qed.
Lemma words_isnt c ws : token_char c = false -> c <> " "%char -> Forall (fun t => token t = true) ws ->
  sall (isnt c) (Join ws " ") = true.
Proof.
  intros Hc Hsp. induction 1 as [|w ws Hw _ IH]; [done|].
  assert (sall (isnt c) w = true) as Hwc by (apply token_isnt; [done|by apply token_sall]).
  destruct ws as [|v ws]; [done|]. rewrite Join_cons2, !sall_app, Hwc, IH. cbn [sall]. rewrite andb_true_r.
  apply andb_true_intro. split; [done|]. apply andb_true_intro. split; [|done]. apply isnt_true. congruence.
Qed.

Lemma sdp_scan_text lines : lines <> [] -> Forall (Forall (fun t => token t = true)) lines ->
  sdp_scan (text_of lines) = foldl sdp_line scan0 (map (fun ws => Join ws " ") lines).
Proof.
  intros Hne Hall. unfold sdp_scan, text_of. f_equal.
  assert (map (fun ws => Join ws " ") lines <> []) as Hm by (by destruct lines).
  rewrite (ReplaceAll_Join (chr 13) (String (chr 10) "")), (Split_Join (chr 10) ""); [done|done| |done|].
  all: apply Forall_map; eapply Forall_impl; [exact Hall|]; intros ws Hws; by apply words_isnt.
Qed.

(** ** One line *)

Definition ignored (line : string) : bool :=
  negb (HasPrefix line "m=audio ") && negb (HasPrefix line "m=") && negb (HasPrefix line "c=IN IP4 ") &&
  negb (HasPrefix line "a=rtpmap:").
Lemma line_ignored s ws : Forall (fun t => token t = true) ws -> ignored (Join ws " ") = true ->
  sdp_line s (Join ws " ") = s.
Proof.
  intros Hws Hi. unfold sdp_line. rewrite TrimSpace_words by done. unfold ignored in Hi.
  apply andb_prop in Hi as [[[->%negb_true_iff ->%negb_true_iff]%andb_prop ->%negb_true_iff]%andb_prop ->%negb_true_iff].
  by rewrite andb_false_r.
Qed.

Lemma payload_types_Itoa l : Forall (fun pt => 0 <= pt <= 127) l -> payload_types (map Itoa l) = l.
Proof.
  induction 1 as [|pt l Hpt _ IH]; [done|]. cbv beta in Hpt. unfold payload_types in *. cbn [map omap list_omap].
  rewrite Atoi_Itoa by lia. cbn [andb]. assert ((0 <=? pt) && (pt <=? 127) = true) as -> by lia. by rewrite IH.
Qed.
Lemma line_media s p pt pts : 0 <= p < 2 ^ 63 -> Forall (fun pt => 0 <= pt <= 127) (pt :: pts) -> port s = 0 ->
  sdp_line s (Join ("m=audio" :: Itoa p :: "RTP/AVP" :: map Itoa (pt :: pts)) " ") =
  s <| inAudio := true |> <| port := p |> <| payloads := payloads s ++ pt :: pts |> <| beforeMedia := false |>.
Proof.
  intros Hp Hpts Hs.
  assert (Forall (fun t => token t = true) (Itoa p :: "RTP/AVP" :: map Itoa (pt :: pts))) as Hw.
  { constructor; [apply Itoa_token; lia|]. constructor; [done|]. apply Forall_map. eapply Forall_impl; [exact Hpts|].
    intros q Hq. cbv beta in Hq. apply Itoa_token. lia. }
  unfold sdp_line. rewrite TrimSpace_words by (by constructor).
  set (rest := Itoa p :: "RTP/AVP" :: map Itoa (pt :: pts)) in *.
  assert (Join ("m=audio" :: rest) " " = "m=" +:+ Join ("audio" :: rest) " ") as -> by done.
  assert (HasPrefix ("m=" +:+ Join ("audio" :: rest) " ") "m=audio " = true) as -> by apply (HasPrefix_app "m=audio ").
  cbv iota.
  unfold media_line, TrimPrefix. rewrite HasPrefix_app, (sdrop_whole "m="), Fields_Join by (by constructor).
  unfold rest. change (map Itoa (pt :: pts)) with (Itoa pt :: map Itoa pts). cbv iota. rewrite Hs. cbn [Z.eqb].
  change (Itoa pt :: map Itoa pts) with (map Itoa (pt :: pts)). by rewrite Atoi_Itoa, payload_types_Itoa.
Qed.
Lemma line_address s a : token a = true -> beforeMedia s = true -> inAudio s = false -> sessionIP s = "" ->
  sdp_line s (Join ["c=IN"; "IP4"; a] " ") = s <| sessionIP := a |>.
Proof.
  intros Ha H1 H2 H3. unfold sdp_line. rewrite TrimSpace_words by (by repeat constructor).
  change (Join ["c=IN"; "IP4"; a] " ") with ("c=IN IP4 " +:+ a).
  change (HasPrefix ("c=IN IP4 " +:+ a) "m=audio ") with false. change (HasPrefix ("c=IN IP4 " +:+ a) "m=") with false.
  rewrite HasPrefix_app. cbv iota. unfold address_line, TrimPrefix. rewrite HasPrefix_app, (sdrop_whole "c=IN IP4 ").
  pose proof (TrimSpace_words [a]) as Ht. cbn [Join] in Ht. rewrite Ht, Fields_last by (by repeat constructor).
  by rewrite H1, H2, H3.
Qed.
Lemma line_rtpmap s pt enc clk : inAudio s = true -> 0 <= pt < 2 ^ 63 -> 0 <= clk < 2 ^ 63 -> token enc = true ->
  sall (isnt "/") enc = true ->
  sdp_line s (Join ["a=rtpmap:" +:+ Itoa pt; enc +:+ "/" +:+ Itoa clk] " ") =
  s <| rtpmap ::= <[pt := ToUpper enc]> |> <| rtpclock ::= <[pt := clk]> |>.
Proof.
  intros Hin Hpt Hclk Henc Hsl.
  assert (Forall (fun t => token t = true) ["a=rtpmap:" +:+ Itoa pt; enc +:+ "/" +:+ Itoa clk]) as Hw.
  { repeat constructor.
    - assert (sall token_char ("a=rtpmap:" +:+ Itoa pt) = true) as H by (rewrite sall_app, token_Itoa by lia; done).
      exact H.
    - assert (sall token_char (enc +:+ "/" +:+ Itoa clk) = true) as H
        by (rewrite !sall_app, token_sall, token_Itoa by (done || lia); done).
      by destruct enc. }
  unfold sdp_line. rewrite TrimSpace_words by done. clear Hw. cbn [Join].
  set (rest := Itoa pt +:+ " " +:+ enc +:+ "/" +:+ Itoa clk).
  rewrite sapp_assoc. fold rest. change (HasPrefix ("a=rtpmap:" +:+ rest) "m=audio ") with false.
  change (HasPrefix ("a=rtpmap:" +:+ rest) "m=") with false. change (HasPrefix ("a=rtpmap:" +:+ rest) "c=IN IP4 ") with false.
  rewrite HasPrefix_app, Hin. cbn [andb]. unfold rtpmap_line, TrimPrefix. rewrite HasPrefix_app, (sdrop_whole "a=rtpmap:").
  unfold rest. change (" " +:+ ?x) with (String " " x). rewrite SplitN2_found by (by apply Itoa_isnt; [lia|]).
  rewrite Atoi_Itoa by done.
  pose proof (Split_Join "/" "" [enc; Itoa clk]) as Hsplit. cbn [Join] in Hsplit. rewrite Hsplit.
  - by rewrite Atoi_Itoa.
  - done.
  - apply Forall_cons; split; [done|]. apply Forall_cons; split; [by apply Itoa_isnt; [lia|]|by apply Forall_nil].
Qed.

(** * Offers and answers *)

(** A list predicate by one tactic per element. *)
Local Ltac each tac := repeat (apply Forall_cons_2; [tac|]); apply Forall_nil_2.

(** An address that can be written into a description and read back. *)
Record address_ok (ip : IP) : Prop := {
  address_token : token (IPString ip) = true;
  address_usable : IPString ip <> "0.0.0.0";
  address_parses : ParseIP (IPString ip) = Some ip;
}.

Definition head_lines (now : Z) (ip : IP) : list (list string) :=
  [["v=0"]; ["o=-"; Itoa now; "1"; "IN"; "IP4"; IPString ip]; ["s=Reolink"; "SIP"; "Gateway"]; ["c=IN"; "IP4"; IPString ip];
   ["t=0"; "0"]].
Definition tail_lines : list (list string) := [["a=ptime:20"]; ["a=sendrecv"]; []].
Definition media_words (p : Z) (pts : list Z) : list string := "m=audio" :: Itoa p :: "RTP/AVP" :: map Itoa pts.
Definition rtpmap_words (pt : Z) (enc : string) (clk : Z) : list string := ["a=rtpmap:" +:+ Itoa pt; enc +:+ "/" +:+ Itoa clk].
Definition fmtp_words (pt : Z) : list string := ["a=fmtp:" +:+ Itoa pt; "0-15"].

Lemma head_scan now ip : 0 <= now -> token (IPString ip) = true ->
  foldl sdp_line scan0 (map (fun ws => Join ws " ") (head_lines now ip)) = scan0 <| sessionIP := IPString ip |>.
Proof.
  intros Hn Ha. unfold head_lines. cbn [map foldl].
  rewrite (line_ignored scan0 ["v=0"]), (line_ignored scan0 ["o=-"; _; _; _; _; _]), (line_ignored scan0 ["s=Reolink"; _; _])
    by (done || (repeat constructor; by apply Itoa_token || done)).
  rewrite line_address by done. by rewrite (line_ignored _ ["t=0"; "0"]) by (done || (repeat constructor)).
Qed.

Lemma tail_scan s : foldl sdp_line s (map (fun ws => Join ws " ") tail_lines) = s.
Proof.
  unfold tail_lines. cbn [map foldl].
  by rewrite (line_ignored s ["a=ptime:20"]), (line_ignored s ["a=sendrecv"]), (line_ignored s []) by (done || (repeat constructor)).
Qed.

(** A media line and its maps between the head and the tail. *)
Lemma parse_text now ip mid s : 0 <= now -> address_ok ip -> Forall (Forall (fun t => token t = true)) mid ->
  foldl sdp_line (scan0 <| sessionIP := IPString ip |>) (map (fun ws => Join ws " ") mid) = s ->
  1 <= port s <= 65535 -> payloads s <> [] -> audioIP s = "" -> sessionIP s = IPString ip ->
  parseAudioSDP (text_of (head_lines now ip ++ mid ++ tail_lines)) = Ok (s, mkAddr ip (port s)).
Proof.
  intros Hn [Ha Hu Hp] Hmid Hs Hport Hpay H1 H2. unfold parseAudioSDP. rewrite sdp_scan_text.
  - rewrite !map_app, !foldl_app, head_scan, Hs, tail_scan, H1, H2 by done.
    assert ((port s <? 1) || (65535 <? port s) || bool_decide (payloads s = []) = false) as ->
      by (rewrite bool_decide_eq_false_2 by done; lia).
    rewrite decide_True by done. cbn [fail_if mbind result_bind].
    assert (IPString ip <> "") as Hne by (intros E; by rewrite E in Ha).
    rewrite !bool_decide_eq_false_2 by done. cbn [fail_if orb mbind result_bind]. by rewrite Hp.
  - done.
  - apply Forall_app. split; [repeat constructor; by apply Itoa_token || done|]. apply Forall_app. split; [done|].
    by repeat constructor.
Qed.

(** The middle of a description, with and without telephone events. *)
Definition mid_lines (p pt : Z) (enc : string) (te : option TelephoneEvent) : list (list string) :=
  match te with
  | None => [media_words p [pt]; rtpmap_words pt enc 8000]
  | Some e => [media_words p [pt; TEPayloadType e]; rtpmap_words pt enc 8000;
               rtpmap_words (TEPayloadType e) "telephone-event" (ClockRate e); fmtp_words (TEPayloadType e)]
  end.

Definition codec_ok (c : Codec) : Prop := (Name c = "pcma" \/ Name c = "pcmu") /\ 0 <= PayloadType c <= 127.
Definition event_ok (c : Codec) (e : TelephoneEvent) : Prop :=
  96 <= TEPayloadType e <= 127 /\ ClockRate e = 8000 /\ TEPayloadType e <> PayloadType c.

Lemma answerSDP_text now ip p c te : te = None \/ (exists e, te = Some e) ->
  answerSDP now ip p c te = text_of (head_lines now ip ++ mid_lines p (PayloadType c) (ToUpper (Name c)) te ++ tail_lines).
Proof. intros [->|[e ->]]; unfold answerSDP; [by rewrite sapp_nil_r|]. reflexivity. Qed.

Definition answer_scan (ip : IP) (p : Z) (c : Codec) (te : option TelephoneEvent) : scan :=
  let pts := PayloadType c :: match te with Some e => [TEPayloadType e] | None => [] end in
  let maps := <[PayloadType c := ToUpper (Name c)]> ∅ in
  let clks := <[PayloadType c := 8000]> ∅ in
  mkScan pts match te with Some e => <[TEPayloadType e := "TELEPHONE-EVENT"]> maps | None => maps end
    match te with Some e => <[TEPayloadType e := ClockRate e]> clks | None => clks end (IPString ip) "" p true false.

Lemma labelled_token label z : token label = true -> 0 <= z -> token (label +:+ Itoa z) = true.
Proof.
  intros Hl Hz. assert (sall token_char (label +:+ Itoa z) = true) as H
    by (rewrite sall_app, (token_sall label), token_Itoa by done; done).
  by destruct label.
Qed.
Lemma rtpmap_words_ok pt e clk : 0 <= pt -> 0 <= clk -> token e = true ->
  Forall (fun t => token t = true) (rtpmap_words pt e clk).
Proof.
  intros H1 H2 H3. apply Forall_cons_2; [by apply labelled_token|]. apply Forall_cons_2; [|by apply Forall_nil].
  rewrite <- sapp_assoc. apply labelled_token; [|done].
  assert (sall token_char (e +:+ "/") = true) as H by (rewrite sall_app, token_sall by done; done). by destruct e.
Qed.
Lemma fmtp_words_ok pt : 0 <= pt -> Forall (fun t => token t = true) (fmtp_words pt).
Proof. intros H. apply Forall_cons_2; [by apply labelled_token|]. by repeat constructor. Qed.
Lemma media_words_ok p pts : 0 <= p -> Forall (fun pt => 0 <= pt <= 127) pts ->
  Forall (fun t => token t = true) (media_words p pts).
Proof.
  intros Hp H. apply Forall_cons_2; [done|]. apply Forall_cons_2; [by apply Itoa_token|]. apply Forall_cons_2; [done|].
  apply Forall_map. eapply Forall_impl; [exact H|]. intros q Hq. cbv beta in Hq. apply Itoa_token. lia.
Qed.

Lemma mid_ok p pt enc te : 0 <= p -> 0 <= pt <= 127 -> token enc = true ->
  (forall e, te = Some e -> 0 <= TEPayloadType e <= 127 /\ 0 <= ClockRate e) ->
  Forall (Forall (fun t => token t = true)) (mid_lines p pt enc te).
Proof.
  intros Hp Hpt He Hte. destruct te as [e|].
  - destruct (Hte e eq_refl) as [H1 H2]. apply Forall_cons_2; [apply media_words_ok; [done|each lia]|].
    apply Forall_cons_2; [apply rtpmap_words_ok; lia || done|]. apply Forall_cons_2; [apply rtpmap_words_ok; lia || done|].
    apply Forall_cons_2; [apply fmtp_words_ok; lia|by apply Forall_nil].
  - apply Forall_cons_2; [apply media_words_ok; [done|each lia]|].
    apply Forall_cons_2; [apply rtpmap_words_ok; lia || done|by apply Forall_nil].
Qed.
Lemma codec_name c : codec_ok c ->
  token (ToUpper (Name c)) = true /\ sall (isnt "/") (ToUpper (Name c)) = true /\ ToUpper (ToUpper (Name c)) = ToUpper (Name c).
Proof. by intros [[-> | ->] _]. Qed.
Lemma mid_scan ip p c te : 1 <= p <= 65535 -> codec_ok c -> (forall e, te = Some e -> event_ok c e) ->
  foldl sdp_line (scan0 <| sessionIP := IPString ip |>)
    (map (fun ws => Join ws " ") (mid_lines p (PayloadType c) (ToUpper (Name c)) te)) = answer_scan ip p c te.
Proof.
  intros Hp Hc Hte. destruct (codec_name c Hc) as (He & Hs & Hup). destruct Hc as [_ Hpt].
  destruct te as [e|]; unfold mid_lines; cbn [map foldl]; unfold media_words, rtpmap_words.
  - destruct (Hte e eq_refl) as (He1 & He2 & He3).
    rewrite (line_media _ p (PayloadType c) [TEPayloadType e]) by (done || lia || each lia). 
    rewrite (line_rtpmap _ (PayloadType c)), (line_rtpmap _ (TEPayloadType e)) by (done || lia). rewrite Hup.
    rewrite line_ignored; [|apply fmtp_words_ok; lia|]; reflexivity.
  - rewrite (line_media _ p (PayloadType c) []) by (done || lia || each lia). rewrite line_rtpmap by (done || lia).
    rewrite Hup. reflexivity.
Qed.

(** Whatever codec and event payload were negotiated, the answer says them. *)
Lemma answer_parses now ip p c te : 0 <= now -> address_ok ip -> 1 <= p <= 65535 -> codec_ok c ->
  (forall e, te = Some e -> event_ok c e) ->
  parseAudioSDP (answerSDP now ip p c te) = Ok (answer_scan ip p c te, mkAddr ip p).
Proof.
  intros Hn Ha Hp Hc Hte. rewrite answerSDP_text by (destruct te; eauto).
  destruct (codec_name c Hc) as (He & _ & _). pose proof Hc as [_ Hpt].
  apply parse_text; [done|done| |by apply mid_scan|done..].
  apply mid_ok; [lia|done|done|]. intros e Ee. destruct (Hte e Ee) as (H1 & H2 & _). lia.
Qed.
Lemma answer_rtpmap ip p c te : (forall e, te = Some e -> event_ok c e) ->
  rtpmap (answer_scan ip p c te) !! PayloadType c = Some (ToUpper (Name c)).
Proof.
  intros Hte. destruct te as [e|]; cbn [rtpmap answer_scan]; [|by rewrite lookup_insert_eq].
  destruct (Hte e eq_refl) as (_ & _ & H). by rewrite lookup_insert_ne, lookup_insert_eq.
Qed.
Lemma answer_codec ip p c te : codec_ok c -> (forall e, te = Some e -> event_ok c e) ->
  codecForPayload (PayloadType c) (rtpmap (answer_scan ip p c te)) = Some c.
Proof.
  intros [Hname Hpt] Hte. unfold codecForPayload. rewrite answer_rtpmap by done. destruct c as [n pt]. cbn [Name PayloadType] in *. destruct Hname as [-> | ->]; reflexivity.
Qed.
(** Our offers name payload type 101 for telephone events, and only that one is
    accepted in an answer. *)
Definition accepted_event (te : option TelephoneEvent) : option TelephoneEvent :=
  e ← te; if TEPayloadType e =? 101 then Some e else None.
Lemma answer_event ip p c te : codec_ok c -> (forall e, te = Some e -> event_ok c e) ->
  telephoneEventForPayloads (answer_scan ip p c te) true = accepted_event te.
Proof.
  intros [Hname Hpt] Hte. unfold telephoneEventForPayloads.
  assert (is_event true (answer_scan ip p c te) (PayloadType c) = false) as E.
  { unfold is_event. apply andb_false_iff. left. apply andb_false_iff. right. apply bool_decide_eq_false.
    rewrite answer_rtpmap by done. by destruct Hname as [-> | ->]. }
  cbn [payloads answer_scan List.filter]. rewrite E. destruct te as [e|]; [|done].
  destruct (Hte e eq_refl) as (H1 & H2 & H3). cbn [List.filter]. unfold is_event. cbn [rtpmap rtpclock answer_scan].
  rewrite !lookup_insert_eq, H2. destruct e as [ept clk]. cbn [TEPayloadType ClockRate] in *. subst clk.
  cbn [accepted_event mbind option_bind TEPayloadType].
  destruct (Z.eqb_spec ept 101) as [->|Hne]; [|done].
  match goal with |- context [if ?b then _ else _] => change b with true end. cbv iota. by rewrite lookup_insert_eq.
Qed.

(** ** What an offer can lead to *)

Lemma scan_payloads text : Forall (fun pt => 0 <= pt <= 127) (payloads (sdp_scan text)).
Proof.
  unfold sdp_scan. generalize (Split (ReplaceAll text CRLF LF) LF) as ls. intros ls.
  assert (forall s, Forall (fun pt => 0 <= pt <= 127) (payloads s) ->
            Forall (fun pt => 0 <= pt <= 127) (payloads (foldl sdp_line s ls))) as H; [|by apply H].
  induction ls as [|l ls IH]; intros s Hs; [done|]. apply IH. unfold sdp_line.
  destruct (HasPrefix _ "m=audio ").
  { unfold media_line. destruct (Fields _) as [|? [|? [|? [|v rest]]]]; try done. destruct (port s =? 0); [|done].
    cbn. apply Forall_app. split; [done|]. unfold payload_types. apply Forall_forall. intros pt Hin.
    change (pt ∈ omap (fun v => let '(pt, ok) := Atoi v in if ok && (0 <=? pt) && (pt <=? 127) then Some pt else None) (v :: rest)) in Hin.
    apply list_elem_of_omap in Hin as (x & _ & Hx). destruct (Atoi x) as [q ok]. destruct (_ && _) eqn:E; [|done].
    injection Hx as <-. lia. }
  destruct (HasPrefix _ "m="); [done|]. destruct (HasPrefix _ "c=IN IP4 ").
  { unfold address_line. destruct (Fields _); [done|]. repeat case_match; done. }
  destruct (_ && _); [|done]. unfold rtpmap_line.
  destruct (SplitN2 _ _) as [|? [|? []]]; try done. destruct (Atoi _) as [? []]; [|done]. cbv zeta. by destruct (Split _ _) as [|? []].
Qed.

Lemma codecForPayload_inv pt m c : codecForPayload pt m = Some c ->
  PayloadType c = pt /\ (Name c = "pcma" \/ Name c = "pcmu") /\ m !! pt <> Some "TELEPHONE-EVENT".
Proof.
  assert (forall n, n = "PCMA" \/ n = "PCMU" -> ToLower n = "pcma" \/ ToLower n = "pcmu") as Hl
    by (intros n [-> | ->]; auto).
  unfold codecForPayload. cbv zeta. intros H. destruct (decide (_ \/ _)) as [Hn|]; [|done]. injection H as <-. cbn [PayloadType Name].
  split; [done|]. split; [by apply Hl|]. intros Hm. rewrite Hm in Hn. destruct Hn as [Hn|Hn]; vm_compute in Hn; discriminate.
Qed.

Lemma parseAudioSDP_inv text p r : parseAudioSDP text = Ok (p, r) ->
  p = sdp_scan text /\ 1 <= AddrPort r <= 65535 /\ AddrPort r = port p.
Proof.
  unfold parseAudioSDP. generalize (sdp_scan text) as q. intros q. destruct (_ || _ || _) eqn:E; cbn [fail_if mbind result_bind]; [done|].
  apply orb_false_iff in E as [[E1 E2]%orb_false_iff _].
  destruct (_ || bool_decide (_ = "0.0.0.0")); cbn [fail_if mbind result_bind]; [done|].
  destruct (ParseIP _); [intros [= <- <-]; cbn [AddrPort]; split; [done|lia]|]. destruct (ResolveIPAddr _); [intros [= <- <-]; cbn [AddrPort]; split; [done|lia]|done].
Qed.

(** The codecs of an offer the gateway supports, in the offer's order. *)
Definition supported (p : scan) : list Codec := omap (fun pt => codecForPayload pt (rtpmap p)) (payloads p).
Definition preferred (preference : string) : string :=
  if EqualFold (TrimSpace preference) "pcmu" then "pcmu" else "pcma".

Lemma supported_inv text c : c ∈ supported (sdp_scan text) ->
  codec_ok c /\ rtpmap (sdp_scan text) !! PayloadType c <> Some "TELEPHONE-EVENT".
Proof.
  intros (pt & Hpt & H)%list_elem_of_omap. apply codecForPayload_inv in H as (<- & Hn & Hm). split; [|done].
  split; [done|]. pose proof (scan_payloads text) as Hp. rewrite Forall_forall in Hp. by apply Hp.
Qed.

Lemma choice p preference :
  match concat (map (codecs_named p) (preference_order preference)) with
  | [] => Forall (fun c => Name c <> "pcma" /\ Name c <> "pcmu") (supported p)
  | c :: _ => c ∈ supported p /\
      (Name c = preferred preference \/ Forall (fun c => Name c <> preferred preference) (supported p))
  end.
Proof.
  assert (forall n c, c ∈ codecs_named p n <-> c ∈ supported p /\ Name c = n) as Hin.
  { intros n c. unfold codecs_named. fold (supported p). rewrite list_elem_of_In, filter_In, <- list_elem_of_In.
    by rewrite bool_decide_eq_true. }
  assert (forall n, codecs_named p n = [] -> Forall (fun c => Name c <> n) (supported p)) as Hnone.
  { intros n E. apply Forall_forall. intros c Hc Hn. assert (c ∈ codecs_named p n) as H by (by apply Hin). rewrite E in H.
    by apply not_elem_of_nil in H. }
  assert (exists n1 n2, preference_order preference = [n1; n2] /\ n1 = preferred preference /\
    ((n1 = "pcma" /\ n2 = "pcmu") \/ (n1 = "pcmu" /\ n2 = "pcma"))) as (n1 & n2 & -> & <- & Hn)
    by (unfold preference_order, preferred; destruct (EqualFold _ _); eauto 10).
  cbn [map concat]. rewrite app_nil_r. destruct (codecs_named p n1) as [|c l] eqn:E1; cbn [app].
  - pose proof (Hnone n1 E1) as H1. destruct (codecs_named p n2) as [|c l] eqn:E2.
    + pose proof (Hnone n2 E2) as H2.
      apply Forall_forall. intros c Hc. rewrite Forall_forall in H1, H2. specialize (H1 c Hc). specialize (H2 c Hc).
      destruct Hn as [[-> ->]|[-> ->]]; tauto.
    + assert (c ∈ codecs_named p n2) as [Hc _]%Hin by (rewrite E2; by left). eauto.
  - assert (c ∈ codecs_named p n1) as [Hc Hnc]%Hin by (rewrite E1; by left). eauto.
Qed.

(** An offer is answered by preference.  When the description has a usable
    audio stream, the chosen codec is one the offer lists; it is the preferred
    one unless the offer lists it nowhere; and the offer is refused exactly when
    it lists neither codec. *)
Theorem offer_choice (text preference : string) (p : scan) (r : UDPAddr) :
  parseAudioSDP text = Ok (p, r) ->
  match parseOfferMedia text preference with
  | Ok m => MRemoteRTP m = r /\ 1 <= AddrPort r <= 65535 /\ MCodec m ∈ supported p /\
      (Name (MCodec m) = preferred preference \/ Forall (fun c => Name c <> preferred preference) (supported p))
  | Err _ => supported p = []
  | Panic => False
  end.
Proof.
  intros H. unfold parseOfferMedia. rewrite H. cbn [mbind result_bind]. apply parseAudioSDP_inv in H as (-> & Hr & _).
  pose proof (choice (sdp_scan text) preference) as Hc. destruct (concat _) as [|c l].
  - destruct (supported (sdp_scan text)) as [|c l] eqn:E; [done|]. apply Forall_cons_1 in Hc as [[H1 H2] _].
    assert (c ∈ supported (sdp_scan text)) as [[[] _] _]%supported_inv by (rewrite E; by left); done.
  - by destruct Hc.
Qed.

Lemma offer_sound text preference m : parseOfferMedia text preference = Ok m ->
  codec_ok (MCodec m) /\ forall e, MTelephoneEvent m = Some e -> event_ok (MCodec m) e.
Proof.
  unfold parseOfferMedia. destruct (parseAudioSDP text) as [[p r]| |] eqn:H; [|done..]. cbn [mbind result_bind].
  apply parseAudioSDP_inv in H as (-> & _). pose proof (choice (sdp_scan text) preference) as Hc.
  destruct (concat _) as [|c l]; [done|]. destruct Hc as [Hc _]. intros [= <-]. cbn [MCodec MTelephoneEvent].
  apply supported_inv in Hc as [Hok Hm]. split; [done|]. intros e. unfold telephoneEventForPayloads.
  destruct (List.filter _ _) as [|pt l'] eqn:E; [done|]. intros [= <-].
  assert (pt ∈ List.filter (is_event false (sdp_scan text)) (payloads (sdp_scan text))) as Hpt by (rewrite E; by left).
  rewrite list_elem_of_In, filter_In in Hpt. destruct Hpt as [_ Hpt]. unfold is_event in Hpt.
  apply andb_prop in Hpt as [[[[_ H1]%andb_prop H2]%andb_prop H3%bool_decide_eq_true]%andb_prop H4%bool_decide_eq_true].
  unfold event_ok. cbn [TEPayloadType ClockRate]. rewrite H4. cbn. split; [lia|]. split; [done|]. intros ->. done.
Qed.

(** Both sides agree.  Whatever description a caller offered, if the
    gateway accepts it, a peer that reads the gateway's answer with the rules
    the gateway itself uses for answers finds exactly the negotiated codec, the
    gateway's address and port, and the telephone events if their payload type
    is the 101 the gateway offers. *)
Theorem answer_agrees (text preference : string) (m : negotiatedAudio) (now : Z) (ip : IP) (rtp : Z) :
  parseOfferMedia text preference = Ok m -> 0 <= now -> address_ok ip -> 1 <= rtp <= 65535 ->
  parseAnswerMedia (answerSDP now ip rtp (MCodec m) (MTelephoneEvent m)) =
  Ok (mkNegotiated (MCodec m) (mkAddr ip rtp) (accepted_event (MTelephoneEvent m))).
Proof.
  intros [Hc He]%offer_sound Hn Ha Hp. unfold parseAnswerMedia. rewrite answer_parses by done. cbn [mbind result_bind].
  rewrite answer_event by done. unfold answer_scan at 2. cbn [payloads omap list_omap].
  by rewrite answer_codec.
Qed.
End sdp.

(** ** Witnesses *)

Definition text_addresses : NetIP := {|
  IP := string; ip_eq := _; ParseIP := fun s => if sall (fun c => is_digit_byte (code c) || bool_decide (c = "."%char)) s then Some s else None;
  ResolveIPAddr := fun _ => None; IPString := fun s => s |}.

#[local] Existing Instances ascii_tables text_addresses.
Definition home : @IP text_addresses := "192.0.2.7".
Definition away : @IP text_addresses := "192.0.2.9".

Lemma offer_choice_witness :
  exists p r, parseAudioSDP (offerSDP "pcma" 7 home 4000) = Ok (p, r) /\
    match parseOfferMedia (offerSDP "pcma" 7 home 4000) "pcmu" with
    | Ok m => MRemoteRTP m = r /\ MCodec m = mkCodec "pcmu" 0
    | _ => False
    end.
Proof.
  destruct (parseAudioSDP (offerSDP "pcma" 7 home 4000)) as [[p r]| |] eqn:E;
    [|by vm_compute in E..].
  exists p, r. split; [done|]. pose proof (offer_choice (offerSDP "pcma" 7 home 4000) "pcmu" p r E) as H.
  assert (parseOfferMedia (offerSDP "pcma" 7 home 4000) "pcmu" =
    Ok (mkNegotiated (mkCodec "pcmu" 0) (mkAddr home 4000) (Some (mkTelephoneEvent 101 8000)))) as Hm
    by (vm_compute; reflexivity).
  rewrite Hm in H |- *. destruct H as (H & _). by split.
Defined.

Lemma answer_agrees_witness :
  exists m, parseOfferMedia (offerSDP "pcma" 7 home 4000) "pcmu" = Ok m /\
    parseAnswerMedia (answerSDP 9 away 5004 (MCodec m) (MTelephoneEvent m)) =
    Ok (mkNegotiated (mkCodec "pcmu" 0) (mkAddr away 5004) (Some (mkTelephoneEvent 101 8000))).
Proof.
  eexists. split; [vm_compute; reflexivity|].
  apply (answer_agrees (offerSDP "pcma" 7 home 4000) "pcmu"
           (mkNegotiated (mkCodec "pcmu" 0) (mkAddr home 4000) (Some (mkTelephoneEvent 101 8000)))
           9 away 5004).
  - vm_compute. reflexivity.
  - discriminate.
  - split; [vm_compute; reflexivity|discriminate|vm_compute; reflexivity].
  - split; discriminate.
Defined.
End Sdp.
