(* ===== verification/Digest.v ===== *)
(** HTTP and SIP digest authentication: [internal/digest/digest.go].

    The client nonce comes from [crypto/rand]; it is an argument. *)
From S2P Require Import Prelude GoStrings GoText GoCrypto.

Module Digest.
Definition quote : ascii := chr 34.
Definition backslash : ascii := chr 92.

Record Challenge := mkChallenge {
  Scheme : string; Realm : string; Nonce : string; Opaque : string; Algorithm : string; AlgorithmExplicit : bool;
  QOP : string; Stale : bool;
}.
#[export] Instance eta_challenge : Eta Challenge := fun c =>
  mkChallenge (Scheme c) (Realm c) (Nonce c) (Opaque c) (Algorithm c) (AlgorithmExplicit c) (QOP c) (Stale c).

(** * Directives *)

(** The variables of [parseParams]. *)
Record lexer := mkLexer {
  out : gmap string string; key : bytes; val : bytes; inQuote : bool; escaped : bool; readingValue : bool;
}.
#[export] Instance eta_lexer : Eta lexer := fun l =>
  mkLexer (out l) (key l) (val l) (inQuote l) (escaped l) (readingValue l).

Definition flush (l : lexer) : lexer :=
  let k := TrimSpace (b2s (key l)) in
  let v := Trim (TrimSpace (b2s (val l))) [quote] in
  mkLexer (if decide (k = "") then out l else <[k := v]> (out l)) [] [] (inQuote l) (escaped l) false.
(** [WriteRune] on the builder that is being filled. *)
Definition write (l : lexer) (r : Z) : lexer :=
  if readingValue l then l <| val := val l ++ encode_rune r |> else l <| key := key l ++ encode_rune r |>.
Definition lex (l : lexer) (r : Z) : lexer :=
  if escaped l then write l r <| escaped := false |>
  else if (r =? 92) && inQuote l then l <| escaped := true |>
  else if r =? 34 then
    let l' := l <| inQuote := negb (inQuote l) |> in if readingValue l then write l' r else l'
  else if negb (inQuote l) && (r =? 61) && negb (readingValue l) then l <| readingValue := true |>
  else if negb (inQuote l) && (r =? 44) then flush l
  else write l r.
Definition lexer0 : lexer := mkLexer ∅ [] [] false false false.
Definition parseParams (s : string) : gmap string string := out (flush (foldl lex lexer0 (map fst (runes s)))).

Section digest.
Context `{U : Unicode}.

Definition normalizeAlgorithm (algorithm : string) : string :=
  let algorithm := TrimSpace algorithm in
  if bool_decide (algorithm = "") || EqualFold algorithm "MD5" then "MD5"
  else if EqualFold algorithm "SHA-256" then "SHA-256" else algorithm.
Definition supportedAlgorithm (algorithm : string) : bool :=
  bool_decide (normalizeAlgorithm algorithm = "MD5") || bool_decide (normalizeAlgorithm algorithm = "SHA-256").

(** * Challenges *)

(** One turn of the loop over the directives: the challenge and [qopPresent]. *)
Definition directive (acc : Challenge * bool) (kv : string * string) : Challenge * bool :=
  let '(c, q) := acc in
  let '(k, v) := kv in
  let k := ToLower k in
  if decide (k = "realm") then (c <| Realm := v |>, q)
  else if decide (k = "nonce") then (c <| Nonce := v |>, q)
  else if decide (k = "opaque") then (c <| Opaque := v |>, q)
  else if decide (k = "algorithm") then (c <| Algorithm := v |> <| AlgorithmExplicit := true |>, q)
  else if decide (k = "qop") then
    ((if existsb (fun x => EqualFold (TrimSpace x) "auth") (Split v ",") then c <| QOP := "auth" |> else c), true)
  else if decide (k = "stale") then (c <| Stale := EqualFold v "true" |>, q)
  else (c, q).
(** The challenge that a sequence of directives makes. *)
Definition challenge_of (scheme : string) (params : list (string * string)) : result Challenge :=
  let '(c, qopPresent) := foldl directive (mkChallenge (ToLower scheme) "" "" "" "MD5" false "" false, false) params in
  _ ← fail_if (negb (bool_decide (Scheme c = "digest")) || bool_decide (Realm c = "") || bool_decide (Nonce c = ""))
        "unsupported or incomplete digest challenge";
  _ ← fail_if (negb (supportedAlgorithm (Algorithm c))) "unsupported digest algorithm";
  _ ← fail_if (qopPresent && bool_decide (QOP c = "")) "digest challenge does not offer supported qop=auth";
  Ok c.
(** [Parse]; Go iterates over the directives in an order of its own, here that
    of [map_to_list]. *)
Definition Parse (header : string) : result Challenge :=
  match SplitN2 (TrimSpace header) " " with
  | [scheme; rest] => challenge_of scheme (map_to_list (parseParams rest))
  | _ => Err "invalid authentication challenge"
  end.

Lemma challenge_Parse_safe header : safe (Parse header).
Proof. unfold Parse, challenge_of. safely. Qed.

(** * Responses *)

Definition hashHex (algorithm s : string) : string :=
  if decide (normalizeAlgorithm algorithm = "SHA-256") then hex_encode (SHA256.Sum (s2b s))
  else hex_encode (MD5.Sum (s2b s)).

Definition escape (s : string) : string :=
  ReplaceAll (ReplaceAll s (String backslash "") (String backslash (String backslash "")))
    (String quote "") (String backslash (String quote "")).
Definition quoted (k v : string) : string := k +:+ "=" +:+ String quote (escape v +:+ String quote "").

Definition Authorization (c : Challenge) (username password method uri : string) (nc : Z) (cnonce : string) : string :=
  let algorithm := normalizeAlgorithm (Algorithm c) in
  let ha1 := hashHex algorithm (username +:+ ":" +:+ Realm c +:+ ":" +:+ password) in
  let ha2 := hashHex algorithm (method +:+ ":" +:+ uri) in
  let parts := [quoted "username" username; quoted "realm" (Realm c); quoted "nonce" (Nonce c); quoted "uri" uri] in
  let parts := parts ++
    if decide (QOP c = "auth") then
      let response := hashHex algorithm
        (ha1 +:+ ":" +:+ Nonce c +:+ ":" +:+ hex8 nc +:+ ":" +:+ cnonce +:+ ":auth:" +:+ ha2) in
      ["response=" +:+ String quote (response +:+ String quote ""); "qop=auth"; "nc=" +:+ hex8 nc;
       "cnonce=" +:+ String quote (cnonce +:+ String quote "")]
    else
      let response := hashHex algorithm (ha1 +:+ ":" +:+ Nonce c +:+ ":" +:+ ha2) in
      ["response=" +:+ String quote (response +:+ String quote "")] in
  let parts := parts ++
    if AlgorithmExplicit c || negb (EqualFold algorithm "MD5") then ["algorithm=" +:+ algorithm] else [] in
  let parts := parts ++ if decide (Opaque c = "") then [] else [quoted "opaque" (Opaque c)] in
  "Digest " +:+ Join parts ", ".
End digest.

(** * The parser reads what was written *)

Definition ascii_ok (s : string) : bool := sall (fun c => code c <? 128) s.
Definition run (l : lexer) (s : string) : lexer := foldl lex l (s2b s).

Lemma runes_of s : ascii_ok s = true -> map fst (runes s) = s2b s.
Proof.
  intros H. rewrite runes_ascii by done. rewrite map_map. cbn [fst]. apply map_id.
Qed.
Lemma lex_run_app l s t : run l (s +:+ t) = run (run l s) t.
Proof. unfold run. by rewrite s2b_app, foldl_app. Qed.

(** How one character is escaped. *)
Definition escape_char (a : ascii) : string :=
  if decide (a = backslash) then String backslash (String backslash "")
  else if decide (a = quote) then String backslash (String quote "") else String a "".
Lemma escape_cons a s : escape (String a s) = escape_char a +:+ escape s.
Proof.
  unfold escape, escape_char. rewrite !ReplaceAll_char. cbn [subst_char].
  destruct (decide (a = backslash)) as [->|Hb].
  - rewrite subst_char_app. reflexivity.
  - cbn [subst_char]. destruct (decide (a = quote)) as [->|Hq]; [done|]. reflexivity.
Qed.

(** Inside quotes an escaped text is collected as it was. *)
Lemma run_escaped l v : ascii_ok v = true -> inQuote l = true -> readingValue l = true -> escaped l = false ->
  run l (escape v) = l <| val := val l ++ s2b v |>.
Proof.
  revert l. induction v as [|a v IH]; intros l Hv H1 H2 H3.
  - unfold run, escape. cbn. rewrite app_nil_r. by destruct l.
  - unfold ascii_ok in Hv. cbn [sall] in Hv. apply andb_prop in Hv as [Ha%Z.ltb_lt Hv].
    pose proof (code_pos a). rewrite escape_cons, lex_run_app.
    assert (run l (escape_char a) = l <| val := val l ++ [code a] |>) as ->.
    { destruct l as [o k w iq es rv]. cbn in H1, H2, H3. subst iq rv es. unfold escape_char, run.
      destruct (decide (a = backslash)) as [->|Hb]; [reflexivity|].
      destruct (decide (a = quote)) as [->|Hq]; [reflexivity|]. cbn [s2b foldl]. unfold lex. cbn [escaped inQuote].
      assert (code a =? 92 = false) as ->.
      { apply Z.eqb_neq. intros E. apply Hb. rewrite <- (chr_code a), E. done. }
      assert (code a =? 34 = false) as ->.
      { apply Z.eqb_neq. intros E. apply Hq. rewrite <- (chr_code a), E. done. }
      cbn [andb negb]. unfold write. cbn [readingValue]. by rewrite encode_ascii by lia. }
    rewrite IH by done. destruct l. cbn. by rewrite <- app_assoc.
Qed.

(** Characters with no meaning outside quotes. *)
Definition plain (key_part : bool) (c : ascii) : bool :=
  token_char c && negb (code c =? 34) && negb (code c =? 44) && (negb key_part || negb (code c =? 61)).

Lemma run_plain l s : sall (plain (negb (readingValue l))) s = true -> inQuote l = false -> escaped l = false ->
  run l s = if readingValue l then l <| val := val l ++ s2b s |> else l <| key := key l ++ s2b s |>.
Proof.
  revert l. induction s as [|a s IH]; intros l Hs H1 H2.
  { unfold run. cbn. rewrite !app_nil_r. destruct l as [o k v iq es []]; done. }
  cbn [sall] in Hs. apply andb_prop in Hs as [Ha Hs]. unfold plain in Ha.
  apply andb_prop in Ha as [[[[Ht _]%token_char_spec H34%negb_true_iff]%andb_prop H44%negb_true_iff]%andb_prop Hk].
  pose proof (code_pos a).
  assert (lex l (code a) = write l (code a)) as E.
  { unfold lex. rewrite H2, H1, andb_false_r, H34, H44. cbn [negb andb].
    destruct (readingValue l); cbn [negb orb andb] in *; [by rewrite andb_false_r|]. apply negb_true_iff in Hk. by rewrite Hk. }
  change (run l (String a s)) with (run (lex l (code a)) s). rewrite E. unfold write. rewrite encode_ascii by lia.
  destruct l as [o k v iq es []]; cbn in H1, H2, Hs |- *; rewrite IH by done; cbn; by rewrite <- app_assoc.
Qed.

(** A directive: its name, its value and whether it is quoted. *)
Definition render (d : string * string * bool) : string :=
  let '(k, v, q) := d in
  if q : bool then quoted k v else k +:+ "=" +:+ v.
Definition edges_plain (v : string) : Prop := TrimLeftSet v [quote] = v /\ TrimRightSet v [quote] = v.
Record directive_ok (d : string * string * bool) : Prop := {
  name_ok : d.1.1 <> "" /\ sall (plain true) d.1.1 = true;
  value_ok : if d.2 then ascii_ok d.1.2 = true /\ edges_plain d.1.2
             else d.1.2 <> "" /\ sall (plain false) d.1.2 = true;
}.

Lemma TrimLeft_length s cs : (String.length (TrimLeftSet s cs) <= String.length s)%nat.
Proof. induction s as [|a s IH]; [done|]. cbn [TrimLeftSet]. destruct (bool_decide _); cbn [String.length]; lia. Qed.
Lemma TrimRight_snoc s q : TrimRightSet (s +:+ String q "") [q] = TrimRightSet s [q].
Proof.
  induction s as [|a s IH].
  - rewrite snil_app. cbn [TrimRightSet]. by rewrite bool_decide_eq_true_2 by (by left).
  - rewrite scons_app. cbn [TrimRightSet]. by rewrite IH.
Qed.
Lemma Trim_quoted v : edges_plain v -> Trim (String quote (v +:+ String quote "")) [quote] = v.
Proof.
  intros [Hl Hr]. unfold Trim. cbn [TrimLeftSet]. rewrite bool_decide_eq_true_2 by (by left).
  destruct v as [|a v]; [done|]. rewrite scons_app. cbn [TrimLeftSet] in Hl |- *.
  destruct (bool_decide (a ∈ [quote])).
  - pose proof (TrimLeft_length v [quote]) as H. rewrite Hl in H. cbn in H. lia.
  - rewrite <- scons_app, TrimRight_snoc. exact Hr.
Qed.
Lemma plain_no_quote v : sall (plain false) v = true -> edges_plain v /\ sall token_char v = true.
Proof.
  intros Hv. assert (sall token_char v = true) as Ht.
  { eapply sall_weaken; [|exact Hv]. unfold plain. intros c [[[Hc _]%andb_prop _]%andb_prop _]%andb_prop. exact Hc. }
  split; [|done]. assert (forall a, plain false a = true -> bool_decide (a ∈ [quote]) = false) as Hq.
  { intros a Ha. apply bool_decide_eq_false. rewrite list_elem_of_singleton. intros ->. by vm_compute in Ha. }
  assert (TrimRightSet v [quote] = v) as Hr.
  { clear Ht. induction v as [|a v IH]; [done|]. cbn [sall TrimRightSet] in *. apply andb_prop in Hv as [Ha Hv].
    rewrite IH, Hq by done. by destruct v. }
  split; [|done]. destruct v as [|a v]; [done|]. cbn [sall TrimLeftSet] in *. apply andb_prop in Hv as [Ha _]. by rewrite Hq.
Qed.

Lemma flush_eq o k w iq es rv : flush (mkLexer o k w iq es rv) =
  mkLexer (if decide (TrimSpace (b2s k) = "") then o
           else <[TrimSpace (b2s k) := Trim (TrimSpace (b2s w)) [quote]]> o) [] [] iq es false.
Proof. done. Qed.

(** One directive, at the start or behind a comma and a blank. *)
Lemma run_directive o pre k v q : pre = [] \/ pre = [32] -> directive_ok (k, v, q) ->
  exists w, run (mkLexer o pre [] false false false) (render (k, v, q)) = mkLexer o (pre ++ s2b k) w false false true /\
    flush (mkLexer o (pre ++ s2b k) w false false true) = mkLexer (<[k := v]> o) [] [] false false false.
Proof.
  intros Hpre [[Hk Hkp] Hv]. cbn [fst snd] in *.
  assert (sall token_char k = true) as Hkt.
  { eapply sall_weaken; [|exact Hkp]. unfold plain. intros c [[[Hc _]%andb_prop _]%andb_prop _]%andb_prop. exact Hc. }
  assert (TrimSpace (b2s (pre ++ s2b k)) = k) as HK.
  { destruct Hpre as [-> | ->]; cbn [app].
    - rewrite b2s_s2b. apply (TrimSpace_words [k]). repeat constructor. by destruct k.
    - change (b2s (32 :: s2b k)) with (String " " (b2s (s2b k))). rewrite b2s_s2b, TrimSpace_blank.
      apply (TrimSpace_words [k]). repeat constructor. by destruct k. }
  assert (forall w, run (mkLexer o pre [] false false false) (k +:+ "=" +:+ w) =
                    run (mkLexer o (pre ++ s2b k) [] false false true) w) as Hkey.
  { intros w. rewrite lex_run_app, (run_plain (mkLexer _ _ _ _ _ _) k) by done. reflexivity. }
  destruct q; cbn [render].
  - destruct Hv as [Ha He]. unfold quoted. rewrite Hkey.
    change (String quote (escape v +:+ String quote "")) with (String quote "" +:+ escape v +:+ String quote "").
    rewrite lex_run_app. change (run _ (String quote "")) with (mkLexer o (pre ++ s2b k) [34] true false true) at 1.
    rewrite lex_run_app, run_escaped by done. exists (s2b (String quote (v +:+ String quote ""))). split.
    { cbn [s2b]. rewrite s2b_app. reflexivity. }
    rewrite flush_eq, HK, decide_False by done. do 2 f_equal. rewrite b2s_s2b,  TrimSpace_ends; [by apply Trim_quoted| |done|done].
    cbn [sall]. rewrite sall_app. unfold ascii_ok in Ha. by rewrite Ha.
  - destruct Hv as [Hne Hv]. rewrite Hkey, run_plain by done. exists (s2b v). split; [reflexivity|].
    rewrite flush_eq, HK, decide_False by done. do 2 f_equal.
    apply plain_no_quote in Hv as [[Hl Hr] Ht]. rewrite b2s_s2b.
    assert (TrimSpace v = v) as -> by (apply (TrimSpace_words [v]); repeat constructor; by destruct v).
    unfold Trim. by rewrite Hl.
Qed.

Definition insert_all (o : gmap string string) (ds : list (string * string * bool)) : gmap string string :=
  foldl (fun m d => <[d.1.1 := d.1.2]> m) o ds.
(** The last directive of a name wins. *)
Fixpoint last_of (k : string) (ds : list (string * string * bool)) (acc : option string) : option string :=
  match ds with [] => acc | d :: ds => last_of k ds (if decide (d.1.1 = k) then Some d.1.2 else acc) end.
Lemma lookup_insert_all k o ds : insert_all o ds !! k = last_of k ds (o !! k).
Proof.
  revert o. induction ds as [|d ds IH]; intros o; [done|]. cbn [last_of]. unfold insert_all in *. cbn [foldl]. rewrite IH.
  f_equal. destruct (decide (d.1.1 = k)) as [->|]; [by rewrite lookup_insert_eq|by rewrite lookup_insert_ne].
Qed.
Lemma run_directives o pre ds : ds <> [] -> pre = [] \/ pre = [32] -> Forall directive_ok ds ->
  out (flush (run (mkLexer o pre [] false false false) (Join (map render ds) ", "))) = insert_all o ds.
Proof.
  intros Hne Hpre Hall. revert o pre Hpre. induction Hall as [|[[k v] q] ds Hd Hds IH]; [done|]. intros o pre Hpre.
  destruct (run_directive o pre k v q Hpre Hd) as (w & Hrun & Hflush).
  destruct ds as [|d ds]; [cbn [map Join]; by rewrite Hrun, Hflush|].
  cbn [map]. rewrite Join_cons2, lex_run_app, Hrun. set (rest := Join (render d :: map render ds) ", ").
  change (", " +:+ rest) with (String "," (String " " rest)).
  change (run ?l (String "," (String " " rest))) with (run (lex (flush l) 32) rest). rewrite Hflush.
  change (lex _ 32) with (mkLexer (<[k := v]> o) [32] [] false false false). rewrite (IH ltac:(done)) by (by right). done.
Qed.

(** * Authorization headers *)

Definition hex_char (c : ascii) : bool := is_digit_byte (code c) || within 97 102 (code c).
Definition hex_text (s : string) : bool := sall hex_char s.

Lemma hex_plain s : hex_text s = true -> sall (plain false) s = true.
Proof.
  apply sall_weaken. intros c H. unfold plain, token_char. unfold hex_char, is_digit_byte, within in H. cbn [negb orb].
  repeat (apply andb_true_intro; split); try done; lia.
Qed.
Lemma escape_hex s : hex_text s = true -> escape s = s.
Proof.
  intros H. assert (forall a, code a = 34 \/ code a = 92 -> sall (isnt a) s = true) as Hn.
  { intros a Ha. eapply sall_weaken; [|exact H]. intros c Hc. apply isnt_true. intros ->. revert Hc.
    unfold hex_char, is_digit_byte, within. intros Hc. lia. }
  unfold escape. rewrite !ReplaceAll_char, (subst_char_absent backslash), subst_char_absent; [done|apply Hn; by left|apply Hn; by right].
Qed.
Lemma hex_digit_ok d : 0 <= d < 16 -> hex_char (hex_digit d) = true.
Proof.
  intros Hd. unfold hex_char, hex_digit, is_digit_byte, within.
  destruct (d <? 10) eqn:E; rewrite code_chr by (unfold fits; change (2 ^ 8) with 256; lia); lia.
Qed.
Lemma hex_encode_text b : bytes_ok b -> hex_text (hex_encode b) = true.
Proof.
  unfold hex_encode, hex_text. induction 1 as [|z b Hz _ IH]; [done|]. cbn [map concat app b2s sall].
  unfold fits in Hz. change (2 ^ 8) with 256 in Hz.
  assert (0 <= Z.shiftr z 4 < 16) as H1 by (rewrite Z.shiftr_div_pow2 by lia; change (2 ^ 4) with 16; Z.to_euclidean_division_equations; lia).
  assert (0 <= Z.land z 15 < 16) as H2 by (change 15 with (Z.ones 4); rewrite Z.land_ones by lia; apply Z.mod_pos_bound; lia).
  by rewrite !chr_code, !hex_digit_ok, IH.
Qed.
Lemma hex8_text z : hex_text (hex8 z) = true.
Proof.
  assert (forall x, fits 8 (Z.land x 255)) as H
    by (intros x; unfold fits; change 255 with (Z.ones 8); rewrite Z.land_ones by lia; apply Z.mod_pos_bound; lia).
  apply hex_encode_text. repeat (apply Forall_cons_2; [apply H|]). apply Forall_nil_2.
Qed.

Section authorization.
Context `{U : Unicode}.

Lemma hashHex_text algorithm s : hex_text (hashHex algorithm s) = true.
Proof.
  unfold hashHex. destruct (decide _); apply hex_encode_text; [apply SHA256.Sum256_ok|apply MD5.Sum_ok].
Qed.
Lemma supported_cases algorithm : supportedAlgorithm algorithm = true ->
  normalizeAlgorithm algorithm = "MD5" \/ normalizeAlgorithm algorithm = "SHA-256".
Proof. unfold supportedAlgorithm. intros [H%bool_decide_eq_true|H%bool_decide_eq_true]%orb_prop; eauto. Qed.

(** The reference server of RFC 7616: it recomputes the response from the
    directives it read and the password it knows. *)
Definition verify (p : gmap string string) (password method : string) : bool :=
  let get k := default "" (p !! k) in
  let algorithm := default "MD5" (p !! "algorithm") in
  let ha1 := hashHex algorithm (get "username" +:+ ":" +:+ get "realm" +:+ ":" +:+ password) in
  let ha2 := hashHex algorithm (method +:+ ":" +:+ get "uri") in
  bool_decide (get "response" =
    if decide (p !! "qop" = Some "auth")
    then hashHex algorithm (ha1 +:+ ":" +:+ get "nonce" +:+ ":" +:+ get "nc" +:+ ":" +:+ get "cnonce" +:+ ":auth:" +:+ ha2)
    else hashHex algorithm (ha1 +:+ ":" +:+ get "nonce" +:+ ":" +:+ ha2)).

(** The directives of an Authorization header. *)
Definition auth_directives (c : Challenge) (username uri response : string) (nc : Z) (cnonce : string) :
    list (string * string * bool) :=
  let algorithm := normalizeAlgorithm (Algorithm c) in
  [("username", username, true); ("realm", Realm c, true); ("nonce", Nonce c, true); ("uri", uri, true);
   ("response", response, true)] ++
  (if decide (QOP c = "auth") then [("qop", "auth", false); ("nc", hex8 nc, false); ("cnonce", cnonce, true)] else []) ++
  (if AlgorithmExplicit c || negb (EqualFold algorithm "MD5") then [("algorithm", algorithm, false)] else []) ++
  (if decide (Opaque c = "") then [] else [("opaque", Opaque c, true)]).
Definition auth_response (c : Challenge) (username password method uri : string) (nc : Z) (cnonce : string) : string :=
  let algorithm := normalizeAlgorithm (Algorithm c) in
  let ha1 := hashHex algorithm (username +:+ ":" +:+ Realm c +:+ ":" +:+ password) in
  let ha2 := hashHex algorithm (method +:+ ":" +:+ uri) in
  if decide (QOP c = "auth")
  then hashHex algorithm (ha1 +:+ ":" +:+ Nonce c +:+ ":" +:+ hex8 nc +:+ ":" +:+ cnonce +:+ ":auth:" +:+ ha2)
  else hashHex algorithm (ha1 +:+ ":" +:+ Nonce c +:+ ":" +:+ ha2).

Lemma Authorization_directives c username password method uri nc cnonce : hex_text cnonce = true ->
  Authorization c username password method uri nc cnonce =
  "Digest " +:+ Join (map render (auth_directives c username uri (auth_response c username password method uri nc cnonce) nc cnonce)) ", ".
Proof.
  intros Hc. unfold Authorization, auth_directives, auth_response. cbv zeta.
  assert (forall k s, hex_text s = true -> quoted k s = k +:+ "=" +:+ String quote (s +:+ String quote "")) as Hq
    by (intros k s Hs; unfold quoted; by rewrite escape_hex).
  destruct (AlgorithmExplicit c || _), (decide (Opaque c = "")), (decide (QOP c = "auth")); cbn [map render app];
    rewrite (Hq "response" (hashHex _ _)) by apply hashHex_text; try rewrite (Hq "cnonce") by done; reflexivity.
Qed.

Lemma auth_directives_ok c username uri r nc cnonce :
  supportedAlgorithm (Algorithm c) = true -> hex_text cnonce = true -> hex_text r = true ->
  Forall (fun v => ascii_ok v = true /\ edges_plain v) [username; Realm c; Nonce c; uri; Opaque c] ->
  Forall directive_ok (auth_directives c username uri r nc cnonce).
Proof.
  intros Halg Hcn Hr Hv. rewrite !Forall_cons in Hv. destruct Hv as (H1 & H2 & H3 & H4 & H5 & _).
  assert (forall k v, k <> "" /\ sall (plain true) k = true -> ascii_ok v = true /\ edges_plain v -> directive_ok (k, v, true)) as Hq
    by (intros k v Hk Hkv; by split).
  assert (forall s, hex_text s = true -> ascii_ok s = true /\ edges_plain s) as Hx.
  { intros s [He Ht]%hex_plain%plain_no_quote. split; [|done]. by apply token_ascii. }
  unfold auth_directives. rewrite !Forall_app. split; [|split; [|split]].
  - repeat (apply Forall_cons_2; [apply Hq; by auto|]). apply Forall_nil_2.
  - destruct (decide _); [|apply Forall_nil_2]. apply Forall_cons_2; [by split|].
    apply Forall_cons_2; [|apply Forall_cons_2; [apply Hq; by auto|apply Forall_nil_2]].
    split; [by split|]. cbn [snd fst]. split; [done|]. apply hex_plain, hex8_text.
  - destruct (_ || _); [|apply Forall_nil_2]. apply Forall_cons_2; [|apply Forall_nil_2].
    split; [by split|]. cbn [snd fst]. by destruct (supported_cases _ Halg) as [-> | ->].
  - destruct (decide _); [apply Forall_nil_2|]. apply Forall_cons_2; [apply Hq; by auto|apply Forall_nil_2].
Qed.
Lemma escape_ascii v : ascii_ok v = true -> ascii_ok (escape v) = true.
Proof.
  unfold ascii_ok. induction v as [|a v IH]; [done|]. cbn [sall]. intros [Ha Hv]%andb_prop. rewrite escape_cons, sall_app, IH by done.
  rewrite andb_true_r. unfold escape_char. destruct (decide _); [done|]. destruct (decide _); [done|]. cbn [sall]. by rewrite Ha.
Qed.
Lemma render_ascii d : directive_ok d -> ascii_ok (render d) = true.
Proof.
  destruct d as [[k v] q]. intros [[_ Hk] Hv]. cbn [fst snd] in *.
  assert (forall b s, sall (plain b) s = true -> ascii_ok s = true) as Hp.
  { intros b s H. apply token_ascii. eapply sall_weaken; [|exact H]. unfold plain.
    intros c [[[Hc _]%andb_prop _]%andb_prop _]%andb_prop. exact Hc. }
  unfold ascii_ok, render, quoted. destruct q.
  - rewrite !sall_app. cbn [sall]. rewrite sall_app. destruct Hv as [Hv _]. apply escape_ascii in Hv. apply Hp in Hk.
    unfold ascii_ok in Hv, Hk. by rewrite Hv, Hk.
  - destruct Hv as [_ Hv]. rewrite !sall_app. apply Hp in Hk, Hv. unfold ascii_ok in Hv, Hk. by rewrite Hv, Hk.
Qed.
(** [parseParams] undoes the rendering of directives. *)
Lemma parse_directives ds : ds <> [] -> Forall directive_ok ds ->
  parseParams (Join (map render ds) ", ") = insert_all ∅ ds.
Proof.
  intros Hne Hall. unfold parseParams. rewrite runes_of.
  - apply (run_directives ∅ []); [done|by left|done].
  - clear Hne. induction Hall as [|d ds Hd _ IH]; [done|]. apply render_ascii in Hd. destruct ds as [|d' ds]; [done|].
    cbn [map] in *. rewrite Join_cons2. unfold ascii_ok in *. by rewrite !sall_app, Hd, IH.
Qed.

Lemma normalize_idem algorithm : supportedAlgorithm algorithm = true -> forall s,
  hashHex (normalizeAlgorithm algorithm) s = hashHex algorithm s.
Proof. intros H s. unfold hashHex. by destruct (supported_cases _ H) as [-> | ->]. Qed.

Lemma verify_directives c username password method uri nc cnonce :
  supportedAlgorithm (Algorithm c) = true ->
  let r := auth_response c username password method uri nc cnonce in
  let p := insert_all ∅ (auth_directives c username uri r nc cnonce) in
  p !! "username" = Some username /\ p !! "realm" = Some (Realm c) /\ p !! "nonce" = Some (Nonce c) /\
  p !! "uri" = Some uri /\ default "" (p !! "opaque") = Opaque c /\ verify p password method = true.
Proof.
  intros Halg r p.
  assert (p !! "username" = Some username /\ p !! "realm" = Some (Realm c) /\ p !! "nonce" = Some (Nonce c) /\
    p !! "uri" = Some uri /\ p !! "response" = Some r /\ default "" (p !! "opaque") = Opaque c /\
    default "MD5" (p !! "algorithm") = normalizeAlgorithm (Algorithm c) /\
    p !! "qop" = (if decide (QOP c = "auth") then Some "auth" else None) /\
    (QOP c = "auth" -> p !! "nc" = Some (hex8 nc) /\ p !! "cnonce" = Some cnonce)) as (H1 & H2 & H3 & H4 & H5 & H6 & H7 & H8 & H9).
  { unfold p. rewrite !lookup_insert_all. unfold auth_directives.
    destruct (AlgorithmExplicit c || _) eqn:E, (decide (Opaque c = "")) as [Ho|Ho], (decide (QOP c = "auth"));
      repeat split; try reflexivity; try done; try (by rewrite Ho).
    all: apply orb_false_iff in E as [_ E%negb_false_iff]; destruct (supported_cases _ Halg) as [-> | Hs]; [done|];
      rewrite Hs in E; by vm_compute in E. }
  repeat (split; [done|]). unfold verify. rewrite H1, H2, H3, H4, H5, H7, H8. cbn [default from_option id].
  apply bool_decide_eq_true. unfold r, auth_response. destruct (decide (QOP c = "auth")) as [Hq|Hq].
  - destruct (H9 Hq) as [-> ->]. done.
  - rewrite decide_False by done. done.
Qed.

(** A server accepts what the gateway answers.  For a challenge with a
    supported algorithm, the directives of the Authorization header parse back -
    user name, realm, nonce, URI and opaque as they were, whatever quotes and
    backslashes they contain inside - and the reference server, recomputing the
    response from them and the password, finds the response sent. *)
Theorem authorization_accepted (c : Challenge) (username password method uri : string) (nc : Z) (cnonce : string) :
  supportedAlgorithm (Algorithm c) = true -> hex_text cnonce = true ->
  Forall (fun v => ascii_ok v = true /\ edges_plain v) [username; Realm c; Nonce c; uri; Opaque c] ->
  exists rest, Authorization c username password method uri nc cnonce = "Digest " +:+ rest /\
    let p := parseParams rest in
    p !! "username" = Some username /\ p !! "realm" = Some (Realm c) /\ p !! "nonce" = Some (Nonce c) /\
    p !! "uri" = Some uri /\ default "" (p !! "opaque") = Opaque c /\ verify p password method = true.
Proof.
  intros Halg Hcn Hv. rewrite Authorization_directives by done. eexists. split; [reflexivity|].
  set (r := auth_response c username password method uri nc cnonce). set (ds := auth_directives c username uri r nc cnonce).
  assert (hex_text r = true) as Hr by (unfold r, auth_response; destruct (decide _); apply hashHex_text).
  rewrite parse_directives by (done || by apply auth_directives_ok).
  cbv zeta. apply verify_directives; done.
Qed.
End authorization.

(** * The order of the directives *)

Section order.
Context `{U : Unicode}.
Lemma directive_comm acc x y : ToLower x.1 <> ToLower y.1 -> directive (directive acc x) y = directive (directive acc y) x.
Proof.
  destruct acc as [c q], x as [k v], y as [k' v']. cbn [fst]. unfold directive. generalize (ToLower k) as a, (ToLower k') as b.
  intros a b Hab.
  repeat match goal with |- context [decide (a = ?n)] => destruct (decide (a = n)) as [->|]; [|] end;
  repeat match goal with |- context [decide (b = ?n)] => destruct (decide (b = n)) as [->|]; [|] end;
  try done; try reflexivity; destruct (existsb _ _); reflexivity.
Qed.
Lemma directives_perm acc l1 l2 : l1 ≡ₚ l2 -> NoDup (map (fun d => ToLower d.1) l1) ->
  foldl directive acc l1 = foldl directive acc l2.
Proof.
  intros Hp. revert acc. induction Hp as [|x l l' Hp IH|x y l|l l' l'' H1 IH1 H2 IH2]; intros acc Hnd.
  - done.
  - cbn in *. apply NoDup_cons in Hnd as [_ Hnd]. by apply IH.
  - cbn in *. apply NoDup_cons in Hnd as [Hx _]. rewrite directive_comm; [done|]. intros E. apply Hx. rewrite E. by left.
  - rewrite IH1 by done. apply IH2. by rewrite <- H1.
Qed.
(** Whatever order the directives of a challenge are visited in, the result is
    the same as long as no two names differ only in case. *)
Theorem challenge_order (scheme : string) (l1 l2 : list (string * string)) :
  l1 ≡ₚ l2 -> NoDup (map (fun d => ToLower d.1) l1) -> challenge_of scheme l1 = challenge_of scheme l2.
Proof. intros Hp Hnd. unfold challenge_of. by rewrite (directives_perm _ l1 l2). Qed.
End order.

(** ** Witness: the example of RFC 2617, section 3.5, and a user name with
    quotes inside *)

#[local] Existing Instance ascii_tables.
Definition rfc_challenge : Challenge :=
  mkChallenge "digest" "testrealm@host.com" "dcd98b7102dd2f0e8b11d0f600bfb0c093" "5ccc069c403ebaf9f0171e9517f40e41" "MD5"
    false "auth" false.
Example rfc_response :
  auth_response rfc_challenge "Mufasa" "Circle Of Life" "GET" "/dir/index.html" 1 "0a4f113b" = "6629fae49393a05397450978507c4ef1".
Proof. vm_compute. reflexivity. Qed.

Definition quoted_user : string := "a" +:+ String quote (String backslash "b").
Lemma authorization_accepted_witness :
  exists rest, Authorization rfc_challenge quoted_user "pw" "REGISTER" "sip:pbx:5060" 1 "0a4f113b" = "Digest " +:+ rest /\
    parseParams rest !! "username" = Some quoted_user /\ verify (parseParams rest) "pw" "REGISTER" = true.
Proof.
  destruct (authorization_accepted rfc_challenge quoted_user "pw" "REGISTER" "sip:pbx:5060" 1 "0a4f113b")
    as (rest & E & Hu & _ & _ & _ & _ & Hv).
  - vm_compute. reflexivity.
  - vm_compute. reflexivity.
  - repeat (apply Forall_cons_2; [split; [vm_compute; reflexivity|split; vm_compute; reflexivity]|]). apply Forall_nil_2.
  - exists rest. by split.
Defined.

(** [parseParams] trims quotes from the decoded value, so a value that ends in
    a quote of its own loses it. *)
Lemma edge_quote_lost : parseParams (quoted "realm" ("x" +:+ String quote "")) !! "realm" = Some "x".
Proof. vm_compute. reflexivity. Qed.
End Digest.
