(* ===== verification/SipCaller.v ===== *)
(** The caller allow list: [internal/sip/caller_filter.go]. *)
From S2P Require Import Prelude GoStrings GoText SipText.

Module SipCaller.
Import SipText.

Definition is_hex_byte (z : Z) : bool := is_digit_byte z || within 97 102 z || within 65 70 z.
Definition unhex (z : Z) : Z :=
  if is_digit_byte z then z - 48 else if within 97 102 z then z - 97 + 10 else z - 65 + 10.
(** [url.PathUnescape]: [None] is an error. *)
Fixpoint unescape (b : bytes) : option bytes :=
  match b with
  | [] => Some []
  | z :: r =>
    if z =? 37 then
      match r with
      | h :: l :: r' => if is_hex_byte h && is_hex_byte l then cons (unhex h * 16 + unhex l) <$> unescape r' else None
      | _ => None
      end
    else cons z <$> unescape r
  end.
Definition PathUnescape (s : string) : option string := b2s <$> unescape (s2b s).

Section caller.
Context `{U : Unicode}.

(** The loop over the schemes: the first that fits is cut off. *)
Fixpoint cut_scheme (value lower : string) (schemes : list string) : string :=
  match schemes with
  | [] => value
  | s :: r => if HasPrefix lower s then sdrop (String.length s) value else cut_scheme value lower r
  end.

(** The loop over the runes: the dial string and [dialLike]; [index] counts
    bytes. *)
Fixpoint dial_loop (index : nat) (rs : list (Z * bytes)) (dial : bytes) (dialLike : bool) : bytes * bool :=
  match rs with
  | [] => (dial, dialLike)
  | (r, bs) :: rest =>
    let next := (index + length bs)%nat in
    if rune_digit r || (r =? 42) || (r =? 35) then dial_loop next rest (dial ++ encode_rune r) dialLike
    else if (r =? 43) && (index =? 0)%nat then dial_loop next rest (dial ++ encode_rune r) dialLike
    else if is_space r || (r =? 45) || (r =? 40) || (r =? 41) || (r =? 46) || (r =? 47) then dial_loop next rest dial dialLike
    else dial_loop next rest dial false
  end.

(** The user part behind the scheme, normalised. *)
Definition canonical_user (value : string) : string :=
  let value := match LastIndexByte value "@" with Some i => stake i value | None => value end in
  let value := match IndexAny value [";"%char; "?"%char] with Some i => stake i value | None => value end in
  let value := default value (PathUnescape value) in
  let value := TrimSpace (Trim value [quote]) in
  if decide (value = "") then ""
  else
    let '(dial, dialLike) := dial_loop 0 (runes value) [] true in
    if dialLike && (0 <? length dial)%nat then b2s dial else ToLower value.
Definition canonicalCallerID (value : string) : string :=
  let value := TrimSpace (extractURI value) in
  let value := Trim value [quote] in
  canonical_user (cut_scheme value (ToLower value) ["sip:"; "sips:"; "tel:"]).

Record callerAllowlist := mkAllowlist { all : bool; ids : gset string }.

Fixpoint add_callers (result : callerAllowlist) (values : list string) : callerAllowlist :=
  match values with
  | [] => result
  | v :: r =>
    let v := TrimSpace v in
    if decide (v = "*") then mkAllowlist true ∅
    else
      let id := canonicalCallerID v in
      add_callers (if decide (id = "") then result else mkAllowlist (all result) ({[id]} ∪ ids result)) r
  end.
Definition newCallerAllowlist (values : list string) : callerAllowlist := add_callers (mkAllowlist false ∅) values.

Definition allows (a : callerAllowlist) (value : string) : bool :=
  if all a then true
  else
    let id := canonicalCallerID value in
    if decide (id = "") then false else bool_decide (id ∈ ids a).

(** * What the list admits *)

Lemma add_callers_spec r values : all r = false ->
  all (add_callers r values) = bool_decide ("*" ∈ map TrimSpace values) /\
  (all (add_callers r values) = false -> forall id,
     id ∈ ids (add_callers r values) <->
     id ∈ ids r \/ id <> "" /\ id ∈ map (fun v => canonicalCallerID (TrimSpace v)) values).
Proof.
  revert r. induction values as [|v values IH]; intros r Hr; cbn [add_callers map].
  - split; [by rewrite bool_decide_eq_false_2 by apply not_elem_of_nil|]. intros _ id. rewrite elem_of_nil. tauto.
  - destruct (decide (TrimSpace v = "*")) as [E|E].
    { cbn [all]. rewrite E. split; [by rewrite bool_decide_eq_true_2 by (by left)|done]. }
    set (id0 := canonicalCallerID (TrimSpace v)).
    set (r' := if decide (id0 = "") then r else mkAllowlist (all r) ({[id0]} ∪ ids r)).
    assert (all r' = false) as Hr' by (unfold r'; by destruct (decide _)).
    destruct (IH r' Hr') as [H1 H2]. split.
    + rewrite H1. apply bool_decide_ext. rewrite elem_of_cons. split; [by right|]. intros [E'|]; [by rewrite E' in E|done].
    + intros Ha id. rewrite (H2 Ha). rewrite elem_of_cons. unfold r'. destruct (decide (id0 = "")) as [E0|E0].
      * split; [intros [|[]]; auto|]. intros [|[Hne [->|]]]; auto. by rewrite E0 in Hne.
      * cbn [ids]. rewrite elem_of_union, elem_of_singleton. split; [intros [[->|]|[]]; auto|]. intros [|[Hne [->|]]]; auto.
Qed.

(** A caller is admitted exactly if the list holds a lone star or an entry
    with the same canonical identity; a caller without an identity only by the
    star. *)
Theorem allows_iff (values : list string) (caller : string) :
  allows (newCallerAllowlist values) caller = true <->
  "*" ∈ map TrimSpace values \/
  canonicalCallerID caller <> "" /\ canonicalCallerID caller ∈ map (fun v => canonicalCallerID (TrimSpace v)) values.
Proof.
  destruct (add_callers_spec (mkAllowlist false ∅) values eq_refl) as [H1 H2]. unfold allows, newCallerAllowlist.
  rewrite H1. case_bool_decide as Hs; [by split; [left|]|]. specialize (H2 H1).
  specialize (H2 (canonicalCallerID caller)). destruct (decide (canonicalCallerID caller = "")) as [E|E].
  { split; [done|]. intros [?|[? _]]; done. }
  rewrite bool_decide_eq_true, H2. cbn [ids]. split; [intros [?|[]]; [set_solver|eauto]|]. intros [?|[]]; [done|eauto].
Qed.

(** ** Dial strings *)

Definition dial_char (c : ascii) : bool := is_digit_byte (code c) || (code c =? 42) || (code c =? 35).
(** A number as it is dialled: digits, stars and hashes behind an optional
    plus. *)
Definition dial_string (s : string) : bool :=
  match s with "" => false | String c s' => (dial_char c || (code c =? 43)) && sall dial_char s' end.
(** What stands behind the user part: a host without the characters that end
    one. *)
Definition host_char (c : ascii) : bool :=
  token_char c && negb (bool_decide (c ∈ [quote; "<"; ">"; ";"; "?"; "@"]%char)).

Lemma dial_chars s : dial_string s = true -> sall (fun c => dial_char c || (code c =? 43)) s = true.
Proof.
  destruct s as [|c s]; [done|]. cbn [dial_string sall]. intros [-> Hs]%andb_prop. cbn [andb].
  eapply sall_weaken; [|exact Hs]. by intros a ->.
Qed.
Lemma dial_host s : dial_string s = true -> sall host_char s = true /\ sall (isnt "%") s = true /\ s <> "".
Proof.
  intros H. assert (s <> "") by (by intros ->). apply dial_chars in H.
  assert (forall c, dial_char c || (code c =? 43) = true -> host_char c = true /\ c <> "%"%char) as Hc.
  { intros c Hc. unfold host_char, token_char. unfold dial_char, is_digit_byte in Hc. split.
    - apply andb_true_intro. split; [lia|]. apply negb_true_iff, bool_decide_eq_false. rewrite !elem_of_cons, elem_of_nil.
      intros [->|[->|[->|[->|[->|[->|[]]]]]]]; by vm_compute in Hc.
    - intros ->. by vm_compute in Hc. }
  split; [|split; [|done]]; (eapply sall_weaken; [|exact H]); intros c Hd; apply Hc in Hd as [? ?]; [done|by apply isnt_true].
Qed.

(** Membership in a concrete list. *)
Local Ltac listed := apply (bool_decide_unpack _); vm_compute; exact I.
Lemma host_isnt c s : c ∈ [quote; "<"; ">"; ";"; "?"; "@"]%char -> sall host_char s = true -> sall (isnt c) s = true.
Proof.
  intros Hin. apply sall_weaken. intros a [_ Ha%negb_true_iff%bool_decide_eq_false]%andb_prop. apply isnt_true.
  by intros ->.
Qed.
Lemma host_token s : sall host_char s = true -> sall token_char s = true.
Proof. apply sall_weaken. by intros c [? _]%andb_prop. Qed.
Lemma Trim_absent c s : sall (isnt c) s = true -> Trim s [c] = s.
Proof.
  intros Hs. assert (TrimRightSet s [c] = s) as Hr.
  { induction s as [|a s IH]; [done|]. cbn [sall TrimRightSet] in *. apply andb_prop in Hs as [Ha%isnt_true Hs].
    rewrite IH, bool_decide_eq_false_2 by (done || by rewrite list_elem_of_singleton). by destruct s. }
  unfold Trim. destruct s as [|a s]; [done|]. cbn [sall TrimLeftSet] in *. apply andb_prop in Hs as [Ha%isnt_true _].
  by rewrite bool_decide_eq_false_2 by by rewrite list_elem_of_singleton.
Qed.
Lemma LastIndex_absent c s : sall (isnt c) s = true -> LastIndexByte s c = None.
Proof.
  induction s as [|a s IH]; [done|]. cbn [sall LastIndexByte]. intros [Ha%isnt_true Hs]%andb_prop. by rewrite IH, decide_False.
Qed.
Lemma LastIndex_found c s t : sall (isnt c) t = true -> LastIndexByte (s +:+ String c t) c = Some (String.length s).
Proof.
  intros Ht. induction s as [|a s IH].
  - rewrite snil_app. cbn [LastIndexByte]. by rewrite LastIndex_absent, decide_True.
  - rewrite scons_app. cbn [LastIndexByte]. by rewrite IH.
Qed.
Lemma IndexAny_absent a b s : sall (isnt a) s = true -> sall (isnt b) s = true -> IndexAny s [a; b] = None.
Proof.
  induction s as [|c s IH]; [done|]. cbn [sall IndexAny]. intros [Ha%isnt_true Hs]%andb_prop [Hb%isnt_true Hs']%andb_prop.
  rewrite bool_decide_eq_false_2; [by rewrite IH|]. rewrite !elem_of_cons, elem_of_nil. by intros [?|[?|[]]].
Qed.
Lemma unescape_absent s : sall (isnt "%") s = true -> unescape (s2b s) = Some (s2b s).
Proof.
  induction s as [|a s IH]; [done|]. cbn [sall s2b unescape]. intros [Ha%isnt_true Hs]%andb_prop.
  assert (code a =? 37 = false) as ->.
  { apply Z.eqb_neq. intros E. apply Ha. by rewrite <- (chr_code a), E. }
  by rewrite IH.
Qed.
Lemma extractURI_plain v : sall token_char v = true -> sall (isnt "<") v = true -> sall (isnt ";") v = true -> extractURI v = v.
Proof.
  intros Ht Hl Hs. unfold extractURI. rewrite (Index_absent "<" ""), (Index_absent ";" "") by done.
  destruct v as [|a v]; [done|]. apply (TrimSpace_words [String a v]). by repeat constructor.
Qed.

Lemma dial_loop_all i s acc : (i <> 0)%nat -> sall dial_char s = true -> dial_loop i (runes s) acc true = (acc ++ s2b s, true).
Proof.
  revert i acc. induction s as [|c s IH]; intros i acc Hi Hs; [by rewrite app_nil_r|]. cbn [sall] in Hs.
  apply andb_prop in Hs as [Hc Hs]. unfold dial_char, is_digit_byte in Hc. rewrite runes_cons by lia. cbn [dial_loop length].
  assert (rune_digit (code c) || (code c =? 42) || (code c =? 35) = true) as ->.
  { unfold rune_digit, is_digit_byte. assert (code c <? 128 = true) as -> by lia. exact Hc. }
  rewrite IH by (lia || done). rewrite encode_ascii by (pose proof (code_pos c); lia). cbn [s2b]. by rewrite <- app_assoc.
Qed.
Lemma dial_loop_dial s : dial_string s = true -> dial_loop 0 (runes s) [] true = (s2b s, true).
Proof.
  destruct s as [|c s]; [done|]. cbn [dial_string]. intros [Hc Hs]%andb_prop.
  assert (dial_char c = true \/ code c = 43) as Hc' by (apply orb_prop in Hc as [|?%Z.eqb_eq]; auto).
  assert (code c < 128) by (destruct Hc' as [H|]; [unfold dial_char, is_digit_byte in H|]; lia).
  rewrite runes_cons by done. cbn [dial_loop length]. unfold rune_digit. assert (code c <? 128 = true) as -> by lia.
  destruct Hc' as [Hd|Hp].
  - unfold dial_char in Hd. rewrite Hd. rewrite dial_loop_all by (lia || done).
    by rewrite encode_ascii by (pose proof (code_pos c); lia).
  - rewrite Hp. cbn [is_digit_byte Z.leb andb orb Z.eqb Nat.eqb]. rewrite dial_loop_all by (lia || done). cbn [s2b]. by rewrite Hp.
Qed.

Lemma canonical_user_dial s host : dial_string s = true -> sall host_char host = true ->
  canonical_user s = s /\ canonical_user (s +:+ String "@" host) = s.
Proof.
  intros Hd Hh. destruct (dial_host s Hd) as (Hs & Hp & Hne).
  assert (forall v, v = s -> (let value := default v (PathUnescape v) in
    let value := TrimSpace (Trim value [quote]) in
    if decide (value = "") then "" else
    let '(dial, dialLike) := dial_loop 0 (runes value) [] true in
    if dialLike && (0 <? length dial)%nat then b2s dial else ToLower value) = s) as Hcore.
  { intros v ->. unfold PathUnescape. rewrite unescape_absent by done. cbn [fmap option_fmap option_map default from_option id].
    rewrite b2s_s2b, Trim_absent by (apply host_isnt; [listed|done]).
    assert (TrimSpace s = s) as -> by (apply (TrimSpace_words [s]); repeat constructor; apply host_token in Hs; by destruct s).
    cbv zeta. rewrite decide_False by done. rewrite dial_loop_dial by done. cbn [andb]. rewrite length_s2b.
    destruct s; [done|]. cbn [String.length Nat.ltb Nat.leb]. apply b2s_s2b. }
  assert (IndexAny s [";"%char; "?"%char] = None) as Hi by (apply IndexAny_absent; (apply host_isnt; [listed|done])).
  split; unfold canonical_user.
  - rewrite LastIndex_absent by (apply host_isnt; [listed|done]). cbv zeta. rewrite Hi. by apply Hcore.
  - rewrite LastIndex_found by (apply host_isnt; [listed|done]). cbv zeta. rewrite stake_app, Hi. by apply Hcore.
Qed.

Lemma ToLower_ascii s : is_ascii s = true -> ToLower s = smap lower_byte s.
Proof. intros H. unfold ToLower. by rewrite H. Qed.
Lemma token_is_ascii s : sall token_char s = true -> is_ascii s = true.
Proof. induction s as [|c s IH]; [done|]. cbn [sall is_ascii]. intros [[Hc _]%token_char_spec Hs]%andb_prop. rewrite IH by done. lia. Qed.

(** A number that is dialled stands for itself, with and without a SIP URI
    around it. *)
Lemma canonical_dial s host : dial_string s = true -> sall host_char host = true ->
  canonicalCallerID s = s /\ canonicalCallerID ("sip:" +:+ s +:+ String "@" host) = s.
Proof.
  intros Hd Hh. destruct (dial_host s Hd) as (Hs & _ & Hne). destruct (canonical_user_dial s host Hd Hh) as [H1 H2].
  pose proof (host_token s Hs) as Ht. split; unfold canonicalCallerID.
  - rewrite extractURI_plain; [|done|(apply host_isnt; [listed|done])..].
    assert (TrimSpace s = s) as -> by (apply (TrimSpace_words [s]); repeat constructor; by destruct s).
    cbv zeta. rewrite Trim_absent by (apply host_isnt; [listed|done]). rewrite ToLower_ascii by (by apply token_is_ascii).
    destruct s as [|c s]; [done|]. cbn [dial_string] in Hd. apply andb_prop in Hd as [Hc _].
    assert (lower_byte (code c) = code c) as Hlow.
    { unfold dial_char, is_digit_byte in Hc. unfold lower_byte, is_upper_byte.
      by assert ((65 <=? code c) && (code c <=? 90) = false) as -> by lia. }
    cbn [smap cut_scheme HasPrefix]. rewrite Hlow, chr_code.
    rewrite !decide_False by (intros <-; by vm_compute in Hc). exact H1.
  - set (v := "sip:" +:+ s +:+ String "@" host).
    assert (sall token_char v = true) as Hv.
    { unfold v. rewrite !sall_app, Ht. cbn [sall]. apply host_token in Hh. by rewrite Hh. }
    assert (forall c, c ∈ [quote; "<"; ">"; ";"; "?"]%char -> sall (isnt c) v = true) as Hno.
    { intros c Hc. unfold v. rewrite !sall_app. cbn [sall]. rewrite (host_isnt c s), (host_isnt c host) by (done || (rewrite !elem_of_cons in *; tauto)).
      rewrite !elem_of_cons, elem_of_nil in Hc. by destruct Hc as [->|[->|[->|[->|[->|[]]]]]]. }
    rewrite extractURI_plain by (done || apply Hno; listed).
    assert (TrimSpace v = v) as -> by (by apply (TrimSpace_words [v]); repeat constructor).
    cbv zeta. rewrite Trim_absent by (apply Hno; listed). rewrite ToLower_ascii by (by apply token_is_ascii).
    cbn [cut_scheme]. assert (HasPrefix (smap lower_byte v) "sip:" = true) as -> by apply (HasPrefix_app "sip:").
    unfold v. rewrite (sdrop_whole "sip:"). exact H2.
Qed.

(** No shorter or longer number slips through: a list with one number admits
    a SIP caller with a number exactly if the numbers are equal. *)
Theorem numbers_match_exactly (listed caller host : string) :
  dial_string listed = true -> dial_string caller = true -> sall host_char host = true -> listed <> "*" ->
  allows (newCallerAllowlist [listed]) ("sip:" +:+ caller +:+ String "@" host) = bool_decide (listed = caller).
Proof.
  intros Hl Hc Hh Hstar. destruct (canonical_dial listed host Hl Hh) as [El _]. destruct (canonical_dial caller host Hc Hh) as [_ Ec].
  destruct (dial_host listed Hl) as (Hls & _ & Hne).
  assert (TrimSpace listed = listed) as Et
    by (apply (TrimSpace_words [listed]); repeat constructor; apply host_token in Hls; by destruct listed).
  unfold newCallerAllowlist. cbn [add_callers]. rewrite Et, decide_False, El, decide_False by done.
  unfold allows. cbn [all ids]. rewrite Ec, decide_False by (by intros ->). apply bool_decide_ext. set_solver.
Qed.
End caller.

(** ** Witness *)

#[local] Existing Instance ascii_tables.
Lemma numbers_match_exactly_witness :
  allows (newCallerAllowlist ["+491234"]) "sip:+491234@pbx" = true /\ allows (newCallerAllowlist ["1234"]) "sip:+491234@pbx" = false.
Proof.
  split.
  - rewrite (numbers_match_exactly "+491234" "+491234" "pbx"); [vm_compute; reflexivity..|discriminate].
  - rewrite (numbers_match_exactly "1234" "+491234" "pbx"); [vm_compute; reflexivity..|discriminate].
Defined.
End SipCaller.
