(* ===== verification/SipTransact.v ===== *)
(** SIP client transactions: [Client.transact] of [internal/sip/client.go], the
    loop that waits for a response, retransmits and cancels, and [sendCancel]
    with the goroutine that sends CANCEL again.

    The loop and the goroutine are run over the sequence of events their [select]s
    take; every sequence in which an event was ready is covered.  The goroutine
    outlives the loop.  What a write to the socket returned is part of the event. *)
From S2P Require Import Prelude GoStrings SipText.

Module SipTransact.
Import SipText.

(** Milliseconds. *)
Definition T1 : Z := 500.
Definition T2 : Z := 4000.
Definition transaction_timeout : Z := 32000.
Definition cancel_timeout : Z := 5000.

(** The variables of the loop; a nil channel is [false]. *)
Record tx := mkTx {
  invite : bool; timerC : bool; interval : Z; deadline : Z; ctxDone : bool;
  cancelRequested : bool; cancelSent : bool; receivedResponse : bool;
}.
#[export] Instance eta_tx : Eta tx := fun t =>
  mkTx (invite t) (timerC t) (interval t) (deadline t) (ctxDone t) (cancelRequested t) (cancelSent t) (receivedResponse t).
Definition tx0 (inv : bool) : tx := mkTx inv true T1 transaction_timeout true false false false.

Inductive event :=
| Response (res : Message) (cancel_ok : bool) (** a response; whether the CANCEL it may trigger is written *)
| Timer (write_ok : bool)
| Deadline (ctx_err : bool)
| CtxDone (cancel_ok : bool)
| Closed
| Resend (delay : Z) (write_ok : bool) (** the goroutine's timer *)
| Abandon.                             (** the goroutine finds the client closed *)
(** What is written. *)
Inductive output := Request | Cancel.
Inductive outcome :=
| Answered (res : Message)
| WriteFailed
| CancelFailed
| TimedOut
| Handoff (cancelSent : bool) (** [transitionCanceledInvite] decides *)
| CancelTimedOut
| Canceled
| ClientClosed.

(** The delays of the goroutine of [sendCancel], one after the other. *)
Definition cancel_delays : list Z := [500; 1500].
(** [sendCancel]: what is written, what is left to the goroutine it starts, and whether it failed. *)
Definition try_cancel (t : tx) (ok : bool) : list output * list Z * (outcome + tx) :=
  if ok then ([Cancel], cancel_delays, inr (t <| cancelSent := true |>)) else ([], [], inl CancelFailed).

(** What the loop writes, the goroutine it starts, and how it goes on. *)
Definition on_event (t : tx) (e : event) : option (list output * list Z * (outcome + tx)) :=
  match e with
  | Response res ok =>
    let t := t <| receivedResponse := true |> in
    if StatusCode res <? 200 then
      let t := if invite t && timerC t then t <| timerC := false |> else t in
      Some (if cancelRequested t && negb (cancelSent t) then try_cancel t ok else ([], [], inr t))
    else Some ([], [], inl (Answered res))
  | Timer ok =>
    if negb (timerC t) then None
    else if ok then Some ([Request], [], inr (if interval t <? T2 then t <| interval ::= Z.mul 2 |> else t))
    else Some ([], [], inl WriteFailed)
  | Deadline ctx_err =>
    Some ([], [], inl (if cancelRequested t && ctx_err then (if invite t then Handoff (cancelSent t) else CancelTimedOut) else TimedOut))
  | CtxDone ok =>
    if negb (ctxDone t) then None
    else if negb (invite t) then Some ([], [], inl Canceled)
    else
      let t := t <| cancelRequested := true |> <| ctxDone := false |> in
      let t5 := fun t : tx => t <| deadline := cancel_timeout |> in
      if receivedResponse t && negb (cancelSent t) then
        Some (match try_cancel t ok with (o, ds, inr t) => (o, ds, inr (t5 t)) | r => r end)
      else Some ([], [], inr (t5 t))
  | Closed => Some ([], [], inl ClientClosed)
  | Resend _ _ | Abandon => None
  end.

(** The loop, until it returns, and the delays the goroutine has left. *)
Record sys := mkSys { loop : outcome + tx; resends : list Z }.
Definition sys_step (s : sys) (e : event) : option (list output * sys) :=
  match e with
  | Resend d ok =>
    match resends s with
    | d' :: ds => if d =? d' then Some (if ok then [Cancel] else [], mkSys (loop s) ds) else None
    | [] => None
    end
  | Abandon => match resends s with [] => None | _ => Some ([], mkSys (loop s) []) end
  | _ =>
    match loop s with
    | inr t => '(o, ds, r) ← on_event t e; Some (o, mkSys r (resends s ++ ds))
    | inl _ => None
    end
  end.

(** The history of a transaction: the events taken and what was written, and the
    state it leads to.  [None] when an event was not ready. *)
Fixpoint tx_loop (s : sys) (evs : list event) : option (list (event + output) * sys) :=
  match evs with
  | [] => Some ([], s)
  | e :: evs => '(o, s) ← sys_step s e; '(h, s) ← tx_loop s evs; Some (inl e :: map inr o ++ h, s)
  end.
(** [transact]: the request is written first. *)
Definition transact (inv write_ok : bool) (evs : list event) : option (list (event + output) * sys) :=
  if write_ok then '(h, s) ← tx_loop (mkSys (inr (tx0 inv)) []) evs; Some (inr Request :: h, s)
  else match evs with [] => Some ([], mkSys (inl WriteFailed) []) | _ => None end.

(** * The order of what is written *)

Abbreviation history := (list (event + output)).
Definition provisional (x : event + output) : Prop :=
  match x with inl (Response res _) => StatusCode res < 200 | _ => False end.
Definition given_up (x : event + output) : Prop := match x with inl (CtxDone _) => True | _ => False end.

Definition cancels (h : history) : nat := length (omap (fun x => match x with inr Cancel => Some tt | _ => None end) h).
(** The delays after which CANCEL was sent again. *)
Definition resent (h : history) : list Z := omap (fun x => match x with inl (Resend d _) => Some d | _ => None end) h.
(** When something may be written, given the history before it. *)
Definition may_write (inv : bool) (h : history) (x : event + output) : Prop :=
  match x with
  | inl _ => True
  | inr Request => inv = true -> ~ Exists provisional h
  | inr Cancel => inv = true /\ Exists given_up h /\ Exists provisional h /\ (cancels h <= 2)%nat /\
                  (cancels h = 0%nat \/ exists h' d, h = h' ++ [inl (Resend d true)])
  end.
Definition ordered (inv : bool) (h : history) : Prop :=
  forall h1 x h2, h = h1 ++ x :: h2 -> may_write inv h1 x.

Lemma ordered_snoc inv h x : ordered inv h -> may_write inv h x -> ordered inv (h ++ [x]).
Proof.
  intros Ho Hx h1 y h2 E. destruct h2 as [|z h2] using rev_ind.
  - apply app_inj_tail in E as [-> ->]. done.
  - rewrite app_comm_cons, app_assoc in E. apply app_inj_tail in E as [E _]. by eapply Ho.
Qed.
Lemma ordered_nil inv : ordered inv [].
Proof. intros [|] ? ? E; done. Qed.

(** What a running transaction knows of its history. *)
Record knows (inv : bool) (h : history) (t : tx) : Prop := {
  knows_invite : invite t = inv;
  knows_response : receivedResponse t = true <-> Exists provisional h;
  knows_cancel : cancelSent t = false -> cancels h = 0%nat;
  knows_request : cancelRequested t = true -> inv = true /\ Exists given_up h;
  knows_timer : inv = true -> Exists provisional h -> timerC t = false;
}.

Lemma Exists_snoc {A} (P : A -> Prop) l x : Exists P (l ++ [x]) <-> Exists P l \/ P x.
Proof. rewrite Exists_app, Exists_cons, Exists_nil. tauto. Qed.
Lemma cancels_app h k : cancels (h ++ k) = (cancels h + cancels k)%nat.
Proof. unfold cancels. by rewrite omap_app, length_app. Qed.
Lemma cancels_event h e : cancels (h ++ [inl e]) = cancels h.
Proof. rewrite cancels_app. cbn. lia. Qed.
Lemma resent_app h k : resent (h ++ k) = resent h ++ resent k.
Proof. unfold resent. by rewrite omap_app. Qed.
Lemma resent_outputs (o : list output) : resent (map inr o) = [].
Proof. by induction o. Qed.

(** What an event adds: no CANCEL, or the first one with its goroutine. *)
Definition adds (inv : bool) (h h' : history) (t : tx) (ds : list Z) (r : outcome + tx) : Prop :=
  (ds = [] /\ cancels h' = cancels h /\ forall t', r = inr t' -> cancelSent t' = cancelSent t) \/
  (ds = cancel_delays /\ cancelSent t = false /\ cancels h' = 1%nat /\ inv = true /\ Exists given_up h' /\ Exists provisional h' /\
   forall t', r = inr t' -> cancelSent t' = true).

(** Sending CANCEL when it is due. *)
Lemma try_cancel_ok inv h t ok o ds r : knows inv h t -> ordered inv h ->
  cancelRequested t = true -> receivedResponse t = true -> cancelSent t = false -> try_cancel t ok = (o, ds, r) ->
  ordered inv (h ++ map inr o) /\ (forall t', r = inr t' -> t' = t <| cancelSent := true |> /\ knows inv (h ++ map inr o) t') /\
  adds inv h (h ++ map inr o) t ds r.
Proof.
  intros [K1 K2 K3 K4 K5] Ho Hq Hr Hs. unfold try_cancel. destruct ok; intros [= <- <- <-]; cbn [map].
  - destruct (K4 Hq) as [Hi Hg]. pose proof (K3 Hs) as H0. pose proof (proj1 K2 Hr) as Hp.
    assert (may_write inv h (inr Cancel)) as Hm by (split_and!; [done..|lia|by left]).
    split; [by apply ordered_snoc|]. split.
    + intros t' [= <-]. split; [done|]. split; cbn.
      * done.
      * rewrite Exists_snoc. cbn. tauto.
      * done.
      * intros _. split; [done|]. apply Exists_snoc. by left.
      * intros _ [H|[]]%Exists_snoc. by apply K5.
    + right. split; [done|]. split; [done|]. split; [rewrite cancels_app; cbn; lia|]. split; [done|].
      split; [apply Exists_snoc; by left|]. split; [apply Exists_snoc; by left|]. by intros t' [= <-].
  - rewrite app_nil_r. split; [done|]. split; [done|]. by left.
Qed.
Lemma adds_more inv h e h' t t1 ds r : cancelSent t1 = cancelSent t -> adds inv (h ++ [inl e]) h' t1 ds r -> adds inv h h' t ds r.
Proof. unfold adds. rewrite cancels_event. by intros ->. Qed.
Lemma adds_nothing inv h e t r : (forall t', r = inr t' -> cancelSent t' = cancelSent t) -> adds inv h (h ++ [inl e]) t [] r.
Proof. intros H. left. by rewrite cancels_event. Qed.

Lemma on_event_ok inv h t e o ds r : knows inv h t -> ordered inv h -> on_event t e = Some (o, ds, r) ->
  let h' := h ++ inl e :: map inr o in
  ordered inv h' /\ (forall t', r = inr t' -> knows inv h' t') /\ adds inv h h' t ds r.
Proof.
  intros K Ho H. assert (ordered inv (h ++ [inl e])) as Ho' by (by apply ordered_snoc). cbv zeta.
  replace (h ++ inl e :: map inr o) with ((h ++ [inl e]) ++ map inr o) by (by rewrite <- app_assoc).
  pose proof K as [K1 K2 K3 K4 K5]. destruct e as [res ok|ok|ctx|ok| | |]; cbn [on_event] in H; [| | | | |done|done].
  - destruct (StatusCode res <? 200) eqn:Es.
    2:{ injection H as <- <- <-. cbn [map]. rewrite app_nil_r. split; [done|]. split; [done|]. by apply adds_nothing. }
    cbv zeta in H. set (t1 := if invite _ && timerC _ then _ else _) in H.
    assert (cancelSent t1 = cancelSent t) as Et1 by (unfold t1; by destruct (_ && _)).
    assert (knows inv (h ++ [inl (Response res ok)]) t1) as Kt1.
    { assert (Exists provisional (h ++ [inl (Response res ok)])) as He by (apply Exists_snoc; right; cbn; lia).
      split; unfold t1; cbn; destruct (invite t) eqn:Ei, (timerC t) eqn:Et; cbn; try done; try tauto;
        try (intros Hc; rewrite cancels_event; by apply K3); try (intros Hc; destruct (K4 Hc) as [? ?]; split; [done|]; apply Exists_snoc; by left).
      all: intros Hi; congruence. }
    destruct (cancelRequested t1 && negb (cancelSent t1)) eqn:Ec.
    + apply andb_prop in Ec as [Eq Es']. apply negb_true_iff in Es'. injection H as H.
      destruct (try_cancel_ok inv _ t1 ok o ds r Kt1 Ho' Eq) as (H1 & H2 & H3); [|done|done|].
      { apply (knows_response _ _ _ Kt1). apply Exists_snoc. right. cbn. lia. }
      split; [done|]. split; [intros t' Et'; by apply H2 in Et' as [_ ?]|]. by eapply adds_more.
    + injection H as <- <- <-. cbn [map]. rewrite app_nil_r. split; [done|]. split; [by intros t' [= <-]|]. apply adds_nothing. by intros t' [= <-].
  - destruct (timerC t) eqn:Et; [|done]. cbn [negb] in H.
    assert (forall t', invite t' = invite t -> timerC t' = timerC t -> cancelSent t' = cancelSent t ->
       cancelRequested t' = cancelRequested t -> receivedResponse t' = receivedResponse t ->
       knows inv ((h ++ [inl (Timer ok)]) ++ [inr Request]) t') as Kt.
    { intros t' E1 E2 E3 E4 E5. split; rewrite ?E1, ?E2, ?E3, ?E4, ?E5, ?Exists_snoc; cbn; try tauto.
      - intros Hc. rewrite cancels_app, cancels_event. cbn. rewrite K3 by done. done.
      - intros Hi Hp. rewrite Et. apply K5; tauto. }
    destruct ok; injection H as <- <- <-; cbn [map].
    + split; [|split].
      * apply ordered_snoc; [done|]. intros Hi [Hp|[]]%Exists_snoc. by specialize (K5 Hi Hp).
      * intros t' [= <-]. by destruct (interval t <? T2); apply Kt.
      * left. rewrite cancels_app, cancels_event. cbn. split; [done|]. split; [lia|]. intros t' [= <-]. by destruct (interval t <? T2).
    + rewrite app_nil_r. split; [done|]. split; [done|]. by apply adds_nothing.
  - injection H as <- <- <-. cbn [map]. rewrite app_nil_r. split; [done|]. split; [done|]. by apply adds_nothing.
  - destruct (ctxDone t); [|done]. cbn [negb] in H. destruct (invite t) eqn:Ei; cbn [negb] in H.
    2:{ injection H as <- <- <-. cbn [map]. rewrite app_nil_r. split; [done|]. split; [done|]. by apply adds_nothing. }
    set (t1 := t <| cancelRequested := true |> <| ctxDone := false |>) in H.
    assert (knows inv (h ++ [inl (CtxDone ok)]) t1) as Kt1.
    { split; cbn; rewrite ?Exists_snoc; cbn; try tauto.
      - by rewrite Ei.
      - intros Hc. rewrite cancels_event. by apply K3.
      - intros _. by auto. }
    assert (forall h t', knows inv h t' -> knows inv h (t' <| deadline := cancel_timeout |>)) as Kd by (intros h' t' []; by split).
    destruct (receivedResponse t1 && negb (cancelSent t1)) eqn:Ec.
    + apply andb_prop in Ec as [Er Es]. apply negb_true_iff in Es. destruct (try_cancel t1 ok) as [[o1 ds1] r1] eqn:Etc.
      destruct (try_cancel_ok inv _ t1 ok o1 ds1 r1 Kt1 Ho' eq_refl Er Es Etc) as (H1 & H2 & H3). apply (adds_more _ _ _ _ t) in H3; [|done].
      destruct r1 as [oc|t2]; injection H as <- <- <-; (split; [done|]); (split; [|]); try done.
      * intros t' [= <-]. apply Kd. by apply H2.
      * destruct H3 as [(H3 & H4 & H5)|(H3 & H4 & H5 & H6 & H7 & H8 & H9)]; [left|right]; split_and!; try done; intros t' [= <-]; cbn; auto.
    + injection H as <- <- <-. cbn [map]. rewrite app_nil_r. split; [done|]. split; [intros t' [= <-]; exact (Kd _ _ Kt1)|].
      apply adds_nothing. by intros t' [= <-].
  - injection H as <- <- <-. cbn [map]. rewrite app_nil_r. split; [done|]. split; [done|]. by apply adds_nothing.
Qed.

(** What holds of a transaction and the goroutine it may have started. *)
Record sys_ok (inv : bool) (h : history) (s : sys) : Prop := {
  so_ordered : ordered inv h;
  so_loop : forall t, loop s = inr t -> knows inv h t /\ (cancelSent t = false -> resent h = [] /\ resends s = []);
  so_resend : cancels h = 0%nat /\ resent h = [] /\ resends s = [] \/
    inv = true /\ Exists given_up h /\ Exists provisional h /\
    (resent h ++ resends s) `prefix_of` cancel_delays /\ (cancels h <= S (length (resent h)))%nat;
}.

Lemma on_event_resent t e o ds r : on_event t e = Some (o, ds, r) -> resent (inl e :: map inr o) = [].
Proof. intros H. destruct e; try done; apply resent_outputs. Qed.
Lemma Exists_more {A} (P : A -> Prop) l k : Exists P l -> Exists P (l ++ k).
Proof. rewrite Exists_app. auto. Qed.

(** The goroutine leaves the loop alone. *)
Lemma knows_resend inv h d o t : cancelSent t = true -> knows inv h t -> knows inv (h ++ inl (Resend d o) :: map inr (if o then [Cancel] else [])) t.
Proof.
  intros Hs [K1 K2 K3 K4 K5].
  assert (forall P : event + output -> Prop, ~ P (inl (Resend d o)) -> ~ P (inr Cancel) ->
    Exists P (h ++ inl (Resend d o) :: map inr (if o then [Cancel] else [])) <-> Exists P h) as He.
  { intros P H1 H2. rewrite Exists_app. destruct o; cbn; rewrite ?Exists_cons, Exists_nil; tauto. }
  split; rewrite ?(He provisional), ?(He given_up) by (cbn; tauto); try done. congruence.
Qed.

Lemma resend_ok inv h s d ok ds : sys_ok inv h s -> resends s = d :: ds ->
  sys_ok inv (h ++ inl (Resend d ok) :: map inr (if ok then [Cancel] else [])) (mkSys (loop s) ds).
Proof.
  intros [Ho Hl Hr] E. rewrite E in *. destruct Hr as [(_ & _ & [=])|(Hi & Hg & Hp & Hd & Hc)].
  assert (length (resent h) <= 1)%nat as Hn by (apply prefix_length in Hd; rewrite length_app in Hd; cbn in Hd; lia).
  assert (forall t, loop s = inr t -> cancelSent t = true) as Hs.
  { intros t Et. destruct (cancelSent t) eqn:Ec; [done|]. destruct (Hl t Et) as [_ H]. by destruct (H Ec). }
  split; cbn.
  - destruct ok; cbn [map].
    + replace (h ++ [inl (Resend d true); inr Cancel]) with ((h ++ [inl (Resend d true)]) ++ [inr Cancel]) by (by rewrite <- app_assoc).
      apply ordered_snoc; [by apply ordered_snoc|]. cbn. split_and!; try (by apply Exists_more); [done| |].
      * rewrite cancels_event. lia.
      * right. eauto.
    + by apply ordered_snoc.
  - intros t Et. split; [apply knows_resend; [by apply Hs|by apply Hl]|]. by rewrite (Hs t Et).
  - right. split; [done|]. split; [by apply Exists_more|]. split; [by apply Exists_more|].
    rewrite resent_app, cancels_app. destruct ok; cbn [map]; cbn -[cancel_delays]; rewrite <- app_assoc; (split; [done|]); rewrite length_app; cbn; lia.
Qed.

Lemma loop_step_ok inv h t e o ds r rs : sys_ok inv h (mkSys (inr t) rs) -> on_event t e = Some (o, ds, r) ->
  sys_ok inv (h ++ inl e :: map inr o) (mkSys r (rs ++ ds)).
Proof.
  intros [Ho Hl Hr] E. cbn in *. destruct (Hl t eq_refl) as [K Hs].
  destruct (on_event_ok inv h t e o ds r K Ho E) as (H1 & H2 & H3).
  assert (resent (h ++ inl e :: map inr o) = resent h) as Er by (rewrite resent_app; erewrite on_event_resent by done; apply app_nil_r).
  split; cbn -[cancel_delays]; [done| |].
  - intros t' ->. split; [by apply H2|]. rewrite Er.
    destruct H3 as [(-> & _ & Hk)|(_ & _ & _ & _ & _ & _ & Hk)]; [rewrite app_nil_r, (Hk t' eq_refl); done|]. by rewrite (Hk t' eq_refl).
  - rewrite Er. destruct H3 as [(-> & Hc & _)|(-> & H0 & Hc & Hi & Hg & Hp & _)].
    + rewrite app_nil_r, Hc. destruct Hr as [?|(Hi & Hg & Hp & ?)]; [by left|right]. split_and!; try done; try (by apply Exists_more); naive_solver.
    + destruct (Hs H0) as [-> ->]. right. rewrite Hc. split_and!; try done; cbn; lia.
Qed.

Lemma sys_step_ok inv h s e o s' : sys_ok inv h s -> sys_step s e = Some (o, s') -> sys_ok inv (h ++ inl e :: map inr o) s'.
Proof.
  intros Hs H. destruct s as [l rs]. destruct e as [res ok|ok|ctx|ok| |d ok|].
  1-5: cbn [sys_step loop resends] in H; destruct l as [|t]; [done|];
    destruct (on_event t _) as [[[o1 ds] r]|] eqn:E; [|done]; injection H as <- <-; by eapply loop_step_ok.
  - cbn [sys_step loop resends] in H. destruct rs as [|d' ds]; [done|]. destruct (d =? d') eqn:Ed; [|done].
    injection H as <- <-. apply Z.eqb_eq in Ed as ->. by apply (resend_ok inv h (mkSys l (d' :: ds)) d' ok ds).
  - cbn [sys_step loop resends] in H. assert (o = [] /\ s' = mkSys l []) as [-> ->] by (destruct rs; [done|]; by injection H as <- <-).
    destruct Hs as [Ho Hl Hr]. cbn [map]. cbn [loop resends] in *. split; cbn [loop resends].
    + by apply ordered_snoc.
    + intros t Et. destruct (Hl t Et) as [[K1 K2 K3 K4 K5] H0]. rewrite resent_app, app_nil_r. split; [|naive_solver].
      split; rewrite ?Exists_snoc, ?cancels_event; cbn; naive_solver.
    + rewrite resent_app, cancels_event, !app_nil_r. destruct Hr as [?|(Hi & Hg & Hp & Hd & Hc)]; [left; naive_solver|right].
      split_and!; try done; try (by apply Exists_more). etrans; [|exact Hd]. by apply prefix_app_r.
Qed.

Lemma tx_loop_ok inv evs h s h' s' : sys_ok inv h s -> tx_loop s evs = Some (h', s') -> sys_ok inv (h ++ h') s'.
Proof.
  revert h s h'. induction evs as [|e evs IH]; intros h s h' Ho H; cbn [tx_loop] in H.
  { injection H as <- <-. by rewrite app_nil_r. }
  destruct (sys_step s e) as [[o s1]|] eqn:E; [|done]. cbn [mbind option_bind] in H.
  destruct (tx_loop s1 evs) as [[h1 s2]|] eqn:El; [|done]. cbn [mbind option_bind] in H. injection H as <- <-.
  replace (h ++ inl e :: map inr o ++ h1) with ((h ++ inl e :: map inr o) ++ h1) by (by rewrite <- app_assoc).
  eapply IH; [by eapply sys_step_ok|done].
Qed.
Lemma transact_ok inv write_ok evs h s : transact inv write_ok evs = Some (h, s) -> sys_ok inv h s.
Proof.
  unfold transact. destruct write_ok.
  - destruct (tx_loop _ evs) as [[h1 s1]|] eqn:E; [|done]. cbn [mbind option_bind]. intros [= <- <-].
    apply (tx_loop_ok inv evs [inr Request] (mkSys (inr (tx0 inv)) []) h1 s1); [|done]. split; cbn.
    + apply (ordered_snoc inv []); [apply ordered_nil|intros _ []%Exists_nil].
    + intros t [= <-]. split; [|done]. split; cbn; try done.
      * rewrite Exists_cons, Exists_nil. cbn. split; [done|tauto].
      * intros _ Hp. rewrite Exists_cons, Exists_nil in Hp. cbn in Hp. tauto.
    + by left.
  - destruct evs; [|done]. intros [= <- <-]. split; cbn; [apply ordered_nil|done|by left].
Qed.

(** C20: the cancellation discipline of RFC 3261, section 9.1, with the
    retransmissions of the goroutine [sendCancel] starts.  Whatever the order of
    responses, timers and the caller giving up, and also after the transaction
    has ended: a CANCEL is written only for an INVITE, only after the caller gave
    up and only after a provisional response has arrived; it is written at most
    three times, and every CANCEL but the first is a retransmission made when the
    goroutine's timer fired, 500 ms after the first and then 1.5 s later, each at
    most once; and an INVITE is not retransmitted once a provisional response has
    arrived. *)
Theorem cancel_discipline (inv write_ok : bool) (evs : list event) (h : history) (s : sys) :
  transact inv write_ok evs = Some (h, s) ->
  resent h `prefix_of` [500; 1500] /\
  forall h1 x h2, h = h1 ++ inr x :: h2 ->
  match x with
  | Request => inv = true -> ~ Exists provisional h1
  | Cancel => inv = true /\ Exists given_up h1 /\ Exists provisional h1 /\ (cancels h1 <= 2)%nat /\
              (inr Cancel ∉ h1 \/ exists h' d, h1 = h' ++ [inl (Resend d true)])
  end.
Proof.
  intros H%transact_ok. destruct H as [Ho _ Hr]. split.
  - destruct Hr as [(_ & -> & _)|(_ & _ & _ & Hd & _)]; [apply prefix_nil|]. etrans; [|exact Hd]. by apply prefix_app_r.
  - intros h1 x h2 E. apply Ho in E. destruct x; [done|]. cbn in E.
    destruct E as (E1 & E2 & E3 & E4 & [E5|E5]); split_and!; try done; [left|by right].
    intros [k1 [k2 ->]]%list_elem_of_split. rewrite cancels_app in E5. cbn in E5. lia.
Qed.

(** ** Witness: the caller gives up before the phone rings, and CANCEL is sent again *)

Definition ringing : Message := mkMessage true 180 "Ringing" "" "" ∅ "" "".
Definition terminated : Message := mkMessage true 487 "Request Terminated" "" "" ∅ "" "".
Lemma cancel_discipline_witness :
  let evs := [Timer true; CtxDone true; Response ringing true; Resend 500 true; Response terminated true; Resend 1500 true] in
  exists h s, transact true true evs = Some (h, s) /\ loop s = inl (Answered terminated) /\ resends s = [] /\
    cancels h = 3%nat /\ resent h = [500; 1500] /\ resent h `prefix_of` [500; 1500].
Proof.
  intros evs.
  exists [inr Request; inl (Timer true); inr Request; inl (CtxDone true); inl (Response ringing true); inr Cancel;
          inl (Resend 500 true); inr Cancel; inl (Response terminated true); inl (Resend 1500 true); inr Cancel], (mkSys (inl (Answered terminated)) []).
  assert (transact true true evs = Some ([inr Request; inl (Timer true); inr Request; inl (CtxDone true); inl (Response ringing true); inr Cancel;
          inl (Resend 500 true); inr Cancel; inl (Response terminated true); inl (Resend 1500 true); inr Cancel], mkSys (inl (Answered terminated)) [])) as E by reflexivity.
  repeat (split; [done|]). exact (proj1 (cancel_discipline true true evs _ _ E)).
Defined.
End SipTransact.
