(* ===== verification/SipDialog.v ===== *)
(** SIP dialogs: [internal/sip/client.go] and [incoming.go], what the client
    keeps of its calls and how requests, responses, the application and the
    timers change it.

    Calls, incoming INVITEs and cancelled INVITEs are shared pointers, so they
    live in stores and the maps hold their addresses; [c.active[id] == call] is
    a comparison of addresses.  Every method is a function of the state; what it
    writes to the socket is appended to [sent].  Writes whose error the code
    ignores are taken to succeed; where the error matters it is an argument.
    Random branches and tags are arguments. *)
From S2P Require Import Prelude GoStrings SipText Sdp SipCaller.

Module SipDialog.
Import SipText Sdp.

(** * Destinations *)

(** [net.SplitHostPort]: [None] is an error. *)
Definition SplitHostPort (hostport : string) : option (string * string) :=
  i ← LastIndexByte hostport ":";
  let port := sdrop (i + 1) hostport in
  match hostport with
  | String "[" rest =>
    e ← IndexByte hostport "]";
    if (e + 1 =? i)%nat && negb (bool_decide (IndexByte rest "[" <> None)) &&
       negb (bool_decide (IndexByte (sdrop (e + 1) hostport) "]" <> None))
    then Some (stake (e - 1) rest, port) else None
  | _ =>
    let host := stake i hostport in
    if bool_decide (IndexByte host ":" <> None) || bool_decide (IndexByte hostport "[" <> None) ||
       bool_decide (IndexByte hostport "]" <> None)
    then None else Some (host, port)
  end.
(** [net.JoinHostPort]. *)
Definition JoinHostPort (host port : string) : string :=
  if bool_decide (IndexByte host ":" <> None) then "[" +:+ host +:+ "]:" +:+ port else host +:+ ":" +:+ port.

(** [net.ResolveUDPAddr] for [udp4]. *)
Class UDPResolver `{N : NetIP} := { ResolveUDPAddr : string -> option UDPAddr }.

Section dialog.
Context `{U : Unicode} `{R : UDPResolver}.

Definition cut_at (c : ascii) (u : string) : string :=
  match IndexByte u c with Some i => stake i u | None => u end.
(** The host and port of a URI; [registrarPort] when it names none. *)
Definition uri_host (u : string) (registrarPort : Z) : string * Z :=
  let numbered h p := (h, if (Atoi p).2 then (Atoi p).1 else registrarPort) in
  if HasPrefix u "[" then
    match SplitHostPort u with
    | Some (h, p) => numbered h p
    | None => (Trim u ["["; "]"]%char, registrarPort)
    end
  else if (CountByte u ":" =? 1)%nat then
    match SplitHostPort u with Some (h, p) => numbered h p | None => (u, registrarPort) end
  else (u, registrarPort).
Definition destinationForURI (c : Config) (uri : string) : result UDPAddr :=
  let u := TrimSpace (extractURI uri) in
  let lower := ToLower u in
  _ ← fail_if (HasPrefix lower "sips:") "SIPS/TLS is not supported; configure a SIP/UDP registrar";
  let u := if HasPrefix lower "sip:" then sdrop 4 u else u in
  let u := cut_at ";" (cut_at "?" u) in
  let u := match LastIndexByte u "@" with Some i => sdrop (i + 1) u | None => u end in
  let u := TrimSpace u in
  _ ← fail_if (bool_decide (u = "")) "empty SIP destination";
  let '(host, port) := uri_host u (RegistrarPort c) in
  match ResolveUDPAddr (JoinHostPort host (Itoa port)) with
  | Some a => Ok a
  | None => Err "resolve SIP destination"
  end.

(** * State *)

Record Call := mkCall {
  CallID : string; FromTag : string; ToTag : string; FromURI : string; ToURI : string; RemoteTarget : string;
  CallerID : string; InviteCSeq : Z; CSeq : Z; CallCodec : Codec; CallEvent : option TelephoneEvent;
  RemoteRTP : option UDPAddr; inbound : bool; incoming : option nat; finished : bool;
}.
#[export] Instance eta_call : Eta Call := fun c =>
  mkCall (CallID c) (FromTag c) (ToTag c) (FromURI c) (ToURI c) (RemoteTarget c) (CallerID c) (InviteCSeq c) (CSeq c)
    (CallCodec c) (CallEvent c) (RemoteRTP c) (inbound c) (incoming c) (finished c).

Record canceledInvite := mkCanceled {
  ci_uri : string; ci_branch : string; ci_cseq : Z; ci_callID : string; ci_fromURI : string; ci_toURI : string;
  ci_fromTag : string; ci_headers : list string; ci_cancelSent : bool;
}.
#[export] Instance eta_canceled : Eta canceledInvite := fun i =>
  mkCanceled (ci_uri i) (ci_branch i) (ci_cseq i) (ci_callID i) (ci_fromURI i) (ci_toURI i) (ci_fromTag i) (ci_headers i)
    (ci_cancelSent i).

Inductive incomingState :=
| incomingPending | incomingAnswered | incomingAcknowledged | incomingRejected | incomingCanceled.
#[export] Instance incomingState_eq : EqDecision incomingState.
Proof. solve_decision. Defined.

(** [acked] and [stop] are closed exactly when the invite is acknowledged and
    [stopped]; [expiring] is [expiryOnce]. *)
Record IncomingInvite := mkInvite {
  request : Message; source : UDPAddr; ikey : string; icall : nat; istate : incomingState; lastResponse : string;
  stopped : bool; expiring : bool;
}.
#[export] Instance eta_invite : Eta IncomingInvite := fun i =>
  mkInvite (request i) (source i) (ikey i) (icall i) (istate i) (lastResponse i) (stopped i) (expiring i).

Record client := mkClient {
  cfg : Config; registrar : UDPAddr; localIP : IP; maxConcurrentCalls : Z;
  active : gmap string nat; dialing : gset string; completedDialogs : gmap string nat;
  canceledInvites : gmap string nat; serverInvites : gmap string nat; queue : list nat;
  transactions : gmap string (list Message);
  calls : gmap nat Call; invites : gmap nat IncomingInvite; canceled : gmap nat canceledInvite; next : nat;
  reading : option (Message * UDPAddr * negotiatedAudio); (** an INVITE between its two critical sections *)
  sent : list (string * UDPAddr);
}.
#[export] Instance eta_client : Eta client := fun c =>
  mkClient (cfg c) (registrar c) (localIP c) (maxConcurrentCalls c) (active c) (dialing c) (completedDialogs c)
    (canceledInvites c) (serverInvites c) (queue c) (transactions c) (calls c) (invites c) (canceled c) (next c)
    (reading c) (sent c).

(** [New] once the sockets are open. *)
Definition New (config : Config) (reg : UDPAddr) (ip : IP) : client :=
  mkClient config reg ip (if MaxConcurrentCalls config <=? 0 then 1 else MaxConcurrentCalls config)
    ∅ ∅ ∅ ∅ ∅ [] ∅ ∅ ∅ ∅ 0 None [].

Definition write (c : client) (packet : string) (dst : UDPAddr) : client := c <| sent ::= fun l => l ++ [(packet, dst)] |>.
Definition hasCallCapacityLocked (c : client) : bool :=
  Z.of_nat (size (active c)) + Z.of_nat (size (dialing c)) <? maxConcurrentCalls c.
Definition isRegistrarSource (c : client) (addr : UDPAddr) : bool :=
  (AddrPort addr =? AddrPort (registrar c)) && bool_decide (AddrIP addr = AddrIP (registrar c)).

(** [delete] of an entry that still is the given pointer. *)
Definition delete_if (k : string) (p : nat) (m : gmap string nat) : gmap string nat :=
  if decide (m !! k = Some p) then delete k m else m.

(** ** Ending a call *)

Definition expireAfter (i : nat) (c : client) : client := c <| invites ::= alter (fun v => v <| expiring := true |>) i |>.
Definition stopRetransmission (i : nat) (c : client) : client :=
  expireAfter i (c <| invites ::= alter (fun v => v <| stopped := true |>) i |>).

Definition finish (p : nat) (c : client) : client :=
  match calls c !! p with
  | None => c
  | Some call =>
    if finished call then c
    else
      let c := c <| calls ::= alter (fun v => v <| finished := true |>) p |> <| active ::= delete_if (CallID call) p |> in
      let c := if negb (inbound call) && negb (InviteCSeq call =? 0)
               then c <| completedDialogs ::= <[CallID call := p]> |> else c in
      match incoming call with Some i => stopRetransmission i c | None => c end
  end.

(** ** Requests of the client *)

(** The headers [sendACK], [Hangup] and [sendInviteFinalACK] build. *)
Definition call_request (c : client) (method branch : string) (cseq : Z) (call : Call) : string :=
  buildRequest method (RemoteTarget call)
    (baseHeaders (cfg c) (IPString (localIP c)) method (RemoteTarget call) branch cseq (CallID call) (FromURI call)
       (ToURI call) (FromTag call) (ToTag call)) "".
(** [sendACK]: [None] when the target cannot be resolved or written to. *)
Definition sendACK (c : client) (call : Call) (branch : string) (write_ok : bool) : option client :=
  match destinationForURI (cfg c) (RemoteTarget call) with
  | Ok dst => if write_ok then Some (write c (call_request c "ACK" branch (InviteCSeq call) call) dst) else None
  | _ => None
  end.
(** An ACK whose error is ignored. *)
Definition try_ACK (c : client) (call : Call) (branch : string) : client := default c (sendACK c call branch true).
Definition sendInviteFinalACK (c : client) (i : canceledInvite) (toTag : string) : client :=
  match destinationForURI (cfg c) (ci_uri i) with
  | Ok dst =>
    write c (buildRequest "ACK" (ci_uri i)
      (baseHeaders (cfg c) (IPString (localIP c)) "ACK" (ci_uri i) (ci_branch i) (ci_cseq i) (ci_callID i) (ci_fromURI i)
         (ci_toURI i) (ci_fromTag i) toTag) "") dst
  | _ => c
  end.
(** The two repetitions of the packet by timers are left out. *)
Definition sendCancel (c : client) (i : canceledInvite) : client :=
  match destinationForURI (cfg c) (ci_uri i) with
  | Ok dst => write c (cancelRequest (ci_uri i) (ci_cseq i) (ci_headers i)) dst
  | _ => c
  end.
(** The BYE of [Hangup]; the call is finished when its transaction ends. *)
Definition sendBYE (p : nat) (branch : string) (c : client) : client :=
  match calls c !! p with
  | None => c
  | Some call =>
    let cseq := u32 (CSeq call + 1) in
    let c := c <| calls ::= alter (fun v => v <| CSeq := cseq |>) p |> in
    match destinationForURI (cfg c) (RemoteTarget call) with
    | Ok dst => write c (call_request c "BYE" branch cseq call) dst
    | _ => c
    end
  end.

(** ** Outgoing calls *)

(** [Dial] takes a slot before it sends the INVITE, *)
Definition reserve (callID : string) (c : client) : option client :=
  if hasCallCapacityLocked c then Some (c <| dialing ::= union {[callID]} |>) else None.
(** gives it back when no dialog came of it, *)
Definition release (callID : string) (c : client) : client := c <| dialing ::= fun d => d ∖ {[callID]} |>.
(** and turns it into a dialog on a 2xx, which it acknowledges before anything
    else; when that fails the dialog is forgotten. *)
Definition enter_dialog (call : Call) (c : client) : client :=
  c <| next ::= S |> <| calls ::= <[next c := call]> |> <| dialing ::= fun d => d ∖ {[CallID call]} |>
    <| active ::= <[CallID call := next c]> |>.
Definition establish (call : Call) (branch : string) (write_ok : bool) (c : client) : client :=
  let c' := enter_dialog call c in
  default (c' <| active ::= delete_if (CallID call) (next c) |>) (sendACK c' call branch write_ok).
(** The call [Dial] makes from the final response. *)
Definition dialed_call (callID fromTag fromURI toURI : string) (cseq : Z) (res : Message) : Call :=
  let target := extractURI (Header res "contact") in
  mkCall callID fromTag (param (Header res "to") "tag") fromURI toURI (if decide (target = "") then toURI else target)
    "" cseq cseq (mkCodec "" 0) None None false None false.

(** ** Cancelled INVITEs *)

Definition newCanceledInvite (uri branch : string) (cseq : Z) (headers : list string) (cancelSent : bool) :
    option canceledInvite :=
  let callID := requestHeader headers "call-id" in
  if decide (callID = "") then None
  else Some (mkCanceled uri branch cseq callID (extractURI (requestHeader headers "from"))
               (extractURI (requestHeader headers "to")) (param (requestHeader headers "from") "tag") headers cancelSent).

(** The buffered responses, oldest first: the first final one, and whether a
    provisional one came before it. *)
Fixpoint scan_buffered (l : list Message) (provisional : bool) : option Message * bool :=
  match l with
  | [] => (None, provisional)
  | m :: l => if 200 <=? StatusCode m then (Some m, provisional) else scan_buffered l true
  end.

(** [transitionCanceledInvite] for the INVITE [i] of the transaction [tkey]: one
    critical section. *)
Definition transitionCanceledInvite (tkey uri branch : string) (cseq : Z) (headers : list string) (cancelSent : bool)
    (c : client) : option Message * client :=
  match newCanceledInvite uri branch cseq headers cancelSent with
  | None => (None, c <| transactions ::= delete tkey |>)
  | Some i =>
    match scan_buffered (default [] (transactions c !! tkey)) false with
    | (Some m, _) => (Some m, c <| transactions ::= delete tkey |>)
    | (None, provisional) =>
      let i := if provisional && negb (ci_cancelSent i) then i <| ci_cancelSent := true |> else i in
      let p := next c in
      let c := c <| transactions ::= delete tkey |> <| next ::= S |> <| canceled ::= <[p := i]> |>
                 <| canceledInvites ::= <[ci_callID i := p]> |> in
      (None, if provisional && negb cancelSent then sendCancel c i else c)
    end
  end.

(** The dialog of a 2xx that crossed the cancellation. *)
Definition late_call (i : canceledInvite) (res : Message) : Call :=
  let target := extractURI (Header res "contact") in
  mkCall (ci_callID i) (ci_fromTag i) (param (Header res "to") "tag") (ci_fromURI i) (ci_toURI i)
    (if decide (target = "") then ci_uri i else target) "" (ci_cseq i) (ci_cseq i) (mkCodec "" 0) None None false None false.

Definition is_2xx (res : Message) : bool := (200 <=? StatusCode res) && (StatusCode res <? 300).

(** [handleUnmatchedInviteResponse]; the BYE of a late dialog is sent by
    [sendBYE] afterwards. *)
Definition handleUnmatchedInviteResponse (res : Message) (branch : string) (write_ok : bool) (c : client) : client :=
  let callID := Header res "call-id" in
  let cseq := cseqNumber (Header res "cseq") in
  match active c !! callID ≫= fun p => calls c !! p with
  | Some call => if is_2xx res && negb (inbound call) && (cseq =? InviteCSeq call) then try_ACK c call branch else c
  | None =>
    match completedDialogs c !! callID ≫= fun p => calls c !! p with
    | Some call => if is_2xx res && (cseq =? InviteCSeq call) then try_ACK c call branch else c
    | None =>
      match canceledInvites c !! callID with
      | None => c
      | Some q =>
        match canceled c !! q with
        | None => c
        | Some i =>
          if negb (ci_cseq i =? cseq) then c
          else if StatusCode res <? 200 then
            let c := c <| canceled ::= alter (fun v => v <| ci_cancelSent := true |>) q |> in
            if negb (ci_cancelSent i) then sendCancel c i else c
          else
            let c := c <| canceledInvites ::= delete callID |> in
            if StatusCode res <? 300 then
              let p := next c in
              let call := late_call i res in
              let c := c <| next ::= S |> <| calls ::= <[p := call]> |> <| active ::= <[callID := p]> |> in
              match sendACK c call branch write_ok with
              | Some c => c
              | None => finish p c
              end
            else sendInviteFinalACK c i (param (Header res "to") "tag")
        end
      end
    end
  end.

(** [readLoop] on a response: to its transaction if there is one with room. *)
Definition handleResponse (res : Message) (branch : string) (write_ok : bool) (c : client) : client :=
  let method := cseqMethod (Header res "cseq") in
  let tkey := param (Header res "via") "branch" +:+ "|" +:+ method in
  match transactions c !! tkey with
  | Some buffered => if (length buffered <? 8)%nat then c <| transactions ::= <[tkey := buffered ++ [res]]> |> else c
  | None => if decide (method = "INVITE") then handleUnmatchedInviteResponse res branch write_ok c else c
  end.

(** ** Incoming INVITEs *)

Definition sendResponse (req : Message) (addr : UDPAddr) (code : Z) (reason : string) (c : client) : client :=
  write c (plainResponse req code reason) addr.
Definition sendTaggedResponse (req : Message) (addr : UDPAddr) (code : Z) (reason : string) (c : client) : client :=
  write c (taggedResponse req code reason) addr.
Definition resendLastResponse (i : IncomingInvite) (addr : UDPAddr) (c : client) : client :=
  if decide (lastResponse i = "") then c else write c (lastResponse i) addr.

(** [Answer]: an error when the port is bad, the INVITE is not pending or the
    write fails. *)
Definition Answer (p : nat) (rtpPort now : Z) (write_ok : bool) (c : client) : result unit * client :=
  if (rtpPort <? 1) || (65535 <? rtpPort) then (Err "invalid RTP port", c)
  else
    match invites c !! p with
    | None => (Panic, c)
    | Some i =>
      match calls c !! icall i with
      | None => (Panic, c)
      | Some call =>
        let sdp := answerSDP now (localIP c) rtpPort (CallCodec call) (CallEvent call) in
        let packet := buildResponse (request i) 200 "OK" (FromTag call)
          [contactLine (cfg c) (IPString (localIP c)); allowLine; "Content-Type: application/sdp"] sdp in
        if decide (istate i = incomingPending) then
          let c := c <| invites ::= <[p := i <| istate := incomingAnswered |> <| lastResponse := packet |>]> |> in
          if write_ok then (Ok tt, write c packet (source i))
          else (Err "send incoming SIP answer", finish (icall i) c)
        else (Err (if decide (istate i = incomingCanceled) then "incoming SIP call canceled"
                   else "incoming SIP call is no longer pending"), c)
      end
    end.

Definition Reject (p : nat) (code : Z) (reason : string) (c : client) : result unit * client :=
  if (code <? 400) || (699 <? code) then (Err "invalid SIP rejection status", c)
  else
    match invites c !! p with
    | None => (Panic, c)
    | Some i =>
      match calls c !! icall i with
      | None => (Panic, c)
      | Some call =>
        let packet := buildResponse (request i) code reason (FromTag call) [allowLine] "" in
        if decide (istate i = incomingPending) then
          let c := c <| invites ::= <[p := i <| istate := incomingRejected |> <| lastResponse := packet |>]> |> in
          (Ok tt, expireAfter p (finish (icall i) (write c packet (source i))))
        else (Err (if decide (istate i = incomingCanceled) then "incoming SIP call canceled"
                   else "incoming SIP call is no longer pending"), c)
      end
    end.

Definition acknowledge (p : nat) (req : Message) (c : client) : client :=
  match invites c !! p with
  | None => c
  | Some i =>
    if negb (cseqNumber (Header req "cseq") =? cseqNumber (Header (request i) "cseq")) then c
    else if decide (istate i = incomingAnswered)
    then expireAfter p (c <| invites ::= <[p := i <| istate := incomingAcknowledged |>]> |>)
    else c
  end.

Definition cancel (p : nat) (req : Message) (addr : UDPAddr) (c : client) : client :=
  match invites c !! p with
  | None => c
  | Some i =>
    let tag := match calls c !! icall i with Some call => FromTag call | None => "" end in
    if decide (istate i = incomingPending) then
      let final := buildResponse (request i) 487 "Request Terminated" tag [] "" in
      let c := c <| invites ::= <[p := i <| istate := incomingCanceled |> <| lastResponse := final |>]> |> in
      let c := write c (buildResponse req 200 "OK" tag [] "") addr in
      let c := write c final (source i) in
      expireAfter p (finish (icall i) c)
    else write c (buildResponse req 481 "Call/Transaction Does Not Exist" tag [] "") addr
  end.

(** The first critical section of [handleIncomingInvite] and what leads to it:
    a refusal, a retransmission, or the negotiated media to go on with. *)
Definition beginIncomingInvite (req : Message) (addr : UDPAddr) (c : client) : client :=
  if negb (AcceptIncoming (cfg c)) then sendTaggedResponse req addr 403 "Forbidden" c
  else if negb (isRegistrarSource c addr) then sendTaggedResponse req addr 403 "Forbidden" c
  else if negb (is_ok (validateIncomingInviteHeaders req)) then sendTaggedResponse req addr 400 "Bad Request" c
  else if negb (SipCaller.allows (SipCaller.newCallerAllowlist (AllowedCallers (cfg c))) (extractURI (Header req "from")))
  then sendTaggedResponse req addr 403 "Forbidden" c
  else
    match serverInvites c !! serverInviteKey req ≫= fun p => invites c !! p with
    | Some prior => resendLastResponse prior addr c
    | None =>
      if negb (hasCallCapacityLocked c) then sendTaggedResponse req addr 486 "Busy Here" c
      else
        match parseOfferMedia (Body req) (CodecPreference (cfg c)) with
        | Ok media => c <| reading := Some (req, addr, media) |>
        | _ => sendTaggedResponse req addr 488 "Not Acceptable Here" c
        end
    end.
(** [addr.String()] of an IPv4 address. *)
Definition addr_string (addr : UDPAddr) : string := IPString (AddrIP addr) +:+ ":" +:+ Itoa (AddrPort addr).
Definition incoming_call (req : Message) (addr : UDPAddr) (media : negotiatedAudio) (tag : string) (p : nat) : Call :=
  let remoteURI := extractURI (Header req "from") in
  let target := extractURI (Header req "contact") in
  mkCall (Header req "call-id") tag (param (Header req "from") "tag") (extractURI (Header req "to")) remoteURI
    (if decide (target = "") then "sip:remote@" +:+ addr_string addr else target) (SipCaller.canonicalCallerID remoteURI)
    0 0 (MCodec media) (MTelephoneEvent media) (Some (MRemoteRTP media)) true (Some p) false.

(** The dialog is taken in: the call, its INVITE at the next address, and the
    Trying. *)
Definition take_in (req : Message) (addr : UDPAddr) (media : negotiatedAudio) (tag : string) (c : client) : client :=
  let p := next c in
  let call := incoming_call req addr media tag (S p) in
  let trying := buildResponse req 100 "Trying" "" [] "" in
  let key := serverInviteKey req in
  let c := c <| next := S (S p) |> <| calls ::= <[p := call]> |>
             <| invites ::= <[S p := mkInvite req addr key p incomingPending trying false false]> |>
             <| active ::= <[CallID call := p]> |> <| serverInvites ::= <[key := S p]> |> in
  write c trying addr.
(** The second critical section: the checks again, then the INVITE is handed to
    the application, whose queue holds four. *)
Definition accept_invite (req : Message) (addr : UDPAddr) (media : negotiatedAudio) (tag : string) (c : client) : client :=
  if negb (hasCallCapacityLocked c) then sendTaggedResponse req addr 486 "Busy Here" c
  else
    match serverInvites c !! serverInviteKey req ≫= fun p => invites c !! p with
    | Some prior => resendLastResponse prior addr c
    | None =>
      let q := S (next c) in
      let c := take_in req addr media tag c in
      if (length (queue c) <? 4)%nat then c <| queue ::= fun l => l ++ [q] |>
      else (Reject q 503 "Service Unavailable" c).2
    end.
Definition commitIncomingInvite (tag : string) (c : client) : client :=
  match reading c with
  | None => c
  | Some (req, addr, media) => accept_invite req addr media tag (c <| reading := None |>)
  end.

Definition handleIncomingACK (req : Message) (addr : UDPAddr) (c : client) : client :=
  if negb (isRegistrarSource c addr) then c
  else
    match active c !! Header req "call-id" ≫= fun p => calls c !! p with
    | Some call => match incoming call with Some i => if inbound call then acknowledge i req c else c | None => c end
    | None => c
    end.
Definition handleIncomingCancel (req : Message) (addr : UDPAddr) (c : client) : client :=
  if negb (isRegistrarSource c addr) then sendTaggedResponse req addr 403 "Forbidden" c
  else
    match serverInvites c !! serverInviteKey req with
    | None => sendTaggedResponse req addr 481 "Call/Transaction Does Not Exist" c
    | Some i => cancel i req addr c
    end.
Definition handleBYE (req : Message) (addr : UDPAddr) (c : client) : client :=
  match active c !! Header req "call-id" with
  | None => sendResponse req addr 481 "Call/Transaction Does Not Exist" c
  | Some p =>
    if match calls c !! p with Some call => inbound call | None => false end && negb (isRegistrarSource c addr)
    then sendResponse req addr 403 "Forbidden" c
    else finish p (sendResponse req addr 200 "OK" c)
  end.

(** [handleRequest]; an INVITE that passes the first checks is completed by
    [commitIncomingInvite]. *)
Definition handleRequest (req : Message) (addr : UDPAddr) (c : client) : client :=
  let method := ToUpper (Method req) in
  if decide (method = "INVITE") then beginIncomingInvite req addr c
  else if decide (method = "ACK") then handleIncomingACK req addr c
  else if decide (method = "CANCEL") then handleIncomingCancel req addr c
  else if decide (method = "BYE") then handleBYE req addr c
  else if decide (method = "OPTIONS" \/ method = "NOTIFY") then sendResponse req addr 200 "OK" c
  else sendResponse req addr 501 "Not Implemented" c.

(** ** Timers *)

(** [retransmitAnswer]: until the invite is acknowledged or stopped, the answer
    is sent again, and after 32 s the call is given up. *)
Definition waiting (i : IncomingInvite) : bool :=
  bool_decide (istate i = incomingAnswered) && negb (stopped i).
Definition retransmit (p : nat) (c : client) : option client :=
  i ← invites c !! p; if waiting i then Some (resendLastResponse i (source i) c) else None.
Definition ack_timeout (p : nat) (c : client) : option client :=
  i ← invites c !! p; if waiting i then Some (finish (icall i) c) else None.
Definition expire_invite (p : nat) (c : client) : option client :=
  i ← invites c !! p; if expiring i then Some (c <| serverInvites ::= delete_if (ikey i) p |>) else None.
Definition expire_canceled (q : nat) (c : client) : option client :=
  i ← canceled c !! q; Some (c <| canceledInvites ::= delete_if (ci_callID i) q |>).
Definition expire_completed (p : nat) (c : client) : option client :=
  call ← calls c !! p; Some (c <| completedDialogs ::= delete_if (CallID call) p |>).

(** ** Transactions *)

Definition begin_transaction (tkey : string) (c : client) : client := c <| transactions ::= <[tkey := []]> |>.
Definition take_response (tkey : string) (c : client) : client := c <| transactions ::= alter tail tkey |>.
Definition end_transaction (tkey : string) (c : client) : client := c <| transactions ::= delete tkey |>.

(** * The client as a machine *)

Inductive event :=
| Reserve (callID : string) | Release (callID : string) | Establish (call : Call) (branch : string) (write_ok : bool)
| SendBYE (p : nat) (branch : string) | Finish (p : nat)
| BeginTransaction (tkey : string) | TakeResponse (tkey : string) | EndTransaction (tkey : string)
| Transition (tkey uri branch : string) (cseq : Z) (headers : list string) (cancelSent : bool)
| GotResponse (res : Message) (branch : string) (write_ok : bool)
| GotRequest (req : Message) (addr : UDPAddr) | Commit (tag : string)
| DoAnswer (p : nat) (rtpPort now : Z) (write_ok : bool) | DoReject (p : nat) (code : Z) (reason : string)
| Dequeue
| Retransmit (p : nat) | AckTimeout (p : nat) | ExpireInvite (p : nat) | ExpireCanceled (q : nat) | ExpireCompleted (p : nat).

(** [None] when the event cannot happen.  The read loop handles one packet at a
    time; everything else interleaves freely. *)
Definition do_event (c : client) (e : event) : option client :=
  match e with
  | Reserve id => reserve id c
  | Release id => Some (release id c)
  | Establish call br ok => if decide (CallID call ∈ dialing c) then Some (establish call br ok c) else None
  | SendBYE p br => Some (sendBYE p br c)
  | Finish p => Some (finish p c)
  | BeginTransaction k => Some (begin_transaction k c)
  | TakeResponse k => Some (take_response k c)
  | EndTransaction k => Some (end_transaction k c)
  | Transition k uri br cseq hs cs => Some (transitionCanceledInvite k uri br cseq hs cs c).2
  | GotResponse res br ok => match reading c with Some _ => None | None => Some (handleResponse res br ok c) end
  | GotRequest req addr => match reading c with Some _ => None | None => Some (handleRequest req addr c) end
  | Commit tag => Some (commitIncomingInvite tag c)
  | DoAnswer p port now ok => Some (Answer p port now ok c).2
  | DoReject p code reason => Some (Reject p code reason c).2
  | Dequeue => Some (c <| queue ::= tail |>)
  | Retransmit p => retransmit p c
  | AckTimeout p => ack_timeout p c
  | ExpireInvite p => expire_invite p c
  | ExpireCanceled q => expire_canceled q c
  | ExpireCompleted p => expire_completed p c
  end.
#[export] Instance dialog_machine : Machine client event :=
  { m_init c := exists config reg ip, c = New config reg ip; m_step c e c' := do_event c e = Some c' }.

(** ** One final response per INVITE *)

(** What may become of an INVITE: a pending one is decided once; after that
    only an answered one changes, to acknowledged, and the response stays. *)
Record later (i i' : IncomingInvite) : Prop := {
  later_same : request i' = request i /\ source i' = source i /\ ikey i' = ikey i /\ icall i' = icall i;
  later_state : istate i <> incomingPending ->
    lastResponse i' = lastResponse i /\
    (istate i' = istate i \/ istate i = incomingAnswered /\ istate i' = incomingAcknowledged);
}.
Lemma later_refl i : later i i.
Proof. split; auto. Qed.
Lemma later_trans i j k : later i j -> later j k -> later i k.
Proof.
  intros [(A1 & A2 & A3 & A4) B] [(C1 & C2 & C3 & C4) D]. split; [repeat split; congruence|]. intros Hi.
  destruct (B Hi) as [Bl Bs]. assert (istate j <> incomingPending) as Hj by (destruct Bs as [->|[_ ->]]; done).
  destruct (D Hj) as [Dl Ds]. split; [congruence|]. destruct Bs as [Eb|[E1 E2]], Ds as [Ed|[E3 E4]]; rewrite ?Eb, ?E2 in *; auto; by rewrite Ed.
Qed.

(** Every INVITE of the first store is in the second, later; new ones have new
    addresses below [n']. *)
Definition evolves (m m' : gmap nat IncomingInvite) (n n' : nat) : Prop :=
  (forall p i, m !! p = Some i -> exists i', m' !! p = Some i' /\ later i i') /\
  (n <= n')%nat /\ ((forall p i, m !! p = Some i -> (p < n)%nat) -> forall p i, m' !! p = Some i -> (p < n')%nat).
Definition moves (c c' : client) : Prop := evolves (invites c) (invites c') (next c) (next c').

Lemma moves_same c c' : invites c' = invites c -> (next c <= next c')%nat -> moves c c'.
Proof.
  intros E Hn. unfold moves, evolves. rewrite E. split; [intros p i H; exists i; split; [done|apply later_refl]|].
  split; [done|]. intros H p i Hp. specialize (H p i Hp). lia.
Qed.
Lemma moves_refl c : moves c c.
Proof. by apply moves_same. Qed.
Lemma moves_trans c1 c2 c3 : moves c1 c2 -> moves c2 c3 -> moves c1 c3.
Proof.
  intros (A1 & A2 & A3) (B1 & B2 & B3). split; [|split; [lia|intros H; exact (B3 (A3 H))]].
  intros p i H. destruct (A1 p i H) as (j & Hj & Lj). destruct (B1 p j Hj) as (k & Hk & Lk). eauto using later_trans.
Qed.
Lemma moves_alter c f q : (forall i, later i (f i)) -> moves c (c <| invites ::= alter f q |>).
Proof.
  intros Hf. split; [|split; [done|]]; cbn.
  - intros p i H. destruct (decide (q = p)) as [->|Hne].
    + rewrite lookup_alter_eq, H. cbn. eauto.
    + rewrite lookup_alter_ne by done. eauto using later_refl.
  - intros Hd p i H. destruct (decide (q = p)) as [->|Hne].
    + rewrite lookup_alter_eq in H. destruct (invites c !! p) eqn:E; [|done]. by eapply Hd.
    + rewrite lookup_alter_ne in H by done. by eapply Hd.
Qed.
Lemma moves_update c q i i' : invites c !! q = Some i -> later i i' -> moves c (c <| invites ::= <[q := i']> |>).
Proof.
  intros Hq Hl. split; [|split; [done|]]; cbn.
  - intros p j H. destruct (decide (q = p)) as [->|Hne].
    + rewrite Hq in H. injection H as <-. rewrite lookup_insert_eq. eauto.
    + rewrite lookup_insert_ne by done. eauto using later_refl.
  - intros Hd p j H. destruct (decide (q = p)) as [->|Hne]; [by eapply Hd|]. rewrite lookup_insert_ne in H by done. by eapply Hd.
Qed.

Local Ltac same := apply moves_same; [reflexivity|cbn; lia].
Lemma write_moves c pk a : moves c (write c pk a).
Proof. same. Qed.
Lemma expire_moves p c : moves c (expireAfter p c).
Proof. apply moves_alter. intros i. split; auto. Qed.
Lemma stop_moves p c : moves c (stopRetransmission p c).
Proof. eapply moves_trans; [|apply expire_moves]. apply moves_alter. intros i. split; auto. Qed.
Lemma finish_moves p c : moves c (finish p c).
Proof.
  unfold finish. destruct (calls c !! p) as [call|]; [|apply moves_refl]. destruct (finished call); [apply moves_refl|].
  destruct (incoming call) as [i|]; [eapply moves_trans; [|apply stop_moves]|]; destruct (_ && _); same.
Qed.
Lemma sendACK_moves c call br ok c' : sendACK c call br ok = Some c' -> moves c c'.
Proof. unfold sendACK. destruct (destinationForURI _ _), ok; intros [= <-]. apply write_moves. Qed.
Lemma try_ACK_moves c call br : moves c (try_ACK c call br).
Proof. unfold try_ACK. destruct (sendACK _ _ _ _) eqn:E; [by eapply sendACK_moves|apply moves_refl]. Qed.
Lemma sendCancel_moves c i : moves c (sendCancel c i).
Proof. unfold sendCancel. destruct (destinationForURI _ _); [apply write_moves|apply moves_refl..]. Qed.
Lemma finalACK_moves c i t : moves c (sendInviteFinalACK c i t).
Proof. unfold sendInviteFinalACK. destruct (destinationForURI _ _); [apply write_moves|apply moves_refl..]. Qed.
Lemma establish_moves call br ok c : moves c (establish call br ok c).
Proof.
  unfold establish. cbv zeta. destruct (sendACK _ _ _ _) eqn:E; [apply sendACK_moves in E; eapply moves_trans; [|exact E]; same|same].
Qed.
Lemma sendBYE_moves p br c : moves c (sendBYE p br c).
Proof.
  unfold sendBYE. destruct (calls c !! p); [|apply moves_refl]. destruct (destinationForURI _ _); same.
Qed.
Lemma transition_moves k uri br cseq hs cs c : moves c (transitionCanceledInvite k uri br cseq hs cs c).2.
Proof.
  unfold transitionCanceledInvite. destruct (newCanceledInvite _ _ _ _ _); [|same].
  destruct (scan_buffered _ _) as [[m|] pr]; [same|]. cbn [snd].
  destruct (pr && negb cs); [eapply moves_trans; [|apply sendCancel_moves]|]; destruct (_ && _); same.
Qed.
Lemma unmatched_moves res br ok c : moves c (handleUnmatchedInviteResponse res br ok c).
Proof.
  unfold handleUnmatchedInviteResponse.
  destruct (active c !! _ ≫= _); [destruct (_ && _ && _); [apply try_ACK_moves|apply moves_refl]|].
  destruct (completedDialogs c !! _ ≫= _); [destruct (_ && _); [apply try_ACK_moves|apply moves_refl]|].
  destruct (canceledInvites c !! _) as [q|]; [|apply moves_refl]. destruct (canceled c !! q) as [i|]; [|apply moves_refl].
  destruct (negb _); [apply moves_refl|]. destruct (_ <? 200).
  { cbv zeta. destruct (negb _); [eapply moves_trans; [|apply sendCancel_moves]|]; same. }
  cbv zeta. destruct (_ <? 300); [|eapply moves_trans; [|apply finalACK_moves]; same].
  destruct (sendACK _ _ _ _) eqn:E; [apply sendACK_moves in E; eapply moves_trans; [|exact E]; same|].
  eapply moves_trans; [|apply finish_moves]. same.
Qed.
Lemma response_moves res br ok c : moves c (handleResponse res br ok c).
Proof.
  unfold handleResponse. destruct (transactions c !! _); [destruct (_ <? _)%nat; same|].
  destruct (decide _); [apply unmatched_moves|apply moves_refl].
Qed.
Lemma resend_moves i a c : moves c (resendLastResponse i a c).
Proof. unfold resendLastResponse. destruct (decide _); same. Qed.

Lemma later_decided i st r : istate i = incomingPending -> later i (i <| istate := st |> <| lastResponse := r |>).
Proof. intros E. split; [auto|]. by rewrite E. Qed.
Lemma Answer_moves p port now ok c : moves c (Answer p port now ok c).2.
Proof.
  unfold Answer. destruct (_ || _); [apply moves_refl|]. destruct (invites c !! p) as [i|] eqn:Ei; [|apply moves_refl].
  destruct (calls c !! icall i); [|apply moves_refl]. cbv zeta. destruct (decide _) as [Ep|]; [|apply moves_refl].
  destruct ok; cbn [snd]; (eapply moves_trans; [by eapply moves_update, later_decided|]); [apply write_moves|apply finish_moves].
Qed.
Lemma Reject_moves p code reason c : moves c (Reject p code reason c).2.
Proof.
  unfold Reject. destruct (_ || _); [apply moves_refl|]. destruct (invites c !! p) as [i|] eqn:Ei; [|apply moves_refl].
  destruct (calls c !! icall i); [|apply moves_refl]. cbv zeta. destruct (decide _) as [Ep|]; [|apply moves_refl]. cbn [snd].
  eapply moves_trans; [by eapply moves_update, later_decided|]. eapply moves_trans; [|apply expire_moves].
  eapply moves_trans; [|apply finish_moves]. apply write_moves.
Qed.
Lemma acknowledge_moves p req c : moves c (acknowledge p req c).
Proof.
  unfold acknowledge. destruct (invites c !! p) as [i|] eqn:Ei; [|apply moves_refl]. destruct (negb _); [apply moves_refl|].
  destruct (decide _) as [Ea|]; [|apply moves_refl]. eapply moves_trans; [|apply expire_moves]. eapply moves_update; [done|].
  split; [auto|]. intros _. split; [done|]. by right.
Qed.
Lemma cancel_moves p req a c : moves c (cancel p req a c).
Proof.
  unfold cancel. destruct (invites c !! p) as [i|] eqn:Ei; [|apply moves_refl]. cbv zeta.
  destruct (decide _) as [Ep|]; [|apply write_moves]. eapply moves_trans; [by eapply moves_update, later_decided|].
  eapply moves_trans; [|apply expire_moves]. eapply moves_trans; [|apply finish_moves]. same.
Qed.
Lemma begin_moves req a c : moves c (beginIncomingInvite req a c).
Proof.
  unfold beginIncomingInvite, sendTaggedResponse. repeat (destruct (negb _); [apply write_moves|]).
  destruct (serverInvites c !! _ ≫= _); [apply resend_moves|]. destruct (negb _); [apply write_moves|].
  destruct (parseOfferMedia _ _); [same|apply write_moves..].
Qed.
Lemma insert_moves c c' p i : invites c' = <[p := i]> (invites c) -> (next c <= p < next c')%nat ->
  (forall q j, invites c !! q = Some j -> (q < next c)%nat) -> moves c c'.
Proof.
  intros E Hp Hd. split; [|split; [lia|]]; rewrite E.
  - intros q j Hq. exists j. split; [|apply later_refl]. specialize (Hd q j Hq). rewrite lookup_insert_ne by lia. done.
  - intros _ q j Hq. destruct (decide (p = q)) as [->|Hne]; [lia|]. rewrite lookup_insert_ne in Hq by done.
    specialize (Hd q j Hq). lia.
Qed.
(** Addresses in use are below [next]. *)
Definition fresh (c : client) : Prop := forall p i, invites c !! p = Some i -> (p < next c)%nat.
Lemma take_in_moves req a media tag c : fresh c -> moves c (take_in req a media tag c).
Proof. intros Hf. eapply (insert_moves _ _ (S (next c))); [reflexivity|cbn; lia|exact Hf]. Qed.
Lemma admit_moves req a media tag c : fresh c -> moves c (accept_invite req a media tag c).
Proof.
  intros Hf. unfold accept_invite. destruct (negb _); [apply write_moves|].
  destruct (serverInvites _ !! _ ≫= _); [apply resend_moves|]. cbv zeta.
  pose proof (take_in_moves req a media tag c Hf) as H. revert H. generalize (take_in req a media tag c) as c2.
  intros c2 H. eapply moves_trans; [exact H|]. destruct (_ <? 4)%nat; [same|apply Reject_moves].
Qed.
Lemma commit_moves tag c : fresh c -> moves c (commitIncomingInvite tag c).
Proof.
  intros Hf. unfold commitIncomingInvite. destruct (reading c) as [[[req a] media]|]; [|apply moves_refl].
  eapply moves_trans; [|apply admit_moves; exact Hf]. same.
Qed.
Lemma request_moves req a c : moves c (handleRequest req a c).
Proof.
  unfold handleRequest, handleIncomingACK, handleIncomingCancel, handleBYE, sendTaggedResponse, sendResponse.
  destruct (decide _); [apply begin_moves|]. destruct (decide _).
  { destruct (negb _); [apply moves_refl|]. destruct (active c !! _ ≫= _) as [call|]; [|apply moves_refl].
    destruct (incoming call); [|apply moves_refl]. destruct (inbound call); [apply acknowledge_moves|apply moves_refl]. }
  destruct (decide _).
  { destruct (negb _); [apply write_moves|]. destruct (serverInvites c !! _); [apply cancel_moves|apply write_moves]. }
  destruct (decide _).
  { destruct (active c !! _); [|apply write_moves]. destruct (_ && _); [apply write_moves|].
    eapply moves_trans; [|apply finish_moves]. apply write_moves. }
  destruct (decide _); apply write_moves.
Qed.

Lemma event_moves c e c' : fresh c -> do_event c e = Some c' -> moves c c'.
Proof.
  intros Hf H. destruct e; cbn [do_event] in H; try (injection H as <-);
    eauto using finish_moves, sendBYE_moves, transition_moves, commit_moves, Answer_moves, Reject_moves.
  all: try same.
  - unfold reserve in H. destruct (hasCallCapacityLocked c); [|done]. injection H as <-. same.
  - destruct (decide _); [|done]. injection H as <-. apply establish_moves.
  - destruct (reading c); [done|]. injection H as <-. apply response_moves.
  - destruct (reading c); [done|]. injection H as <-. apply request_moves.
  - unfold retransmit in H. destruct (invites c !! p) as [i|]; [|done]. cbn in H. destruct (waiting i); [|done].
    injection H as <-. apply resend_moves.
  - unfold ack_timeout in H. destruct (invites c !! p) as [i|]; [|done]. cbn in H. destruct (waiting i); [|done].
    injection H as <-. apply finish_moves.
  - unfold expire_invite in H. destruct (invites c !! p) as [i|]; [|done]. cbn in H. destruct (expiring i); [|done].
    injection H as <-. same.
  - unfold expire_canceled in H. destruct (canceled c !! q); [|done]. cbn in H. injection H as <-. same.
  - unfold expire_completed in H. destruct (calls c !! p); [|done]. cbn in H. injection H as <-. same.
Qed.
Lemma fresh_preserved : preserved fresh.
Proof. intros c e c' Hf H. destruct (event_moves c e c' Hf H) as (_ & _ & H3). exact (H3 Hf). Qed.
Lemma fresh_reachable c : reachable c -> fresh c.
Proof. apply invariant_reachable; [|exact fresh_preserved]. intros c0 (config & reg & ip & ->) p i H. done. Qed.

(** C1: an incoming INVITE gets one final response.  Whatever packets arrive,
    whatever the application does and whichever timers fire, an INVITE that has
    been answered, rejected or cancelled stays so: the response kept for it never
    changes again, and the only further change is that an answered one becomes
    acknowledged. *)
Theorem one_final_response (c c' : client) (evs : list event) (p : nat) (i : IncomingInvite) :
  reachable c -> run c evs c' -> invites c !! p = Some i -> istate i <> incomingPending ->
  exists i', invites c' !! p = Some i' /\
    request i' = request i /\ source i' = source i /\ lastResponse i' = lastResponse i /\
    (istate i' = istate i \/ istate i = incomingAnswered /\ istate i' = incomingAcknowledged).
Proof.
  intros Hc%fresh_reachable Hrun Hi Hs. assert (moves c c') as (Hm & _).
  { clear Hi. induction Hrun as [|c1 e c2 es c3 Hstep Hrun IH]; [apply moves_refl|].
    eapply moves_trans; [exact (event_moves c1 e c2 Hc Hstep)|]. apply IH. exact (fresh_preserved c1 e c2 Hc Hstep). }
  destruct (Hm p i Hi) as (i' & Hi' & [(H1 & H2 & _) H3]). exists i'. destruct (H3 Hs) as [H4 H5]. do 4 (split; [assumption|]). exact H5.
Qed.

(** ** Untrusted sources *)

(** C19: what does not come from the registrar changes nothing.  A request from
    any other address, whatever its method and headers, leaves the client as it
    is and draws at most one response, sent back to that address; the one
    exception is a BYE for a call the gateway itself placed. *)
Theorem untrusted_harmless (c : client) (req : Message) (addr : UDPAddr) :
  isRegistrarSource c addr = false ->
  (ToUpper (Method req) = "BYE" -> forall p call,
     active c !! Header req "call-id" = Some p -> calls c !! p = Some call -> inbound call = true) ->
  exists l, handleRequest req addr c = c <| sent := sent c ++ l |> /\ (length l <= 1)%nat /\ Forall (fun x => x.2 = addr) l.
Proof.
  intros Hr Hbye.
  assert (forall pk, exists l, write c pk addr = c <| sent := sent c ++ l |> /\ (length l <= 1)%nat /\ Forall (fun x => x.2 = addr) l)
    as Hw by (intros pk; exists [(pk, addr)]; split; [done|]; split; [done|by constructor]).
  unfold handleRequest, beginIncomingInvite, handleIncomingACK, handleIncomingCancel, handleBYE, sendTaggedResponse, sendResponse.
  rewrite Hr. cbn [negb].
  destruct (decide _); [destruct (negb _); apply Hw|]. destruct (decide _).
  { exists []. rewrite app_nil_r. split; [by destruct c|]. split; [cbn; lia|constructor]. }
  destruct (decide _); [apply Hw|]. destruct (decide (_ = "BYE")) as [Hb|].
  { destruct (active c !! _) as [p|] eqn:Ep; [|apply Hw]. destruct (calls c !! p) as [call|] eqn:Ec.
    - rewrite (Hbye Hb p call eq_refl Ec). apply Hw.
    - cbn [andb]. unfold finish. replace (calls (write c _ addr) !! p) with (@None Call) by (by rewrite <- Ec). apply Hw. }
  destruct (decide _); apply Hw.
Qed.

(** ** Capacity *)

Definition use (c : client) : nat := size (active c) + size (dialing c).
Record shrinks (c c' : client) : Prop := {
  shrinks_use : (use c' <= use c)%nat;
  shrinks_max : maxConcurrentCalls c' = maxConcurrentCalls c;
}.
Lemma shrinks_refl c : shrinks c c.
Proof. by split. Qed.
Lemma shrinks_trans c1 c2 c3 : shrinks c1 c2 -> shrinks c2 c3 -> shrinks c1 c3.
Proof. intros [] []. split; [lia|congruence]. Qed.
Local Ltac keep := split; reflexivity.

Lemma size_delete_if k p m : (size (delete_if k p m) <= size m)%nat.
Proof.
  unfold delete_if. destruct (decide _); [|done]. destruct (m !! k) eqn:E; [|by rewrite delete_id].
  rewrite map_size_delete, E. lia.
Qed.
Lemma size_insert_le k p (m : gmap string nat) : (size (<[k := p]> m) <= S (size m))%nat.
Proof. rewrite map_size_insert. destruct (m !! k); cbn; lia. Qed.
Lemma size_remove_le k (d : gset string) : (size (d ∖ {[k]}) <= size d)%nat.
Proof. apply subseteq_size. set_solver. Qed.
Lemma size_remove_in k (d : gset string) : k ∈ d -> S (size (d ∖ {[k]})) = size d.
Proof. intros H. rewrite size_difference by set_solver. rewrite size_singleton. assert (size d <> 0)%nat by (intros E; apply size_empty_inv in E; set_solver). lia. Qed.
Lemma size_add_le k (d : gset string) : (size ({[k]} ∪ d) <= S (size d))%nat.
Proof.
  destruct (decide (k ∈ d)); [replace ({[k]} ∪ d) with d by set_solver; lia|].
  rewrite size_union by set_solver. by rewrite size_singleton.
Qed.

Lemma finish_shrinks p c : shrinks c (finish p c).
Proof.
  unfold finish. destruct (calls c !! p) as [call|]; [|apply shrinks_refl]. destruct (finished call); [apply shrinks_refl|].
  pose proof (size_delete_if (CallID call) p (active c)) as H.
  destruct (incoming call), (negb (inbound call) && _); (split; [|reflexivity]); unfold use; cbn; lia.
Qed.
Lemma sendACK_shrinks c call br ok c' : sendACK c call br ok = Some c' -> shrinks c c'.
Proof. unfold sendACK. destruct (destinationForURI _ _), ok; intros [= <-]. keep. Qed.
Lemma try_ACK_shrinks c call br : shrinks c (try_ACK c call br).
Proof. unfold try_ACK. destruct (sendACK _ _ _ _) eqn:E; [by eapply sendACK_shrinks|apply shrinks_refl]. Qed.
Lemma sendCancel_shrinks c i : shrinks c (sendCancel c i).
Proof. unfold sendCancel. destruct (destinationForURI _ _); keep. Qed.
Lemma establish_shrinks call br ok c : CallID call ∈ dialing c -> shrinks c (establish call br ok c).
Proof.
  intros Hin%size_remove_in. unfold establish.
  set (c1' := enter_dialog call c). cbv zeta.
  assert (shrinks c c1') as H1.
  { split; [|reflexivity]. unfold use, c1'. cbn. pose proof (size_insert_le (CallID call) (next c) (active c)). lia. }
  destruct (sendACK _ _ _ _) eqn:E; [apply sendACK_shrinks in E; eauto using shrinks_trans|].
  eapply shrinks_trans; [exact H1|]. split; [|reflexivity]. unfold use. cbn [active dialing].
  pose proof (size_delete_if (CallID call) (next c) (active c1')). cbn in *. lia.
Qed.
Lemma sendBYE_shrinks p br c : shrinks c (sendBYE p br c).
Proof. unfold sendBYE. destruct (calls c !! p); [|apply shrinks_refl]. destruct (destinationForURI _ _); keep. Qed.
Lemma transition_shrinks k uri br cseq hs cs c : shrinks c (transitionCanceledInvite k uri br cseq hs cs c).2.
Proof.
  unfold transitionCanceledInvite. destruct (newCanceledInvite _ _ _ _ _); [|keep].
  destruct (scan_buffered _ _) as [[m|] pr]; [keep|]. cbn [snd].
  destruct (pr && negb cs); [eapply shrinks_trans; [|apply sendCancel_shrinks]|]; keep.
Qed.

(** A 2xx for an INVITE that was given up: the one packet that opens a dialog
    nothing was reserved for. *)
Definition crosses (c : client) (e : event) : bool :=
  match e with
  | GotResponse res _ _ => is_2xx res && bool_decide (is_Some (canceledInvites c !! Header res "call-id"))
  | _ => false
  end.
Lemma response_shrinks res br ok c : crosses c (GotResponse res br ok) = false -> shrinks c (handleResponse res br ok c).
Proof.
  intros Hx. unfold handleResponse. destruct (transactions c !! _); [destruct (_ <? _)%nat; keep|].
  destruct (decide _); [|apply shrinks_refl]. unfold handleUnmatchedInviteResponse.
  destruct (active c !! _ ≫= _); [destruct (_ && _ && _); [apply try_ACK_shrinks|apply shrinks_refl]|].
  destruct (completedDialogs c !! _ ≫= _); [destruct (_ && _); [apply try_ACK_shrinks|apply shrinks_refl]|].
  cbn [crosses] in Hx. destruct (canceledInvites c !! _) as [q|] eqn:Eq; [|apply shrinks_refl].
  rewrite bool_decide_eq_true_2, andb_true_r in Hx by eauto.
  destruct (canceled c !! q) as [i|]; [|apply shrinks_refl]. destruct (negb _); [apply shrinks_refl|].
  unfold is_2xx in Hx. destruct (_ <? 200) eqn:E2.
  { cbv zeta. destruct (negb _); [eapply shrinks_trans; [|apply sendCancel_shrinks]|]; keep. }
  assert (StatusCode res <? 300 = false) as -> by lia. cbv zeta. unfold sendInviteFinalACK.
  destruct (destinationForURI _ _); keep.
Qed.

Lemma expire_shrinks p c : shrinks c (expireAfter p c).
Proof. keep. Qed.
Lemma Answer_shrinks p port now ok c : shrinks c (Answer p port now ok c).2.
Proof.
  unfold Answer. destruct (_ || _); [apply shrinks_refl|]. destruct (invites c !! p) as [i|]; [|apply shrinks_refl].
  destruct (calls c !! icall i); [|apply shrinks_refl]. cbv zeta. destruct (decide _); [|apply shrinks_refl].
  destruct ok; [keep|]. cbn [snd]. eapply shrinks_trans; [|apply finish_shrinks]. keep.
Qed.
Lemma Reject_shrinks p code reason c : shrinks c (Reject p code reason c).2.
Proof.
  unfold Reject. destruct (_ || _); [apply shrinks_refl|]. destruct (invites c !! p) as [i|]; [|apply shrinks_refl].
  destruct (calls c !! icall i); [|apply shrinks_refl]. cbv zeta. destruct (decide _); [|apply shrinks_refl]. cbn [snd].
  eapply shrinks_trans; [|apply expire_shrinks]. eapply shrinks_trans; [|apply finish_shrinks]. keep.
Qed.
Lemma resend_shrinks i a c : shrinks c (resendLastResponse i a c).
Proof. unfold resendLastResponse. destruct (decide _); keep. Qed.
Lemma request_shrinks req a c : shrinks c (handleRequest req a c).
Proof.
  unfold handleRequest, handleIncomingACK, handleIncomingCancel, handleBYE, sendTaggedResponse, sendResponse.
  destruct (decide _).
  { unfold beginIncomingInvite, sendTaggedResponse. repeat (destruct (negb _); [keep|]).
    destruct (serverInvites c !! _ ≫= _); [apply resend_shrinks|]. destruct (negb _); [keep|].
    destruct (parseOfferMedia _ _); keep. }
  destruct (decide _).
  { destruct (negb _); [keep|]. destruct (active c !! _ ≫= _) as [call|]; [|keep].
    destruct (incoming call) as [q|]; [|keep]. destruct (inbound call); [|keep]. unfold acknowledge.
    destruct (invites c !! q); [|keep]. destruct (negb _); [keep|]. destruct (decide _); keep. }
  destruct (decide _).
  { destruct (negb _); [keep|]. destruct (serverInvites c !! _) as [q|]; [|keep]. unfold cancel.
    destruct (invites c !! q); [|keep]. cbv zeta. destruct (decide _); [|keep].
    eapply shrinks_trans; [|apply expire_shrinks]. eapply shrinks_trans; [|apply finish_shrinks]. keep. }
  destruct (decide _).
  { destruct (active c !! _); [|keep]. destruct (_ && _); [keep|]. eapply shrinks_trans; [|apply finish_shrinks]. keep. }
  destruct (decide _); keep.
Qed.

Definition within (c : client) : Prop := Z.of_nat (use c) <= maxConcurrentCalls c.
Lemma shrinks_within c c' : shrinks c c' -> within c -> within c'.
Proof. intros [H1 H2]. unfold within. rewrite H2. lia. Qed.
Lemma capacity_use c : hasCallCapacityLocked c = true -> Z.of_nat (S (use c)) <= maxConcurrentCalls c.
Proof. unfold hasCallCapacityLocked, use. lia. Qed.
Lemma take_in_use req a media tag c :
  (use (take_in req a media tag c) <= S (use c))%nat /\ maxConcurrentCalls (take_in req a media tag c) = maxConcurrentCalls c.
Proof.
  split; [|reflexivity]. unfold use. pose proof (size_insert_le (CallID (incoming_call req a media tag (S (next c)))) (next c) (active c)).
  change (active (take_in req a media tag c)) with (<[CallID (incoming_call req a media tag (S (next c))) := next c]> (active c)).
  change (dialing (take_in req a media tag c)) with (dialing c). lia.
Qed.
Lemma admit_within req a media tag c : within c -> within (accept_invite req a media tag c).
Proof.
  intros Hw. unfold accept_invite. destruct (hasCallCapacityLocked c) eqn:Ec; cbn [negb]; [|exact Hw].
  destruct (serverInvites c !! _ ≫= _); [by eapply shrinks_within; [apply resend_shrinks|]|]. cbv zeta.
  apply capacity_use in Ec. destruct (take_in_use req a media tag c) as [H1 H2]. revert H1 H2.
  generalize (take_in req a media tag c) as c2. intros c2 H1 H2. assert (within c2) as H3 by (unfold within; lia).
  destruct (_ <? 4)%nat; [exact H3|by eapply shrinks_within; [apply Reject_shrinks|]].
Qed.
Lemma event_within c e c' : within c -> do_event c e = Some c' -> crosses c e = false -> within c'.
Proof.
  intros Hw H Hx. destruct e; cbn [do_event] in H; try (injection H as <-);
    try (eapply shrinks_within; [|exact Hw]; first [apply finish_shrinks|apply sendBYE_shrinks|apply transition_shrinks|
      apply Answer_shrinks|apply Reject_shrinks|keep]).
  - unfold reserve in H. destruct (hasCallCapacityLocked c) eqn:Ec; [|done]. injection H as <-. apply capacity_use in Ec.
    unfold within, use in *. cbn. pose proof (size_add_le callID (dialing c)). lia.
  - eapply shrinks_within; [|exact Hw]. split; [|reflexivity]. unfold use. cbn. pose proof (size_remove_le callID (dialing c)). lia.
  - destruct (decide _); [|done]. injection H as <-. by eapply shrinks_within; [apply establish_shrinks|].
  - destruct (reading c); [done|]. injection H as <-. by eapply shrinks_within; [apply response_shrinks|].
  - destruct (reading c); [done|]. injection H as <-. by eapply shrinks_within; [apply request_shrinks|].
  - unfold commitIncomingInvite. destruct (reading c) as [[[req a] media]|]; [|done]. apply admit_within. exact Hw.
  - unfold retransmit in H. destruct (invites c !! p) as [i|]; [|done]. cbn in H. destruct (waiting i); [|done].
    injection H as <-. by eapply shrinks_within; [apply resend_shrinks|].
  - unfold ack_timeout in H. destruct (invites c !! p) as [i|]; [|done]. cbn in H. destruct (waiting i); [|done].
    injection H as <-. by eapply shrinks_within; [apply finish_shrinks|].
  - unfold expire_invite in H. destruct (invites c !! p) as [i|]; [|done]. cbn in H. destruct (expiring i); [|done].
    by injection H as <-.
  - unfold expire_canceled in H. destruct (canceled c !! q); [|done]. cbn in H. by injection H as <-.
  - unfold expire_completed in H. destruct (calls c !! p); [|done]. cbn in H. by injection H as <-.
Qed.

(** The machine without crossing answers. *)
Definition quiet_machine : Machine client event :=
  {| m_init := m_init; m_step c e c' := do_event c e = Some c' /\ crosses c e = false |}.

(** C21: the number of calls is bounded.  In every state the client can reach,
    however dialling, incoming INVITEs, endings and timers interleave, the calls
    in progress and the ones being dialled together do not exceed the configured
    maximum - as long as no 2xx crosses a cancellation, which opens a dialog only
    to end it. *)
Theorem capacity_respected (c : client) :
  @reachable _ _ quiet_machine c ->
  Z.of_nat (size (active c)) + Z.of_nat (size (dialing c)) <= maxConcurrentCalls c.
Proof.
  intros H. enough (within c) as Hw by (unfold within, use in Hw; lia).
  revert c H. apply (@invariant_reachable _ _ quiet_machine).
  - intros c0 (config & reg & ip & ->). unfold within, use, New. cbn. rewrite map_size_empty, size_empty.
    destruct (_ <=? 0) eqn:E; cbn; lia.
  - intros c e c' Hw [H Hx]. by eapply event_within.
Qed.
(** ** Answers that cross a cancellation *)

Lemma scan_provisional l m b : Forall (fun r => StatusCode r < 200) l -> 200 <= StatusCode m ->
  scan_buffered l b = (None, b || bool_decide (l <> [])) /\ (scan_buffered (l ++ [m]) b).1 = Some m.
Proof.
  intros H Hm. revert b. induction H as [|r l Hr H IH]; intros b; cbn.
  - rewrite orb_false_r. by replace (200 <=? StatusCode m) with true by lia.
  - replace (200 <=? StatusCode r) with false by lia. destruct (IH true) as [-> ->]. split; [|done].
    cbn. by rewrite orb_true_r.
Qed.
Lemma sendCancel_frame c i : exists l, sendCancel c i = c <| sent := sent c ++ l |>.
Proof.
  unfold sendCancel. destruct (destinationForURI _ _) as [a| |]; [by eexists|exists []..]; rewrite app_nil_r; by destruct c.
Qed.
(** A transaction given up before any final answer leaves its INVITE to the
    cancelled ones, whether or not a CANCEL goes out now. *)
Lemma transition_quiet tkey uri branch cseq headers cancelSent c i :
  newCanceledInvite uri branch cseq headers cancelSent = Some i ->
  Forall (fun r => StatusCode r < 200) (default [] (transactions c !! tkey)) ->
  exists i' l, (ci_uri i', ci_cseq i', ci_callID i') = (ci_uri i, ci_cseq i, ci_callID i) /\
    late_call i' = late_call i /\
    transitionCanceledInvite tkey uri branch cseq headers cancelSent c =
      (None, c <| transactions ::= delete tkey |> <| next ::= S |> <| canceled ::= <[next c := i']> |>
               <| canceledInvites ::= <[ci_callID i := next c]> |> <| sent := sent c ++ l |>).
Proof.
  intros Hi Hl. unfold transitionCanceledInvite. rewrite Hi.
  assert (forall b, (scan_buffered (default [] (transactions c !! tkey)) b).1 = None) as Hn.
  { generalize (default [] (transactions c !! tkey)) as l, Hl. induction 1 as [|r l0 Hr H IH]; intros b; [done|]. cbn.
    replace (200 <=? StatusCode r) with false by lia. by apply IH. }
  specialize (Hn false). destruct (scan_buffered _ false) as [o pr]. cbn in Hn. subst o.
  exists (if pr && negb (ci_cancelSent i) then i <| ci_cancelSent := true |> else i).
  destruct (pr && negb cancelSent).
  - edestruct sendCancel_frame as [l E]. exists l. rewrite E. by destruct (pr && _).
  - exists []. destruct (pr && _); (split; [done|]; split; [done|]); do 2 f_equal; cbn; by rewrite app_nil_r.
Qed.

(** C18: an answer that crosses a cancellation is never lost.  The callee's 2xx
    either reaches the transaction before it is given up, and then giving it up
    returns that answer to the dialling code; or it arrives afterwards, and then
    it opens a dialog, which is acknowledged at once and from then on active, so
    that it can be ended with a BYE. *)
Theorem crossing_answer (c : client) (res : Message) (uri branch0 branch : string) (cseq : Z) (headers : list string)
    (cancelSent : bool) (i : canceledInvite) (buf : list Message) (dst : UDPAddr) :
  let id := Header res "call-id" in
  let tkey := param (Header res "via") "branch" +:+ "|INVITE" in
  newCanceledInvite uri branch0 cseq headers cancelSent = Some i -> ci_callID i = id ->
  cseqMethod (Header res "cseq") = "INVITE" -> cseqNumber (Header res "cseq") = cseq -> is_2xx res = true ->
  transactions c !! tkey = Some buf -> (length buf < 8)%nat -> Forall (fun r => StatusCode r < 200) buf ->
  active c !! id = None -> completedDialogs c !! id = None ->
  destinationForURI (cfg c) (RemoteTarget (late_call i res)) = Ok dst ->
  let abandon := transitionCanceledInvite tkey uri branch0 cseq headers cancelSent in
  (forall ok, (abandon (handleResponse res branch ok c)).1 = Some res) /\
  (abandon c).1 = None /\
  exists p, let c' := handleResponse res branch true (abandon c).2 in
    active c' !! id = Some p /\ calls c' !! p = Some (late_call i res) /\ canceledInvites c' !! id = None /\
    sent c' = sent (abandon c).2 ++ [(call_request c "ACK" branch cseq (late_call i res), dst)].
Proof.
  intros id tkey Hi Hid Hm Hcs H2 Htx Hlen Hbuf Ha Hd Hdst abandon.
  assert (200 <= StatusCode res < 300) as Hst by (unfold is_2xx in H2; lia).
  assert (forall ok, handleResponse res branch ok c = c <| transactions ::= <[tkey := buf ++ [res]]> |>) as Hin.
  { intros ok. unfold handleResponse. rewrite Hm. change (param (Header res "via") "branch" +:+ "|" +:+ "INVITE") with tkey. rewrite Htx. by rewrite (proj2 (Nat.ltb_lt (length buf) 8) Hlen). }
  split.
  { intros ok. rewrite Hin. unfold abandon, transitionCanceledInvite. rewrite Hi. cbn.
    rewrite lookup_insert_eq. cbn [default from_option].
    destruct (scan_provisional buf res false Hbuf ltac:(lia)) as [_ H]. destruct (scan_buffered _ _) as [o pr].
    cbn in H. by subst o. }
  destruct (transition_quiet tkey uri branch0 cseq headers cancelSent c i Hi) as (i' & l & Ei & El & E).
  { by rewrite Htx. }
  unfold abandon. rewrite E. split; [done|]. exists (S (next c)).
  unfold handleResponse. rewrite Hm. change (param (Header res "via") "branch" +:+ "|" +:+ "INVITE") with tkey. cbn -[late_call].
  rewrite lookup_delete_eq. rewrite decide_True by done. unfold handleUnmatchedInviteResponse. cbn -[late_call].
  fold id. rewrite Ha, Hd. cbn -[late_call]. rewrite Hid, lookup_insert_eq. cbn -[late_call]. rewrite lookup_insert_eq.
  injection Ei as E1 E2 E3. rewrite E2.
  assert (ci_cseq i = cseq) as Ec.
  { unfold newCanceledInvite in Hi. destruct (decide _); [done|]. by injection Hi as <-. }
  rewrite Ec, Hcs, Z.eqb_refl. cbn -[late_call].
  rewrite (proj2 (Z.ltb_ge (StatusCode res) 200) (proj1 Hst)), (proj2 (Z.ltb_lt (StatusCode res) 300) (proj2 Hst)).
  unfold sendACK. cbn -[late_call]. replace (late_call i' res) with (late_call i res) by (by rewrite El).
  rewrite Hdst. cbn -[late_call]. rewrite !lookup_insert_eq, delete_insert_eq. split; [done|]. split; [done|].
  split; [apply lookup_delete_eq|]. f_equal. unfold call_request. cbn -[late_call]. do 3 f_equal. cbn. by rewrite Ec.
Qed.

(** ** An INVITE inside a dialog *)

(** [incoming.go] does not look for a call of the same Call-ID: when a second
    call fits, an INVITE with the Call-ID of a call in progress replaces that
    call, which is then in no table although it has not ended. *)
Lemma reinvite_replaces req addr media tag c p :
  hasCallCapacityLocked c = true -> serverInvites c !! serverInviteKey req = None -> (length (queue c) < 4)%nat ->
  active c !! Header req "call-id" = Some p ->
  let c' := accept_invite req addr media tag c in
  active c' !! Header req "call-id" = Some (next c) /\ sent c' = sent c ++ [(buildResponse req 100 "Trying" "" [] "", addr)].
Proof.
  intros Hc Hs Hq Ha. unfold accept_invite. rewrite Hc, Hs. cbn -[Nat.ltb buildResponse serverInviteKey incoming_call].
  rewrite (proj2 (Nat.ltb_lt (length (queue c)) 4) Hq). cbn -[buildResponse serverInviteKey incoming_call].
  split; [|done]. apply lookup_insert_eq.
Qed.
End dialog.
(** ** Witnesses: a call that comes in, is cancelled, and one that is dialled *)

(** Runs of the machine, computed. *)
Section play.
Context `{U : Unicode} `{R : UDPResolver}.
Fixpoint play (c : client) (es : list event) : option client :=
  match es with
  | [] => Some c
  | e :: es => c ← do_event c e; play c es
  end.
Lemma play_run c es c' : play c es = Some c' -> run c es c'.
Proof.
  revert c. induction es as [|e es IH]; cbn; intros c H; [injection H as <-; constructor|].
  destruct (do_event c e) as [c1|] eqn:E; [|done]. econstructor; [exact E|by apply IH].
Qed.
Fixpoint play_quiet (c : client) (es : list event) : bool :=
  match es with
  | [] => true
  | e :: es => negb (crosses c e) && match do_event c e with Some c => play_quiet c es | None => true end
  end.
Lemma play_run_quiet c es c' : play c es = Some c' -> play_quiet c es = true -> @run _ _ quiet_machine c es c'.
Proof.
  revert c. induction es as [|e es IH]; cbn; intros c H Hq; [injection H as <-; constructor|].
  destruct (do_event c e) as [c1|] eqn:E; [|done]. apply andb_prop in Hq as [Hq1 Hq2].
  econstructor; [split; [exact E|by apply negb_true_iff]|by apply IH].
Qed.
End play.

#[local] Existing Instances ascii_tables text_addresses.
(** Host names are not resolved, addresses resolve to themselves. *)
Definition literal_resolver : @UDPResolver text_addresses := {|
  ResolveUDPAddr := fun hp => '(h, p) ← SplitHostPort hp; ip ← ParseIP h; Some (mkAddr ip (Atoi p).1) |}.
#[local] Existing Instance literal_resolver.

Definition pbx : @UDPAddr text_addresses := mkAddr home 5060.
Definition stranger : @UDPAddr text_addresses := mkAddr away 5060.
Definition door_config : Config := mkConfig "192.0.2.7" 5060 "door" "secret" 5061 "Door" "pcma,pcmu" true ["*"] 1.
Definition door : client := New door_config pbx away.
Definition offer_as (method : string) : Message :=
  mkMessage false 0 "" method (URI invite) (Headers invite) (offerSDP "pcma" 7 home 4000) "".
Definition offer : Message := offer_as "INVITE".
Definition rung : list event := [GotRequest offer pbx; Commit "g1"].

Definition refused : list event := rung ++ [DoReject 1 486 "Busy Here"].
Definition afterwards : list event := [GotRequest (offer_as "CANCEL") pbx; GotRequest offer pbx; ExpireInvite 1].
Lemma one_final_response_witness :
  exists c c', play door refused = Some c /\ play c afterwards = Some c' /\
    exists i i', invites c !! 1%nat = Some i /\ invites c' !! 1%nat = Some i' /\ istate i' = incomingRejected /\
      lastResponse i' = lastResponse i.
Proof.
  assert (match play door refused with
          | Some c => match play c afterwards with
                      | Some _ => bool_decide (istate <$> (invites c !! 1%nat) = Some incomingRejected)
                      | None => false
                      end
          | None => false
          end = true) as H by (vm_compute; reflexivity).
  destruct (play door refused) as [c|] eqn:E1; [|done]. destruct (play c afterwards) as [c'|] eqn:E2; [|done].
  exists c, c'. split; [done|]. split; [done|]. apply bool_decide_eq_true in H. destruct (invites c !! 1%nat) as [i|] eqn:Hi; [|done].
  injection H as Hs.
  destruct (one_final_response c c' afterwards 1 i) as (i' & Hi' & _ & _ & Hl & Hst).
  - exists door, refused. split; [by exists door_config, pbx, away|by apply play_run].
  - by apply play_run.
  - exact Hi.
  - by rewrite Hs.
  - exists i, i'. rewrite Hs in Hst. destruct Hst as [Hst|[Hst _]]; [|done]. auto.
Defined.

Lemma untrusted_harmless_witness :
  exists l, handleRequest (offer_as "CANCEL") stranger door = door <| sent := sent door ++ l |> /\ (length l <= 1)%nat.
Proof.
  destruct (untrusted_harmless door (offer_as "CANCEL") stranger) as (l & E & Hl & _).
  - vm_compute. reflexivity.
  - intros H. vm_compute in H. discriminate H.
  - exists l. split; [exact E|exact Hl].
Defined.

Lemma capacity_respected_witness :
  exists c, play door rung = Some c /\ size (active c) = 1%nat /\
    Z.of_nat (size (active c)) + Z.of_nat (size (dialing c)) <= maxConcurrentCalls c.
Proof.
  assert (match play door rung with Some c => bool_decide (size (active c) = 1%nat) | None => false end = true) as H
    by (vm_compute; reflexivity).
  destruct (play door rung) as [c|] eqn:E; [|done]. apply bool_decide_eq_true in H. exists c. split; [done|]. split; [exact H|].
  apply (capacity_respected c). exists door, rung. split; [by exists door_config, pbx, away|].
  apply (play_run_quiet door rung c E). vm_compute. reflexivity.
Defined.

(** The INVITE of a call dialled out, and its late answer. *)
Definition dialled : list string :=
  ["Via: SIP/2.0/UDP 192.0.2.9:5061;branch=z9hG4bK-7"; "From: <sip:door@192.0.2.7>;tag=d1"; "To: <sip:anna@192.0.2.7>";
   "Call-ID: 12@192.0.2.9"; "CSeq: 2 INVITE"].
Definition answer : Message :=
  mkMessage true 200 "OK" "" ""
    (list_to_map [("via", ["SIP/2.0/UDP 192.0.2.9:5061;branch=z9hG4bK-7"]); ("from", ["<sip:door@192.0.2.7>;tag=d1"]);
                  ("to", ["<sip:anna@192.0.2.7>;tag=p9"]); ("call-id", ["12@192.0.2.9"]); ("cseq", ["2 INVITE"]);
                  ("contact", ["<sip:anna@192.0.2.7:5060>"])]) "" "".
Definition dialling : client := begin_transaction "z9hG4bK-7|INVITE" door.
Lemma crossing_answer_witness :
  let abandon := transitionCanceledInvite "z9hG4bK-7|INVITE" "sip:anna@192.0.2.7" "z9hG4bK-7" 2 dialled false in
  (abandon dialling).1 = None /\ (abandon (handleResponse answer "z9hG4bK-8" true dialling)).1 = Some answer /\
  exists p, let c' := handleResponse answer "z9hG4bK-8" true (abandon dialling).2 in
    active c' !! "12@192.0.2.9" = Some p /\ canceledInvites c' !! "12@192.0.2.9" = None.
Proof.
  intros abandon.
  destruct (newCanceledInvite "sip:anna@192.0.2.7" "z9hG4bK-7" 2 dialled false) as [i|] eqn:E; [|by vm_compute in E].
  destruct (crossing_answer dialling answer "sip:anna@192.0.2.7" "z9hG4bK-7" "z9hG4bK-8" 2 dialled false i [] pbx)
    as (H1 & H2 & p & H3 & _ & H4 & _).
  - exact E.
  - vm_compute in E. injection E as <-. vm_compute. reflexivity.
  - vm_compute. reflexivity.
  - vm_compute. reflexivity.
  - vm_compute. reflexivity.
  - vm_compute. reflexivity.
  - cbn. lia.
  - apply Forall_nil. exact I.
  - vm_compute. reflexivity.
  - vm_compute. reflexivity.
  - vm_compute in E. injection E as <-. vm_compute. reflexivity.
  - split; [exact H2|]. split; [exact (H1 true)|]. exists p. split; [exact H3|exact H4].
Defined.
End SipDialog.
