(* ===== verification/PhoneBridge.v ===== *)
(** The phone's audio on its way to the camera: the receive loops and the send loop of
    [internal/media/talkback.go] ([rtspTalkback.Run]) and [talkback_audio.go]
    ([receivePhoneRTP], [runBaichuanAudioBridge]), with the key presses of
    [session.go].

    A loop is a function of what its reads, its timer and its [select] give; the
    two goroutines of the Baichuan bridge share the buffer, whose mutex makes their
    steps atomic.  Times are nanoseconds; one reading of the clock stands for those
    of one turn.  The echo canceller is the list of what it is told. *)
From S2P Require Import Prelude GoBytes GoStrings Rtp G711 Packetizer Dtmf Adpcm Resample Playout Sequencer PhoneBuffer Sdp SipDialog.

Module PhoneBridge.
#[local] Existing Instances SipDialog.eta_call PhoneBuffer.eta_buffer.

Section bridge.
Context `{U : Unicode} {IPs : NetIP}.
Abbreviation Addr := (@Sdp.UDPAddr IPs).
Abbreviation Call := (@SipDialog.Call IPs).

(** * Datagrams *)

Definition RemoteRTPAddr (c : Call) : option Addr := SipDialog.RemoteRTP c.
Definition UpdateRemoteRTP (addr : Addr) (c : Call) : Call := c <| SipDialog.RemoteRTP := Some addr |>.
Definition CodecPT (c : Call) : Z := Sdp.PayloadType (SipDialog.CallCodec c).
Definition CodecName (c : Call) : string := Sdp.Name (SipDialog.CallCodec c).

(** The key presses of the session: the detector and the queue of 64. *)
Record keypad := mkKeypad { detector : option Dtmf.detector; events : list Dtmf.DTMFEvent }.
Definition handleTelephoneEvent (c : Call) (p : Rtp.Packet) (now : Z) (k : keypad) : bool * keypad :=
  match SipDialog.CallEvent c with
  | None => (false, k)
  | Some te =>
    if negb (Rtp.PayloadType p =? Sdp.TEPayloadType te) then (false, k)
    else
      match Dtmf.Push (detector k) p now with
      | (None, d) => (true, mkKeypad d (events k))
      | (Some e, d) => (true, mkKeypad d (if len (events k) <? 64 then events k ++ [e] else events k))
      end
  end.

(** How both loops sort a datagram that came in. *)
Inductive sorted := Ignored | Key (k : keypad) | Sound (p : Rtp.Packet) (c : Call).
Definition same_port (current : option Addr) (addr : Addr) : bool :=
  match current with Some cur => Sdp.AddrPort addr =? Sdp.AddrPort cur | None => false end.
Definition sort (c : Call) (remoteIP : option IP) (k : keypad) (addr : Addr) (data : bytes) (now : Z) : result sorted :=
  if negb (bool_decide (Some (Sdp.AddrIP addr) = remoteIP)) then Ok Ignored
  else
    match Rtp.Parse data with
    | Panic => Panic
    | Err _ => Ok Ignored
    | Ok p =>
      if len (Rtp.Payload p) =? 0 then Ok Ignored
      else
        let current := RemoteRTPAddr c in
        let '(key, k) := if same_port current addr then handleTelephoneEvent c p now k else (false, k) in
        if key then Ok (Key k)
        else if negb (Rtp.PayloadType p =? CodecPT c) then Ok Ignored
        else Ok (Sound p (if same_port current addr then c else UpdateRemoteRTP addr c))
    end.

(** * To the RTSP backchannel *)

Record backchannel := mkBackchannel { Codec : string; PT : Z }.
(** [controls] is whether the echo canceller wants the reference. *)
Record rtspTalk := mkRtspTalk {
  bc : backchannel; observing : bool;
  call : Call; remoteIP : option IP; keys : keypad; chunker : Chunker.g711Chunker; watchdog : option Watchdog.rtpWatchdog;
  written : list (bytes * Z); observed : list (list Z * Z);
}.
#[export] Instance eta_rtsp : Eta rtspTalk := fun s =>
  mkRtspTalk (bc s) (observing s) (call s) (remoteIP s) (keys s) (chunker s) (watchdog s) (written s) (observed s).

(** What the [select] after a read that timed out takes. *)
Inductive waited := Onward | CtxDone (e : string) | PeerDone (e : option string).
Inductive rtsp_event :=
| Timeout (now : Z) (w : waited)
| ReadError (e : string)
| Datagram (addr : Addr) (data : bytes) (now : Z) (writes : list (option string)).

Definition ObserveG711Playout (payload : bytes) (codec : string) (at_ : Z) : list (list Z * Z) :=
  match G711.DecodePayload payload codec with
  | Some pcm => if decide (pcm = []) then [] else [(pcm, at_)]
  | None => []
  end.
(** The chunks are written until one fails. *)
Fixpoint write_chunks (cs : list bytes) (writes : list (option string)) (now : Z) (s : rtspTalk) : rtspTalk * option string :=
  match cs with
  | [] => (s, None)
  | c :: cs =>
    match writes with
    | Some e :: _ => (s, Some e)
    | _ =>
      write_chunks cs (tail writes) now
        (s <| written ::= fun l => l ++ [(c, PT (bc s))] |>
           <| observed ::= fun l => l ++ (if observing s then ObserveG711Playout c (Codec (bc s)) now else []) |>)
    end
  end.
Definition convert (s : rtspTalk) (payload : bytes) : bytes :=
  if decide (CodecName (call s) = Codec (bc s)) then payload else G711.ConvertPayload payload (CodecName (call s)) (Codec (bc s)).
Definition rtsp_step (s : rtspTalk) (e : rtsp_event) : result (rtspTalk * option string) :=
  match e with
  | Timeout now w =>
    match Watchdog.Check_ (watchdog s) now with
    | Err e => Ok (s, Some e)
    | Panic => Panic
    | Ok _ =>
      Ok (s, match w with
             | Onward => None
             | CtxDone e => Some e
             | PeerDone (Some e) => Some ("RTSP connection lost: " +:+ e)
             | PeerDone None => Some "RTSP connection closed"
             end)
    end
  | ReadError e => Ok (s, Some e)
  | Datagram addr data now writes =>
    r ← sort (call s) (remoteIP s) (keys s) addr data now;
    match r with
    | Ignored => Ok (s, None)
    | Key k => Ok (s <| keys := k |>, None)
    | Sound p c =>
      let s := s <| watchdog ::= fun w => Watchdog.Mark w now |> <| call := c |> in
      let '(cs, ch) := Chunker.Push (chunker s) (convert s (Rtp.Payload p)) in
      Ok (write_chunks cs writes now (s <| chunker := ch |>))
    end
  end.
(** The start of [Run]; [timeout] is the inactivity timeout. *)
Definition rtsp_start (bc : backchannel) (observing : bool) (k : keypad) (timeout now : Z) (c : Call) : result rtspTalk :=
  match RemoteRTPAddr c with
  | None => Err "missing remote RTP address"
  | Some remote =>
    Ok (mkRtspTalk bc observing c (Some (Sdp.AddrIP remote)) k (Chunker.mkChunker []) (Some (Watchdog.mkWatchdog timeout now)) [] [])
  end.
Fixpoint rtsp_run (s : rtspTalk) (es : list rtsp_event) : result (rtspTalk * option string) :=
  match es with
  | [] => Ok (s, None)
  | e :: es => '(s, r) ← rtsp_step s e; match r with Some e => Ok (s, Some e) | None => rtsp_run s es end
  end.

(** * To Baichuan: the receiver *)

Definition reorderFlushDelay : Z := 40 * 1000000.
Definition Second : Z := 1000000000.
(** [previous] holds the arrival, the timestamp and the SSRC of the last packet. *)
Record receiver := mkReceiver {
  rcall : Call; rIP : option IP; rkeys : keypad; sequencer : Sequencer.rtpSequencer; rwatchdog : option Watchdog.rtpWatchdog;
  lastPacket : Z; previous : option (Z * Z * Z);
}.
#[export] Instance eta_receiver : Eta receiver := fun r =>
  mkReceiver (rcall r) (rIP r) (rkeys r) (sequencer r) (rwatchdog r) (lastPacket r) (previous r).

Inductive recv_event :=
| RTimeout (now : Z) (ctx : option string)
| RReadError (e : string)
| RDatagram (addr : Addr) (data : bytes) (now : Z).

Fixpoint push_frames (b : PhoneBuffer.phoneAudioBuffer) (fs : list Sequencer.sequencedPacket) : result PhoneBuffer.phoneAudioBuffer :=
  match fs with [] => Ok b | f :: fs => b ← PhoneBuffer.Push b f; push_frames b fs end.
(** The jitter that is observed. *)
Definition jitter (r : receiver) (p : Rtp.Packet) (arrival : Z) (b : PhoneBuffer.phoneAudioBuffer) : PhoneBuffer.phoneAudioBuffer :=
  match previous r with
  | Some (previousArrival, previousTimestamp, previousSSRC) =>
    let tsDelta := s32 (u32 (Rtp.Timestamp p - previousTimestamp)) in
    if (Rtp.SSRC p =? previousSSRC) && (0 <? tsDelta) && (tsDelta <=? Resample.g711SampleRate * 2) then
      let expected := Z.quot (tsDelta * Second) Resample.g711SampleRate in
      PhoneBuffer.ObserveRTPJitter b (arrival - previousArrival - expected)
    else b
  | None => b
  end.
Definition recv_step (r : receiver) (b : PhoneBuffer.phoneAudioBuffer) (e : recv_event)
    : result (receiver * PhoneBuffer.phoneAudioBuffer * option string) :=
  match e with
  | RTimeout now ctx =>
    match Watchdog.Check_ (rwatchdog r) now with
    | Err e => Ok (r, b, Some e)
    | Panic => Panic
    | Ok _ =>
      if reorderFlushDelay <=? now - lastPacket r then
        let '(fs, q) := Sequencer.FlushGap (sequencer r) in
        b ← push_frames b fs;
        Ok (r <| sequencer := q |>, b, ctx)
      else Ok (r, b, ctx)
    end
  | RReadError e => Ok (r, b, Some e)
  | RDatagram addr data now =>
    s ← sort (rcall r) (rIP r) (rkeys r) addr data now;
    match s with
    | Ignored => Ok (r, b, None)
    | Key k => Ok (r <| rkeys := k |>, b, None)
    | Sound p c =>
      let b := jitter r p now b in
      let r := r <| previous := Some (now, Rtp.Timestamp p, Rtp.SSRC p) |> <| rcall := c |> <| lastPacket := now |>
                 <| rwatchdog ::= fun w => Watchdog.Mark w now |> in
      let '(fs, q) := Sequencer.Push (sequencer r) p in
      b ← push_frames b fs;
      Ok (r <| sequencer := q |>, b, None)
    end
  end.

(** * To Baichuan: the sender *)

Record sender := mkSender {
  encoder : Adpcm.ADPCM; nextSend : Z; blocks : list bytes; reference : list (list Z * Z);
}.
#[export] Instance eta_sender : Eta sender := fun s => mkSender (encoder s) (nextSend s) (blocks s) (reference s).

Definition ObserveBaichuanPlayout (adpcm : bytes) (sampleRate at_ : Z) : list (list Z * Z) :=
  if (len adpcm =? 0) || (sampleRate <? 8000) then []
  else
    match (Adpcm.Decode Adpcm.zero adpcm).1 with
    | Some (_ :: _ as pcm) =>
      match Resample.resampleBlockLinear pcm sampleRate 8000 with
      | Some (_ :: _ as out) => [(out, at_)]
      | _ => []
      end
    | _ => []
    end.
(** The timer fires at [started]; the write ends at [ended], when the clock is read again. *)
Definition tick (outputRate blockSamples : Z) (observing : bool) (started ended : Z) (write : option string)
    (s : sender) (b : PhoneBuffer.phoneAudioBuffer) : sender * PhoneBuffer.phoneAudioBuffer * option string :=
  let blockDuration := Z.quot (Second * blockSamples) outputRate in
  let '(pcm, b) := PhoneBuffer.PopBlock b blockSamples in
  match Adpcm.EncodeBlock (encoder s) pcm with
  | Ok (adpcm, e) =>
    let adpcm := default [] adpcm in
    let s := s <| encoder := e |> in
    match write with
    | Some err => (s, b, Some ("write Baichuan talk audio: " +:+ err))
    | None =>
      let s := s <| blocks ::= fun l => l ++ [adpcm] |>
                 <| reference ::= fun l => l ++ (if observing then ObserveBaichuanPlayout adpcm outputRate started else []) |> in
      let b := PhoneBuffer.RecordBaichuanWrite b (ended - started) in
      let next := nextSend s + blockDuration in
      (s <| nextSend := if ended <? next then next else ended + blockDuration |>, b, None)
    end
  | Err err => (s, b, Some ("encode Baichuan ADPCM: " +:+ err))
  | Panic => (s, b, Some "panic")
  end.

(** * The bridge *)

(** [recvErr]: what the receiver returned, if it has. *)
Record bridge := mkBridge {
  outputRate : Z; blockSamples : Z; reflecting : bool;
  buffer : PhoneBuffer.phoneAudioBuffer; recv : receiver; recvErr : option string; send : sender;
}.
#[export] Instance eta_bridge : Eta bridge := fun s =>
  mkBridge (outputRate s) (blockSamples s) (reflecting s) (buffer s) (recv s) (recvErr s) (send s).
Inductive event :=
| Recv (e : recv_event)
| Tick (started ended : Z) (write : option string)
| Cancelled (e : string)
| Received
| Peer (e : option (string * bool)).   (** the error of the connection and whether it is [Canceled] *)

(** What the receiver or the sender may do next: the receiver until it returns, the timer
    not before its time, the result of the receiver once it is there. *)
Definition possible (s : bridge) (e : event) : bool :=
  match e with
  | Recv _ => bool_decide (recvErr s = None)
  | Tick started ended _ => (nextSend (send s) <=? started) && (started <=? ended)
  | Received => bool_decide (recvErr s <> None)
  | _ => true
  end.
Definition step (s : bridge) (e : event) : result (bridge * option string) :=
  match e with
  | Recv e =>
    '(r, b, err) ← recv_step (recv s) (buffer s) e;
    let b := match err with Some _ => PhoneBuffer.MergeSequencerStats b (Sequencer.stats (sequencer r)) | None => b end in
    Ok (s <| recv := r |> <| buffer := b |> <| recvErr := err |>, None)
  | Tick started ended write =>
    let '(sd, b, err) := tick (outputRate s) (blockSamples s) (reflecting s) started ended write (send s) (buffer s) in
    Ok (s <| send := sd |> <| buffer := b |>, err)
  | Cancelled e => Ok (s, Some e)
  | Received => Ok (s, recvErr s)
  | Peer (Some (e, false)) => Ok (s, Some ("Baichuan connection lost: " +:+ e))
  | Peer _ => Ok (s, Some "Baichuan connection closed")
  end.
(** The bridge until an event ends it; events that are not possible do not happen. *)
Fixpoint run (s : bridge) (es : list event) : result (bridge * option string) :=
  match es with
  | [] => Ok (s, None)
  | e :: es =>
    if possible s e then '(s, r) ← step s e; match r with Some e => Ok (s, Some e) | None => run s es end
    else run s es
  end.
Definition start (cos_gain : Z -> Z -> Z) (c : Call) (k : keypad) (outputRate blockSamples : Z) (observing : bool) (timeout now : Z)
    : result bridge :=
  if (outputRate <=? 0) || (blockSamples <=? 0) then Err "invalid Baichuan audio profile"
  else
    b ← PhoneBuffer.newPhoneAudioBuffer cos_gain (CodecName c) outputRate blockSamples;
    let blockDuration := Z.quot (Second * blockSamples) outputRate in
    if blockDuration <=? 0 then Err "invalid Baichuan block duration"
    else
      let remote := RemoteRTPAddr c in
      Ok (mkBridge outputRate blockSamples observing b
            (mkReceiver c (Sdp.AddrIP <$> remote) k (Sequencer.newRTPSequencer 3) (Some (Watchdog.mkWatchdog timeout now)) now None)
            (match remote with None => Some "missing remote RTP address" | Some _ => None end)
            (mkSender Adpcm.zero (now + blockDuration) [] [])).
End bridge.

Section sorting.
Context `{U : Unicode} {IPs : NetIP}.
Abbreviation Addr := (@Sdp.UDPAddr IPs).
Abbreviation Call := (@SipDialog.Call IPs).
Implicit Types (c : Call) (addr : Addr).

(** ** Who is heard *)

(** A packet of the call's audio: from its address, well formed, with the negotiated type. *)
Definition audio (remoteIP : option IP) (pt : Z) (addr : Addr) (data : bytes) : option Rtp.Packet :=
  if bool_decide (Some (Sdp.AddrIP addr) = remoteIP) then
    match Rtp.Parse data with
    | Ok p => if negb (len (Rtp.Payload p) =? 0) && (Rtp.PayloadType p =? pt) then Some p else None
    | _ => None
    end
  else None.
(** Key presses have a payload type of their own. *)
Definition own_event_type (c : Call) : Prop :=
  match SipDialog.CallEvent c with Some te => Sdp.TEPayloadType te <> CodecPT c | None => True end.

Lemma sort_spec c ip k addr data now : bytes_ok data -> own_event_type c ->
  exists s, sort c ip k addr data now = Ok s /\
  match s with
  | Sound p c' => audio ip (CodecPT c) addr data = Some p /\ c' = (if same_port (RemoteRTPAddr c) addr then c else UpdateRemoteRTP addr c)
  | _ => audio ip (CodecPT c) addr data = None
  end.
Proof.
  intros Hd Hk. unfold sort, audio. destruct (bool_decide_reflect (Some (Sdp.AddrIP addr) = ip)) as [Ei|Ei]; cbn [negb]; [|by eexists].
  pose proof (Rtp.Parse_safe data Hd) as Hs. destruct (Rtp.Parse data) as [p|e|]; [|by eexists|done].
  destruct (len (Rtp.Payload p) =? 0); [by eexists|]. cbn [negb andb].
  assert (forall x k', handleTelephoneEvent c p now k = (x, k') -> x = true -> Rtp.PayloadType p =? CodecPT c = false) as Hkey.
  { intros x k'. unfold handleTelephoneEvent, own_event_type in *. destruct (SipDialog.CallEvent c) as [te|]; [|by intros [= <- _]].
    destruct (Z.eqb_spec (Rtp.PayloadType p) (Sdp.TEPayloadType te)) as [E|E]; cbn [negb]; [|by intros [= <- _]].
    intros _ _. apply Z.eqb_neq. congruence. }
  destruct (same_port (RemoteRTPAddr c) addr) eqn:Ep.
  - destruct (handleTelephoneEvent c p now k) as [x k'] eqn:Eh. destruct x; [eexists; split; [done|]; by rewrite (Hkey true k')|].
    destruct (Rtp.PayloadType p =? CodecPT c); cbn [negb]; by eexists.
  - destruct (Rtp.PayloadType p =? CodecPT c); cbn [negb]; by eexists.
Qed.
(** Audio comes from the call's host, so the call stays with it. *)
Definition at_host (ip : option IP) (c : Call) : Prop := Sdp.AddrIP <$> RemoteRTPAddr c = ip.
Lemma sort_host c ip k addr data now p c' : sort c ip k addr data now = Ok (Sound p c') ->
  at_host ip c -> at_host ip c' /\ SipDialog.CallCodec c' = SipDialog.CallCodec c /\ SipDialog.CallEvent c' = SipDialog.CallEvent c.
Proof.
  unfold sort. destruct (bool_decide_reflect (Some (Sdp.AddrIP addr) = ip)) as [E|E]; cbn [negb]; [|done].
  destruct (Rtp.Parse data); [|done..]. destruct (_ =? 0); [done|].
  destruct (if same_port _ _ then _ else _) as [[|] k']; [done|]. destruct (negb _); [done|]. intros [= _ <-] H.
  destruct (same_port _ _); done.
Qed.
End sorting.

Section rtsp.
Context `{U : Unicode} {IPs : NetIP}.
Abbreviation rtspTalk := (@rtspTalk IPs).
Abbreviation rtsp_event := (@rtsp_event IPs).
Implicit Types s : rtspTalk.

(** ** The RTSP backchannel *)

Definition seen_by (ob : bool) (codec : string) (now : Z) (cs : list bytes) : list (list Z * Z) :=
  flat_map (fun c => if ob then ObserveG711Playout c codec now else []) cs.
Lemma write_chunks_spec cs : forall ws now s,
  let '(s', r) := write_chunks cs ws now s in
  call s' = call s /\ remoteIP s' = remoteIP s /\ keys s' = keys s /\ chunker s' = chunker s /\ watchdog s' = watchdog s /\
  bc s' = bc s /\ observing s' = observing s /\
  exists out, out `prefix_of` cs /\ (r = None -> out = cs) /\
    written s' = written s ++ map (fun c => (c, PT (bc s))) out /\
    observed s' = observed s ++ seen_by (observing s) (Codec (bc s)) now out.
Proof.
  induction cs as [|c cs IH]; intros ws now s; cbn [write_chunks].
  { do 7 (split; [done|]). exists []. cbn. by rewrite !app_nil_r. }
  assert (forall ws', let '(s', r) := write_chunks cs ws' now
      (s <| written ::= fun l => l ++ [(c, PT (bc s))] |>
         <| observed ::= fun l => l ++ (if observing s then ObserveG711Playout c (Codec (bc s)) now else []) |>) in
    call s' = call s /\ remoteIP s' = remoteIP s /\ keys s' = keys s /\ chunker s' = chunker s /\ watchdog s' = watchdog s /\
    bc s' = bc s /\ observing s' = observing s /\
    exists out, out `prefix_of` c :: cs /\ (r = None -> out = c :: cs) /\
      written s' = written s ++ map (fun c => (c, PT (bc s))) out /\
      observed s' = observed s ++ seen_by (observing s) (Codec (bc s)) now out) as Hgo.
  { intros ws'. match goal with |- context [write_chunks cs ws' now ?x] => specialize (IH ws' now x); destruct (write_chunks cs ws' now x) as [s' r] end.
    destruct IH as (H1 & H2 & H3 & H4 & H5 & H6 & H7 & out & P & Hr & W & O). cbn in H1, H2, H3, H4, H5, H6, H7, W, O.
    do 7 (split; [done|]). exists (c :: out). split; [by apply prefix_cons|]. split; [intros E; by rewrite Hr|].
    rewrite W, O. cbn. by rewrite <- !app_assoc. }
  destruct ws as [|[e|] ws]; [apply Hgo| |apply Hgo].
  do 7 (split; [done|]). exists []. cbn. rewrite !app_nil_r. split; [apply prefix_nil|]. done.
Qed.

(** The audio of the datagrams. *)
Definition heard (ip : option IP) (pt : Z) (es : list rtsp_event) : list Rtp.Packet :=
  omap (fun e => match e with Datagram addr data _ _ => audio ip pt addr data | _ => None end) es.
Definition event_bytes (e : rtsp_event) : Prop := match e with Datagram _ data _ _ => bytes_ok data | _ => True end.
Definition converted (c : @SipDialog.Call IPs) (bc : backchannel) (p : Rtp.Packet) : bytes :=
  if decide (CodecName c = Codec bc) then Rtp.Payload p else G711.ConvertPayload (Rtp.Payload p) (CodecName c) (Codec bc).

(** What stays the same during the call. *)
Record same_call (c0 : @SipDialog.Call IPs) (s0 s : rtspTalk) : Prop := {
  sc_codec : SipDialog.CallCodec (call s) = SipDialog.CallCodec c0; sc_event : SipDialog.CallEvent (call s) = SipDialog.CallEvent c0;
  sc_host : at_host (remoteIP s0) (call s); sc_ip : remoteIP s = remoteIP s0; sc_bc : bc s = bc s0; sc_obs : observing s = observing s0;
}.
(** The bytes still missing to a chunk. *)
Definition rest (s : rtspTalk) : bytes := Chunker.buffer (chunker s).
Definition sent (s : rtspTalk) : bytes := concat (map fst (written s)).
(** What the echo canceller should be told: the PCM of each chunk. *)
Definition reference_of (ob : bool) (codec : string) (l : list (bytes * Z)) : list (list Z) :=
  if ob then omap (fun x => G711.DecodePayload x.1 codec) l else [].
Definition whole (s : rtspTalk) : Prop :=
  (length (rest s) < 160)%nat /\ Forall (fun x => length x.1 = 160%nat /\ x.2 = PT (bc s)) (written s) /\
  map fst (observed s) = reference_of (observing s) (Codec (bc s)) (written s).
Lemma seen_reference ob codec now pt cs : Forall (fun c => length c = 160%nat) cs ->
  map fst (seen_by ob codec now cs) = reference_of ob codec (map (fun c => (c, pt)) cs).
Proof.
  unfold reference_of, seen_by. destruct ob; [|intros _; by induction cs]. induction 1 as [|c cs Hc _ IH]; [done|].
  cbn [flat_map map omap list_omap fst]. rewrite map_app, IH. unfold ObserveG711Playout.
  destruct (G711.DecodePayload c codec) as [pcm|] eqn:E; [|done]. destruct (decide (pcm = [])) as [->|]; [|done].
  unfold G711.DecodePayload in E. destruct c; [done|]. by repeat case_decide.
Qed.

Lemma rtsp_step_spec c0 s0 s e : own_event_type c0 -> event_bytes e -> same_call c0 s0 s -> whole s ->
  exists s' r, rtsp_step s e = Ok (s', r) /\ same_call c0 s0 s' /\ whole s' /\
    let ps := heard (remoteIP s0) (CodecPT c0) [e] in
    written s `prefix_of` written s' /\
    (exists l, sent s' ++ l = sent s ++ rest s ++ concat (map (converted c0 (bc s0)) ps) /\ (r = None -> l = rest s')) /\
    (ps = [] -> call s' = call s /\ written s' = written s /\ observed s' = observed s /\ watchdog s' = watchdog s).
Proof.
  intros Hk He Hs Hw. cbv zeta. destruct e as [now w|x|addr data now ws]; cbn [rtsp_step].
  - assert (forall r, exists s' (r' : option string), Ok (s, r) = Ok (s', r') /\ same_call c0 s0 s' /\ whole s' /\ written s `prefix_of` written s' /\
      (exists l, sent s' ++ l = sent s ++ rest s ++ concat (map (converted c0 (bc s0)) []) /\ (r' = None -> l = rest s')) /\
      (heard (remoteIP s0) (CodecPT c0) [Timeout now w] = [] -> call s' = call s /\ written s' = written s /\ observed s' = observed s /\ watchdog s' = watchdog s)) as Hid.
    { intros r. exists s, r. do 4 (split; [done|]). cbn. rewrite app_nil_r. split; [by exists (rest s)|done]. }
    unfold Watchdog.Check_. destruct (watchdog s) as [wd|]; [destruct (_ || _)|]; apply Hid.
  - exists s, (Some x). do 4 (split; [done|]). cbn. rewrite app_nil_r. split; [by exists (rest s)|done].
  - pose proof Hs as [C1 C2 C3 C4 C5 C6]. cbn in He.
    assert (own_event_type (call s)) as Hk' by (unfold own_event_type, CodecPT in *; by rewrite C2, C1).
    assert (CodecPT (call s) = CodecPT c0) as Ept by (unfold CodecPT; by rewrite C1).
    destruct (sort_spec (call s) (remoteIP s) (keys s) addr data now He Hk') as (o & Eo & Ho). rewrite Eo. cbn [mbind result_bind].
    rewrite Ept, C4 in Ho. unfold heard. cbn [omap list_omap].
    destruct o as [|k|p c].
    + exists s, None. do 4 (split; [done|]). rewrite Ho. cbn. rewrite app_nil_r. split; [by exists (rest s)|done].
    + exists (s <| keys := k |>), None. split; [done|]. split; [by split|]. do 2 (split; [done|]). rewrite Ho. cbn. rewrite app_nil_r. split; [by exists (rest s)|done].
    + destruct Ho as [Ha Hc]. rewrite Ha. rewrite C4 in Eo. destruct (sort_host _ _ _ _ _ _ _ _ Eo C3) as (D1 & D2 & D3).
      set (s1 := s <| watchdog ::= fun w => Watchdog.Mark w now |> <| call := c |>).
      assert (convert s1 (Rtp.Payload p) = converted c0 (bc s0) p) as Ec.
      { unfold convert, converted, s1, CodecName. cbn. by rewrite D2, C1, C5. }
      rewrite Ec. destruct Hw as (Hb & Hf & Hob). unfold rest in Hb.
      destruct (Chunker.Push (chunker s1) _) as [cs ch] eqn:Ep. apply Chunker.chunk_Push_spec in Ep as (P1 & P2 & P3); [|done].
      pose proof (write_chunks_spec cs ws now (s1 <| chunker := ch |>)) as W. destruct (write_chunks cs ws now _) as [s2 r].
      destruct W as (W1 & W2 & W3 & W4 & W5 & W6 & W7 & out & Wp & Wr & Ww & Wo). cbn in W1, W2, W3, W4, W5, W6, W7, Ww, Wo.
      exists s2, r. split; [done|]. split; [split; congruence|].
      assert (Forall (fun c => length c = 160%nat) out) as Hout.
      { destruct Wp as [k ->]. by apply Forall_app in P2 as [P2 _]. }
      split.
      { split; [unfold rest; by rewrite W4|]. rewrite Ww, W6, W7, Wo, map_app, Hob, (seen_reference _ _ _ (PT (bc s))) by done. split.
        - apply Forall_app. split; [done|]. apply Forall_map. eapply Forall_impl; [exact Hout|]. done.
        - unfold reference_of. destruct (observing s); [|done]. by rewrite omap_app. }
      split; [rewrite Ww; by eexists|]. split; [|done]. destruct Wp as [k Ek]. exists (concat k ++ Chunker.buffer ch). unfold sent, rest.
      rewrite Ww, W4, map_app, concat_app, map_map. cbn [fst map concat]. rewrite (map_ext _ id) by done.
      change (chunker s1) with (chunker s) in P1. rewrite map_id, app_nil_r, <- P1, Ek, concat_app, <- !app_assoc. split; [done|]. intros Hr. rewrite (Wr Hr) in Ek.
      assert (k = []) as ->; [|done]. apply (f_equal length) in Ek. rewrite length_app in Ek. destruct k; [done|cbn in Ek; lia].
Qed.

Lemma rtsp_run_spec c0 s0 es : own_event_type c0 -> Forall event_bytes es -> forall s, same_call c0 s0 s -> whole s ->
  exists s' r, rtsp_run s es = Ok (s', r) /\ same_call c0 s0 s' /\ whole s' /\
    exists l, sent s' ++ l = sent s ++ rest s ++ concat (map (converted c0 (bc s0)) (heard (remoteIP s0) (CodecPT c0) es)) /\
      (r = None -> l = rest s').
Proof.
  intros Hk. induction 1 as [|e es He Hes IH]; intros s Hs Hw; cbn [rtsp_run].
  { exists s, None. do 3 (split; [done|]). exists (rest s). cbn. by rewrite app_nil_r. }
  destruct (rtsp_step_spec c0 s0 s e Hk He Hs Hw) as (s1 & r & -> & Hs1 & Hw1 & _ & (l & El & Hl) & _). cbn [mbind result_bind].
  assert (heard (remoteIP s0) (CodecPT c0) (e :: es) = heard (remoteIP s0) (CodecPT c0) [e] ++ heard (remoteIP s0) (CodecPT c0) es) as ->.
  { unfold heard. change (e :: es) with ([e] ++ es). by rewrite omap_app. }
  rewrite map_app, concat_app. destruct r as [err|].
  - exists s1, (Some err). do 3 (split; [done|]). eexists (l ++ _). split; [|done].
    rewrite app_assoc, El, <- !app_assoc. done.
  - destruct (IH s1 Hs1 Hw1) as (s' & r & Er & Hs' & Hw' & l' & El' & Hl'). exists s', r. do 3 (split; [done|]).
    exists l'. split; [|done]. rewrite El', app_assoc, <- (Hl eq_refl), El, <- !app_assoc. done.
Qed.

(** C14: The phone is heard at an RTSP camera.  Whatever arrives at the socket from whom
    and whenever: the loop never panics; what is written to the backchannel is the
    audio of the call's peer, and of nobody else, in the order of arrival, in the
    camera's codec and in chunks of 20 ms, of which less than one is held back; the
    echo canceller is told exactly the chunks that were written; and however packets
    move the call to another port, its audio stays with the host that was negotiated. *)
Theorem phone_audio_to_rtsp (bc : backchannel) (ob : bool) (k : keypad) (timeout now : Z) (c : @SipDialog.Call IPs) (s0 : rtspTalk)
    (es : list rtsp_event) :
  own_event_type c -> Forall event_bytes es -> rtsp_start bc ob k timeout now c = Ok s0 ->
  exists s r, rtsp_run s0 es = Ok (s, r) /\
    (exists l, sent s ++ l = concat (map (converted c bc) (heard (Sdp.AddrIP <$> RemoteRTPAddr c) (CodecPT c) es)) /\
       (r = None -> (length l < 160)%nat)) /\
    Forall (fun x => length x.1 = 160%nat /\ x.2 = PT bc) (written s) /\
    map fst (observed s) = reference_of ob (Codec bc) (written s) /\
    Sdp.AddrIP <$> RemoteRTPAddr (call s) = Sdp.AddrIP <$> RemoteRTPAddr c.
Proof.
  intros Hk He. unfold rtsp_start. destruct (RemoteRTPAddr c) as [remote|] eqn:Er; [|done]. intros [= <-].
  match goal with |- context [rtsp_run ?x es] => set (s0 := x) end.
  assert (same_call c s0 s0) as Hs by (split; try done; unfold at_host; change (call s0) with c; by rewrite Er).
  assert (whole s0) as Hw by (split; [cbn; lia|]; split; [constructor|]; by destruct ob).
  destruct (rtsp_run_spec c s0 es Hk He s0 Hs Hw) as (s & r & E & [C1 C2 C3 C4 C5 C6] & (W1 & W2 & W3) & l & El & Hl).
  exists s, r. split; [exact E|]. split.
  - exists l. split; [exact El|]. intros Hr. by rewrite (Hl Hr).
  - rewrite C5 in W2, W3. rewrite C6 in W3. split; [exact W2|]. split; [exact W3|]. exact C3.
Qed.
End rtsp.

Section baichuan.
Context `{U : Unicode} {IPs : NetIP}.
Abbreviation bridge := (@bridge IPs).
Abbreviation event := (@event IPs).
Implicit Types s : bridge.

(** ** The Baichuan bridge *)

(** A frame of the sequencer carries a packet it was given. *)
Lemma drain_loop_source (P : Rtp.Packet -> Prop) n : forall m e b out m' e',
  map_Forall (fun _ p => P p) m -> Sequencer.drain_loop n m e b = (out, m', e') ->
  Forall (fun f => P (Sequencer.packet f)) out /\ map_Forall (fun _ p => P p) m'.
Proof.
  induction n as [|n IH]; intros m e b out m' e' Hm; cbn [Sequencer.drain_loop]; [by intros [= <- <- <-]|].
  destruct (m !! e) as [p|] eqn:Ep; [|by intros [= <- <- <-]].
  destruct (Sequencer.drain_loop n _ _ _) as [[o m1] e1] eqn:Ed. intros [= <- <- <-].
  apply IH in Ed as [H1 H2]; [|by apply map_Forall_delete]. split; [|done]. constructor; [|done]. exact (Hm e p Ep).
Qed.
Lemma drain_source (P : Rtp.Packet -> Prop) q b out q' :
  map_Forall (fun _ p => P p) (Sequencer.pending q) -> Sequencer.drain q b = (out, q') ->
  Forall (fun f => P (Sequencer.packet f)) out /\ map_Forall (fun _ p => P p) (Sequencer.pending q').
Proof.
  intros Hq. unfold Sequencer.drain. destruct (Sequencer.drain_loop _ _ _ _) as [[o m] e] eqn:E. intros [= <- <-].
  by apply (drain_loop_source P) in E.
Qed.
Lemma scan_subset e ks : forall m best, (foldl (Sequencer.scan_step e) (m, best) ks).1 ⊆ m.
Proof.
  induction ks as [|k ks IH]; intros m best; [done|]. cbn [foldl]. unfold Sequencer.scan_step at 2.
  destruct (_ <? 0); [etrans; [apply IH|apply delete_subseteq]|]. destruct best as [[? d]|]; [destruct (_ <? d)|]; apply IH.
Qed.
Lemma seq_source (P : Rtp.Packet -> Prop) q o out q' :
  map_Forall (fun _ p => P p) (Sequencer.pending q) -> (forall p, o = Sequencer.OpPush p -> P p) -> Sequencer.do_op q o = (out, q') ->
  Forall (fun f => P (Sequencer.packet f)) out /\ map_Forall (fun _ p => P p) (Sequencer.pending q').
Proof.
  intros Hq Ho.
  assert (forall q o q', map_Forall (fun _ p => P p) (Sequencer.pending q) -> Sequencer.FlushGap q = (o, q') ->
    Forall (fun f => P (Sequencer.packet f)) o /\ map_Forall (fun _ p => P p) (Sequencer.pending q')) as Hflush.
  { clear. intros q o q' Hq. unfold Sequencer.FlushGap. destruct (_ || _); [by intros [= <- <-]|].
    destruct (Sequencer.scan _ _ _) as [m best] eqn:Es. unfold Sequencer.scan in Es.
    pose proof (scan_subset (Sequencer.expected q) (map fst (map_to_list (Sequencer.pending q))) (Sequencer.pending q) None) as Hsub.
    rewrite Es in Hsub. cbn in Hsub.
    assert (map_Forall (fun _ p => P p) m) as Hm by (intros k p Hk; eapply (Hq k), lookup_weaken; eauto).
    destruct best as [[best d]|]; [|by intros [= <- <-]]. apply drain_source. by destruct (negb _). }
  assert (forall q p b o q', P p -> Sequencer.resetAt q p b = (o, q') ->
    Forall (fun f => P (Sequencer.packet f)) o /\ map_Forall (fun _ p => P p) (Sequencer.pending q')) as Hreset.
  { clear. intros q p b o q' Hp. unfold Sequencer.resetAt. apply drain_source. destruct b; cbn; apply map_Forall_insert_2; done. }
  destruct o as [p|]; [|apply Hflush; done]. specialize (Ho p eq_refl). cbn [Sequencer.do_op]. unfold Sequencer.Push.
  destruct (negb _); [by apply Hreset|]. destruct (negb _); [by apply Hreset|].
  destruct (decide _); [by intros [= <- <-]|]. destruct (_ <? 0); [by intros [= <- <-]|]. destruct (_ <? _); [by apply Hreset|].
  match goal with |- context [Sequencer.drain ?q false] => assert (map_Forall (fun _ p => P p) (Sequencer.pending q)) as Hq1 end.
  { destruct (0 <? _); cbn; by apply map_Forall_insert_2. }
  destruct (_ =? 0); [by apply drain_source|]. destruct (_ <=? _); [by apply Hflush|]. by intros [= <- <-].
Qed.
Lemma seq_run_app a c : forall q,
  Sequencer.run_ops q (a ++ c) =
  (let '(o1, q1) := Sequencer.run_ops q a in let '(o2, q2) := Sequencer.run_ops q1 c in (o1 ++ o2, q2)).
Proof.
  induction a as [|o a IH]; intros q; cbn [app Sequencer.run_ops]; [by destruct (Sequencer.run_ops q c)|].
  destruct (Sequencer.do_op q o) as [o1 q1]. rewrite IH. destruct (Sequencer.run_ops q1 a) as [o2 q2].
  destruct (Sequencer.run_ops q2 c) as [o3 q3]. by rewrite app_assoc.
Qed.
Lemma buffer_run_app a c : forall b,
  PhoneBuffer.run_ops b (a ++ c) =
  ('(x, b1) ← PhoneBuffer.run_ops b a; '(y, b2) ← PhoneBuffer.run_ops b1 c; Ok (x ++ y, b2)).
Proof.
  induction a as [|o a IH]; intros b; cbn [app PhoneBuffer.run_ops].
  { cbn. by destruct (PhoneBuffer.run_ops b c) as [[? ?]| |]. }
  destruct o as [f|n|st|d|d]; [|destruct (PhoneBuffer.PopBlock b n) as [blk b1]|by rewrite IH..].
  - destruct (PhoneBuffer.Push b f); cbn; [apply IH|done..].
  - rewrite IH. destruct (PhoneBuffer.run_ops b1 a) as [[x b2]| |]; cbn; [|done..].
    by destruct (PhoneBuffer.run_ops b2 c) as [[y b3]| |].
Qed.
Lemma push_frames_ops fs : forall b,
  PhoneBuffer.run_ops b (map PhoneBuffer.OpPush fs) = (b ← push_frames b fs; Ok ([], b)).
Proof.
  induction fs as [|f fs IH]; intros b; [done|]. cbn. destruct (PhoneBuffer.Push b f); cbn; [apply IH|done..].
Qed.

(** *** The pipeline the bridge is made of *)

Definition pushes (ops : list Sequencer.op) : list Rtp.Packet :=
  omap (fun o => match o with Sequencer.OpPush p => Some p | _ => None end) ops.
Definition queued (ops : list PhoneBuffer.op) : list Sequencer.sequencedPacket :=
  omap (fun o => match o with PhoneBuffer.OpPush f => Some f | _ => None end) ops.
Fixpoint encode_all (e : Adpcm.ADPCM) (pcms : list (list Z)) : result (list bytes * Adpcm.ADPCM) :=
  match pcms with
  | [] => Ok ([], e)
  | pcm :: pcms =>
    '(blk, e) ← Adpcm.EncodeBlock e pcm;
    '(blks, e) ← encode_all e pcms;
    Ok (default [] blk :: blks, e)
  end.
Lemma encode_all_app a c : forall e,
  encode_all e (a ++ c) = ('(x, e) ← encode_all e a; '(y, e) ← encode_all e c; Ok (x ++ y, e)).
Proof.
  induction a as [|p a IH]; intros e; cbn [app encode_all].
  { cbn. by destruct (encode_all e c) as [[? ?]| |]. }
  destruct (Adpcm.EncodeBlock e p) as [[blk e1]| |]; cbn; [|done..]. rewrite IH.
  destruct (encode_all e1 a) as [[x e2]| |]; cbn; [|done..]. by destruct (encode_all e2 c) as [[y e3]| |].
Qed.

(** The packets [ps] went through the sequencer [q0], its frames into the buffer [b0]. *)
Record piped (q0 : Sequencer.rtpSequencer) (b0 : PhoneBuffer.phoneAudioBuffer) (ps : list Rtp.Packet)
    (sops : list Sequencer.op) (bops : list PhoneBuffer.op) (q : Sequencer.rtpSequencer) : Prop := {
  pi_pushes : pushes sops = ps;
  pi_frames : Sequencer.run_ops q0 sops = (queued bops, q);
}.
Definition events_heard (ip : option IP) (pt : Z) (es : list event) : list Rtp.Packet :=
  omap (fun e => match e with Recv (RDatagram addr data _) => audio ip pt addr data | _ => None end) es.
Definition datagram_bytes (e : event) : Prop := match e with Recv (RDatagram _ data _) => bytes_ok data | _ => True end.

Lemma audio_bytes ip pt addr data p : bytes_ok data -> audio ip pt addr data = Some p -> bytes_ok (Rtp.Payload p).
Proof.
  unfold audio. intros Hd. case_bool_decide; [|done]. destruct (Rtp.Parse data) as [p'| |] eqn:E; [|done..].
  destruct (_ && _); [|done]. intros [= <-]. destruct (Rtp.Parse_inv data p' Hd E) as (? & ? & ? & ? & ? & Hwf). apply Hwf.
Qed.
(** What the receiver keeps. *)
Record keeps (c0 : @SipDialog.Call IPs) (r : @receiver IPs) : Prop := {
  ke_codec : SipDialog.CallCodec (rcall r) = SipDialog.CallCodec c0; ke_event : SipDialog.CallEvent (rcall r) = SipDialog.CallEvent c0;
  ke_host : at_host (rIP r) (rcall r); ke_ip : rIP r = Sdp.AddrIP <$> RemoteRTPAddr c0;
  ke_pending : map_Forall (fun _ p => bytes_ok (Rtp.Payload p)) (Sequencer.pending (sequencer r));
}.
Lemma queued_push l fs : queued (l ++ map PhoneBuffer.OpPush fs) = queued l ++ fs.
Proof. unfold queued. rewrite omap_app. f_equal. induction fs; cbn; congruence. Qed.
Lemma push_frames_no_err fs : forall b e, push_frames b fs <> Err e.
Proof.
  induction fs as [|f fs IH]; intros b e; [done|]. cbn [push_frames].
  destruct (PhoneBuffer.Push b f) as [b'|x|] eqn:E; [apply IH| |done]. exfalso. revert E.
  unfold PhoneBuffer.Push, PhoneBuffer.align, sub. repeat (case_match; cbn; try done; simplify_eq/=).
Qed.

(** What one event does to the buffer [b], in terms of its operations. *)
Definition receives (c0 : @SipDialog.Call IPs) (r : receiver) (b : PhoneBuffer.phoneAudioBuffer) (e : recv_event) : Prop :=
  exists sops bops q,
    piped (sequencer r) b (events_heard (rIP r) (CodecPT c0) [Recv e]) sops bops q /\ Forall PhoneBuffer.op_ok bops /\
    match recv_step r b e with
    | Err _ => False
    | Panic => PhoneBuffer.run_ops b bops = Panic
    | Ok (r', b', _) => PhoneBuffer.run_ops b bops = Ok ([], b') /\ sequencer r' = q /\ keeps c0 r'
    end.

(** A turn of the sequencer, and the frames it hands to the buffer. *)
Lemma hand_over (c0 : @SipDialog.Call IPs) (r r1 : receiver) (o : Sequencer.op) q fs b l b1 err :
  sequencer r1 = sequencer r -> keeps c0 r1 -> (forall p, o = Sequencer.OpPush p -> bytes_ok (Rtp.Payload p)) ->
  Forall PhoneBuffer.op_ok l -> queued l = [] -> PhoneBuffer.run_ops b l = Ok ([], b1) -> Sequencer.do_op (sequencer r) o = (fs, q) ->
  exists bops, Sequencer.run_ops (sequencer r) [o] = (queued bops, q) /\ Forall PhoneBuffer.op_ok bops /\
    match (b2 ← push_frames b1 fs; Ok (r1 <| sequencer := q |>, b2, err : option string)) with
    | Err _ => False
    | Panic => PhoneBuffer.run_ops b bops = Panic
    | Ok (r', b', _) => PhoneBuffer.run_ops b bops = Ok ([], b') /\ sequencer r' = q /\ keeps c0 r'
    end.
Proof.
  intros Er [K1 K2 K3 K4 K5] Ho Hl Hq Hb E. rewrite Er in K5.
  destruct (seq_source (fun p => bytes_ok (Rtp.Payload p)) (sequencer r) o fs q K5 Ho E) as [H1 H2].
  exists (l ++ map PhoneBuffer.OpPush fs). split; [cbn; by rewrite E, queued_push, Hq, app_nil_r|].
  split; [apply Forall_app; split; [done|]; by apply Forall_map|].
  pose proof (push_frames_no_err fs b1) as Hn. rewrite buffer_run_app, Hb. cbn. rewrite push_frames_ops.
  destruct (push_frames b1 fs) as [b2|e|]; cbn; [|by destruct (Hn e)|done]. split; [done|]. split; [done|]. by split.
Qed.

Lemma recv_step_spec c0 (r : receiver) b e : own_event_type c0 -> keeps c0 r -> datagram_bytes (Recv e) -> receives c0 r b e.
Proof.
  intros Hown Hk Hd. pose proof Hk as [K1 K2 K3 K4 K5].
  assert (forall err, exists sops bops q,
    piped (sequencer r) b [] sops bops q /\ Forall PhoneBuffer.op_ok bops /\
    match Ok (r, b, err : option string) with
    | Err _ => False
    | Panic => PhoneBuffer.run_ops b bops = Panic
    | Ok (r', b', _) => PhoneBuffer.run_ops b bops = Ok ([], b') /\ sequencer r' = q /\ keeps c0 r'
    end) as Hid.
  { intros err. exists [], [], (sequencer r). done. }
  unfold receives. destruct e as [now ctx|x|addr data now]; cbn [recv_step]; [|exact (Hid None)|].
  - change (events_heard (rIP r) (CodecPT c0) [Recv (RTimeout now ctx)]) with (@nil Rtp.Packet).
    assert (Watchdog.Check_ (rwatchdog r) now <> Panic) as Hw by (unfold Watchdog.Check_; destruct (rwatchdog r); [destruct (_ || _)|]; done).
    destruct (Watchdog.Check_ _ _); [|exact (Hid None)|done]. destruct (_ <=? _); [|exact (Hid None)].
    destruct (Sequencer.FlushGap (sequencer r)) as [fs q] eqn:Eq.
    destruct (hand_over c0 r r Sequencer.OpFlush q fs b [] b ctx) as (bops & H1 & H2 & H3); try done; try constructor.
    exists [Sequencer.OpFlush], bops, q. split; [by split|]. split; [done|]. exact H3.
  - cbn in Hd. assert (own_event_type (rcall r)) as Hk' by (unfold own_event_type, CodecPT in *; by rewrite K2, K1).
    assert (CodecPT (rcall r) = CodecPT c0) as Ept by (unfold CodecPT; by rewrite K1).
    destruct (sort_spec (rcall r) (rIP r) (rkeys r) addr data now Hd Hk') as (o & Eo & Ho). rewrite Eo. cbn [mbind result_bind].
    unfold events_heard. cbn [omap list_omap]. rewrite Ept in Ho. destruct o as [|k|p c]; [rewrite Ho; exact (Hid None)| |].
    { rewrite Ho. exists [], [], (sequencer r). split; [done|]. split; [done|]. split; [done|]. split; [done|]. by split. }
    destruct Ho as [Ha _]. rewrite Ha. destruct (sort_host _ _ _ _ _ _ _ _ Eo K3) as (D1 & D2 & D3).
    destruct (Sequencer.Push (sequencer r) p) as [fs q] eqn:Eq.
    set (r1 := r <| previous := Some (now, Rtp.Timestamp p, Rtp.SSRC p) |> <| rcall := c |> <| lastPacket := now |>
                 <| rwatchdog ::= fun w => Watchdog.Mark w now |>).
    change (Sequencer.Push (sequencer r1) p) with (Sequencer.Push (sequencer r) p). rewrite Eq.
    assert (keeps c0 r1) as Hk1 by (split; try done; cbn; congruence).
    assert (exists l, Forall PhoneBuffer.op_ok l /\ queued l = [] /\ PhoneBuffer.run_ops b l = Ok ([], jitter r p now b)) as (l & L1 & L2 & L3).
    { unfold jitter. destruct (previous r) as [[[pa pt] ps]|]; [|by exists []]. cbv zeta. destruct (_ && _); [|by exists []].
      by eexists [PhoneBuffer.OpJitter _]; split; [repeat constructor|]. }
    destruct (hand_over c0 r r1 (Sequencer.OpPush p) q fs b l (jitter r p now b) None) as (bops & H1 & H2 & H3); try done; try constructor.
    { intros p' [= <-]. by eapply audio_bytes. }
    exists [Sequencer.OpPush p], bops, q. split; [by split|]. by split.
Qed.
(** The bridge [s] after the packets [ps] were heard, started with the buffer [b0] at [t0]. *)
Record fed (c0 : @SipDialog.Call IPs) (b0 : PhoneBuffer.phoneAudioBuffer) (rate bs t0 : Z) (ob : bool) (ps : list Rtp.Packet)
    (s : bridge) (r : option string) (sops : list Sequencer.op) (bops : list PhoneBuffer.op) (pcms : list (list Z)) (out : list bytes) : Prop := {
  fd_profile : outputRate s = rate /\ blockSamples s = bs /\ reflecting s = ob;
  fd_keeps : keeps c0 (recv s);
  fd_piped : piped (Sequencer.newRTPSequencer 3) b0 ps sops bops (sequencer (recv s));
  fd_bytes : Forall PhoneBuffer.op_ok bops;
  fd_buffer : PhoneBuffer.run_ops b0 bops = Ok (map (pair bs) pcms, buffer s);
  fd_encoded : encode_all Adpcm.zero pcms = Ok (out, encoder (send s));
  fd_blocks : blocks (send s) `prefix_of` out /\ (r = None -> blocks (send s) = out);
  fd_sizes : Forall (fun b => len b = bs / 2 + 4) out;
  fd_pace : t0 + (len (blocks (send s)) + 1) * Z.quot (Second * bs) rate <= nextSend (send s);
  fd_seen : map fst (reference (send s)) =
    flat_map (fun b => if ob then map fst (ObserveBaichuanPlayout b rate 0) else []) (blocks (send s));
}.
Lemma observe_when b rate t t' : map fst (ObserveBaichuanPlayout b rate t) = map fst (ObserveBaichuanPlayout b rate t').
Proof. unfold ObserveBaichuanPlayout. repeat case_match; done. Qed.
Lemma pushes_app a b : pushes (a ++ b) = pushes a ++ pushes b. Proof. apply omap_app. Qed.
Lemma queued_app a b : queued (a ++ b) = queued a ++ queued b. Proof. apply omap_app. Qed.

Section run.
Context (c0 : @SipDialog.Call IPs) (b0 : PhoneBuffer.phoneAudioBuffer) (rate bs t0 : Z) (ob : bool).
Hypothesis (Hown : own_event_type c0) (Hb0 : PhoneBuffer.inv bs b0) (Hbs : 0 < bs) (Hev : bs mod 2 = 0).
Abbreviation ip := (Sdp.AddrIP <$> RemoteRTPAddr c0).
Abbreviation fed := (fed c0 b0 rate bs t0 ob).

(** The sender's turn. *)
Lemma tick_spec ps s sops bops pcms out started ended write :
  fed ps s None sops bops pcms out -> nextSend (send s) <= started <= ended ->
  let '(sd, b, err) := tick (outputRate s) (blockSamples s) (reflecting s) started ended write (send s) (buffer s) in
  exists bops' pcms' out', queued bops' = queued bops /\ fed ps (s <| send := sd |> <| buffer := b |>) err sops bops' pcms' out'.
Proof.
  intros [(P1 & P2 & P3) Hk [F1 F2] Hy Hb He [_ Hl] Hz Hp Hs] Ht. rewrite P1, P2, P3. unfold tick.
  destruct (PhoneBuffer.PopBlock (buffer s) bs) as [pcm b] eqn:Epop.
  pose proof (PhoneBuffer.run_ops_inv bs bops b0 _ _ Hb0 Hy Hb) as [Hi _].
  destruct (PhoneBuffer.PopBlock_inv bs _ _ _ _ Hi Epop) as (Hi' & Hlen & _).
  destruct (Adpcm.EncodeBlock_len (encoder (send s)) pcm) as (blk & e' & Ee & Hblk); [intros ->; cbn in Hlen; lia|by rewrite Hlen, Z.max_r by lia|].
  rewrite Ee. cbn [default from_option]. specialize (Hl eq_refl).
  assert (encode_all Adpcm.zero (pcms ++ [pcm]) = Ok (out ++ [blk], e')) as He'.
  { rewrite encode_all_app, He. cbn. rewrite Ee. done. }
  assert (Forall (fun b => len b = bs / 2 + 4) (out ++ [blk])) as Hz'.
  { apply Forall_app. split; [done|]. constructor; [|constructor]. rewrite Hblk, Hlen. by rewrite Z.max_r by lia. }
  destruct write as [err|].
  - exists (bops ++ [PhoneBuffer.OpPop bs]), (pcms ++ [pcm]), (out ++ [blk]).
    assert (queued (bops ++ [PhoneBuffer.OpPop bs]) = queued bops) as Eq by (rewrite queued_app; apply app_nil_r).
    split; [exact Eq|]. split; try done.
    + by split; [|rewrite Eq].
    + apply Forall_app. split; [done|]. by repeat constructor.
    + rewrite buffer_run_app, Hb. cbn. rewrite Epop. cbn. by rewrite map_app.
    + split; [|done]. cbn. rewrite Hl. by exists [blk].
  - exists (bops ++ [PhoneBuffer.OpPop bs; PhoneBuffer.OpWrite (ended - started)]), (pcms ++ [pcm]), (out ++ [blk]).
    assert (queued (bops ++ [PhoneBuffer.OpPop bs; PhoneBuffer.OpWrite (ended - started)]) = queued bops) as Eq by (rewrite queued_app; apply app_nil_r).
    split; [exact Eq|]. split; try done.
    + by split; [|rewrite Eq].
    + apply Forall_app. split; [done|]. by repeat constructor.
    + rewrite buffer_run_app, Hb. cbn. rewrite Epop. cbn. by rewrite map_app.
    + cbn. by rewrite Hl.
    + cbn. rewrite length_app. cbn [length]. destruct (Z.ltb_spec ended (nextSend (send s) + Z.quot (Second * bs) rate)); lia.
    + cbn. rewrite map_app, Hs, flat_map_app. cbn. rewrite app_nil_r. destruct ob; [|by rewrite !app_nil_r]. f_equal. apply observe_when.
Qed.

(** The receiver's turn. *)
Lemma recv_spec ps s sops bops pcms out e :
  fed ps s None sops bops pcms out -> datagram_bytes (Recv e) ->
  let new := events_heard ip (CodecPT c0) [Recv e] in
  match step s (Recv e) with
  | Err _ => False
  | Panic => exists sops' bops' q, piped (Sequencer.newRTPSequencer 3) b0 (ps ++ new) sops' bops' q /\ PhoneBuffer.run_ops b0 bops' = Panic
  | Ok (s', r) => r = None /\ exists sops' bops', fed (ps ++ new) s' None sops' bops' pcms out
  end.
Proof.
  intros [(P1 & P2 & P3) Hk [F1 F2] Hy Hb He Hl Hz Hp Hs] Hd. cbn zeta.
  destruct (recv_step_spec c0 (recv s) (buffer s) e Hown Hk Hd) as (so & bo & q & [G1 G2] & Gy & G).
  rewrite (ke_ip _ _ Hk) in G1.
  assert (piped (Sequencer.newRTPSequencer 3) b0 (ps ++ events_heard ip (CodecPT c0) [Recv e]) (sops ++ so) (bops ++ bo) q) as Hpi.
  { split; [by rewrite pushes_app, F1, G1|]. by rewrite seq_run_app, F2, G2, queued_app. }
  cbn [step]. destruct (recv_step (recv s) (buffer s) e) as [[[r b] err]|x|]; cbn [mbind result_bind]; [|done|].
  2:{ exists (sops ++ so), (bops ++ bo), q. split; [done|]. rewrite buffer_run_app, Hb. cbn. by rewrite G. }
  destruct G as (G & <- & Hk'). split; [done|].
  set (m := match err with Some _ => [PhoneBuffer.OpMerge (Sequencer.stats (sequencer r))] | None => [] end).
  exists (sops ++ so), (bops ++ bo ++ m).
  assert (queued (bops ++ bo ++ m) = queued (bops ++ bo)) as Eq by (rewrite !queued_app; subst m; destruct err; by rewrite app_nil_r).
  split; try done.
  - destruct Hpi. split; [done|]. by rewrite Eq.
  - apply Forall_app. split; [done|]. apply Forall_app. split; [done|]. subst m. destruct err; by repeat constructor.
  - rewrite !buffer_run_app, Hb. cbn. rewrite buffer_run_app, G. cbn. subst m. destruct err; cbn; by rewrite app_nil_r.
Qed.

(** A receiver that has returned stays so. *)
Lemma returned_stays es : forall s s', recvErr s <> None -> run s es = Ok (s', None) -> recvErr s' <> None.
Proof.
  induction es as [|e es IH]; intros s s' H; cbn [run]; [by intros [= <-]|].
  destruct (possible s e) eqn:Ep; [|by apply IH]. destruct e as [e|t1 t2 w|x| |[[x [|]]|]]; cbn [step mbind result_bind]; try done.
  - cbn in Ep. by apply bool_decide_eq_true in Ep.
  - destruct (tick _ _ _ _ _ _ _ _) as [[sd b] [x|]]; [done|]. by apply IH.
  - destruct (recvErr s); [done|by destruct H].
Qed.

Lemma rtsp_bridge_run es : Forall datagram_bytes es -> forall ps s sops bops pcms out, fed ps s None sops bops pcms out ->
  exists new, new `prefix_of` events_heard ip (CodecPT c0) es /\ (recvErr s <> None -> new = []) /\
  match run s es with
  | Err _ => False
  | Panic => exists sops' bops' q, piped (Sequencer.newRTPSequencer 3) b0 (ps ++ new) sops' bops' q /\ PhoneBuffer.run_ops b0 bops' = Panic
  | Ok (s', r) => (r = None -> recvErr s' = None -> new = events_heard ip (CodecPT c0) es) /\
      exists sops' bops' pcms' out', fed (ps ++ new) s' r sops' bops' pcms' out'
  end.
Proof.
  induction 1 as [|e es Hd Hes IH]; intros ps s sops bops pcms out Hf; cbn [run].
  { exists []. do 3 (split; [done|]). rewrite app_nil_r. by exists sops, bops, pcms, out. }
  assert (events_heard ip (CodecPT c0) (e :: es) = events_heard ip (CodecPT c0) [e] ++ events_heard ip (CodecPT c0) es) as ->.
  { unfold events_heard. change (e :: es) with ([e] ++ es). by rewrite omap_app. }
  assert (forall x, fed ps s (Some x) sops bops pcms out) as Hend.
  { intros x. destruct Hf as [? ? ? ? ? ? [? _]]. by split. }
  assert (forall x, exists new, new `prefix_of` events_heard ip (CodecPT c0) [e] ++ events_heard ip (CodecPT c0) es /\ (recvErr s <> None -> new = []) /\
    ((Some x : option string) = None -> recvErr s = None -> new = events_heard ip (CodecPT c0) [e] ++ events_heard ip (CodecPT c0) es) /\
    exists sops' bops' pcms' out', fed (ps ++ new) s (Some x) sops' bops' pcms' out') as Hstop.
  { intros x. exists []. split; [apply prefix_nil|]. do 2 (split; [done|]). rewrite app_nil_r. exists sops, bops, pcms, out. apply Hend. }
  destruct (possible s e) eqn:Ep.
  - destruct e as [e|t1 t2 w|x| |[[x [|]]|]]; cbn [step]; try apply (Hstop _).
    + pose proof (recv_spec ps s sops bops pcms out e Hf Hd) as H. cbn zeta in H. cbn [step] in H.
      destruct ('(r, b, err) ← recv_step (recv s) (buffer s) e; _) as [[s1 r]|x|]; cbn [mbind result_bind]; [|done|].
      * destruct H as (-> & so & bo & H). apply bool_decide_eq_true in Ep. destruct (IH _ _ _ _ _ _ H) as (new & Hn & _ & Hr).
        exists (events_heard ip (CodecPT c0) [Recv e] ++ new). split; [by apply prefix_app|]. split; [by intros []|]. rewrite app_assoc.
        destruct (run s1 es) as [[s' r']|x|]; [|done|done]. destruct Hr as [Hr ?]. split; [|done]. intros E1 E2. by rewrite Hr.
      * apply bool_decide_eq_true in Ep. exists (events_heard ip (CodecPT c0) [Recv e]). split; [by apply prefix_app_r|]. split; [by intros []|done].
    + cbn in Ep. pose proof (tick_spec ps s sops bops pcms out t1 t2 w Hf ltac:(lia)) as H.
      destruct (tick _ _ _ _ _ _ _ _) as [[sd b] err]. destruct H as (bo & pc & o & _ & H). cbn [mbind result_bind].
      destruct err as [x|]; [|apply (IH _ _ _ _ _ _ H)].
      exists []. split; [apply prefix_nil|]. do 2 (split; [done|]). rewrite app_nil_r. by exists sops, bo, pc, o.
    + cbn [mbind result_bind]. cbn in Ep. apply bool_decide_eq_true in Ep. destruct (recvErr s) as [x|] eqn:Er; [|done]. 
      destruct (Hstop x) as (new & H1 & H2 & H3 & H4). by exists new.
  - destruct e as [e|t1 t2 w|x| |y]; try done; [|apply (IH _ _ _ _ _ _ Hf)..].
    cbn in Ep. apply bool_decide_eq_false in Ep. destruct (IH _ _ _ _ _ _ Hf) as (new & _ & Hn & Hr).
    rewrite (Hn Ep) in Hr. exists []. split; [apply prefix_nil|]. split; [done|].
    pose proof (returned_stays es s) as Hst. destruct (run s es) as [[s' r]|x|]; [|done|done]. destruct Hr as [_ Hr]. split; [|done].
    intros -> E. by destruct (Hst s' Ep eq_refl).
Qed.
End run.

(** C4: The phone is heard at a Baichuan camera.  Whatever arrives at the socket, from whom
    and whenever, and however the receiver, the timer and the connection interleave:
    the bridge is the sequencer, the phone buffer and the ADPCM encoder in a row.  The
    packets of the call's peer, and nobody else's, go through the sequencer in the order of
    arrival; exactly the frames it emits are pushed into the buffer; every
    block the camera gets is the encoding of a block popped from it, of the size that was
    negotiated, in one chain of encoder states; encoding never fails; a block is never sent
    before its time, so the camera gets no more than real time; the echo canceller is told
    exactly the blocks that were sent; and the call stays with its host.  The
    bridge crashes only as the buffer does. *)
Theorem bridge_feeds_camera (cos_gain : Z -> Z -> Z) (c : @SipDialog.Call IPs) (k : keypad) (rate bs : Z) (ob : bool) (timeout now : Z)
    (s0 : bridge) (es : list event) :
  (forall n i, 0 <= cos_gain n i <= Playout.Elastic.pcmGainScale) -> own_event_type c -> Forall datagram_bytes es -> bs mod 2 = 0 ->
  start cos_gain c k rate bs ob timeout now = Ok s0 ->
  let heard := events_heard (Sdp.AddrIP <$> RemoteRTPAddr c) (CodecPT c) es in
  exists ps sops bops q, ps `prefix_of` heard /\ pushes sops = ps /\
    Sequencer.run_ops (Sequencer.newRTPSequencer 3) sops = (queued bops, q) /\
    match run s0 es with
    | Err _ => False
    | Panic => PhoneBuffer.run_ops (buffer s0) bops = Panic
    | Ok (s, r) =>
      (r = None -> recvErr s = None -> ps = heard) /\
      (exists pcms out, PhoneBuffer.run_ops (buffer s0) bops = Ok (map (pair bs) pcms, buffer s) /\
         encode_all Adpcm.zero pcms = Ok (out, encoder (send s)) /\
         blocks (send s) `prefix_of` out /\ (r = None -> blocks (send s) = out)) /\
      Forall (fun b => len b = bs / 2 + 4) (blocks (send s)) /\
      now + (len (blocks (send s)) + 1) * Z.quot (Second * bs) rate <= nextSend (send s) /\
      map fst (reference (send s)) = flat_map (fun b => if ob then map fst (ObserveBaichuanPlayout b rate 0) else []) (blocks (send s)) /\
      Sdp.AddrIP <$> RemoteRTPAddr (rcall (recv s)) = Sdp.AddrIP <$> RemoteRTPAddr c
    end.
Proof.
  intros Hg Hown Hes Hev Hst. revert Hst. unfold start. destruct (_ || _) eqn:Eg; [done|].
  destruct (PhoneBuffer.newPhoneAudioBuffer cos_gain (CodecName c) rate bs) as [b|?|] eqn:Eb; cbn [mbind result_bind]; [|done..].
  apply PhoneBuffer.buffer_new_inv in Eb; [|done]. destruct (_ <=? 0) in |- *; [done|]. intros [= Es]. subst s0.
  match goal with |- context [run ?x es] => set (s0 := x) end.
  assert (fed c b rate bs now ob [] s0 None [] [] [] []) as Hf.
  { split; try done.
    change (now + (0 + 1) * Z.quot (Second * bs) rate <= now + Z.quot (Second * bs) rate). lia. }
  destruct (rtsp_bridge_run c b rate bs now ob Hown Eb ltac:(lia) Hev es Hes [] s0 [] [] [] [] Hf) as (new & Hn & _ & H).
  change (buffer s0) with b. cbn zeta. destruct (run s0 es) as [[s r]|x|]; [|done|].
  - destruct H as (Hr & so & bo & pc & o & [Q1 Q2 [Q3 Q4] Q5 Q6 Q7 [Q8 Q8'] Q9 Q10 Q11]). exists new, so, bo, (sequencer (recv s)).
    split; [done|]. split; [done|]. split; [done|]. split; [done|]. split; [by exists pc, o|].
    split. { destruct Q8 as [l ->]. by apply Forall_app in Q9 as [Q9 _]. }
    split; [done|]. split; [done|]. rewrite <- (ke_ip _ _ Q2). apply Q2.
  - destruct H as (so & bo & q & [Q1 Q2] & H). by exists new, so, bo, q.
Qed.

(** C26: One packet stops the gateway: from the phone's host, well formed, of the
    negotiated type, next in order, and with a timestamp half the clock away from the
    expected one.  It needs no session: RTP is not authenticated. *)
Theorem one_packet_crashes (s : bridge) (addr : @Sdp.UDPAddr IPs) (data : bytes) (p : Rtp.Packet) (now : Z) (es : list event) :
  recvErr s = None -> own_event_type (rcall (recv s)) -> bytes_ok data ->
  audio (rIP (recv s)) (CodecPT (rcall (recv s))) addr data = Some p ->
  Sequencer.initialized (sequencer (recv s)) = true -> Rtp.SSRC p = Sequencer.ssrc (sequencer (recv s)) ->
  Rtp.Sequence p = Sequencer.expected (sequencer (recv s)) -> Sequencer.pending (sequencer (recv s)) = ∅ ->
  1 <= Sequencer.window (sequencer (recv s)) <= 4095 ->
  PhoneBuffer.haveTimeline (buffer s) = true -> u32 (Rtp.Timestamp p - PhoneBuffer.nextTimestamp (buffer s)) = 2 ^ 31 ->
  run s (Recv (RDatagram addr data now) :: es) = Panic.
Proof.
  intros Hr Hown Hd Ha Hi Hs Hq He Hw Ht Hx. cbn [run possible]. rewrite bool_decide_true by done. cbn [step recv_step].
  destruct (sort_spec (rcall (recv s)) (rIP (recv s)) (rkeys (recv s)) addr data now Hd Hown) as (o & -> & Ho). cbn [mbind result_bind].
  destruct o as [|k|p' c]; [congruence|congruence|]. destruct Ho as [Ho _]. rewrite Ha in Ho. injection Ho as <-.
  assert (Rtp.Payload p <> []) as Hne.
  { unfold audio in Ha. case_bool_decide; [|done]. destruct (Rtp.Parse data); [|done..]. destruct (Z.eqb_spec (len (Rtp.Payload a)) 0) as [|E]; [done|].
    destruct (_ =? _); [|done]. injection Ha as <-. by intros E'; rewrite E' in E. }
  match goal with |- context [Sequencer.Push ?q p] => assert (exists out q', Sequencer.Push q p = (Sequencer.mkFrame p false :: out, q')) as (out & q' & ->) end.
  { cbn. unfold Sequencer.Push. rewrite Hi, Hs, Z.eqb_refl, He, lookup_empty. cbn [negb]. rewrite decide_False by (by intros []).
    rewrite Hq. replace (Sequencer.ahead _ _) with 0 by (unfold Sequencer.ahead; by rewrite Z.sub_diag).
    cbn [Z.ltb Z.compare]. rewrite Sequencer.window_s16 by done. unfold Sequencer.reach. rewrite (proj2 (Z.ltb_ge _ _)) by lia. cbn [Z.eqb].
    unfold Sequencer.drain. cbn. rewrite lookup_insert_eq.
    destruct (Sequencer.drain_loop _ _ _ _) as [[o m] e]. by eexists _, _. }
  cbn [push_frames].
  assert (forall b, PhoneBuffer.haveTimeline b = PhoneBuffer.haveTimeline (buffer s) -> PhoneBuffer.nextTimestamp b = PhoneBuffer.nextTimestamp (buffer s) ->
    PhoneBuffer.Push b (Sequencer.mkFrame p false) = Panic) as Hp.
  { intros b E1 E2. apply PhoneBuffer.Push_panics. cbn. by rewrite E1, E2. }
  rewrite Hp; [done| |]; unfold jitter; repeat case_match; try done; cbv zeta; unfold PhoneBuffer.ObserveRTPJitter; repeat case_match; done.
Qed.
End baichuan.

(** ** Witnesses *)

#[local] Existing Instances ascii_tables Sdp.text_addresses.

Definition door_call : SipDialog.Call :=
  SipDialog.mkCall "id" "f" "t" "sip:a" "sip:b" "sip:b" "" 1 1 (Sdp.mkCodec G711.PCMA 8) (Some (Sdp.mkTelephoneEvent 101 8000))
    (Some (Sdp.mkAddr Sdp.home 4000)) false None false.
Definition phone_packet (seq timestamp : Z) : bytes := Rtp.Marshal (Rtp.mkPacket 8 false seq timestamp 7 (replicate 160 0x55)).
Definition no_keys : keypad := mkKeypad (Some (Dtmf.newTelephoneEventDetector 8000)) [].
Lemma own_door : own_event_type door_call. Proof. vm_compute. discriminate. Qed.
Ltac all_bytes := apply (bool_decide_unpack _); vm_compute; exact I.

Definition to_rtsp : list rtsp_event :=
  [Datagram (Sdp.mkAddr Sdp.home 4000) (phone_packet 1 160) 1000 []; Datagram (Sdp.mkAddr Sdp.away 4000) (phone_packet 2 320) 2000 [];
   Timeout 3000 Onward; Datagram (Sdp.mkAddr Sdp.home 4002) (phone_packet 3 480) 4000 []; Timeout 5000 (PeerDone None)].
Definition rtsp0 : rtspTalk :=
  match rtsp_start (mkBackchannel G711.PCMU 0) true no_keys 1000000 0 door_call with
  | Ok s => s
  | _ => mkRtspTalk (mkBackchannel "" 0) false door_call None no_keys (Chunker.mkChunker []) None [] []
  end.
Lemma phone_audio_to_rtsp_witness :
  exists s r, rtsp_run rtsp0 to_rtsp = Ok (s, r) /\ (exists l, len (sent s ++ l) = 320) /\ Forall (fun x => length x.1 = 160%nat /\ x.2 = 0) (written s).
Proof.
  destruct (phone_audio_to_rtsp (mkBackchannel G711.PCMU 0) true no_keys 1000000 0 door_call rtsp0 to_rtsp) as (s & r & H & (l & Hl & _) & Hw & _).
  - exact own_door.
  - repeat constructor; all_bytes.
  - reflexivity.
  - exists s, r. split; [exact H|]. split; [exists l; rewrite Hl; vm_compute; reflexivity|exact Hw].
Defined.

Definition bridge0 : bridge :=
  match start PhoneBuffer.flat_gain door_call no_keys 16000 1024 true 1000000000000 0 with
  | Ok s => s
  | _ => mkBridge 0 0 false PhoneBuffer.buffer16 (mkReceiver door_call None no_keys (Sequencer.newRTPSequencer 3) None 0 None) None (mkSender Adpcm.zero 0 [] [])
  end.
Definition talk_events : list event :=
  [Recv (RDatagram (Sdp.mkAddr Sdp.home 4000) (phone_packet 1 160) 1000000); Recv (RDatagram (Sdp.mkAddr Sdp.home 4000) (phone_packet 3 480) 2000000);
   Recv (RDatagram (Sdp.mkAddr Sdp.away 4000) (phone_packet 2 320) 3000000); Tick 64000000 65000000 None;
   Recv (RTimeout 70000000 None); Tick 128000000 129000000 None; Peer None].
Lemma bridge_feeds_camera_witness :
  exists ps s r, ps `prefix_of` events_heard (Sdp.AddrIP <$> RemoteRTPAddr door_call) (CodecPT door_call) talk_events /\
    run bridge0 talk_events = Ok (s, r) /\ Forall (fun b => len b = 1024 / 2 + 4) (blocks (send s)).
Proof.
  destruct (bridge_feeds_camera PhoneBuffer.flat_gain door_call no_keys 16000 1024 true 1000000000000 0 bridge0 talk_events) as (ps & sops & bops & q & Hp & _ & _ & H).
  - exact PhoneBuffer.flat_gain_ok.
  - exact own_door.
  - repeat constructor; all_bytes.
  - reflexivity.
  - vm_compute. reflexivity.
  - exists ps. assert (match run bridge0 talk_events with Ok _ => true | _ => false end = true) as Hok by (vm_compute; reflexivity).
    destruct (run bridge0 talk_events) as [[s r]|e|]; [|discriminate Hok|discriminate Hok]. destruct H as (_ & _ & Hz & _).
    exists s, r. split; [exact Hp|]. split; [reflexivity|exact Hz].
Defined.

(** The bridge once the first packet was played. *)
Definition bridge1 : bridge := match run bridge0 (take 1 talk_events) with Ok (s, _) => s | _ => bridge0 end.
Definition half_clock_packet : Rtp.Packet := Rtp.mkPacket 8 false 2 (320 + 2 ^ 31) 7 (replicate 160 0x55).
Lemma one_packet_crashes_witness :
  run bridge1 [Recv (RDatagram (Sdp.mkAddr Sdp.home 4000) (Rtp.Marshal half_clock_packet) 1000000)] = Panic.
Proof.
  apply (one_packet_crashes bridge1 (Sdp.mkAddr Sdp.home 4000) (Rtp.Marshal half_clock_packet) half_clock_packet 1000000 []).
  - vm_compute. reflexivity.
  - vm_compute. discriminate.
  - all_bytes.
  - vm_compute. reflexivity.
  - vm_compute. reflexivity.
  - vm_compute. reflexivity.
  - vm_compute. reflexivity.
  - vm_compute. reflexivity.
  - vm_compute. split; discriminate.
  - vm_compute. reflexivity.
  - vm_compute. reflexivity.
Defined.
End PhoneBridge.
