(* ===== verification/SipAgent.v ===== *)
(** The SIP user agent of [internal/sip/client.go]: registration
    ([StartRegistration], [register]) and outgoing calls ([Dial], [Hangup]).

    Both are programs over transactions.  What [transact] returns is an input:
    the registrar, the network and the context decide it, and SipTransact says
    what happens inside.  Random identifiers are inputs too. *)
From S2P Require Import Prelude GoStrings SipText Sdp SipDialog.
From S2P Require Digest.

Module SipAgent.
Import SipText Sdp SipDialog.
Module D := Digest.Digest.

Section agent.
Context `{U : Unicode} `{R : UDPResolver}.

(** * Challenges *)

Definition is_challenge (res : Message) : bool := (StatusCode res =? 401) || (StatusCode res =? 407).
(** The header that carries the challenge and the one that answers it. *)
Definition challenge_header (res : Message) : string :=
  if StatusCode res =? 407 then "proxy-authenticate" else "www-authenticate".
Definition credentials_name (res : Message) : string :=
  if StatusCode res =? 407 then "Proxy-Authorization" else "Authorization".
Definition credentials_line (c : Config) (res : Message) (ch : D.Challenge) (method uri cnonce : string) : string :=
  credentials_name res +:+ ": " +:+ D.Authorization ch (Username c) (Password c) method uri 1 cnonce.

(** * Registration *)

(** A REGISTER, by what differs from one to the next. *)
Record request := mkRequest {
  q_cseq : Z; q_branch : string; q_tag : string; q_expires : Z; q_auth : option string;
}.

Section register.
Context (cfg : Config) (localIP : IP) (registerCallID : string).

Definition registrar_uri : string := "sip:" +:+ Registrar cfg +:+ ":" +:+ Itoa (RegistrarPort cfg).
Definition user_uri : string := "sip:" +:+ Username cfg +:+ "@" +:+ Registrar cfg.
(** The headers of a REGISTER. *)
Definition register_headers (q : request) : list string :=
  baseHeaders cfg (IPString localIP) "REGISTER" registrar_uri (q_branch q) (q_cseq q) registerCallID user_uri user_uri
    (q_tag q) "" ++
  [contactLine cfg (IPString localIP) +:+ ";expires=" +:+ Itoa (q_expires q); "Expires: " +:+ Itoa (q_expires q)] ++
  option_list (q_auth q).
Definition packet (q : request) : string := buildRequest "REGISTER" registrar_uri (register_headers q) "".

(** The CSeq counter, the random strings drawn so far, the results still to come,
    the transactions made and the packets they sent. *)
Record agent := mkAgent {
  registerCSeq : Z; drawn : nat; replies : list (result Message); log : list (request * result Message);
  written : list string;
}.
Context (random : nat -> string).

(** [transact] of a REGISTER under the next CSeq and a new branch. *)
Definition ask (tag : string) (expires : Z) (auth : option string) (a : agent) : result Message * agent :=
  let q := mkRequest (u32 (registerCSeq a + 1)) ("z9hG4bK-" +:+ random (drawn a)) tag expires auth in
  let '(r, rest) := match replies a with [] => (Err "SIP client closed", []) | r :: rest => (r, rest) end in
  (r, mkAgent (u32 (registerCSeq a + 1)) (S (drawn a)) rest (log a ++ [(q, r)]) (written a ++ [packet q])).
Definition draw (a : agent) : string * agent :=
  (random (drawn a), mkAgent (registerCSeq a) (S (drawn a)) (replies a) (log a) (written a)).

(** The lifetime a 2xx grants. *)
Definition granted (expires : Z) (res : Message) : Z :=
  let v := Atoi (TrimSpace (Header res "expires")) in
  let w := Atoi (param (Header res "contact") "expires") in
  if v.2 && (0 <=? v.1) then v.1 else if w.2 && (0 <=? w.1) then w.1 else expires.
(** The lifetime a 423 demands, if it is a longer one. *)
Definition demanded (expires : Z) (res : Message) : option Z :=
  let v := Atoi (TrimSpace (Header res "min-expires")) in
  if (StatusCode res =? 423) && (0 <? expires) && v.2 && (expires <? v.1) then Some v.1 else None.

(** A REGISTER and, if it is challenged, a second one with credentials. *)
Definition round (expires : Z) (a : agent) : result Message * agent :=
  let '(tag, a) := draw a in
  let '(r, a) := ask tag expires None a in
  match r with
  | Ok res =>
    if is_challenge res then
      match D.Parse (Header res (challenge_header res)) with
      | Ok ch =>
        let '(cnonce, a) := draw a in
        ask tag expires (Some (credentials_line cfg res ch "REGISTER" registrar_uri cnonce)) a
      | Err e => (Err e, a)
      | Panic => (Panic, a)
      end
    else (Ok res, a)
  | r => (r, a)
  end.
(** [register]; [None] when the fuel is used up. *)
Fixpoint register (fuel : nat) (expires : Z) (a : agent) : option (result Z * agent) :=
  match fuel with
  | O => None
  | S fuel =>
    let '(r, a) := round expires a in
    match r with
    | Ok res =>
      match demanded expires res with
      | Some n => register fuel n a
      | None => Some (if is_2xx res then Ok (granted expires res) else Err "REGISTER returned", a)
      end
    | Err e => Some (Err e, a)
    | Panic => Some (Panic, a)
    end
  end.

(** ** The conversation with the registrar *)

(** A request that follows another: it either answers the challenge the first
    one met, or starts over with the longer lifetime the registrar demanded. *)
Definition follows (prev x : request * result Message) : Prop :=
  q_cseq x.1 = u32 (q_cseq prev.1 + 1) /\
  exists res, prev.2 = Ok res /\
  match q_auth x.1 with
  | Some line =>
    q_auth prev.1 = None /\ q_expires x.1 = q_expires prev.1 /\ q_tag x.1 = q_tag prev.1 /\ is_challenge res = true /\
    exists ch cnonce, D.Parse (Header res (challenge_header res)) = Ok ch /\
      line = credentials_line cfg res ch "REGISTER" registrar_uri cnonce
  | None => StatusCode res = 423 /\ Atoi (TrimSpace (Header res "min-expires")) = (q_expires x.1, true) /\
      q_expires prev.1 < q_expires x.1
  end.
Fixpoint chained (prev : request * result Message) (l : list (request * result Message)) : Prop :=
  match l with [] => True | x :: l => follows prev x /\ chained x l end.
(** The last transaction of a conversation. *)
Definition latest (x : request * result Message) (l : list (request * result Message)) := default x (last l).

Lemma chained_app x l y l' : chained x l -> chained x (l ++ y :: l') <-> follows (latest x l) y /\ chained y l'.
Proof.
  revert x. induction l as [|z l IH]; intros x Hl; [done|]. destruct Hl as [Hf Hl].
  assert (latest x (z :: l) = latest z l) as -> by (unfold latest; rewrite last_cons; by destruct (last l)).
  cbn. rewrite (IH z Hl). tauto.
Qed.
Lemma latest_app x l y l' : latest x (l ++ y :: l') = latest y l'.
Proof. unfold latest. rewrite last_app, last_cons. by destruct (last l'). Qed.

(** What steps add to the log, and the counter they leave. *)
Record extends (a a' : agent) (x : request * result Message) (l : list (request * result Message)) : Prop := {
  ext_log : log a' = log a ++ x :: l;
  ext_cseq : registerCSeq a' = q_cseq (latest x l).1;
  ext_first : q_cseq x.1 = u32 (registerCSeq a + 1);
  ext_chain : chained x l;
  ext_written : written a' = written a ++ map (fun y => packet y.1) (x :: l);
}.
Lemma extends_trans a1 a2 a3 x l y l' :
  extends a1 a2 x l -> extends a2 a3 y l' -> (registerCSeq a2 = q_cseq (latest x l).1 ->
    q_cseq y.1 = u32 (registerCSeq a2 + 1) -> follows (latest x l) y) -> extends a1 a3 x (l ++ y :: l').
Proof.
  intros [A1 A2 A3 A4 A5] [B1 B2 B3 B4 B5] Hf. split.
  - by rewrite B1, A1, <- app_assoc.
  - by rewrite latest_app.
  - done.
  - apply chained_app; auto.
  - rewrite B5, A5, <- app_assoc. f_equal. change (x :: l ++ y :: l') with ((x :: l) ++ y :: l'). by rewrite map_app.
Qed.

Lemma ask_extends tag e auth a r a' : ask tag e auth a = (r, a') ->
  exists q, extends a a' (q, r) [] /\ q_tag q = tag /\ q_expires q = e /\ q_auth q = auth /\
    (is_ok r = true -> (length (replies a') < length (replies a))%nat) /\
    (length (replies a') <= length (replies a))%nat.
Proof.
  unfold ask. destruct (replies a) as [|r0 rest] eqn:E; intros [= <- <-]; eexists;
    (split; [split; reflexivity || exact I|]); do 3 (split; [reflexivity|]); cbn; split; try done; lia.
Qed.
Lemma extends_draw a a' x l : extends (draw a).2 a' x l -> extends a a' x l.
Proof. by intros []. Qed.

Lemma round_extends e a r a' : round e a = (r, a') ->
  exists x l, extends a a' x l /\ q_auth x.1 = None /\ q_expires x.1 = e /\ q_expires (latest x l).1 = e /\
    (forall res, r = Ok res -> (latest x l).2 = Ok res /\ (length (replies a') < length (replies a))%nat).
Proof.
  unfold round. destruct (draw a) as [tag a1] eqn:E1. destruct (ask tag e None a1) as [r1 a2] eqn:E2.
  assert (a1 = (draw a).2) as Ha1 by (by rewrite E1). assert (length (replies a1) = length (replies a)) as Hlen by (by rewrite Ha1).
  apply ask_extends in E2 as (q & Hx & Ht & He & Hau & Hok & _).
  assert (extends a a2 (q, r1) []) as Hx' by (apply extends_draw; by rewrite <- Ha1).
  assert (forall r', (r', a2) = (r, a') -> (forall res, r' = Ok res -> r1 = Ok res) -> exists x l, extends a a' x l /\
    q_auth x.1 = None /\ q_expires x.1 = e /\ q_expires (latest x l).1 = e /\
    (forall res, r = Ok res -> (latest x l).2 = Ok res /\ (length (replies a') < length (replies a))%nat)) as Hdone.
  { intros r' [= <- <-] Hr. exists (q, r1), []. do 4 (split; [done|]). intros res H. rewrite (Hr res H) in *. split; [done|].
    rewrite <- Hlen. by apply Hok. }
  destruct r1 as [res| |]; [|by intros H; apply (Hdone _ H)..].
  destruct (is_challenge res) eqn:Ec; [|by intros H; apply (Hdone _ H)].
  destruct (D.Parse _) as [ch| |] eqn:Ep; [|by intros H; apply (Hdone _ H)..]. cbn [draw].
  intros (q2 & Hx2 & Ht2 & He2 & Hau2 & Hok2 & _)%ask_extends. cbn in Hok2.
  exists (q, Ok res), [(q2, r)]. split; [|split; [done|split; [done|split; [done|]]]].
  - apply (extends_trans a a2 a' (q, Ok res) [] (q2, r) []); [done|by destruct Hx2|]. intros H1 H2. split; [by rewrite H2, H1|].
    exists res. split; [done|]. cbn. rewrite Hau2, He2, Ht2, He, Ht. eauto 8.
  - intros res2 ->. split; [done|]. specialize (Hok2 eq_refl). specialize (Hok eq_refl). lia.
Qed.

(** C37: registering is a proper conversation.  [register] always comes back.
    The requests it made carry consecutive CSeq numbers; credentials are sent
    only to answer the challenge the request before them met, and never twice in
    a row, so a wrong password is tried once; otherwise a request is only
    repeated for a strictly longer lifetime the registrar demanded.  A lifetime
    is returned only when the last answer was a 2xx, and it is the one that
    answer grants. *)
Theorem register_converses (fuel : nat) (expires : Z) (a : agent) :
  (length (replies a) < fuel)%nat ->
  exists r a' x l, register fuel expires a = Some (r, a') /\ extends a a' x l /\ q_auth x.1 = None /\ q_expires x.1 = expires /\
    (forall g, r = Ok g -> exists res, (latest x l).2 = Ok res /\ is_2xx res = true /\ g = granted (q_expires (latest x l).1) res).
Proof.
  revert expires a. induction fuel as [|fuel IH]; intros e a Hf; [lia|]. cbn [register].
  destruct (round e a) as [r a1] eqn:Er. apply round_extends in Er as (x & l & Hx & Hau & He & Hel & Hok).
  destruct r as [res|e1|].
  - destruct (Hok res eq_refl) as [Hres Hlen]. destruct (demanded e res) as [n|] eqn:Ed.
    + destruct (IH n a1) as (r & a' & y & l' & H1 & H2 & H3 & H4 & H5); [lia|].
      exists r, a', x, (l ++ y :: l'). split; [done|]. rewrite latest_app. split; [|done].
      eapply extends_trans; [done|done|]. intros E1 E2. split; [by rewrite E2, E1|]. exists res. split; [done|].
      rewrite H3, H4, Hel. unfold demanded in Ed. destruct (Atoi _) as [v ok]. cbn in Ed.
      destruct ok; [|by rewrite andb_false_r in Ed]. destruct (_ && _) eqn:Eb in Ed; [|done]. injection Ed as <-.
      split; [lia|]. split; [done|lia].
    + exists (if is_2xx res then Ok (granted e res) else Err "REGISTER returned"), a1, x, l. do 4 (split; [done|]).
      intros g Hg. destruct (is_2xx res) eqn:E2; [|done]. injection Hg as <-. rewrite Hel. eauto.
  - exists (Err e1), a1, x, l. by do 4 (split; [done|]).
  - exists Panic, a1, x, l. by do 4 (split; [done|]).
Qed.
End register.

(** ** Keeping the registration alive *)

(** [time.Second]; a [time.Duration] is an [int64] of nanoseconds. *)
Definition second : Z := 1000000000.
Record loop := mkLoop { backoff : Z; registered : bool; lastRegisterErr : string }.
Definition loop0 : loop := mkLoop second false "".
Definition requestedExpires : Z := 300.
(** One turn of [StartRegistration]: how long it sleeps, and what it keeps. *)
Definition after_register (s : loop) (r : result Z) : Z * loop :=
  match r with
  | Ok grantedExpires =>
    let g := if grantedExpires <=? 0 then requestedExpires else grantedExpires in
    let refreshAfter := Z.quot (swrap 64 (swrap 64 (g * second) * 4)) 5 in
    (if refreshAfter <? second then second else refreshAfter, mkLoop second true "")
  | Err e =>
    (backoff s,
     mkLoop (if backoff s <? 30 * second
             then let b := backoff s * 2 in if 30 * second <? b then 30 * second else b
             else backoff s) false e)
  | Panic => (backoff s, s)
  end.
Fixpoint registration (s : loop) (rs : list (result Z)) : list Z * loop :=
  match rs with
  | [] => ([], s)
  | r :: rs => let '(w, s) := after_register s r in let '(ws, s) := registration s rs in (w :: ws, s)
  end.

(** The failures at the end of a history. *)
Definition trailing_failures (rs : list (result Z)) (k : nat) : nat :=
  foldl (fun k r => if is_ok r then 0%nat else S k) k rs.
(** How long each turn ought to sleep, when [k] failures came before. *)
Definition paced (k : nat) (r : result Z) (w : Z) : Prop :=
  match r with
  | Ok g =>
    let lifetime := (if g <=? 0 then 300 else g) * second in
    w = Z.max second (lifetime * 4 / 5) /\ (2 * second <= lifetime -> w < lifetime)
  | _ => w = Z.min 30 (2 ^ Z.of_nat k) * second
  end.
Fixpoint all_paced (k : nat) (rs : list (result Z)) (ws : list Z) : Prop :=
  match rs, ws with
  | [], [] => True
  | r :: rs, w :: ws => paced k r w /\ all_paced (trailing_failures [r] k) rs ws
  | _, _ => False
  end.

Lemma refresh_ok g : 0 < g <= 2305843009 -> let l := g * second in
  let t := Z.quot (swrap 64 (swrap 64 l * 4)) 5 in t = l * 4 / 5 /\ (2 * second <= l -> t < l).
Proof.
  intros Hg. cbv zeta. unfold second. rewrite (swrap_id 64 (g * _)) by (lia || (unfold sfits; lia)).
  rewrite swrap_id by (lia || (unfold sfits; lia)). rewrite Z.quot_div_nonneg by lia. split; [done|]. intros _.
  apply Z.div_lt_upper_bound; lia.
Qed.
Lemma backoff_doubles k : 0 <= k -> let b := Z.min 30 (2 ^ k) * second in
  (if b <? 30 * second then let b2 := b * 2 in if 30 * second <? b2 then 30 * second else b2 else b) =
  Z.min 30 (2 ^ (k + 1)) * second.
Proof.
  intros Hk. rewrite Z.pow_add_r by lia. change (2 ^ 1) with 2. unfold second. cbv zeta.
  pose proof (Z.pow_pos_nonneg 2 k). ifs; lia.
Qed.

(** The registration is kept alive at the right pace.  After the n-th
    failure in a row the loop sleeps 2^(n-1) seconds, 30 at most; after a
    success four fifths of the granted lifetime, so that it registers again
    before the binding expires, and at least a second.  It reports itself
    registered exactly after a success. *)
Theorem registration_paced (rs : list (result Z)) (k : nat) (s : loop) :
  Forall (fun r => match r with Ok g => g <= 2305843009 | Err _ => True | Panic => False end) rs ->
  backoff s = Z.min 30 (2 ^ Z.of_nat k) * second ->
  let '(ws, s') := registration s rs in
  all_paced k rs ws /\ backoff s' = Z.min 30 (2 ^ Z.of_nat (trailing_failures rs k)) * second /\
  registered s' = match last rs with Some r => is_ok r | None => registered s end.
Proof.
  intros H. revert k s. induction H as [|r rs Hr H IH]; intros k s Hb; [done|]. cbn [registration].
  destruct (after_register s r) as [w s1] eqn:E.
  assert (paced k r w /\ backoff s1 = Z.min 30 (2 ^ Z.of_nat (trailing_failures [r] k)) * second /\ registered s1 = is_ok r)
    as (Hp & Hb1 & Hreg).
  { destruct r as [g|e|]; [| |done]; cbn in E; injection E as <- <-.
    - split; [|done]. unfold paced. change requestedExpires with 300. set (g' := if g <=? 0 then 300 else g).
      assert (0 < g' <= 2305843009) as Hg by (subst g'; destruct (g <=? 0) eqn:?; lia).
      destruct (refresh_ok g' Hg) as [H1 H2]. unfold second in *. ifs; lia.
    - split; [done|]. split; [|done]. cbn [backoff trailing_failures foldl is_ok]. rewrite Nat2Z.inj_succ, Hb. apply backoff_doubles. lia. }
  specialize (IH _ s1 Hb1). destruct (registration s1 rs) as [ws s']. destruct IH as (H1 & H2 & H3).
  split; [done|]. split; [exact H2|]. rewrite H3, last_cons, Hreg. by destruct (last rs).
Qed.
(** The bound is needed: the longest lifetime SIP knows overflows the duration,
    and the gateway registers again every second. *)
Lemma long_lifetime_hammers s : (after_register s (Ok (2 ^ 32 - 1))).1 = second.
Proof. reflexivity. Qed.

(** * Outgoing calls *)

(** What [Dial] draws and what happens to it: the random strings, the results of
    the two transactions of the INVITE, whether the ACK can be written and
    whether the context is done when the call is answered. *)
Record dial_env := mkDial {
  d_callID : string; d_tag : string; d_branch1 : string; d_branch2 : string; d_cnonce : string; d_ackBranch : string;
  d_byeBranch : string; d_first : result Message; d_second : result Message; d_ackOk : bool; d_ctxErr : bool;
}.

(** A transaction as far as the client sees it: the request is written, unless
    its target cannot be resolved. *)
Definition transact (method uri : string) (headers : list string) (body : string) (outcome : result Message) (c : client) :
    result Message * client :=
  match destinationForURI (cfg c) uri with
  | Ok dst => (outcome, write c (buildRequest method uri headers body) dst)
  | Err e => (Err e, c)
  | Panic => (Panic, c)
  end.
(** [Hangup]: whatever becomes of the BYE, the call is finished. *)
Definition Hangup (p : nat) (branch : string) (c : client) : client := finish p (sendBYE p branch c).

Lemma parseAnswerMedia_safe text : safe (parseAnswerMedia text).
Proof. unfold parseAnswerMedia, parseAudioSDP. safely. Qed.
Lemma destination_safe c uri : safe (destinationForURI c uri).
Proof. unfold destinationForURI. safely. Qed.

Section dial.
Context (env : dial_env) (destination : string) (rtpPort now : Z).

Definition dial_id (c : client) : string := d_callID env +:+ "@" +:+ IPString (localIP c).
Definition toURI (c : client) : string :=
  if HasPrefix (ToLower destination) "sip:" then destination else "sip:" +:+ destination +:+ "@" +:+ Registrar (cfg c).
Definition fromURI (c : client) : string := "sip:" +:+ Username (cfg c) +:+ "@" +:+ Registrar (cfg c).
Definition invite_headers (branch : string) (cseq : Z) (auth : list string) (c : client) : list string :=
  baseHeaders (cfg c) (IPString (localIP c)) "INVITE" (toURI c) branch cseq (dial_id c) (fromURI c) (toURI c) (d_tag env) "" ++
  ["Content-Type: application/sdp"; allowLine] ++ auth.
(** The INVITE under [branch] and [cseq]. *)
Definition invite (branch : string) (cseq : Z) (auth : list string) (outcome : result Message) (c : client) :
    result Message * client :=
  transact "INVITE" (toURI c) (invite_headers branch cseq auth c)
    (offerSDP (CodecPreference (cfg c)) now (localIP c) rtpPort) outcome c.
(** The ACK of a final answer that is not a 2xx. *)
Definition final_ACK (branch : string) (cseq : Z) (res : Message) (c : client) : client :=
  sendInviteFinalACK c (mkCanceled (toURI c) branch cseq (dial_id c) (fromURI c) (toURI c) (d_tag env) [] false)
    (param (Header res "to") "tag").
(** The deferred release of the slot. *)
Definition abandon (e : string) (c : client) : result nat * client := (Err e, release (dial_id c) c).

(** The call with the media of the answer. *)
Definition with_media (m : negotiatedAudio) (call : Call) : Call :=
  call <| CallCodec := MCodec m |> <| CallEvent := MTelephoneEvent m |> <| RemoteRTP := Some (MRemoteRTP m) |>.
(** [Dial] from the final answer on. *)
Definition complete (branch : string) (cseq : Z) (res : Message) (c : client) : result nat * client :=
  if negb (is_2xx res) then abandon "INVITE returned" (final_ACK branch cseq res c)
  else
    let call := dialed_call (dial_id c) (d_tag env) (fromURI c) (toURI c) cseq res in
    let p := next c in
    let linked := enter_dialog call c in
    match sendACK linked call (d_ackBranch env) (d_ackOk env) with
    | None => (Err "ACK", linked <| active ::= delete_if (CallID call) p |>)
    | Some c =>
      if d_ctxErr env then (Err "SIP call answered after cancellation", Hangup p (d_byeBranch env) c)
      else
        match parseAnswerMedia (Body res) with
        | Ok m => (Ok p, c <| calls ::= alter (with_media m) p |>)
        | Err e => (Err e, Hangup p (d_byeBranch env) c)
        | Panic => (Panic, c)
        end
    end.
Definition Dial (c : client) : result nat * client :=
  match reserve (dial_id c) c with
  | None => (Err "maximum concurrent SIP calls reached", c)
  | Some c =>
    let '(r, c) := invite (d_branch1 env) 1 [] (d_first env) c in
    match r with
    | Ok res =>
      if is_challenge res then
        let c := final_ACK (d_branch1 env) 1 res c in
        match D.Parse (Header res (challenge_header res)) with
        | Ok ch =>
          let auth := credentials_line (cfg c) res ch "INVITE" (toURI c) (d_cnonce env) in
          let '(r, c) := invite (d_branch2 env) 2 [auth] (d_second env) c in
          match r with
          | Ok res => complete (d_branch2 env) 2 res c
          | Err e => abandon e c
          | Panic => (Panic, c)
          end
        | Err e => abandon e c
        | Panic => (Panic, c)
        end
      else complete (d_branch1 env) 1 res c
    | Err e => abandon e c
    | Panic => (Panic, c)
    end
  end.

(** The client but for what it wrote. *)
Definition quiet (c c' : client) : Prop := exists l, c' = c <| sent := sent c ++ l |>.
Lemma quiet_write c pk a : quiet c (write c pk a).
Proof. by eexists. Qed.
Lemma quiet_refl c : quiet c c.
Proof. exists []. rewrite app_nil_r. by destruct c. Qed.
Lemma quiet_trans c1 c2 c3 : quiet c1 c2 -> quiet c2 c3 -> quiet c1 c3.
Proof. intros [l1 ->] [l2 ->]. exists (l1 ++ l2). cbn. by rewrite app_assoc. Qed.
Lemma quiet_final_ACK b n res c : quiet c (final_ACK b n res c).
Proof. unfold final_ACK, sendInviteFinalACK. destruct (destinationForURI _ _); [apply quiet_write|apply quiet_refl..]. Qed.
Lemma quiet_invite b n auth o c : quiet c (invite b n auth o c).2.
Proof. unfold invite, transact. destruct (destinationForURI _ _); [apply quiet_write|apply quiet_refl..]. Qed.

(** ** What comes of it *)

(** The final answer that ends the INVITE, and the CSeq it answers. *)
Definition answered (c : client) : option (Z * Message) :=
  match destinationForURI (cfg c) (toURI c), d_first env with
  | Ok _, Ok res =>
    if is_challenge res
    then match D.Parse (Header res (challenge_header res)), d_second env with Ok _, Ok res => Some (2, res) | _, _ => None end
    else Some (1, res)
  | _, _ => None
  end.
(** Where the ACK and the BYE of an answered call go, when the ACK is written. *)
Definition acked (c : client) (call : Call) : option UDPAddr :=
  match destinationForURI (cfg c) (RemoteTarget call), d_ackOk env with Ok dst, true => Some dst | _, _ => None end.
(** The media the call is to have; [None] when it is hung up instead. *)
Definition wanted_media (res : Message) : option negotiatedAudio :=
  if d_ctxErr env then None else match parseAnswerMedia (Body res) with Ok m => Some m | _ => None end.

(** The outcome of a final answer [res], dialled from [c]. *)
Definition settled (c : client) (n : Z) (res : Message) (r : result nat) (c' : client) : Prop :=
  let call := dialed_call (dial_id c) (d_tag env) (fromURI c) (toURI c) n res in
  match (if is_2xx res then acked c call else None) with
  | None => is_ok r = false /\ active c' = active c
  | Some dst =>
    match wanted_media res with
    | Some m =>
      r = Ok (next c) /\ active c' = <[dial_id c := next c]> (active c) /\ calls c' !! next c = Some (with_media m call) /\
      last (sent c') = Some (call_request c "ACK" (d_ackBranch env) n call, dst)
    | None =>
      is_ok r = false /\ active c' = active c /\
      last (sent c') = Some (call_request c "BYE" (d_byeBranch env) (u32 (n + 1)) call, dst)
    end
  end.

Lemma Hangup_frame p br c call dst :
  calls c !! p = Some call -> active c !! CallID call = Some p -> finished call = false -> incoming call = None ->
  destinationForURI (cfg c) (RemoteTarget call) = Ok dst ->
  let c' := Hangup p br c in
  dialing c' = dialing c /\ invites c' = invites c /\ active c' = delete (CallID call) (active c) /\
  last (sent c') = Some (call_request c "BYE" br (u32 (CSeq call + 1)) (call <| CSeq := u32 (CSeq call + 1) |>), dst).
Proof.
  intros Hc Ha Hf Hi Hd. unfold Hangup, sendBYE. rewrite Hc. cbn. rewrite Hd. unfold finish. cbn. rewrite lookup_alter_eq, Hc. cbn.
  rewrite Hf, Hi. unfold delete_if. rewrite decide_True by done.
  destruct (_ && _); cbn; rewrite last_snoc; done.
Qed.

Lemma complete_spec branch n res c r c' :
  active c !! dial_id c = None -> complete branch n res c = (r, c') ->
  dialing c' = dialing c ∖ {[dial_id c]} /\ invites c' = invites c /\ settled c n res r c'.
Proof.
  intros Ha H. enough (let '(r, c') := complete branch n res c in
    dialing c' = dialing c ∖ {[dial_id c]} /\ invites c' = invites c /\ settled c n res r c') as Hs by (by rewrite H in Hs).
  clear H. unfold complete, settled. cbv zeta. destruct (is_2xx res); cbn [negb].
  2: { destruct (quiet_final_ACK branch n res c) as [l ->]. cbn. eauto. }
  set (call := dialed_call (dial_id c) (d_tag env) (fromURI c) (toURI c) n res).
  assert (CallID call = dial_id c) as Hid by done. unfold sendACK, acked. change (cfg (enter_dialog call c)) with (cfg c).
  assert (delete_if (CallID call) (next c) (active (enter_dialog call c)) = active c) as Hdel.
  { unfold delete_if. cbn [active enter_dialog]. cbn -[call]. rewrite lookup_insert_eq, decide_True by done.
    rewrite delete_insert_eq. by apply delete_id. }
  destruct (destinationForURI _ _) as [dst| |] eqn:Edst; [|by rewrite <- Hid..].
  destruct (d_ackOk env); [|by rewrite <- Hid].
  set (linked := write (enter_dialog call c) _ dst).
  assert (calls linked !! next c = Some call) as Hl by apply lookup_insert_eq.
  assert (active linked = <[dial_id c := next c]> (active c)) as Hact by done.
  destruct (Hangup_frame (next c) (d_byeBranch env) linked call dst Hl) as (H1 & H2 & H3 & H4);
    [by rewrite Hact, Hid, lookup_insert_eq|done|done|done|].
  rewrite Hact, Hid, delete_insert_eq, delete_id in H3 by done.
  unfold wanted_media. destruct (d_ctxErr env); [by rewrite H1, H2, H3, H4|].
  destruct (parseAnswerMedia (Body res)) as [m|e|] eqn:Em; [|by rewrite H1, H2, H3, H4|].
  - cbn -[call linked]. rewrite lookup_alter_eq, Hl. repeat (split; [done|]). exact (last_snoc _ _).
  - exfalso. revert Em. apply parseAnswerMedia_safe.
Qed.

(** C6: what dialling comes to.  Whatever the callee, the network and the
    context do, [Dial] gives its slot back, touches no other call, and ends in
    one of two ways.  Either it returns a call that has been acknowledged, is
    active and has exactly the media of the answer; or it returns an error and no
    dialog of it is left - and when a 2xx had been acknowledged, the last thing
    sent is the BYE for that dialog under the next CSeq. *)
Theorem Dial_outcome (c : client) :
  hasCallCapacityLocked c = true -> active c !! dial_id c = None -> dial_id c ∉ dialing c ->
  safe (d_first env) -> safe (d_second env) ->
  let '(r, c') := Dial c in
  dialing c' = dialing c /\ invites c' = invites c /\
  match answered c with
  | Some (n, res) => settled c n res r c'
  | None => (exists e, r = Err e) /\ active c' = active c
  end.
Proof.
  intros Hcap Ha Hd Hs1 Hs2. unfold Dial, reserve. rewrite Hcap.
  set (c1 := c <| dialing ::= union {[dial_id c]} |>).
  assert (dialing c1 ∖ {[dial_id c]} = dialing c) as Hslot by (unfold c1; cbn; set_solver).
  assert (forall b n res c2, quiet c1 c2 -> let '(r, c') := complete b n res c2 in
    dialing c' = dialing c /\ invites c' = invites c /\ settled c n res r c') as Hcomplete.
  { intros b n res c2 [l ->]. destruct (complete b n res _) as [r c'] eqn:E. apply complete_spec in E as (H1 & H2 & H3); [|exact Ha].
    split; [by etransitivity|]. by split. }
  assert (forall e c2, quiet c1 c2 -> let '(r, c') := abandon e c2 in
    dialing c' = dialing c /\ invites c' = invites c /\ (exists e, r = Err e) /\ active c' = active c) as Hgive.
  { intros e c2 [l ->]. cbn. eauto. }
  pose proof (quiet_invite (d_branch1 env) 1 [] (d_first env) c1) as Hq. unfold answered.
  unfold invite at 1, transact at 1. unfold invite, transact in Hq. change (cfg c1) with (cfg c) in *.
  change (toURI c1) with (toURI c) in *. pose proof (destination_safe (cfg c) (toURI c)) as Hds.
  destruct (destinationForURI (cfg c) (toURI c)) as [dst|e|] eqn:Edst; [|by apply Hgive|done].
  destruct (d_first env) as [res|e|]; [|by apply Hgive|done]. cbn [fst snd] in Hq.
  destruct (is_challenge res); [|by apply Hcomplete]. cbv zeta.
  pose proof (quiet_trans _ _ _ Hq (quiet_final_ACK (d_branch1 env) 1 res _)) as Hq2. revert Hq2.
  match goal with |- quiet _ ?x -> _ => generalize x end. intros c2 Hq2.
  pose proof (D.challenge_Parse_safe (Header res (challenge_header res))) as Hps.
  destruct (D.Parse _) as [ch|e|]; [|by apply Hgive|done].
  match goal with |- context [invite _ _ ?auth _ _] => pose proof (quiet_invite (d_branch2 env) 2 auth (d_second env) c2) as Hq3 end.
  apply (quiet_trans _ _ _ Hq2) in Hq3. destruct Hq2 as [l2 ->]. unfold invite, transact in *. cbn [cfg] in *.
  match goal with |- context [destinationForURI ?cf ?u] => change (destinationForURI cf u) with (destinationForURI (cfg c) (toURI c)) end.
  match type of Hq3 with context [destinationForURI ?cf ?u] => change (destinationForURI cf u) with (destinationForURI (cfg c) (toURI c)) in Hq3 end.
  rewrite Edst in *. cbn [fst snd] in Hq3.
  destruct (d_second env) as [res2|e|]; [|by apply Hgive|done]. by apply Hcomplete.
Qed.
End dial.
End agent.

(** ** Witnesses: a registration and a call, both challenged *)

#[local] Existing Instances ascii_tables text_addresses literal_resolver.

Definition response (code : Z) (hs : list (string * list string)) (body : string) : Message :=
  mkMessage true code "" "" "" (list_to_map hs) body "".
Definition challenge_401 : Message :=
  response 401 [("www-authenticate", ["Digest realm=" +:+ quoted "pbx" +:+ ", nonce=" +:+ quoted "n1"])] "".
Definition too_brief : Message := response 423 [("min-expires", ["600"])] "".
Definition accepted : Message := response 200 [("expires", ["900"])] "".
Definition numbered (n : nat) : string := Itoa (Z.of_nat n).
Definition agent0 : agent := mkAgent 0 0 [Ok challenge_401; Ok too_brief; Ok accepted] [] [].

Lemma register_converses_witness :
  exists a', register door_config away "id" numbered 4 300 agent0 = Some (Ok 900, a') /\
    exists x l, extends door_config away "id" agent0 a' x l /\ length l = 2%nat.
Proof.
  destruct (register_converses door_config away "id" numbered 4 300 agent0) as (r & a' & x & l & H & Hx & _ & _ & _); [cbn; lia|].
  assert (match register door_config away "id" numbered 4 300 agent0 with
          | Some (Ok g, a) => (g =? 900) && (length (log a) =? 3)%nat | _ => false end = true) as Hv by (vm_compute; reflexivity).
  rewrite H in Hv. destruct r as [g| |]; [|done..]. apply andb_prop in Hv as [->%Z.eqb_eq Hl%Nat.eqb_eq].
  exists a'. split; [exact H|]. exists x, l. split; [exact Hx|]. rewrite (ext_log _ _ _ _ _ _ _ Hx) in Hl. cbn in Hl. lia.
Defined.

Lemma registration_paced_witness :
  let '(ws, s) := registration loop0 [Err "timeout"; Err "timeout"; Ok 300] in
  all_paced 0 [Err "timeout"; Err "timeout"; Ok 300] ws /\ backoff s = second /\ registered s = true.
Proof.
  refine (registration_paced [Err "timeout"; Err "timeout"; Ok 300] 0 loop0 _ _).
  - repeat (apply Forall_cons; split; [done|]). by apply Forall_nil.
  - reflexivity.
Defined.

Definition call_env : dial_env :=
  mkDial "c1" "d1" "z9hG4bK-1" "z9hG4bK-2" "0a0b0c0d" "z9hG4bK-3" "z9hG4bK-4" (Ok challenge_401)
    (Ok (response 200 [("to", ["<sip:anna@192.0.2.7>;tag=p9"])] (offerSDP "pcma" 7 home 4000))) true false.
Lemma Dial_outcome_witness :
  is_ok (Dial call_env "anna" 5004 9 door).1 = true /\
  let '(r, c') := Dial call_env "anna" 5004 9 door in
  dialing c' = dialing door /\ invites c' = invites door /\
  exists res, settled call_env "anna" door 2 res r c' /\ is_2xx res = true.
Proof.
  split; [vm_compute; reflexivity|].
  pose proof (Dial_outcome call_env "anna" 5004 9 door) as H. revert H.
  destruct (Dial call_env "anna" 5004 9 door) as [r c']. intros H.
  destruct H as (H1 & H2 & H3); [vm_compute; reflexivity|vm_compute; reflexivity| |done|done|].
  - apply (bool_decide_unpack _). vm_compute. exact I.
  - split; [exact H1|]. split; [exact H2|]. 
    assert (exists res, answered call_env "anna" door = Some (2, res) /\ is_2xx res = true) as (res & Ha & Hr)
      by (eexists; split; vm_compute; reflexivity).
    rewrite Ha in H3. exists res. split; [exact H3|exact Hr].
Defined.
End SipAgent.
