(* ===== verification/RtspWire.v ===== *)
(** RTSP on the wire: [internal/rtsp/client.go], what is written to the
    connection ([doOnce], [writeInterleaved]) and how the read loop takes the
    camera's stream apart ([readLoop], [readResponse], [readLine]).

    The stream is the string of the bytes still to come; it ends with [EOF].
    [bufio.Reader] only affects when bytes are fetched, not which ones. *)
From S2P Require Import Prelude GoBytes GoStrings GoText.

Module RtspWire.
Definition CR : ascii := chr 13.
Definition LF : ascii := chr 10.
Definition CRLF : string := String CR (String LF "").

Record response := mkResponse {
  StatusCode : Z; Reason : string; RHeader : gmap string string; HeaderValues : gmap string (list string); RBody : string;
}.
Definition maxRTSPBodySize : Z := Z.shiftl 4 20.

Section wire.
Context `{U : Unicode}.

(** * Reading *)

(** [readLine]: [ReadString] up to the line feed, without the line end. *)
Definition readLine (s : string) : result (string * string) :=
  match Cut s (String LF "") with
  | Some (line, rest) => Ok (TrimRightSet (line +:+ String LF "") [CR; LF], rest)
  | None => Err "EOF"
  end.
(** [io.ReadFull] of [n] bytes. *)
Definition ReadFull (s : string) (n : nat) : result (string * string) :=
  if (String.length s <? n)%nat then Err "unexpected EOF" else Ok (stake n s, sdrop n s).

Definition headers : Type := gmap string string * gmap string (list string).
Definition header_line (hs : headers) (line : string) : headers :=
  match SplitN2 line ":" with
  | [n; v] =>
    let name := ToLower (TrimSpace n) in
    let value := TrimSpace v in
    (<[name := value]> hs.1, <[name := default [] (hs.2 !! name) ++ [value]]> hs.2)
  | _ => hs
  end.
(** The header lines up to the empty one.  Every line takes a byte at least, so
    when the fuel, the length of the stream, is used up the stream is empty. *)
Fixpoint read_headers (fuel : nat) (s : string) (hs : headers) : result (headers * string) :=
  match fuel with
  | O => Err "EOF"
  | S fuel =>
    '(line, s) ← readLine s;
    if decide (line = "") then Ok (hs, s) else read_headers fuel s (header_line hs line)
  end.

Definition content_length (h : gmap string string) : result Z :=
  let raw := TrimSpace (default "" (h !! "content-length")) in
  if decide (raw = "") then Ok 0
  else
    let '(n, ok) := Atoi raw in
    if negb ok || (n <? 0) || (maxRTSPBodySize <? n) then Err "invalid RTSP Content-Length" else Ok n.

(** The status line: code and reason. *)
Definition status_line (line : string) : result (Z * string) :=
  match SplitN2 line " " with
  | [proto; rest] =>
    if HasPrefix proto "RTSP/" then
      let '(c, reason) := match SplitN2 rest " " with [c; r] => (c, r) | _ => (rest, "") end in
      let '(code, ok) := Atoi c in
      if ok then Ok (code, reason) else Err "invalid syntax"
    else Err "unexpected RTSP line"
  | _ => Err "unexpected RTSP line"
  end.
Definition readResponse (s : string) : result (response * string) :=
  '(line, s) ← readLine s;
  '(code, reason) ← status_line line;
  '((h, hv), s) ← read_headers (String.length s) s (∅, ∅);
  n ← content_length h;
  '(body, s) ← ReadFull s (Z.to_nat n);
  Ok (mkResponse code reason h hv body, s).

(** One turn of [readLoop]: a response, or the interleaved frame that was
    discarded. *)
Definition read_turn (s : string) : result (option response * string) :=
  match s with
  | "" => Err "EOF"
  | String c _ =>
    if decide (c = "$"%char) then
      '(header, s) ← ReadFull s 4;
      n ← be_get 2 (s2b header) 2;
      '(_, s) ← ReadFull s (Z.to_nat n);
      Ok (None, s)
    else '(r, s) ← readResponse s; Ok (Some r, s)
  end.
(** [readLoop]: the responses it hands out and the error it ends with.  A turn
    takes a byte at least. *)
Fixpoint read_loop (fuel : nat) (s : string) : list response * string :=
  match fuel with
  | O => ([], "EOF")
  | S fuel =>
    match read_turn s with
    | Ok (r, s) => let '(rs, e) := read_loop fuel s in (option_list r ++ rs, e)
    | Err e => ([], e)
    | Panic => ([], "panic")
    end
  end.
Definition readLoop (s : string) : list response * string := read_loop (S (String.length s)) s.
Definition response_cseq (r : response) : Z := (ParseUint 32 (default "" (RHeader r !! "cseq"))).1.

(** * Writing *)

Definition writeInterleaved (channel : Z) (payload : bytes) : string :=
  b2s ([36; channel] ++ be_put 2 (len payload) ++ payload).

(** The request [doOnce] writes; [headers] in the order the map is iterated. *)
Definition request_text (method uri : string) (seq : Z) (session auth : string) (headers : list (string * string))
    (body : string) : string :=
  method +:+ " " +:+ uri +:+ " RTSP/1.0" +:+ CRLF +:+
  "CSeq: " +:+ Itoa seq +:+ CRLF +:+
  "User-Agent: ReolinkSIPGateway/1.5.0" +:+ CRLF +:+
  (if negb (bool_decide (session = "")) && negb (bool_decide (method = "DESCRIBE")) then "Session: " +:+ session +:+ CRLF else "") +:+
  (if decide (auth = "") then "" else "Authorization: " +:+ auth +:+ CRLF) +:+
  Join (map (fun kv => kv.1 +:+ ": " +:+ kv.2 +:+ CRLF) headers) "" +:+
  (if (0 <? slen body) then "Content-Length: " +:+ Itoa (slen body) +:+ CRLF else "") +:+
  CRLF +:+ body.

(** * The stream of a camera *)

(** What a camera sends: media on an interleaved channel, and responses. *)
Inductive frame :=
| Media (channel : Z) (payload : bytes)
| Reply (code : Z) (reason : string) (hs : list (string * string)) (body : string).

Definition header_text (h : string * string) : string := h.1 +:+ ": " +:+ h.2.
Definition length_header (body : string) : string * string := ("Content-Length", Itoa (slen body)).
Fixpoint lines_text (hs : list (string * string)) : string :=
  match hs with [] => "" | h :: hs => header_text h +:+ CRLF +:+ lines_text hs end.
Definition frame_text (f : frame) : string :=
  match f with
  | Media channel payload => writeInterleaved channel payload
  | Reply code reason hs body =>
    "RTSP/1.0 " +:+ Itoa code +:+ " " +:+ reason +:+ CRLF +:+ lines_text (hs ++ [length_header body]) +:+ CRLF +:+ body
  end.
Fixpoint stream_text (fs : list frame) : string :=
  match fs with [] => "" | f :: fs => frame_text f +:+ stream_text fs end.

(** The response a [Reply] is. *)
Definition file_header (acc : headers) (h : string * string) : headers :=
  let name := ToLower (TrimSpace h.1) in
  (<[name := h.2]> acc.1, <[name := default [] (acc.2 !! name) ++ [h.2]]> acc.2).
Definition frame_response (f : frame) : option response :=
  match f with
  | Media _ _ => None
  | Reply code reason hs body =>
    let acc := foldl file_header (∅, ∅) (hs ++ [length_header body]) in
    Some (mkResponse code reason acc.1 acc.2 body)
  end.

Definition in_line (c : ascii) : bool := isnt CR c && isnt LF c.
Record reply_header_ok (h : string * string) : Prop := {
  rh_line : sall in_line (header_text h) = true;
  rh_name : sall (isnt ":") h.1 = true;
  rh_value : TrimSpace h.2 = h.2;
}.
Definition frame_ok (f : frame) : Prop :=
  match f with
  | Media channel payload => fits 8 channel /\ bytes_ok payload /\ len payload < 2 ^ 16
  | Reply code reason hs body =>
    0 <= code < 2 ^ 63 /\ sall in_line reason = true /\ Forall reply_header_ok hs /\ slen body <= maxRTSPBodySize
  end.

(** ** Lines *)

Lemma TrimRightSet_keep cs t u : sall (fun c => negb (bool_decide (c ∈ cs))) t = true ->
  TrimRightSet (t +:+ u) cs = t +:+ TrimRightSet u cs.
Proof.
  induction t as [|a t IH]; [done|]. cbn [sall]. intros [Ha Ht]%andb_prop. rewrite !scons_app. cbn [TrimRightSet].
  rewrite (IH Ht). apply negb_true_iff in Ha. rewrite Ha. by destruct (t +:+ TrimRightSet u cs).
Qed.
Lemma readLine_CRLF line rest : sall in_line line = true -> readLine (line +:+ CRLF +:+ rest) = Ok (line, rest).
Proof.
  intros Hl. unfold readLine, CRLF.
  assert (Cut (line +:+ String CR (String LF "") +:+ rest) (String LF "") = Some (line +:+ String CR "", rest)) as ->.
  { replace (line +:+ String CR (String LF "") +:+ rest) with ((line +:+ String CR "") +:+ String LF "" +:+ rest)
      by (by rewrite sapp_assoc). apply Cut_found. rewrite sall_app. apply andb_true_intro. split; [|reflexivity].
    eapply sall_weaken; [|exact Hl]. by intros c [_ Hc]%andb_prop. }
  do 2 f_equal. rewrite sapp_assoc, TrimRightSet_keep.
  - change (String CR "" +:+ String LF "") with CRLF. change (TrimRightSet CRLF [CR; LF]) with "". apply sapp_nil_r.
  - eapply sall_weaken; [|exact Hl]. intros c [H1%isnt_true H2%isnt_true]%andb_prop. apply negb_true_iff, bool_decide_eq_false.
    set_solver.
Qed.

Lemma header_line_text acc h : reply_header_ok h -> header_line acc (header_text h) = file_header acc h.
Proof.
  intros [H1 H2 H3]. unfold header_line, header_text, file_header. rewrite !scons_app, snil_app.
  rewrite SplitN2_found by done. by rewrite TrimSpace_blank, H3.
Qed.
Lemma header_text_nonempty h : header_text h <> "".
Proof. unfold header_text. by destruct h.1. Qed.

Lemma read_headers_lines fuel hs acc rest :
  Forall reply_header_ok hs -> (length hs < fuel)%nat ->
  read_headers fuel (lines_text hs +:+ CRLF +:+ rest) acc = Ok (foldl file_header acc hs, rest).
Proof.
  intros H. revert fuel acc. induction H as [|h hs Hh H IH]; intros [|fuel] acc Hf; cbn in Hf; [lia| |lia|].
  - cbn [lines_text read_headers foldl]. rewrite snil_app. pose proof (readLine_CRLF "" rest eq_refl) as E.
    rewrite snil_app in E. by rewrite E.
  - cbn [lines_text read_headers foldl]. rewrite !sapp_assoc, readLine_CRLF by apply Hh. cbn [mbind result_bind].
    rewrite decide_False by apply header_text_nonempty. rewrite header_line_text by done. apply IH. lia.
Qed.
Lemma lines_text_length hs : (length hs <= String.length (lines_text hs))%nat.
Proof. induction hs as [|h hs IH]; cbn [lines_text length]; [lia|]. rewrite !slength_app. cbn. lia. Qed.

Lemma sall_digits_in_line z : 0 <= z -> sall in_line (Itoa z) = true.
Proof.
  intros Hz. eapply sall_weaken; [|by apply token_Itoa]. intros c [_ Hc]%token_char_spec.
  apply andb_true_intro. split; apply isnt_true; intros ->; by cbn in Hc.
Qed.
Lemma body_header_ok body : reply_header_ok (length_header body).
Proof.
  pose proof (Itoa_token (slen body) ltac:(lia)) as Ht. split.
  - unfold header_text. cbn [length_header fst snd]. rewrite !sall_app. apply andb_true_intro. split; [reflexivity|].
    apply andb_true_intro. split; [reflexivity|]. apply sall_digits_in_line. lia.
  - reflexivity.
  - apply (TrimSpace_words [Itoa (slen body)]). constructor; [exact Ht|constructor].
Qed.

(** ** Responses and frames *)

Lemma status_line_text code reason : 0 <= code < 2 ^ 63 ->
  status_line ("RTSP/1.0 " +:+ Itoa code +:+ " " +:+ reason) = Ok (code, reason).
Proof.
  intros Hc. unfold status_line. change ("RTSP/1.0 " +:+ Itoa code +:+ " " +:+ reason)
    with ("RTSP/1.0" +:+ String " " (Itoa code +:+ String " " reason)).
  rewrite SplitN2_found by done. change (HasPrefix "RTSP/1.0" "RTSP/") with true. cbv iota.
  rewrite SplitN2_found by (apply Itoa_isnt; [lia|done]). by rewrite Atoi_Itoa.
Qed.
Lemma last_header acc hs h : (foldl file_header acc (hs ++ [h])).1 !! ToLower (TrimSpace h.1) = Some h.2.
Proof. rewrite foldl_app. apply lookup_insert_eq. Qed.
Lemma ReadFull_whole body rest : ReadFull (body +:+ rest) (String.length body) = Ok (body, rest).
Proof.
  unfold ReadFull. rewrite slength_app, (proj2 (Nat.ltb_ge _ _)) by lia. by rewrite stake_app, sdrop_whole.
Qed.

Lemma readResponse_text code reason hs body rest :
  frame_ok (Reply code reason hs body) ->
  readResponse (frame_text (Reply code reason hs body) +:+ rest) =
    Ok (let acc := foldl file_header (∅, ∅) (hs ++ [length_header body]) in mkResponse code reason acc.1 acc.2 body, rest).
Proof.
  intros (Hc & Hr & Hh & Hb). unfold readResponse. cbn [frame_text].
  replace (("RTSP/1.0 " +:+ Itoa code +:+ " " +:+ reason +:+ CRLF +:+ lines_text (hs ++ [length_header body]) +:+ CRLF +:+ body) +:+ rest)
    with (("RTSP/1.0 " +:+ Itoa code +:+ " " +:+ reason) +:+ CRLF +:+ lines_text (hs ++ [length_header body]) +:+ CRLF +:+ (body +:+ rest))
    by (by rewrite !sapp_assoc).
  rewrite readLine_CRLF by (rewrite !sall_app, sall_digits_in_line, Hr by lia; done).
  cbn [mbind result_bind]. rewrite status_line_text by done. cbn [mbind result_bind].
  rewrite read_headers_lines.
  2: { apply Forall_app. split; [done|]. constructor; [apply body_header_ok|constructor]. }
  2: { pose proof (lines_text_length (hs ++ [length_header body])). rewrite !slength_app in *. cbn. lia. }
  cbn [mbind result_bind]. pose proof (last_header (∅, ∅) hs (length_header body)) as Hl.
  change (ToLower (TrimSpace (length_header body).1)) with "content-length" in Hl. cbv zeta. revert Hl.
  destruct (foldl file_header _ _) as [h hv]. cbn [fst snd]. intros Hl. unfold content_length. rewrite Hl. cbn [default from_option id].
  pose proof (rh_value _ (body_header_ok body)) as Ht. cbn [length_header fst snd] in *. rewrite Ht.
  destruct (decide _) as [E|]; [pose proof (Itoa_token (slen body) ltac:(lia)) as Htok; by rewrite E in Htok|].
  unfold maxRTSPBodySize in Hb. change (Z.shiftl 4 20) with 4194304 in Hb.
  rewrite Atoi_Itoa by lia. cbn [negb orb]. unfold maxRTSPBodySize. change (Z.shiftl 4 20) with 4194304.
  rewrite (proj2 (Z.ltb_ge _ _)), (proj2 (Z.ltb_ge 4194304 _)) by lia. cbn [orb mbind result_bind].
  rewrite Nat2Z.id, ReadFull_whole. done.
Qed.

Lemma String_b2s z b : b2s (z :: b) = String (chr z) (b2s b).
Proof. done. Qed.
Lemma b2s_app a b : b2s (a ++ b) = b2s a +:+ b2s b.
Proof. induction a as [|z a IH]; [done|]. cbn [app b2s]. by rewrite IH, scons_app. Qed.
Lemma length_b2s b : String.length (b2s b) = length b.
Proof. induction b; cbn; auto. Qed.

Lemma read_turn_frame f rest : frame_ok f -> read_turn (frame_text f +:+ rest) = Ok (frame_response f, rest).
Proof.
  destruct f as [channel payload|code reason hs body]; intros Hf.
  - destruct Hf as (Hch & Hp & Hlen). cbn [frame_text frame_response]. unfold writeInterleaved.
    set (header := [36; channel] ++ be_put 2 (len payload)). rewrite app_assoc. fold header.
    assert (length header = 4%nat) as Hh by done. rewrite b2s_app, sapp_assoc.
    assert (read_turn (b2s header +:+ b2s payload +:+ rest) =
      ('(hd, s) ← ReadFull (b2s header +:+ b2s payload +:+ rest) 4;
       n ← be_get 2 (s2b hd) 2; '(_, s) ← ReadFull s (Z.to_nat n); Ok (None, s))) as -> by reflexivity.
    rewrite <- Hh, <- length_b2s, ReadFull_whole. cbn [mbind result_bind].
    rewrite s2b_b2s.
    2: { constructor; [by vm_compute|]. constructor; [done|]. apply be_put_ok. }
    unfold header. rewrite <- (app_nil_r (be_put 2 (len payload))), (be_get_app 2 [36; channel] [] 2 _ 2) by done.
    cbn [mbind result_bind]. rewrite Z.mod_small by (cbn in *; lia). rewrite Nat2Z.id, <- length_b2s, ReadFull_whole. done.
  - cbn [frame_response]. pose proof (readResponse_text code reason hs body rest Hf) as H. revert H.
    destruct (frame_text _ +:+ rest) as [|c s] eqn:E; [by cbn in E|].
    assert (c = "R"%char) as -> by (cbn in E; by injection E). intros H. unfold read_turn. rewrite decide_False by done.
    rewrite H. done.
Qed.
Lemma frame_text_length f : (0 < String.length (frame_text f))%nat.
Proof. destruct f; apply Nat.lt_0_succ. Qed.

(** The stream is taken apart exactly.  Whatever media frames and responses
    the camera sends, in whatever order, the read loop hands out exactly the
    responses, each with its status, reason, headers and body, skips the media,
    and stops at the end of the stream: it never loses its place. *)
Theorem stream_demultiplexed (fs : list frame) :
  Forall frame_ok fs -> readLoop (stream_text fs) = (omap frame_response fs, "EOF").
Proof.
  intros H. unfold readLoop. assert (forall fuel, (String.length (stream_text fs) < fuel)%nat ->
    read_loop fuel (stream_text fs) = (omap frame_response fs, "EOF")) as Hl; [|apply Hl; lia].
  induction H as [|f fs Hf H IH]; intros [|fuel] Hlt; [lia|done|lia|].
  cbn [stream_text] in *. rewrite slength_app in Hlt. pose proof (frame_text_length f) as Hpos.
  cbn [read_loop]. rewrite read_turn_frame by done. rewrite IH by (clear - Hlt Hpos; lia). cbn. by destruct (frame_response f).
Qed.
End wire.

(** ** Witness *)

#[local] Existing Instance ascii_tables.
Definition sample_stream : list frame :=
  [Media 0 [1; 36; 3]; Reply 200 "OK" [("CSeq", "7"); ("Session", "9;timeout=60")] "v=0"; Media 1 []].
Lemma stream_demultiplexed_witness :
  exists r, readLoop (stream_text sample_stream) = ([r], "EOF") /\ StatusCode r = 200 /\ response_cseq r = 7 /\ RBody r = "v=0".
Proof.
  eexists. split; [apply (stream_demultiplexed sample_stream)|].
  - constructor; [split; [by vm_compute|split; [apply (bool_decide_unpack _); vm_compute; exact I|reflexivity]]|].
    constructor; [split; [by vm_compute|]|].
    + split; [reflexivity|]. split; [|by vm_compute]. constructor; [split; vm_compute; reflexivity|].
      constructor; [split; vm_compute; reflexivity|constructor].
    + constructor; [|constructor]. split; [by vm_compute|]. split; [constructor|reflexivity].
  - split; [|split]; vm_compute; reflexivity.
Defined.
End RtspWire.
