(* ===== verification/RtspClient.v ===== *)
(** The RTSP client: [internal/rtsp/client.go], its requests and their digest
    authentication ([do], [doOnce]), the delivery of responses, the choice of the
    backchannel in the camera's SDP, and the audio it writes.

    A request is followed to the response that [doOnce] returns, which is an
    input; who gets which response is the machine [rtsp_mux].  [net/url] is a
    parameter, the class [NetURL]. *)
From S2P Require Import Prelude GoBytes GoStrings Rtp RtspWire.
From S2P Require Digest.

Module RtspClient.
Import RtspWire.
Module D := Digest.Digest.

(** * Requests and authentication *)

Section requests.
Context `{U : Unicode}.

(** [responseHeaderValues] for a name in lower case. *)
Definition responseHeaderValues (res : response) (name : string) : list string :=
  match default [] (HeaderValues res !! name) with
  | [] => let v := default "" (RHeader res !! name) in if decide (v = "") then [] else [v]
  | values => values
  end.
(** The first challenge that is supported, else the first error. *)
Fixpoint choose (values : list string) (firstErr : option string) : result D.Challenge :=
  match values with
  | [] => Err (default "401 response did not include a supported WWW-Authenticate digest challenge" firstErr)
  | v :: values =>
    match D.Parse v with
    | Ok ch => Ok ch
    | Err e => choose values (Some (default e firstErr))
    | Panic => Panic
    end
  end.
Definition chooseDigestChallenge (values : list string) : result D.Challenge := choose values None.

(** One request that was made: its CSeq, the credentials it carried - a
    challenge and the nonce count -, its text and what came of it. *)
Record exchange := mkExchange {
  x_seq : Z; x_auth : option (D.Challenge * Z); x_text : string; x_reply : result response;
}.
Record conn := mkConn {
  cseq : Z; auth : option D.Challenge; nc : Z; session : string; replies : list (result response); log : list exchange;
}.
#[export] Instance eta_conn : Eta conn := fun c =>
  mkConn (cseq c) (auth c) (nc c) (session c) (replies c) (log c).

Section do.
Context (username password method uri : string) (headers : list (string * string)) (body : string) (cnonce : Z -> string).

Definition auth_text (a : option (D.Challenge * Z)) (seq : Z) : string :=
  match a with
  | Some (ch, n) => D.Authorization ch username password method uri n (cnonce seq)
  | None => ""
  end.
(** [doOnce]: with the given credentials, or those of the last challenge. *)
Definition doOnce (given : option (D.Challenge * Z)) (c : conn) : result response * conn :=
  let seq := u32 (cseq c + 1) in
  let c := c <| cseq := seq |> in
  let '(a, c) :=
    match given, auth c with
    | Some g, _ => (Some g, c)
    | None, Some ch => let n := u32 (nc c + 1) in (Some (ch, n), c <| nc := n |>)
    | None, None => (None, c)
    end in
  let '(r, rest) := match replies c with [] => (Err "RTSP connection closed", []) | r :: rest => (r, rest) end in
  let text := request_text method uri seq (session c) (auth_text a seq) headers body in
  (r, c <| replies := rest |> <| log := log c ++ [mkExchange seq a text r] |>).

(** Whether [ch] continues the challenge in use. *)
Definition same_challenge (old ch : D.Challenge) : bool :=
  bool_decide (D.Nonce old = D.Nonce ch) && bool_decide (D.Realm old = D.Realm ch) &&
  EqualFold (D.Algorithm old) (D.Algorithm ch).
Definition adopt (ch : D.Challenge) (c : conn) : conn :=
  let nonceChanged := match auth c with None => true | Some old => negb (same_challenge old ch) end in
  let c := c <| auth := Some ch |> in
  if nonceChanged then c <| nc := 0 |> else c.
(** The retries of [do] after a 401. *)
Fixpoint retry (attempts : nat) (res : response) (c : conn) : result response * conn :=
  match attempts with
  | O => (Ok res, c)
  | S attempts =>
    match chooseDigestChallenge (responseHeaderValues res "www-authenticate") with
    | Ok ch =>
      let c := adopt ch c in
      let n := u32 (nc c + 1) in
      let '(r, c) := doOnce (Some (ch, n)) (c <| nc := n |>) in
      match r with
      | Ok res => if StatusCode res =? 401 then retry attempts res c else (Ok res, c)
      | r => (r, c)
      end
    | Err e => (Err e, c)
    | Panic => (Panic, c)
    end
  end.
Definition maxAuthRetries : nat := 3.
Definition do_ (c : conn) : result response * conn :=
  let '(r, c) := doOnce None c in
  match r with
  | Ok res => if StatusCode res =? 401 then retry maxAuthRetries res c else (Ok res, c)
  | r => (r, c)
  end.

(** ** What the camera sees *)

(** The nonce count of credentials for [ch] after the request [x]. *)
Definition next_count (x : exchange) (ch : D.Challenge) : Z :=
  match x_auth x with Some (old, n) => if same_challenge old ch then u32 (n + 1) else 1 | None => 1 end.
(** [y] answers the 401 that [x] met: with the first supported challenge of that
    response and the next nonce count. *)
Definition answers (x y : exchange) : Prop :=
  x_seq y = u32 (x_seq x + 1) /\
  exists res ch, x_reply x = Ok res /\ StatusCode res = 401 /\
    chooseDigestChallenge (responseHeaderValues res "www-authenticate") = Ok ch /\
    x_auth y = Some (ch, next_count x ch).
Fixpoint answered (x : exchange) (l : list exchange) : Prop :=
  match l with [] => True | y :: l => answers x y /\ answered y l end.
Definition final (x : exchange) (l : list exchange) : exchange := default x (last l).

(** The connection after [x] has the credentials of [x]. *)
Definition holds (x : exchange) (c : conn) : Prop :=
  cseq c = x_seq x /\ match x_auth x with Some (ch, n) => auth c = Some ch /\ nc c = n | None => auth c = None end.

Lemma doOnce_holds given c r c' : doOnce given c = (r, c') ->
  (forall ch n, given = Some (ch, n) -> auth c = Some ch /\ nc c = n) ->
  exists x, log c' = log c ++ [x] /\ x_seq x = u32 (cseq c + 1) /\ x_reply x = r /\ holds x c' /\
    x_auth x = match given with
               | Some g => Some g
               | None => match auth c with Some ch => Some (ch, u32 (nc c + 1)) | None => None end
               end.
Proof.
  intros H Hg. unfold doOnce in H. cbn in H. destruct given as [[ch n]|]; [destruct (Hg ch n eq_refl) as [Ha Hn]|];
    destruct (auth c) as [old|] eqn:Ea; cbn in H; destruct (replies c) as [|r0 rest]; injection H as <- <-;
    eexists; (split; [reflexivity|]); cbn; rewrite ?Ea; try done; by simplify_eq.
Qed.
Lemma adopt_count x ch c : holds x c ->
  auth (adopt ch c) = Some ch /\ cseq (adopt ch c) = cseq c /\ log (adopt ch c) = log c /\ u32 (nc (adopt ch c) + 1) = next_count x ch.
Proof.
  intros [Hs Ha]. unfold adopt, next_count. destruct (x_auth x) as [[old n]|].
  - destruct Ha as [-> <-]. by destruct (same_challenge old ch).
  - by rewrite Ha.
Qed.

(** How the outcome follows from the last exchange. *)
Definition concluded (x : exchange) (r : result response) : Prop :=
  r = x_reply x \/
  exists res e, x_reply x = Ok res /\ StatusCode res = 401 /\ r = Err e /\
    chooseDigestChallenge (responseHeaderValues res "www-authenticate") = Err e.
Lemma choose_safe values e : safe (choose values e).
Proof.
  revert e. induction values as [|v values IH]; intros e; [done|]. cbn. pose proof (D.challenge_Parse_safe v) as Hs.
  by destruct (D.Parse v).
Qed.

Lemma final_cons x y l : final x (y :: l) = final y l.
Proof. unfold final. rewrite last_cons. by destruct (last l). Qed.
Lemma retry_answers n x res c r c' :
  holds x c -> x_reply x = Ok res -> StatusCode res = 401 -> retry n res c = (r, c') ->
  exists l, log c' = log c ++ l /\ (length l <= n)%nat /\ answered x l /\ holds (final x l) c' /\ concluded (final x l) r /\
    (forall res, r = Ok res -> StatusCode res = 401 -> length l = n).
Proof.
  revert x res c. induction n as [|n IH]; intros x res c Hh Hx H401 H; cbn [retry] in H.
  { injection H as <- <-. exists []. rewrite app_nil_r. repeat (split; [done|]). split; [by left|done]. }
  pose proof (choose_safe (responseHeaderValues res "www-authenticate") None) as Hsafe. fold chooseDigestChallenge in Hsafe.
  change (choose _ None) with (chooseDigestChallenge (responseHeaderValues res "www-authenticate")) in Hsafe.
  destruct (chooseDigestChallenge _) as [ch|e|] eqn:Ech; [|injection H as <- <-|done].
  2: { exists []. rewrite app_nil_r. split; [done|]. split; [cbn; lia|]. split; [done|]. split; [done|]. split; [|done].
    right. eauto 8. }
  destruct (adopt_count x ch c Hh) as (Ha & Hs & Hl & Hn).
  destruct (doOnce _ _) as [r1 c1] eqn:E1. apply doOnce_holds in E1 as (y & Hy1 & Hy2 & Hy3 & Hy4 & Hy5);
    [|intros ch0 n0 [= <- <-]; cbn; split; [exact Ha|done]].
  cbn in Hy1, Hy2. rewrite Hl in Hy1. rewrite Hs in Hy2.
  assert (answers x y) as Hans.
  { split; [by rewrite Hy2, (proj1 Hh)|]. exists res, ch. rewrite Hy5, Hn. auto. }
  assert (forall r2, (r2, c1) = (r, c') -> r2 = r1 -> (forall res, r2 = Ok res -> StatusCode res <> 401) ->
    exists l, log c' = log c ++ l /\ (length l <= S n)%nat /\ answered x l /\ holds (final x l) c' /\ concluded (final x l) r /\
    (forall res, r = Ok res -> StatusCode res = 401 -> length l = S n)) as Hdone.
  { intros r2 [= <- <-] -> Hno. exists [y]. split; [done|]. split; [cbn; lia|]. split; [by split|].
    split; [done|]. split; [left; exact (eq_sym Hy3)|]. intros res2 -> H2. by destruct (Hno res2). }
  destruct r1 as [res1|e|]; [|by apply (Hdone _ H)..].
  destruct (StatusCode res1 =? 401) eqn:E401.
  - apply Z.eqb_eq in E401. destruct (IH y res1 c1 Hy4 Hy3 E401 H) as (l & L1 & L2 & L3 & L4 & L5 & L6).
    exists (y :: l). rewrite final_cons. split; [by rewrite L1, Hy1, <- app_assoc|]. split; [cbn; lia|]. split; [by split|].
    split; [done|]. split; [done|]. intros res2 Hr H2. cbn. f_equal. eauto.
  - apply (Hdone _ H); [done|]. intros res2 [= <-]. lia.
Qed.

(** C39: authentication is bounded and never repeats a nonce count.  A request
    makes at most four exchanges, with consecutive CSeq numbers.  The first uses
    the credentials known from before, if any; each further one answers the 401
    just received, with the first challenge in it that is supported and with a
    nonce count that goes on from the last one for the same challenge and starts
    at 1 for a new one.  The outcome is the last reply, or the reason why its
    challenge cannot be answered; a 401 is only returned after all retries. *)
Theorem do_authenticates (c c' : conn) (r : result response) :
  do_ c = (r, c') ->
  exists x l, log c' = log c ++ x :: l /\ (length l <= maxAuthRetries)%nat /\ x_seq x = u32 (cseq c + 1) /\
    x_auth x = match auth c with Some ch => Some (ch, u32 (nc c + 1)) | None => None end /\
    answered x l /\ holds (final x l) c' /\ concluded (final x l) r /\
    (forall res, r = Ok res -> StatusCode res = 401 -> length l = maxAuthRetries).
Proof.
  unfold do_. destruct (doOnce None c) as [r1 c1] eqn:E1. apply doOnce_holds in E1 as (x & Hx1 & Hx2 & Hx3 & Hx4 & Hx5); [|done].
  intros H. exists x. destruct r1 as [res|e|].
  - destruct (StatusCode res =? 401) eqn:E401.
    + apply Z.eqb_eq in E401. destruct (retry_answers _ x res c1 r c' Hx4 Hx3 E401 H) as (l & L1 & L2 & L3).
      exists l. split; [by rewrite L1, Hx1, <- app_assoc|]. auto.
    + injection H as <- <-. exists []. split; [done|]. split; [cbn; lia|]. do 4 (split; [done|]). split; [left; done|].
      intros res2 [= <-]. lia.
  - injection H as <- <-. exists []. split; [done|]. split; [cbn; lia|]. do 4 (split; [done|]). split; [left; done|done].
  - injection H as <- <-. exists []. split; [done|]. split; [cbn; lia|]. do 4 (split; [done|]). split; [left; done|done].
Qed.
End do.
End requests.

(** * The delivery of responses *)

Module Delivery.

(** The channel of a request in [doOnce] and what the read loop left in it. *)
Record waiter := mkWaiter { wseq : Z; chan : option response }.
Record mux := mkMux {
  seqs : Z; responses : gmap Z nat; waiters : gmap nat waiter; readErr : option string; closed : bool;
}.
#[export] Instance eta_mux : Eta mux := fun c => mkMux (seqs c) (responses c) (waiters c) (readErr c) (closed c).
Definition mux0 : mux := mkMux 0 ∅ ∅ None false.

(** [doOnce] up to its [select], *)
Definition enlist (c : mux) : Z * nat * mux :=
  let seq := u32 (seqs c + 1) in
  let ch := fresh (dom (waiters c)) in
  (seq, ch, c <| seqs := seq |> <| responses ::= <[seq := ch]> |> <| waiters ::= <[ch := mkWaiter seq None]> |>).
(** and its deferred function. *)
Definition delist (seq : Z) (c : mux) : mux := c <| responses ::= delete seq |>.
(** What [readLoop] does with a response, *)
Definition offer (r : response) (w : waiter) : waiter :=
  match chan w with None => mkWaiter (wseq w) (Some r) | Some _ => w end.
Definition deliver (r : response) (c : mux) : mux :=
  match responses c !! response_cseq r with
  | Some ch => c <| waiters ::= alter (offer r) ch |>
  | None => c
  end.
(** and [signalReadErr] and [Close]. *)
Definition signalReadErr (e : string) (c : mux) : mux :=
  c <| readErr ::= fun o => match o with None => Some e | Some _ => o end |> <| closed := true |>.
Definition Close (c : mux) : mux := c <| closed := true |>.

(** The outcomes the [select] of [doOnce] can have; taking the read error empties
    its channel. *)
Inductive returns (c : mux) (ch : nat) (ctx_err : option string) : result response -> mux -> Prop :=
| returns_response w r : waiters c !! ch = Some w -> chan w = Some r -> returns c ch ctx_err (Ok r) c
| returns_readErr w e : waiters c !! ch = Some w -> readErr c = Some e ->
    returns c ch ctx_err (match chan w with Some r => Ok r | None => Err e end) (c <| readErr := None |>)
| returns_ctx e : ctx_err = Some e -> returns c ch ctx_err (Err e) c
| returns_closed w : waiters c !! ch = Some w -> closed c = true ->
    returns c ch ctx_err (match chan w with Some r => Ok r | None => Err "RTSP connection closed" end) c.

Inductive event :=
| Enlist | Delist (seq : Z) | Deliver (r : response) | ReadErr (e : string) | DoClose | TakeErr.
Definition step (c : mux) (e : event) (c' : mux) : Prop :=
  match e with
  | Enlist => c' = (enlist c).2
  | Delist seq => c' = delist seq c
  | Deliver r => c' = deliver r c
  | ReadErr e => c' = signalReadErr e c
  | DoClose => c' = Close c
  | TakeErr => c' = c <| readErr := None |>
  end.
#[export] Instance rtsp_mux : Machine mux event := { m_init c := c = mux0; m_step := step }.

(** Every message is in the channel of the request it answers. *)
Record sorted (c : mux) : Prop := {
  sorted_chan : map_Forall (fun _ w => forall r, chan w = Some r -> response_cseq r = wseq w) (waiters c);
  sorted_table : map_Forall (fun seq ch => exists w, waiters c !! ch = Some w /\ wseq w = seq) (responses c);
}.
Lemma enlist_fresh c : waiters c !! fresh (dom (waiters c)) = None.
Proof. apply not_elem_of_dom, is_fresh. Qed.
Lemma sorted_preserved : preserved sorted.
Proof.
  intros c e c' [H1 H2] Hs. destruct e; cbn in Hs; subst c'; [| |unfold deliver|split; [exact H1|exact H2]..].
  - split; cbn.
    + apply map_Forall_insert_2; [done|exact H1].
    + apply map_Forall_insert_2; [eexists; by rewrite lookup_insert_eq|]. intros k i Hki.
      destruct (H2 _ _ Hki) as (w & Hw & Hk). exists w. rewrite lookup_insert_ne; [done|]. intros <-.
      by rewrite enlist_fresh in Hw.
  - split; cbn; [exact H1|]. by apply map_Forall_delete.
  - destruct (responses c !! response_cseq r) as [ch|] eqn:E; [|by split]. destruct (H2 _ _ E) as (w & Hw & Hk). split; cbn.
    + intros i v. rewrite lookup_alter_Some. intros [(<- & w0 & Hw0 & ->)|[_ Hv]]; [|exact (H1 i v Hv)].
      rewrite Hw in Hw0. injection Hw0 as <-. intros r'. unfold offer. destruct (chan w) as [r0|] eqn:Ec; cbn.
      * intros E'. by apply (H1 ch w Hw).
      * intros [= <-]. by rewrite Hk.
    + intros k i Hki. destruct (H2 _ _ Hki) as (v & Hv & Hvk). destruct (decide (ch = i)) as [->|].
      * exists (offer r v). rewrite lookup_alter_eq, Hv. split; [done|]. unfold offer. by destruct (chan v).
      * exists v. by rewrite lookup_alter_ne.
Qed.
Lemma sorted_reachable c : reachable c -> sorted c.
Proof. apply invariant_reachable; [|exact sorted_preserved]. by intros c0 ->. Qed.

(** A request's channel exists for ever and keeps the first message it got. *)
Definition keeps (ch : nat) (seq : Z) (first : option response) (c : mux) : Prop :=
  exists w, waiters c !! ch = Some w /\ wseq w = seq /\ (is_Some first -> chan w = first).
Lemma keeps_preserved ch seq first : preserved (keeps ch seq first).
Proof.
  intros c e c' (w & Hw & Hs & Hf) Hstep. destruct e; cbn in Hstep; subst c'; [| |unfold deliver|exists w; exact (conj Hw (conj Hs Hf))..].
  - exists w. cbn. rewrite lookup_insert_ne; [done|]. intros <-. by rewrite enlist_fresh in Hw.
  - by exists w.
  - destruct (responses c !! _) as [ch'|]; [|by exists w]. destruct (decide (ch' = ch)) as [->|].
    + exists (offer r w). cbn. rewrite lookup_alter_eq, Hw. split; [done|]. unfold offer. destruct (chan w) eqn:E; [by rewrite E|].
      split; [done|]. intros [f ->]. by specialize (Hf ltac:(eauto)).
    + exists w. cbn. by rewrite lookup_alter_ne.
Qed.

(** C40: a request gets its own response, and does not lose it to the end of the
    connection.  However requests, responses and failures interleave, a response
    that [doOnce] returns carries the CSeq of its request; and once the read loop
    has delivered one while the request was waiting, [doOnce] can return nothing
    else - not the read error, nor that the connection is closed - unless its
    own context ends. *)
Theorem rtsp_responses_matched (c c1 c2 : mux) (seq : Z) (ch : nat) (es : list event) :
  reachable c -> enlist c = (seq, ch, c1) -> run c1 es c2 ->
  (forall ctx r c3, returns c2 ch ctx (Ok r) c3 -> response_cseq r = seq) /\
  (forall r es' c3 out c4, responses c2 !! seq = Some ch -> response_cseq r = seq -> (chan <$> waiters c2 !! ch) = Some None ->
     run (deliver r c2) es' c3 -> returns c3 ch None out c4 -> out = Ok r).
Proof.
  intros Hr He Hrun. unfold enlist in He. injection He as Es Ec E1.
  assert (sorted c2) as [Hs _].
  { eapply run_preserves; [exact sorted_preserved|exact Hrun|]. eapply (sorted_preserved c Enlist); [by apply sorted_reachable|].
    by rewrite <- E1. }
  assert (keeps ch seq None c1) as H1.
  { exists (mkWaiter seq None). rewrite <- E1, <- Ec, <- Es. cbn. rewrite lookup_insert_eq. split; [done|]. split; [done|]. by intros [? ?]. }
  pose proof (run_preserves _ _ _ _ (keeps_preserved ch seq None) Hrun H1) as (w & Hw & Hk & _).
  clear Ec Es E1 H1. split.
  - intros ctx r c3 H. inversion H as [w0 r0 Hw0 Hc|w0 e Hw0 He0 Hm|e He0|w0 Hw0 Hcl Hm]; subst; rewrite Hw in Hw0;
      injection Hw0 as <-; [by apply (Hs ch w Hw)|destruct (chan w) as [r1|] eqn:Ec1; [|done]..]; injection Hm as <-; by apply (Hs ch w Hw).
  - intros r es' c3 out c4 Hreg Hseq Hempty Hrun2 Hret. rewrite Hw in Hempty. injection Hempty as Hempty.
    assert (keeps ch seq (Some r) (deliver r c2)) as H2.
    { unfold deliver. rewrite Hseq, Hreg. exists (mkWaiter (wseq w) (Some r)). cbn. rewrite lookup_alter_eq, Hw. cbn. unfold offer. by rewrite Hempty. }
    pose proof (run_preserves _ _ _ _ (keeps_preserved ch seq (Some r)) Hrun2 H2) as (w3 & Hw3 & _ & Hf).
    specialize (Hf ltac:(eauto)). inversion Hret as [w0 r0 Hw0 Hc|w0 e Hw0 He0 Hm|e He0|w0 Hw0 Hcl Hm]; subst; try done;
      rewrite Hw3 in Hw0; injection Hw0 as <-; [congruence|by rewrite Hf..].
Qed.
End Delivery.

(** * The camera's description *)

(** [net/url]: [url.Parse] ([None] is an error), [String], the path, and
    [ResolveReference] for a reference that is not nil. *)
Class NetURL := {
  URL : Type;
  url_Parse : string -> option URL;
  url_String : URL -> string;
  url_Path : URL -> string;
  with_Path : string -> URL -> URL;
  without_RawQuery : URL -> URL;
  ResolveReference : URL -> URL -> URL;
}.

Section description.
Context `{U : Unicode} `{N : NetURL}.

Record Backchannel := mkBackchannel { Codec : string; PayloadType : Z; ControlURL : string }.
Record sdpMedia := mkMedia {
  Kind : string; Payloads : list Z; Control : string; Direction : string; RTPMap : gmap Z string;
}.
#[export] Instance eta_media : Eta sdpMedia := fun m =>
  mkMedia (Kind m) (Payloads m) (Control m) (Direction m) (RTPMap m).

Definition media_of (f : list string) : sdpMedia :=
  mkMedia (default "" (head f)) (omap (fun x => let '(n, ok) := Atoi x in if ok then Some n else None) (drop 3 f)) "" "" ∅.
Definition attribute (a : string) (m : sdpMedia) : sdpMedia :=
  if bool_decide (a ∈ ["sendonly"; "recvonly"; "sendrecv"; "inactive"]) then m <| Direction := a |>
  else if HasPrefix a "control:" then m <| Control := TrimSpace (TrimPrefix a "control:") |>
  else if HasPrefix a "rtpmap:" then
    match SplitN2 (TrimSpace (TrimPrefix a "rtpmap:")) " " with
    | [p; e] => m <| RTPMap ::= <[(Atoi p).1 := TrimSpace e]> |>
    | _ => m
    end
  else m.
(** [cur] is the last section, once there is one. *)
Definition update_last (f : sdpMedia -> sdpMedia) (out : list sdpMedia) : list sdpMedia :=
  match last out with Some m => removelast out ++ [f m] | None => [] end.
Definition sdp_line (out : list sdpMedia) (raw : string) : list sdpMedia :=
  let line := TrimSpace raw in
  if HasPrefix line "m=" then
    let f := Fields (TrimPrefix line "m=") in
    if (4 <=? length f)%nat then out ++ [media_of f] else out
  else if HasPrefix line "a=" then update_last (attribute (TrimPrefix line "a=")) out
  else out.
Definition parseSDP (s : string) : list sdpMedia :=
  foldl sdp_line [] (Split (ReplaceAll s CRLF (String LF "")) (String LF "")).

Definition HasSuffix (s p : string) : bool :=
  (String.length p <=? String.length s)%nat && bool_decide (sdrop (String.length s - String.length p) s = p).
(** [resolveControl]; a control that does not parse is a nil reference. *)
Definition resolveControl (base control : string) : result string :=
  if HasPrefix control "rtsp://" || HasPrefix control "rtsps://" then Ok control
  else
    match url_Parse base with
    | None => Ok (base +:+ "/" +:+ TrimPrefix control "/")
    | Some bu =>
      if HasPrefix control "/" then Ok (url_String (without_RawQuery (with_Path control bu)))
      else
        let bu := if HasSuffix (url_Path bu) "/" then bu else with_Path (url_Path bu +:+ "/") bu in
        match url_Parse control with
        | Some ref => Ok (url_String (ResolveReference bu ref))
        | None => Panic
        end
    end.

(** The codec of a payload type of a section. *)
Definition codec_of (m : sdpMedia) (pt : Z) : option string :=
  let name := ToUpper (default "" (head (SplitN2 (default "" (RTPMap m !! pt)) "/"))) in
  let name := if decide (name = "") then (if pt =? 0 then "PCMU" else if pt =? 8 then "PCMA" else "") else name in
  if decide (name = "PCMA") then Some "pcma" else if decide (name = "PCMU") then Some "pcmu" else None.
Definition backchannels (m : sdpMedia) : list (string * Z * string) :=
  if bool_decide (Kind m = "audio") && bool_decide (Direction m = "sendonly")
  then omap (fun pt => codec ← codec_of m pt; Some (codec, u8 pt, Control m)) (Payloads m) else [].
Definition findBackchannel (sdp base : string) : result Backchannel :=
  match concat (map backchannels (parseSDP sdp)) with
  | (codec, pt, control) :: _ => url ← resolveControl base control; Ok (mkBackchannel codec pt url)
  | [] => Err "no G.711 ONVIF audio backchannel found in RTSP SDP"
  end.

(** A control attribute that [net/url] does not parse, such as one with a bad
    escape, makes the client dereference a nil URL. *)
Lemma resolveControl_panics base control bu :
  HasPrefix control "rtsp://" = false -> HasPrefix control "rtsps://" = false -> HasPrefix control "/" = false ->
  url_Parse base = Some bu -> url_Parse control = None -> resolveControl base control = Panic.
Proof. intros H1 H2 H3 H4 H5. unfold resolveControl. by rewrite H1, H2, H4, H3, H5. Qed.

(** [byte(a)] of the channels of a Transport header. *)
Definition interleaved_part (ch : Z * Z) (p : string) : Z * Z :=
  let p := ToLower (TrimSpace p) in
  if HasPrefix p "interleaved=" then
    match SplitN2 (TrimPrefix p "interleaved=") "-" with
    | [a; b] => (u8 (Atoi a).1, u8 (Atoi b).1)
    | _ => ch
    end
  else ch.
Definition parseInterleaved (transport : string) (ch : Z * Z) : Z * Z := foldl interleaved_part ch (Split transport ";").
(** The session and its timeout, a [time.Duration]. *)
Definition second : Z := 1000000000.
Definition session_part (timeout : Z) (part : string) : Z :=
  match SplitN2 (TrimSpace part) "=" with
  | [k; v] =>
    if EqualFold k "timeout" then
      let '(sec, ok) := Atoi (TrimSpace v) in if ok && (0 <? sec) then swrap 64 (sec * second) else timeout
    else timeout
  | _ => timeout
  end.
Definition parseSession (s : string) : string * Z :=
  let parts := Split s ";" in (TrimSpace (default "" (head parts)), foldl session_part 0 (tail parts)).

(** * Opening a session *)

Record opened := mkOpened {
  o_backchannel : Backchannel; o_base : string; o_timeout : Z; o_channels : Z * Z;
}.
Definition onvif : string * string := ("Require", "www.onvif.org/ver20/backchannel").

Section open.
Context (username password rtspURL : string) (cnonce : Z -> string).
(** A request that has to be answered with 200. *)
Definition request_200 (method uri : string) (headers : list (string * string)) (c : conn) : result response * conn :=
  let '(r, c) := do_ username password method uri headers "" cnonce c in
  (res ← r; _ ← fail_if (negb (StatusCode res =? 200)) (method +:+ " returned"); Ok res, c).
(** [Open] on a connection; an error closes it. *)
Definition Open (c : conn) : result opened * conn :=
  let '(r, c) := request_200 "DESCRIBE" rtspURL [("Accept", "application/sdp"); onvif] c in
  match r with
  | Ok res =>
    let cb := default "" (RHeader res !! "content-base") in
    let base := if decide (cb = "") then rtspURL else cb in
    match findBackchannel (RBody res) base with
    | Ok bc =>
      let '(r, c) := request_200 "SETUP" (ControlURL bc) [("Transport", "RTP/AVP/TCP;unicast;interleaved=0-1"); onvif] c in
      match r with
      | Ok res =>
        let '(id, timeout) := parseSession (default "" (RHeader res !! "session")) in
        let c := c <| session := id |> in
        if decide (id = "") then (Err "SETUP response did not include an RTSP Session header", c)
        else
          let tr := default "" (RHeader res !! "transport") in
          let ch := if decide (tr = "") then (0, 1) else parseInterleaved tr (0, 1) in
          let '(r, c) := request_200 "PLAY" base [onvif] c in
          match r with
          | Ok _ => (Ok (mkOpened bc base timeout ch), c)
          | Err e => (Err e, c)
          | Panic => (Panic, c)
          end
      | Err e => (Err e, c)
      | Panic => (Panic, c)
      end
    | Err e => (Err e, c)
    | Panic => (Panic, c)
    end
  | Err e => (Err e, c)
  | Panic => (Panic, c)
  end.
End open.

(** ** Keeping the session *)

Definition keepalive_interval (sessionTimeout : Z) : Z :=
  let interval := 20 * second in
  let half := Z.quot sessionTimeout 2 in
  let interval := if (0 <? sessionTimeout) && (half <? interval) then half else interval in
  if interval <? 5 * second then 5 * second else interval.
Definition is_success (r : result response) : bool :=
  match r with Ok res => (200 <=? StatusCode res) && (StatusCode res <? 300) | _ => false end.
(** One tick of [keepalive]: the failures so far, [None] when it gives up. *)
Definition keepalive_tick (failures : Z) (get_parameter options : result response) : option Z :=
  if is_success get_parameter || is_success options then Some 0
  else if 3 <=? failures + 1 then None else Some (failures + 1).
End description.

(** * Audio *)

Record media := mkMediaState { ssrc : Z; seq : Z; timestamp : Z; packets : Z; octets : Z }.
(** [WriteAudio] on an open connection: the packet that is written. *)
Definition WriteAudio (payload : bytes) (payloadType : Z) (m : media) : Rtp.Packet * media :=
  (Rtp.mkPacket payloadType false (seq m) (timestamp m) (ssrc m) payload,
   mkMediaState (ssrc m) (u16 (seq m + 1)) (u32 (timestamp m + u32 (len payload))) (u32 (packets m + 1))
     (u32 (octets m + u32 (len payload)))).
Definition write_packet (rtpChannel : Z) (p : Rtp.Packet) : string := writeInterleaved rtpChannel (Rtp.Marshal p).
Definition sender_report (rtcpChannel : Z) (m : media) (sec frac : Z) : string :=
  writeInterleaved rtcpChannel (Rtp.SenderReport (ssrc m) (timestamp m) (packets m) (octets m) sec frac).
(** [ntp] of a time: seconds and nanoseconds since 1970. *)
Definition ntp (sec nanos : Z) : Z * Z := (u32 (sec + 2208988800), u32 (u64 (Z.shiftl nanos 32) / 1000000000)).

Lemma wrap_add_mid w a b c : wrap w (a + wrap w b + c) = wrap w (a + (b + c)).
Proof. rewrite <- wrap_add_l, wrap_add_r, wrap_add_l. f_equal. lia. Qed.
Fixpoint write_all (pt : Z) (ps : list bytes) (m : media) : list Rtp.Packet * media :=
  match ps with
  | [] => ([], m)
  | p :: ps => let '(q, m) := WriteAudio p pt m in let '(qs, m) := write_all pt ps m in (q :: qs, m)
  end.
Definition total (ps : list bytes) : Z := len (concat ps).

(** The audio sent to the camera is one continuous RTP stream.  Of any blocks
    written, block i goes out unchanged under the i-th sequence number, with a
    timestamp as far from the first as the samples before it - both counting on
    across the end of their fields; and a sender report at any point carries the
    timestamp of the next sample and the packets and octets sent. *)
Theorem audio_continuous (pt : Z) (ps : list bytes) (m m' : media) (qs : list Rtp.Packet) :
  fits 16 (seq m) -> fits 32 (timestamp m) -> fits 32 (packets m) -> fits 32 (octets m) ->
  write_all pt ps m = (qs, m') ->
  map Rtp.Payload qs = ps /\
  (forall i q, qs !! i = Some q -> Rtp.SSRC q = ssrc m /\ Rtp.PayloadType q = pt /\
     Rtp.Sequence q = u16 (seq m + Z.of_nat i) /\ Rtp.Timestamp q = u32 (timestamp m + total (take i ps))) /\
  m' = mkMediaState (ssrc m) (u16 (seq m + len ps)) (u32 (timestamp m + total ps)) (u32 (packets m + len ps))
         (u32 (octets m + total ps)).
Proof.
  revert m qs. induction ps as [|p ps IH]; intros m qs H1 H2 H3 H4 H; cbn [write_all] in H.
  { injection H as <- <-. split; [done|]. split; [done|]. unfold total. cbn. rewrite !Z.add_0_r, !wrap_id by done. by destruct m. }
  destruct (WriteAudio p pt m) as [q m1] eqn:E. unfold WriteAudio in E. injection E as <- <-.
  destruct (write_all pt ps _) as [qs1 m2] eqn:E1. injection H as <- <-.
  apply IH in E1 as (I1 & I2 & I3); [|apply wrap_fits; lia..].
  assert (forall l, total (p :: l) = len p + total l) as Ht by (intros l; unfold total; cbn [concat]; by rewrite len_app).
  split; [cbn; by rewrite I1|]. split.
  - intros [|i] q Hq; cbn in Hq.
    + injection Hq as <-. unfold total. cbn. by rewrite !Z.add_0_r, !wrap_id.
    + destruct (I2 i q Hq) as (J1 & J2 & J3 & J4). cbn in J1, J3, J4. split; [done|]. split; [done|].
      rewrite J3, J4. cbn [take]. rewrite Ht. rewrite !wrap_add_l, wrap_add_mid. split; [f_equal; lia|done].
  - rewrite I3. cbn [ssrc seq timestamp packets octets]. rewrite Ht, !wrap_add_l, !wrap_add_mid. cbn [length].
    f_equal; f_equal; lia.
Qed.

(** * Witnesses *)

#[local] Existing Instance ascii_tables.

Definition reply_of (code : Z) (hs : list (string * string)) : response :=
  mkResponse code "" (list_to_map hs) (list_to_map (map (fun h => (h.1, [h.2])) hs)) "".
Definition in_quotes (s : string) : string := String (chr 34) (s +:+ String (chr 34) "").
Definition unauthorized : response :=
  reply_of 401 [("www-authenticate", "Digest realm=" +:+ in_quotes "cam" +:+ ", nonce=" +:+ in_quotes "n1")].
Definition conn0 : conn := mkConn 4 None 0 "" [Ok unauthorized; Ok unauthorized; Ok (reply_of 200 [])] [].
Definition options (c : conn) : result response * conn := do_ "admin" "pw" "OPTIONS" "rtsp://cam/" [] "" (fun _ => "0a0b") c.

Lemma do_authenticates_witness :
  exists x l, log (options conn0).2 = x :: l /\ length l = 2%nat /\ x_auth x = None /\ answered x l /\
    map (fun y => option_map snd (x_auth y)) l = [Some 1; Some 2].
Proof.
  destruct (do_authenticates "admin" "pw" "OPTIONS" "rtsp://cam/" [] "" (fun _ => "0a0b") conn0 (options conn0).2 (options conn0).1)
    as (x & l & Hl & _ & _ & Hx & Ha & _).
  - vm_compute. reflexivity.
  - exists x, l. split; [exact Hl|].
    assert (length (log (options conn0).2) = 3%nat) as Hlen by (vm_compute; reflexivity). rewrite Hl in Hlen.
    split; [by injection Hlen|]. split; [exact Hx|]. split; [exact Ha|].
    assert (map (fun y => option_map snd (x_auth y)) (log (options conn0).2) = [None; Some 1; Some 2]) as Hm by (vm_compute; reflexivity).
    rewrite Hl in Hm. by injection Hm.
Defined.

Lemma audio_continuous_witness :
  exists qs m', write_all 8 [[1; 2]; [3]] (mkMediaState 7 65535 0 0 0) = (qs, m') /\
    map Rtp.Payload qs = [[1; 2]; [3]] /\ m' = mkMediaState 7 1 3 2 3.
Proof.
  eexists _, _. split; [reflexivity|].
  destruct (audio_continuous 8 [[1; 2]; [3]] (mkMediaState 7 65535 0 0 0) (mkMediaState 7 1 3 2 3)
              [Rtp.mkPacket 8 false 65535 0 7 [1; 2]; Rtp.mkPacket 8 false 0 2 7 [3]])
    as (H & _ & _); [apply (bool_decide_unpack _); vm_compute; exact I..|vm_compute; reflexivity|].
  split; [exact H|]. vm_compute. reflexivity.
Defined.

Lemma rtsp_responses_matched_witness :
  let '(seq, ch, c1) := Delivery.enlist Delivery.mux0 in
  forall out c4, Delivery.returns (Delivery.signalReadErr "EOF" (Delivery.deliver (reply_of 200 [("cseq", "1")]) c1)) ch None out c4 ->
    out = Ok (reply_of 200 [("cseq", "1")]).
Proof.
  destruct (Delivery.enlist Delivery.mux0) as [[seq ch] c1] eqn:E. intros out c4 Hret.
  destruct (Delivery.rtsp_responses_matched Delivery.mux0 c1 c1 seq ch []) as [_ H].
  - by apply reachable_init.
  - exact E.
  - constructor.
  - apply (H (reply_of 200 [("cseq", "1")]) [Delivery.ReadErr "EOF"] _ out c4) in Hret; [exact Hret|..].
    + vm_compute in E. injection E as <- <- <-. reflexivity.
    + vm_compute in E. injection E as <- <- <-. vm_compute. reflexivity.
    + vm_compute in E. injection E as <- <- <-. reflexivity.
    + eapply run_cons; [reflexivity|apply run_nil].
Defined.
End RtspClient.
