(* ===== verification/Talkback.v ===== *)
(** Opening, closing and the connection tone of the two talkback transports: the rest of
    [internal/media/talkback.go] (its loops are in [PhoneBridge]).

    The results of dialling and of each write are inputs; times are nanoseconds.  A wait is what
    the clock showed when it began and what cut it short; one that is not cut ends at its deadline. *)
From S2P Require Import Prelude GoBytes GoStrings GoText Rtp Adpcm G711 BcWire BcMedia BcTalk RtspClient Resample Playout Sequencer PhoneBuffer Sdp SipDialog PhoneBridge.

Module Talkback.
#[local] Existing Instances BcTalk.eta_client BcTalk.eta_session.

Definition Second : Z := 1000000000.
Definition Millisecond : Z := 1000000.
Definition block_duration (samples rate : Z) : Z := Z.quot (Second * samples) rate.

Record TalkbackInfo := mkInfo { Mode : string; Codec : string; SampleRate : Z; SamplePrecision : Z; InfoChannel : Z }.

Section talkback.
Context `{U : Unicode} `{X : BcTalk.TalkXml}.

(** [Info], less the text for people. *)
Definition rtsp_Info (bc : RtspClient.Backchannel) : TalkbackInfo := mkInfo "standalone" (RtspClient.Codec bc) 8000 0 0.
Definition audio_of (s : BcTalk.TalkSession) : BcTalk.TalkAudioConfig := BcTalk.AudioConfig (BcTalk.config s).
Definition baichuan_Info (channel : Z) (s : BcTalk.TalkSession) : TalkbackInfo :=
  mkInfo "nvr" (ToLower (BcTalk.AudioType (audio_of s))) (BcTalk.SampleRate (audio_of s)) (BcTalk.SamplePrecision (audio_of s)) channel.

(** * Opening and closing *)

Definition validateBaichuanTalkProfile (audioType : string) (precision rate samplesPerBlock : Z) : result unit :=
  _ ← fail_if (negb (EqualFold audioType "adpcm")) "unsupported Baichuan talk codec";
  _ ← fail_if (negb (precision =? 0) && negb (precision =? 16)) "unsupported Baichuan sample precision";
  _ ← fail_if ((rate <? 8000) || (48000 <? rate) || (samplesPerBlock <? 2) || negb (samplesPerBlock mod 2 =? 0)) "unsupported Baichuan audio profile";
  let d := block_duration samplesPerBlock rate in
  fail_if ((d <? 5 * Millisecond) || (500 * Millisecond <? d)) "unsafe Baichuan audio block duration".

(** A connection to the device and whether it was closed. *)
Record link := mkLink { conn : BcTalk.client; closed : bool }.
(** [dialed] is the result of [baichuan.Dial]. *)
Definition openBaichuanTalkback (ch : Z) (dialed : result BcTalk.client) : option link * result BcTalk.TalkSession :=
  match dialed with
  | Err e => (None, Err ("connect Reolink Basic Service: " +:+ e))
  | Panic => (None, Panic)
  | Ok c =>
    match BcTalk.StartTalk (u8 ch) c with
    | (inl e, c) => (Some (mkLink c true), Err "start Baichuan talk channel")
    | (inr s, c) =>
      match validateBaichuanTalkProfile (BcTalk.AudioType (audio_of s)) (BcTalk.SamplePrecision (audio_of s)) (BcTalk.SampleRate (audio_of s))
              (BcTalk.samplesPerBlock s) with
      | Ok _ => (Some (mkLink c false), Ok s)
      | Err e => let '(_, c, _) := BcTalk.Close s c in (Some (mkLink c true), Err e)
      | Panic => (Some (mkLink c false), Panic) (* the validation does not panic *)
      end
    end
  end.
(** [errors.Is(err, context.Canceled)] of what stopping the session returned. *)
Definition is_canceled (e : BcTalk.error) : bool :=
  match e with BcTalk.OtherError x => bool_decide (x = "context canceled") | _ => false end.
(** [Close]: the talk is stopped, then the connection closed; an error of the stop is reported unless it is the
    cancellation.  Closing the connection gives no error. *)
Definition Close (s : BcTalk.TalkSession) (l : link) : result unit * link * BcTalk.TalkSession :=
  let '(r, c, s) := BcTalk.Close s (conn l) in
  (match r with inl e => if is_canceled e then Ok tt else Err "stop Baichuan talk" | inr _ => Ok tt end, mkLink c true, s).

(** The transports: what opening them gave. *)
Inductive transport := Standalone (o : RtspClient.opened) | NVR (s : BcTalk.TalkSession).
Definition openConfiguredTalkbackWith (mode : string) (rtspOpen : result RtspClient.opened) (baichuanOpen : result BcTalk.TalkSession) : result transport :=
  if decide (mode = "nvr") then
    match baichuanOpen with Ok s => Ok (NVR s) | Err e => Err ("NVR talkback: " +:+ e) | Panic => Panic end
  else if decide (mode = "standalone") then
    match rtspOpen with Ok o => Ok (Standalone o) | Err e => Err ("standalone ONVIF talkback: " +:+ e) | Panic => Panic end
  else if decide (mode = "auto") then Err "Reolink auto mode was not resolved during startup"
  else Err "unsupported connection mode".
Definition Info (channel : Z) (t : transport) : TalkbackInfo :=
  match t with Standalone o => rtsp_Info (RtspClient.o_backchannel o) | NVR s => baichuan_Info channel s end.

(** * The connection tone *)

Record wait := mkWait { w_now : Z; w_cut : option string }.
(** The error, and the earliest time at which it returns. *)
Definition waitTalkDeadline (w : wait) (deadline : Z) : option string * Z :=
  if deadline - w_now w <=? 0 then (None, w_now w)
  else match w_cut w with Some e => (Some e, w_now w) | None => (None, deadline) end.
(** Block [i], padded with silence. *)
Definition block_at (pcm : list Z) (blockSamples : nat) (i : nat) : list Z :=
  let b := take blockSamples (drop (i * blockSamples) pcm) in b ++ replicate (blockSamples - length b) 0.
Definition blocks_of (pcm : list Z) (blockSamples : nat) : nat := ((length pcm + blockSamples - 1) / blockSamples)%nat.

Section play.
Context {S : Type} (write : list Z -> S -> S * option string) (waits : nat -> wait) (duration : Z).
(** The loop from block [i] on; [next] is the deadline so far.  The state, the error, the time of the return. *)
Fixpoint play_blocks (i : nat) (blocks : list (list Z)) (next now : Z) (s : S) : S * option string * Z :=
  match blocks with
  | [] => let '(e, t) := waitTalkDeadline (waits i) (next + duration) in (s, e, t)
  | b :: blocks =>
    let '(next, (e, now)) :=
      match i with
      | O => (next, (None, now))
      | _ => (next + duration, waitTalkDeadline (waits i) (next + duration))
      end in
    match e with
    | Some e => (s, Some e, now)
    | None =>
      match write b s with
      | (s, Some e) => (s, Some e, now)
      | (s, None) => play_blocks (i + 1) blocks next now s
      end
    end
  end.
Definition playPCMBlocks (pcm : list Z) (blockSamples now : Z) (s : S) : S * option string * Z :=
  if decide (pcm = []) then (s, None, now)
  else if (blockSamples <=? 0) || (duration <=? 0) then (s, Some "invalid connection-tone block profile", now)
  else
    let n := Z.to_nat blockSamples in
    play_blocks 0 (map (block_at pcm n) (seq 0 (blocks_of pcm n))) now now s.
End play.

(** What a transport has done: the encoder and the session or the RTP stream, what was written, what the echo canceller was told. *)
Record player := mkPlayer { enc : Adpcm.ADPCM; session : BcTalk.TalkSession; requests : list BcWire.request; told : list (list Z * Z) }.
(** [io] is the error of each write, [num] the message number, [at_] the time it starts; [observing]: the canceller wants the reference. *)
Definition write_adpcm (num : nat -> Z) (io : nat -> option string) (at_ : nat -> Z) (observing : bool) (block : list Z) (p : player) : player * option string :=
  let i := length (requests p) in
  match Adpcm.EncodeBlock (enc p) block with
  | Panic => (p, Some "panic")
  | Err e => (p, Some ("encode connection tone: " +:+ e))
  | Ok (encoded, e) =>
    let encoded := default [] encoded in
    let p := mkPlayer e (session p) (requests p) (told p) in
    match BcTalk.WriteADPCMBlock (session p) None encoded (num i) with
    | Panic => (p, Some "panic")
    | Err e => (p, Some e)
    | Ok (req, s) =>
      match io i with
      | Some e => (mkPlayer (enc p) s (requests p) (told p), Some e)
      | None =>
        (mkPlayer (enc p) s (requests p ++ [req])
           (told p ++ (if observing then PhoneBridge.ObserveBaichuanPlayout encoded (BcTalk.SampleRate (audio_of s)) (at_ i) else [])), None)
      end
    end
  end.
Definition baichuan_PlayPCM (num : nat -> Z) (io : nat -> option string) (at_ : nat -> Z) (observing : bool) (waits : nat -> wait) (pcm : list Z) (now : Z)
    (s : BcTalk.TalkSession) : player * option string * Z :=
  let rate := BcTalk.SampleRate (audio_of s) in
  let n := BcTalk.samplesPerBlock s in
  let p := mkPlayer Adpcm.zero s [] [] in
  if (rate <=? 0) || (n <? 2) || negb (n mod 2 =? 0) then (p, Some "invalid Baichuan connection-tone profile", now)
  else playPCMBlocks (write_adpcm num io at_ observing) waits (block_duration n rate) pcm n now p.

Record rtsp_player := mkRtspPlayer { stream : RtspClient.media; packets : list Rtp.Packet; rtold : list (list Z * Z) }.
Definition write_g711 (codec : string) (pt : Z) (io : nat -> option string) (at_ : nat -> Z) (observing : bool) (block : list Z) (p : rtsp_player) : rtsp_player * option string :=
  let i := length (packets p) in
  let payload := default [] (G711.EncodePCM block codec) in
  let '(pkt, m) := RtspClient.WriteAudio payload pt (stream p) in
  match io i with
  | Some e => (mkRtspPlayer m (packets p) (rtold p), Some e)
  | None =>
    (mkRtspPlayer m (packets p ++ [pkt]) (rtold p ++ (if observing then PhoneBridge.ObserveG711Playout payload codec (at_ i) else [])), None)
  end.
Definition rtsp_PlayPCM (bc : RtspClient.Backchannel) (io : nat -> option string) (at_ : nat -> Z) (observing : bool) (waits : nat -> wait) (pcm : list Z) (now : Z)
    (m : RtspClient.media) : rtsp_player * option string * Z :=
  let codecName := ToLower (TrimSpace (RtspClient.Codec bc)) in
  let p := mkRtspPlayer m [] [] in
  if negb (bool_decide (codecName = G711.PCMA)) && negb (bool_decide (codecName = G711.PCMU)) then (p, Some "unsupported RTSP backchannel codec for connection tone", now)
  else playPCMBlocks (write_g711 codecName (RtspClient.PayloadType bc) io at_ observing) waits (20 * Millisecond) pcm 160 now p.
End talkback.
(** * Properties *)
Section opened.
Context `{U : Unicode} `{X : BcTalk.TalkXml}.

Lemma valid_profile ty p rate n :
  validateBaichuanTalkProfile ty p rate n = Ok tt ->
  EqualFold ty "adpcm" = true /\ (p = 0 \/ p = 16) /\ 8000 <= rate <= 48000 /\ 2 <= n /\ n mod 2 = 0 /\
  5 * Millisecond <= block_duration n rate <= 500 * Millisecond.
Proof.
  unfold validateBaichuanTalkProfile. cbv zeta.
  repeat match goal with |- context [fail_if ?b ?e] => destruct b eqn:?; cbn [fail_if mbind result_bind]; [done|] end.
  intros _. split; [by apply negb_false_iff|]. unfold Millisecond in *. lia.
Qed.
Lemma profile_total ty p rate n : exists r, validateBaichuanTalkProfile ty p rate n = r /\ (r = Ok tt \/ exists e, r = Err e).
Proof. eexists; split; [reflexivity|]. unfold validateBaichuanTalkProfile, fail_if. repeat (case_match; cbn; try by eauto). Qed.

Lemma negotiate_ext ch c cfg c1 : BcTalk.negotiate ch c = (inr cfg, c1) -> is_ok (BcTalk.marshal_extension ch false) = true.
Proof.
  unfold BcTalk.negotiate. intros Hn.
  do 3 apply BcTalk.bind_inv in Hn as [(e & _ & [=])|(? & ? & _ & Hn)].
  apply BcTalk.bind_inv in Hn as [(e & _ & [=])|(u & c4 & H4 & Hn)]. injection Hn as -> ->.
  by apply BcTalk.startTalkSession_ok in H4 as [? _].
Qed.
Lemma StartTalk_negotiates ch c s c' : BcTalk.StartTalk ch c = (inr s, c') -> exists cfg, BcTalk.negotiate ch c = (inr cfg, c').
Proof.
  unfold BcTalk.StartTalk. intros [(e & _ & [=])|(cfg & c1 & H & H')]%BcTalk.bind_inv. exists cfg. rewrite H. f_equal.
  unfold BcTalk.new_session in H'. pose proof (negotiate_ext _ _ _ _ H) as Hx.
  destruct (BcTalk.marshal_extension ch true); [|by apply BcTalk.abandon_spec in H' as [? _]..].
  cbv zeta in H'. case_match; [by apply BcTalk.abandon_spec in H' as [? _]|]. by injection H' as _ <-.
Qed.
(** A request was added, and it stops the talk on the channel. *)
Definition stopped (ch : Z) (before after : BcTalk.client) : Prop :=
  exists q, BcTalk.sent after = BcTalk.sent before ++ [q] /\ BcWire.rMsgID q = BcWire.msgIDTalkReset /\ BcWire.rChannelID q = ch.
Lemma Close_stops s c r c' s' :
  is_ok (BcTalk.marshal_extension (BcTalk.channel s) false) = true -> BcTalk.once s = false -> BcTalk.Close s c = (r, c', s') ->
  stopped (BcTalk.channel s) c c' /\ BcTalk.sclosed s' = true /\ BcTalk.once s' = true.
Proof.
  intros Hx Ho. unfold BcTalk.Close. rewrite Ho. destruct (BcTalk.stopTalk (BcTalk.channel s) c) as [r1 c1] eqn:E. intros [= <- <- <-].
  split; [|done]. destruct (BcTalk.marshal_extension (BcTalk.channel s) false) as [ext| |] eqn:Ee; [|done..].
  by eapply BcTalk.stopTalk_sends.
Qed.
End opened.
Section safety.
Context `{U : Unicode} `{X : BcTalk.TalkXml}.

Lemma StartTalk_once ch c s c' : BcTalk.StartTalk ch c = (inr s, c') -> BcTalk.once s = false.
Proof.
  unfold BcTalk.StartTalk. intros [(e & _ & [=])|(cfg & c1 & H & H')]%BcTalk.bind_inv.
  unfold BcTalk.new_session in H'. pose proof (negotiate_ext _ _ _ _ H) as Hx.
  destruct (BcTalk.marshal_extension ch true); [|by apply BcTalk.abandon_spec in H' as [? _]..].
  cbv zeta in H'. case_match; [by apply BcTalk.abandon_spec in H' as [? _]|]. by injection H' as <- _.
Qed.

(** [Close] reports exactly the failures of the reset that are not the cancellation. *)
Lemma Close_reports s l : BcTalk.once s = false ->
  (Close s l).1.1 = Err "stop Baichuan talk" <-> exists e, (BcTalk.stopTalk (BcTalk.channel s) (conn l)).1 = inl e /\ is_canceled e = false.
Proof.
  intros Ho. unfold Close, BcTalk.Close. rewrite Ho. destruct (BcTalk.stopTalk _ _) as [[e|[]] c]; cbn [fst].
  - destruct (is_canceled e) eqn:E; split; try done; [|by exists e]. intros (x & [= <-] & Hx). congruence.
  - split; [done|]. by intros (x & ? & _).
Qed.

(** C22: a talkback to an NVR is either open with a profile the bridge can use or its connection is closed, and
    the device is never left talking.  When opening succeeds, the session belongs to the configured channel, the
    connection is open, and the negotiated profile is 8 to 48 kHz ADPCM with an even block of 5 to 500 ms whose
    encoded size is that of the encoder; [Close] then sends exactly one reset for the channel, closes the
    connection, makes every later write fail, and does nothing the second time.  When it fails the connection
    has been closed, and if the device had accepted a profile a reset was sent for the channel after it. *)
Theorem talkback_opened_or_closed (ch : Z) (c : BcTalk.client) (l : option link) (r : result BcTalk.TalkSession) :
  openBaichuanTalkback ch (Ok c) = (l, r) ->
  exists k, l = Some k /\
  match r with
  | Ok s =>
    closed k = false /\ BcTalk.channel s = u8 ch /\ BcTalk.sclosed s = false /\
    (let a := audio_of s in let n := BcTalk.samplesPerBlock s in
     EqualFold (BcTalk.AudioType a) "adpcm" = true /\ 8000 <= BcTalk.SampleRate a <= 48000 /\ 2 <= n /\ n mod 2 = 0 /\
     5 * Millisecond <= block_duration n (BcTalk.SampleRate a) <= 500 * Millisecond /\ BcTalk.bytesPerBlock s = n / 2 + 4) /\
    forall r' k' s', Close s k = (r', k', s') ->
      closed k' = true /\ stopped (u8 ch) (conn k) (conn k') /\
      (forall blk num, is_ok (BcTalk.WriteADPCMBlock s' None blk num) = false) /\
      Close s' k' = (Ok tt, k', s')
  | Err _ =>
    closed k = true /\
    forall cfg c1, BcTalk.negotiate (u8 ch) c = (inr cfg, c1) -> stopped (u8 ch) c1 (conn k)
  | Panic => False
  end.
Proof.
  unfold openBaichuanTalkback. destruct (BcTalk.StartTalk (u8 ch) c) as [[e|s] c'] eqn:E.
  { intros [= <- <-]. eexists; split; [reflexivity|]. split; [done|]. intros cfg c1 Hn.
    destruct (BcTalk.StartTalk_no_leak _ _ _ _ _ _ Hn E) as [_ H]. exact H. }
  destruct (StartTalk_negotiates _ _ _ _ E) as [cfg Hn]. pose proof (negotiate_ext _ _ _ _ Hn) as Hx.
  destruct (BcTalk.StartTalk_no_leak _ _ _ _ _ _ Hn E) as (_ & _ & Hc & _ & Hcl & _ & _ & _ & _ & Hb).
  pose proof (StartTalk_once _ _ _ _ E) as Ho.
  destruct (profile_total (BcTalk.AudioType (audio_of s)) (BcTalk.SamplePrecision (audio_of s)) (BcTalk.SampleRate (audio_of s))
              (BcTalk.samplesPerBlock s)) as (r0 & Hr & [->|[e ->]]); rewrite Hr.
  - intros [= <- <-]. eexists; split; [reflexivity|]. split; [done|]. split; [done|]. split; [done|].
    destruct (valid_profile _ _ _ _ Hr) as (? & _ & ? & ? & ? & ?). split; [by repeat split; try lia|].
    intros r' k' s'. unfold Close. destruct (BcTalk.Close s _) as [[r1 c1] s1] eqn:Ec. intros [= <- <- <-].
    rewrite <- Hc in Hx. destruct (Close_stops _ _ _ _ _ Hx Ho Ec) as (K1 & K2 & K3). rewrite Hc in K1.
    split; [done|]. split; [done|]. split.
    + intros blk num. unfold BcTalk.WriteADPCMBlock. by rewrite K2.
    + unfold BcTalk.Close. by rewrite K3.
  - destruct (BcTalk.Close s c') as [[r1 c1] s1] eqn:Ec. intros [= <- <-]. eexists; split; [reflexivity|]. split; [done|].
    intros cfg' c2 Hn'. rewrite Hn in Hn'. injection Hn' as <- <-. rewrite <- Hc in Hx |- *.
    by destruct (Close_stops _ _ _ _ _ Hx Ho Ec) as [? _].
Qed.
End safety.
(** ** The tone *)

Lemma block_at_length pcm n i : length (block_at pcm n i) = n.
Proof. unfold block_at. rewrite length_app, length_replicate, length_take. lia. Qed.
Lemma blocks_concat pcm n k :
  ((k - 1) * n <= length pcm)%nat ->
  concat (map (block_at pcm n) (seq 0 k)) = take (k * n) pcm ++ replicate (k * n - length pcm) 0.
Proof.
  induction k as [|k IH]; intros H; [done|]. rewrite seq_S, map_app, concat_app, IH by nia. cbn [map concat Nat.add]. rewrite app_nil_r.
  replace (S k - 1)%nat with k in H by lia. replace (k * n - length pcm)%nat with 0%nat by lia. cbn [replicate]. rewrite app_nil_r.
  unfold block_at. rewrite app_assoc, take_take_drop. f_equal; [f_equal; lia|]. f_equal. rewrite length_take, length_drop. lia.
Qed.
(** The blocks of [pcm]: its samples and silence to the end of the last block. *)
Lemma blocks_of_concat pcm n :
  (0 < n)%nat ->
  exists z, (z < n)%nat /\ concat (map (block_at pcm n) (seq 0 (blocks_of pcm n))) = pcm ++ replicate z 0.
Proof.
  intros Hn. unfold blocks_of. set (k := ((length pcm + n - 1) / n)%nat).
  assert (k * n <= length pcm + n - 1 /\ length pcm + n - 1 < (k + 1) * n)%nat as [H1 H2].
  { pose proof (Nat.div_mod_eq (length pcm + n - 1) n) as H. pose proof (Nat.mod_upper_bound (length pcm + n - 1) n ltac:(lia)). fold k in H. nia. }
  exists (k * n - length pcm)%nat. split; [lia|]. rewrite blocks_concat by nia. rewrite take_ge; [done|nia].
Qed.

Section play_spec.
Context {S : Type} (write : list Z -> S -> S * option string) (waits : nat -> wait) (duration : Z).
Context (I : list (list Z) -> S -> Prop) (n : nat).
Hypothesis (Huncut : forall i, w_cut (waits i) = None).
Hypothesis (Hwrite : forall l b s, I l s -> length b = n -> exists s', write b s = (s', None) /\ I (l ++ [b]) s').

Lemma wait_reaches i d : exists t, waitTalkDeadline (waits i) d = (None, t) /\ d <= t.
Proof. unfold waitTalkDeadline. rewrite Huncut. destruct (Z.leb_spec (d - w_now (waits i)) 0); eexists; (split; [reflexivity|lia]). Qed.
Lemma play_rest blocks : forall i l next now s,
  I l s -> Forall (fun b => length b = n) blocks ->
  exists s' t, play_blocks write waits duration (1 + i) blocks next now s = (s', None, t) /\ I (l ++ blocks) s' /\
    next + (len blocks + 1) * duration <= t.
Proof.
  induction blocks as [|b blocks IH]; intros i l next now s Hi Hf; cbn [play_blocks Nat.add].
  - destruct (wait_reaches (1 + i) (next + duration)) as (t & Hw & Ht). cbn [Nat.add] in Hw. rewrite Hw. exists s, t.
    rewrite app_nil_r. split; [done|]. split; [done|]. cbn. lia.
  - apply Forall_cons_1 in Hf as [Hb Hf']. destruct (wait_reaches (1 + i) (next + duration)) as (t & Hw & Ht). cbn [Nat.add] in Hw. rewrite Hw.
    destruct (Hwrite l b s Hi Hb) as (s1 & Hw1 & Hi1). rewrite Hw1.
    destruct (IH (i + 1)%nat (l ++ [b]) (next + duration) t s1 Hi1 Hf') as (s2 & t2 & H1 & H2 & H3). rewrite <- app_assoc in H2.
    exists s2, t2. split; [exact H1|]. split; [exact H2|]. rewrite len_cons. nia.
Qed.
Lemma play_all pcm now s :
  I [] s -> pcm <> [] -> (0 < n)%nat -> 0 < duration ->
  let blocks := map (block_at pcm n) (seq 0 (blocks_of pcm n)) in
  exists s' t, playPCMBlocks write waits duration pcm (Z.of_nat n) now s = (s', None, t) /\ I blocks s' /\
    now + len blocks * duration <= t.
Proof.
  intros Hi Hp Hn Hd. cbv zeta. unfold playPCMBlocks. rewrite decide_False by done.
  destruct (Z.leb_spec (Z.of_nat n) 0); [lia|]. destruct (Z.leb_spec duration 0); [lia|]. cbn [orb]. cbv zeta. rewrite Nat2Z.id.
  set (blocks := map (block_at pcm n) _).
  assert (Forall (fun b => length b = n) blocks) as Hf.
  { apply Forall_forall. intros b (i & -> & _)%list_elem_of_fmap. apply block_at_length. }
  assert (blocks <> []) as Hne.
  { intros He. destruct (blocks_of_concat pcm n Hn) as (z & _ & Hc). fold blocks in Hc. rewrite He in Hc. by destruct pcm. }
  clearbody blocks. destruct blocks as [|b blocks]; [done|]. apply Forall_cons_1 in Hf as [Hb Hf']. cbn [play_blocks].
  destruct (Hwrite [] b s Hi Hb) as (s1 & Hw1 & Hi1). rewrite Hw1.
  destruct (play_rest blocks 0 ([] ++ [b]) now now s1 Hi1 Hf') as (s2 & t2 & H1 & H2 & H3).
  exists s2, t2. split; [exact H1|]. split; [exact H2|]. by rewrite len_cons.
Qed.
End play_spec.
Section tone.
Context `{U : Unicode}.

(** The request carries the block to the channel. *)
Definition carries (ch : Z) (req : BcWire.request) (blk : bytes) : Prop :=
  BcWire.rMsgID req = BcWire.msgIDTalk /\ BcWire.rChannelID req = ch /\ BcWire.rBinary req = true /\
  forall cp, BcMedia.parseMediaPacket (BcWire.rBody req) cp =
    Ok (Some (BcMedia.mkMedia BcMedia.MediaPacketADPCM "" blk 0 false None 0 0 0, len (BcWire.rBody req))).
Definition reported (observing : bool) (rate : Z) (blks : list bytes) : list (list Z) :=
  flat_map (fun b => if observing then map fst (PhoneBridge.ObserveBaichuanPlayout b rate 0) else []) blks.

Lemma write_keeps s blk num req s' :
  BcTalk.WriteADPCMBlock s None blk num = Ok (req, s') -> s' = s <| BcTalk.seq := u16 (BcTalk.seq s + 1) |>.
Proof.
  unfold BcTalk.WriteADPCMBlock. destruct (BcTalk.sclosed s); [done|]. unfold fail_if. case_match; [done|]. cbn [mbind result_bind].
  by intros [= _ <-].
Qed.
Lemma duration_small n rate : 0 < n -> 8000 <= rate <= 48000 -> block_duration n rate <= 500 * Millisecond -> n < 2 ^ 16.
Proof.
  intros Hn Hr. unfold block_duration, Second, Millisecond. rewrite Z.quot_div_nonneg by lia. intros Hd.
  destruct (Z.lt_ge_cases n (2 ^ 16)) as [|Hge]; [done|exfalso].
  assert (500 * 1000000 + 1 <= (1000000000 * n) `div` rate); [|lia]. apply Z.div_le_lower_bound; lia.
Qed.

Section inv.
Context (s : BcTalk.TalkSession) (num : nat -> Z) (io : nat -> option string) (at_ : nat -> Z) (observing : bool).
Hypothesis (Hio : forall i, io i = None) (Hopen : BcTalk.sclosed s = false).
Hypothesis (Hb : BcTalk.bytesPerBlock s = BcTalk.samplesPerBlock s / 2 + 4) (Hn : 2 <= BcTalk.samplesPerBlock s < 2 ^ 16)
  (He : BcTalk.samplesPerBlock s mod 2 = 0).
Let rate := BcTalk.SampleRate (audio_of s).

Definition played (l : list (list Z)) (p : player) : Prop :=
  (exists q, session p = s <| BcTalk.seq := q |>) /\
  exists blks, PhoneBridge.encode_all Adpcm.zero l = Ok (blks, enc p) /\
    Forall2 (carries (BcTalk.channel s)) (requests p) blks /\ map fst (told p) = reported observing rate blks.

Lemma write_played l b p :
  played l p -> length b = Z.to_nat (BcTalk.samplesPerBlock s) ->
  exists p', write_adpcm num io at_ observing b p = (p', None) /\ played (l ++ [b]) p'.
Proof.
  intros ([q Hq] & blks & H1 & H2 & H3) Hlen. unfold write_adpcm. cbv zeta.
  assert (len b = BcTalk.samplesPerBlock s) as Hl by (change (len b) with (Z.of_nat (length b)); rewrite Hlen; apply Z2Nat.id; lia).
  destruct (BcTalk.session_carries_blocks (session p) (enc p) b (num (length (requests p)))) as (blk & e' & E1 & _ & E2);
    [by rewrite Hq..|].
  destruct E2 as (req & s' & E2 & R1 & R2 & R3 & _ & _ & _ & R4); [by rewrite Hq|]. rewrite E1.
  cbn [session requests enc told default from_option]. unfold id. rewrite E2, Hio. eexists; split; [reflexivity|].
  pose proof (write_keeps _ _ _ _ _ E2) as Hs'. split; [exists (u16 (q + 1)); by rewrite Hs', Hq|].
  exists (blks ++ [blk]). split; [|split].
  - rewrite PhoneBridge.encode_all_app, H1. cbn. by rewrite E1.
  - apply Forall2_app; [done|]. constructor; [|constructor]. split; [done|]. rewrite R2, Hq. by split.
  - cbn [told]. unfold reported in *. rewrite flat_map_app, map_app, H3. f_equal. cbn. rewrite app_nil_r. unfold rate. rewrite Hs', Hq. cbn.
    destruct observing; [|done]. apply PhoneBridge.observe_when.
Qed.
End inv.
End tone.
Section tones.
Context `{U : Unicode}.

(** The connection tone reaches an NVR whole and the call is not answered over it.  On a session that opening
    accepted, with nothing interrupting the writes and waits, [PlayPCM] succeeds; what the device gets is the tone,
    padded with silence to whole blocks of the negotiated size, encoded by one ADPCM encoder in that order, each
    block in a talk request for the channel that parses back to it; the echo canceller is told of exactly those
    blocks when it wants the reference; and it returns no earlier than one block duration per block after it
    began, when the last block has been played. *)
Theorem tone_played (s : BcTalk.TalkSession) (num : nat -> Z) (io : nat -> option string) (at_ : nat -> Z) (observing : bool)
    (waits : nat -> wait) (pcm : list Z) (now : Z) :
  let a := audio_of s in let n := BcTalk.samplesPerBlock s in let rate := BcTalk.SampleRate a in
  validateBaichuanTalkProfile (BcTalk.AudioType a) (BcTalk.SamplePrecision a) rate n = Ok tt ->
  BcTalk.bytesPerBlock s = n / 2 + 4 -> BcTalk.sclosed s = false ->
  (forall i, io i = None) -> (forall i, w_cut (waits i) = None) -> pcm <> [] ->
  exists p t blocks z blks,
    baichuan_PlayPCM num io at_ observing waits pcm now s = (p, None, t) /\
    concat blocks = pcm ++ replicate z 0 /\ (z < Z.to_nat n)%nat /\ Forall (fun b => len b = n) blocks /\
    PhoneBridge.encode_all Adpcm.zero blocks = Ok (blks, enc p) /\
    Forall2 (carries (BcTalk.channel s)) (requests p) blks /\
    map fst (told p) = reported observing rate blks /\
    now + len blocks * block_duration n rate <= t.
Proof.
  cbv zeta. intros Hv Hb Ho Hio Hw Hp. destruct (valid_profile _ _ _ _ Hv) as (_ & _ & Hr & Hn & He & Hd).
  set (n := BcTalk.samplesPerBlock s) in *. set (rate := BcTalk.SampleRate _) in *. pose proof (duration_small n rate ltac:(lia) Hr (proj2 Hd)) as Hs.
  unfold Millisecond in Hd. set (k := Z.to_nat n).
  destruct (play_all (write_adpcm num io at_ observing) waits (block_duration n rate) (played s observing) k Hw
    (fun l b p => write_played s num io at_ observing Hio Ho Hb (conj Hn Hs) He l b p) pcm now (mkPlayer Adpcm.zero s [] []))
    as (p & t & H1 & (_ & blks & H2 & H3 & H4) & H5); [|done|lia|lia|].
  { split; [exists (BcTalk.seq s); by destruct s|]. exists []. by repeat split. }
  destruct (blocks_of_concat pcm k ltac:(lia)) as (z & Hz & Hc).
  exists p, t, (map (block_at pcm k) (seq 0 (blocks_of pcm k))), z, blks.
  split; [|split; [exact Hc|split; [exact Hz|split; [|by repeat split]]]].
  - unfold baichuan_PlayPCM. fold n rate. destruct (Z.leb_spec rate 0); [lia|]. destruct (Z.ltb_spec n 2); [lia|].
    rewrite He. cbn [orb negb Z.eqb]. rewrite <- H1. unfold k. by rewrite Z2Nat.id by lia.
  - apply Forall_forall. intros b (i & -> & _)%list_elem_of_fmap. change (len (block_at pcm k i)) with (Z.of_nat (length (block_at pcm k i))). rewrite block_at_length. unfold k. lia.
Qed.

Lemma write_all_app pt a b : forall m,
  RtspClient.write_all pt (a ++ b) m =
  (let '(x, m1) := RtspClient.write_all pt a m in let '(y, m2) := RtspClient.write_all pt b m1 in (x ++ y, m2)).
Proof.
  induction a as [|p a IH]; intros m; cbn [app RtspClient.write_all]; [by destruct (RtspClient.write_all pt b m)|].
  destruct (RtspClient.WriteAudio p pt m) as [q m1]. rewrite IH. destruct (RtspClient.write_all pt a m1) as [x m2].
  by destruct (RtspClient.write_all pt b m2).
Qed.
(** The same on a standalone camera: the tone as 20 ms blocks of one continuous RTP stream. *)
Lemma tone_streamed (bc : RtspClient.Backchannel) (io : nat -> option string) (at_ : nat -> Z) (observing : bool)
    (waits : nat -> wait) (pcm : list Z) (now : Z) (m : RtspClient.media) :
  let codec := ToLower (TrimSpace (RtspClient.Codec bc)) in
  codec = G711.PCMA \/ codec = G711.PCMU ->
  (forall i, io i = None) -> (forall i, w_cut (waits i) = None) -> pcm <> [] ->
  exists p t blocks z,
    rtsp_PlayPCM bc io at_ observing waits pcm now m = (p, None, t) /\
    concat blocks = pcm ++ replicate z 0 /\ (z < 160)%nat /\
    RtspClient.write_all (RtspClient.PayloadType bc) (map (fun b => default [] (G711.EncodePCM b codec)) blocks) m = (packets p, stream p) /\
    now + len blocks * (20 * Millisecond) <= t.
Proof.
  cbv zeta. set (codec := ToLower _). intros Hc Hio Hw Hp.
  destruct (play_all (write_g711 codec (RtspClient.PayloadType bc) io at_ observing) waits (20 * Millisecond)
    (fun l p => RtspClient.write_all (RtspClient.PayloadType bc) (map (fun b => default [] (G711.EncodePCM b codec)) l) m = (packets p, stream p))
    160%nat Hw) with (pcm := pcm) (now := now) (s := mkRtspPlayer m [] []) as (p & t & H1 & H2 & H3); [|done|done|lia|done|].
  { intros l b p Hl _. unfold write_g711. cbv zeta. destruct (RtspClient.WriteAudio _ _ _) as [pkt m'] eqn:E. rewrite Hio.
    eexists; split; [reflexivity|]. cbn [packets stream]. rewrite map_app. cbn [map].
    rewrite write_all_app, Hl. cbn [RtspClient.write_all]. rewrite E. done. }
  destruct (blocks_of_concat pcm 160 ltac:(lia)) as (z & Hz & Hcc).
  exists p, t, (map (block_at pcm 160) (seq 0 (blocks_of pcm 160))), z. split; [|by repeat split].
  unfold rtsp_PlayPCM. fold codec. rewrite <- H1. change (Z.of_nat 160) with 160.
  destruct Hc as [Hc|Hc]; rewrite Hc; reflexivity.
Qed.
End tones.
(** ** Witnesses *)

Lemma talkback_opened_or_closed_witness :
  let U := ascii_tables in let X := BcTalk.test_xml in
  exists k s, openBaichuanTalkback 3 (Ok BcTalk.device_ok) = (Some k, Ok s) /\ closed k = false /\ BcTalk.channel s = 3.
Proof.
  cbv zeta. set (U := ascii_tables). set (X := BcTalk.test_xml).
  assert (is_ok (openBaichuanTalkback 3 (Ok BcTalk.device_ok)).2 = true) as Hok by (vm_compute; reflexivity).
  destruct (openBaichuanTalkback 3 (Ok BcTalk.device_ok)) as [l r] eqn:E. cbn [snd] in Hok.
  destruct (talkback_opened_or_closed 3 BcTalk.device_ok l r E) as (k & -> & H).
  destruct r as [s| |]; [|discriminate Hok..]. destruct H as (H1 & H2 & _). exists k, s. split; [reflexivity|]. split; [exact H1|]. rewrite H2. reflexivity.
Defined.
Lemma tone_played_witness :
  let U := ascii_tables in
  let s := BcTalk.mkSession 3 [2] (BcTalk.mkConfig "1.1" 3 "FDX" "speaker" BcTalk.profile) 80 44 false false 65535 in
  exists p t, baichuan_PlayPCM (fun i => Z.of_nat i) (fun _ => None) (fun _ => 0) true (fun i => mkWait (Z.of_nat i) None) [10; -20; 30] 7 s = (p, None, t) /\ length (requests p) = 1%nat /\ 7 + 5 * Millisecond <= t.
Proof.
  cbv zeta. set (U := ascii_tables). set (s := BcTalk.mkSession 3 [2] _ 80 44 false false 65535).
  destruct (tone_played s (fun i => Z.of_nat i) (fun _ => None) (fun _ => 0) true (fun i => mkWait (Z.of_nat i) None) [10; -20; 30] 7)
    as (p & t & blocks & z & blks & H & H1 & H2 & _ & H3 & H4 & _ & H5);
    [vm_compute; reflexivity|reflexivity|reflexivity|reflexivity|reflexivity|discriminate|].
  exists p, t. split; [exact H|].
  assert (length (requests (baichuan_PlayPCM (fun i => Z.of_nat i) (fun _ => None) (fun _ => 0) true (fun i => mkWait (Z.of_nat i) None) [10; -20; 30] 7 s).1.1) = 1%nat) as Hn
    by (vm_compute; reflexivity).
  rewrite H in Hn. cbn [fst] in Hn. split; [exact Hn|].
  assert (blocks <> []) as Hb by (intros ->; discriminate H1).
  assert (1 <= len blocks) as Hl by (destruct blocks; [contradiction|rewrite len_cons; pose proof (len_nonneg blocks); lia]).
  change (block_duration (BcTalk.samplesPerBlock s) (BcTalk.SampleRate (audio_of s))) with (5 * Millisecond) in H5. unfold Millisecond in *. lia.
Defined.
End Talkback.
