(* ===== verification/HaSocket.v ===== *)
(** WebSocket frames of the Home Assistant client: [internal/ha/websocket.go].

    The stream is the list of the bytes still to come.  The masking key is
    random and an argument; the pongs a read writes are listed by payload. *)
From S2P Require Import Prelude GoBytes.

Module HaSocket.

Definition wsOpcodeContinuation : Z := 0.
Definition wsOpcodeText : Z := 1.
Definition wsOpcodeClose : Z := 8.
Definition wsOpcodePing : Z := 9.
Definition wsOpcodePong : Z := 10.
Definition wsMaxMessageSize : Z := Z.shiftl 16 20.

(** [b ^ mask[i%4]] for every byte. *)
Definition mask_bytes (mask payload : bytes) : bytes :=
  imap (fun i b => Z.lxor b (nth (i mod 4) mask 0)) payload.
(** The payload length in the second byte and what follows it. *)
Definition length_bytes (flag plen : Z) : bytes :=
  if plen <? 126 then [Z.lor flag (u8 plen)]
  else if plen <=? 0xFFFF then Z.lor flag 126 :: be_put 2 plen
  else Z.lor flag 127 :: be_put 8 plen.

Definition writeFrame (opcode : Z) (mask payload : bytes) : result bytes :=
  if wsMaxMessageSize <? len payload then Err "websocket payload too large"
  else Ok (Z.lor 0x80 opcode :: length_bytes 0x80 (len payload) ++ mask ++ mask_bytes mask payload).

Record frame := mkFrame { fin : bool; opcode : Z; payload : bytes }.

Definition readFrame (stream : bytes) : result (frame * bytes) :=
  '(h, stream) ← ReadFull stream 2;
  h0 ← index h 0;
  h1 ← index h 1;
  let masked := negb (Z.land h1 0x80 =? 0) in
  let short := Z.land h1 0x7F in
  '(plen, stream) ←
    (if short =? 126 then '(b, stream) ← ReadFull stream 2; n ← be_get 2 b 0; Ok (n, stream)
     else if short =? 127 then '(b, stream) ← ReadFull stream 8; n ← be_get 8 b 0; Ok (n, stream)
     else Ok (short, stream));
  _ ← fail_if (wsMaxMessageSize <? plen) "websocket frame too large";
  '(mask, stream) ← (if masked then ReadFull stream 4 else Ok ([], stream));
  '(body, stream) ← ReadFull stream plen;
  Ok (mkFrame (negb (Z.land h0 0x80 =? 0)) (Z.land h0 0x0F) (if masked then mask_bytes mask body else body), stream).

(** [ReadMessage]: the message, what is left of the stream and the pongs.  A
    frame takes two bytes at least, so the length of the stream is enough fuel. *)
Fixpoint read_message (fuel : nat) (stream message : bytes) (started : bool) (pongs : list bytes) :
    result (bytes * bytes * list bytes) :=
  match fuel with
  | O => Err "EOF"
  | S fuel =>
    '(f, stream) ← readFrame stream;
    let append := fun message : bytes =>
      let message := message ++ payload f in
      if wsMaxMessageSize <? len message then Err "websocket message too large"
      else if fin f then Ok (message, stream, pongs)
      else read_message fuel stream message true pongs in
    if opcode f =? wsOpcodePing then read_message fuel stream message started (pongs ++ [payload f])
    else if opcode f =? wsOpcodePong then read_message fuel stream message started pongs
    else if opcode f =? wsOpcodeClose then Err "EOF"
    else if opcode f =? wsOpcodeText then
      if started then Err "unexpected websocket text frame during fragmented message" else append message
    else if opcode f =? wsOpcodeContinuation then
      if started then append message else Err "unexpected websocket continuation frame"
    else read_message fuel stream message started pongs
  end.
Definition ReadMessage (stream : bytes) : result (bytes * bytes * list bytes) :=
  read_message (S (length stream)) stream [] false [].

(** * Frames are read back *)

Lemma length_mask m p : length (mask_bytes m p) = length p.
Proof. apply length_imap. Qed.
Lemma mask_mask m p : mask_bytes m (mask_bytes m p) = p.
Proof.
  apply list_eq. intros i. unfold mask_bytes. rewrite !list_lookup_imap. destruct (p !! i) as [b|]; [|done]. cbn. f_equal.
  by rewrite Z.lxor_assoc, Z.lxor_nilpotent, Z.lxor_0_r.
Qed.

(** The frame a peer sends: with or without a mask. *)
Definition frame_bytes (f : frame) (mask : option bytes) : bytes :=
  Z.lor (if fin f then 0x80 else 0) (opcode f) ::
  match mask with
  | Some m => length_bytes 0x80 (len (payload f)) ++ m ++ mask_bytes m (payload f)
  | None => length_bytes 0 (len (payload f)) ++ payload f
  end.
Definition frame_wf (f : frame) (mask : option bytes) : Prop :=
  fits 4 (opcode f) /\ len (payload f) <= wsMaxMessageSize /\ match mask with Some m => length m = 4%nat | None => True end.

Lemma first_byte (b : bool) op : fits 4 op ->
  let h := Z.lor (if b then 0x80 else 0) op in negb (Z.land h 0x80 =? 0) = b /\ Z.land h 0x0F = op.
Proof.
  intros H. cbv zeta.
  finite_check 16%nat (fun op => forallb (fun b : bool =>
    let h := Z.lor (if b then 0x80 else 0) op in eqb (negb (Z.land h 0x80 =? 0)) b && (Z.land h 0x0F =? op)) [true; false]) op as Hb.
  rewrite forallb_forall in Hb. specialize (Hb b ltac:(destruct b; simpl; auto)).
  apply andb_prop in Hb as [H1 H2%Z.eqb_eq]. split; [|done]. by apply eqb_prop.
Qed.
Lemma second_byte (m : bool) n : 0 <= n < 128 ->
  let h := Z.lor (if m then 0x80 else 0) n in negb (Z.land h 0x80 =? 0) = m /\ Z.land h 0x7F = n.
Proof.
  intros H. cbv zeta. assert (fits 7 n) as Hn by (unfold fits; change (2 ^ 7) with 128; lia).
  finite_check 128%nat (fun n => forallb (fun m : bool =>
    let h := Z.lor (if m then 0x80 else 0) n in eqb (negb (Z.land h 0x80 =? 0)) m && (Z.land h 0x7F =? n)) [true; false]) n as Hb.
  rewrite forallb_forall in Hb. specialize (Hb m ltac:(destruct m; simpl; auto)).
  apply andb_prop in Hb as [H1 H2%Z.eqb_eq]. split; [|done]. by apply eqb_prop.
Qed.

(** Reading the length behind the first byte. *)
Definition read_length (h1 : Z) (stream : bytes) : result (Z * bytes) :=
  let short := Z.land h1 0x7F in
  if short =? 126 then '(b, stream) ← ReadFull stream 2; n ← be_get 2 b 0; Ok (n, stream)
  else if short =? 127 then '(b, stream) ← ReadFull stream 8; n ← be_get 8 b 0; Ok (n, stream)
  else Ok (short, stream).
Lemma be_get_whole n z m : n = Z.of_nat m -> be_get n (be_put m z) 0 = Ok (z mod 256 ^ n).
Proof. intros ->. rewrite <- (app_nil_r (be_put m z)). by apply (be_get_app _ [] [] 0). Qed.
Lemma length_bytes_read (m : bool) plen rest : 0 <= plen <= wsMaxMessageSize ->
  exists h1 tl, length_bytes (if m then 0x80 else 0) plen = h1 :: tl /\ negb (Z.land h1 0x80 =? 0) = m /\
    read_length h1 (tl ++ rest) = Ok (plen, rest).
Proof.
  intros Hp. unfold wsMaxMessageSize in Hp. change (Z.shiftl 16 20) with 16777216 in Hp. unfold length_bytes.
  destruct (plen <? 126) eqn:E1.
  - eexists _, []. split; [done|]. rewrite wrap_id by (unfold fits; change (2 ^ 8) with 256; lia).
    destruct (second_byte m plen) as [-> H2]; [lia|]. split; [done|]. unfold read_length. cbv zeta. rewrite H2.
    rewrite (proj2 (Z.eqb_neq plen 126)), (proj2 (Z.eqb_neq plen 127)) by lia. done.
  - destruct (plen <=? 0xFFFF) eqn:E2; eexists _, _; (split; [reflexivity|]).
    + destruct (second_byte m 126) as [-> H2]; [lia|]. split; [done|]. unfold read_length. cbv zeta. rewrite H2. cbn [Z.eqb Pos.eqb].
      rewrite ReadFull_app by (by rewrite len_be_put). cbn [mbind result_bind]. rewrite (be_get_whole 2 plen 2) by done.
      cbn [mbind result_bind]. by rewrite Z.mod_small by (change (256 ^ 2) with 65536; lia).
    + destruct (second_byte m 127) as [-> H2]; [lia|]. split; [done|]. unfold read_length. cbv zeta. rewrite H2. cbn [Z.eqb Pos.eqb].
      rewrite ReadFull_app by (by rewrite len_be_put). cbn [mbind result_bind]. rewrite (be_get_whole 8 plen 8) by done.
      cbn [mbind result_bind]. by rewrite Z.mod_small by (change (256 ^ 8) with 18446744073709551616; lia).
Qed.

Lemma readFrame_bytes f mask rest : frame_wf f mask -> readFrame (frame_bytes f mask ++ rest) = Ok (f, rest).
Proof.
  intros (Hop & Hlen & Hm). destruct f as [fn op pl]. cbn [fin opcode payload] in *. unfold frame_bytes. cbn [fin opcode payload].
  destruct (first_byte fn op Hop) as [H1 H2].
  set (body := match mask with Some m => m ++ mask_bytes m pl | None => pl end).
  set (masked := match mask with Some _ => true | None => false end).
  destruct (length_bytes_read masked (len pl) (body ++ rest)) as (h1 & tl & E & Hmask & Hread); [lia|].
  assert ((Z.lor (if fn then 128 else 0) op :: match mask with
    | Some m => length_bytes 128 (len pl) ++ m ++ mask_bytes m pl
    | None => length_bytes 0 (len pl) ++ pl end) ++ rest = [Z.lor (if fn then 128 else 0) op; h1] ++ tl ++ body ++ rest) as ->.
  { subst masked body. destruct mask; cbn [app]; rewrite E; by rewrite <- ?app_assoc. }
  unfold readFrame. rewrite ReadFull_app by done. cbn [mbind result_bind].
  change (index [Z.lor (if fn then 128 else 0) op; h1] 0) with (Ok (Z.lor (if fn then 128 else 0) op)).
  change (index [Z.lor (if fn then 128 else 0) op; h1] 1) with (Ok h1). cbn [mbind result_bind].
  fold (read_length h1 (tl ++ body ++ rest)). rewrite Hread. cbn [mbind result_bind].
  rewrite fail_if_false by lia. cbn [mbind result_bind]. cbv zeta. rewrite Hmask, H1, H2. subst masked body. destruct mask as [m|].
  - rewrite <- app_assoc, ReadFull_app by lia. cbn [mbind result_bind]. rewrite ReadFull_app by (by rewrite length_mask).
    cbn [mbind result_bind]. by rewrite mask_mask.
  - cbn [mbind result_bind]. rewrite ReadFull_app by done. done.
Qed.
Lemma writeFrame_bytes op mask pl : len pl <= wsMaxMessageSize ->
  writeFrame op mask pl = Ok (frame_bytes (mkFrame true op pl) (Some mask)).
Proof. intros H. unfold writeFrame. by rewrite (proj2 (Z.ltb_ge _ _)). Qed.

(** * Messages are put together *)

(** What a peer may send before the last fragment of a message: fragments, and
    frames of other kinds between them. *)
Inductive part := Fragment (p : bytes) (mask : option bytes) | Other (op : Z) (p : bytes) (mask : option bytes).
Definition data_opcode (started : bool) : Z := if started then wsOpcodeContinuation else wsOpcodeText.
Fixpoint message_bytes (started : bool) (ps : list part) (final : bytes) (mask : option bytes) : bytes :=
  match ps with
  | [] => frame_bytes (mkFrame true (data_opcode started) final) mask
  | Fragment p m :: ps => frame_bytes (mkFrame false (data_opcode started) p) m ++ message_bytes true ps final mask
  | Other op p m :: ps => frame_bytes (mkFrame true op p) m ++ message_bytes started ps final mask
  end.
Definition fragment (x : part) : bytes := match x with Fragment p _ => p | Other _ _ _ => [] end.
Definition ping (x : part) : option bytes := match x with Other op p _ => if op =? wsOpcodePing then Some p else None | _ => None end.
Definition part_wf (x : part) : Prop :=
  match x with
  | Fragment p m => frame_wf (mkFrame false 0 p) m
  | Other op p m => frame_wf (mkFrame true op p) m /\ op ∉ [wsOpcodeContinuation; wsOpcodeText; wsOpcodeClose]
  end.

Lemma frame_bytes_length f mask : (0 < length (frame_bytes f mask))%nat.
Proof. apply Nat.lt_0_succ. Qed.
Lemma message_read ps : forall fuel started message pongs final mask rest,
  Forall part_wf ps -> frame_wf (mkFrame true 0 final) mask ->
  len (message ++ concat (map fragment ps) ++ final) <= wsMaxMessageSize ->
  (length ps < fuel)%nat ->
  read_message fuel (message_bytes started ps final mask ++ rest) message started pongs =
    Ok (message ++ concat (map fragment ps) ++ final, rest, pongs ++ omap ping ps).
Proof.
  induction ps as [|x ps IH]; intros [|fuel] started message pongs final mask rest Hps Hf Hlen Hfuel; cbn [length] in Hfuel; try lia.
  - assert (frame_wf (mkFrame true (data_opcode started) final) mask) as Hw by (destruct started, Hf; by split).
    cbn [message_bytes read_message map concat app omap list_omap] in *. rewrite readFrame_bytes by done. cbn [mbind result_bind].
    cbn [fin opcode payload]. cbv zeta. rewrite (proj2 (Z.ltb_ge wsMaxMessageSize _)) by exact Hlen. rewrite app_nil_r.
    by destruct started.
  - apply Forall_cons_1 in Hps as [Hx Hps]. destruct x as [p m|op p m].
    + assert (frame_wf (mkFrame false (data_opcode started) p) m) as Hw by (destruct started, Hx; by split).
      cbn [message_bytes read_message map concat omap list_omap fragment ping] in *. rewrite <- app_assoc, readFrame_bytes by done.
      cbn [mbind result_bind]. cbn [fin opcode payload]. cbv zeta.
      rewrite (proj2 (Z.ltb_ge wsMaxMessageSize (len (message ++ p)))) by (rewrite !len_app in *; lia).
      rewrite (IH fuel true (message ++ p)) by (done || lia || by rewrite <- !app_assoc in *).
      rewrite <- !app_assoc. by destruct started.
    + destruct Hx as [Hw Hop]. cbn [message_bytes read_message map concat omap list_omap fragment ping app] in *.
      rewrite <- app_assoc, readFrame_bytes by done. cbn [mbind result_bind]. cbn [fin opcode payload]. cbv zeta.
      destruct (op =? wsOpcodePing) eqn:E1; [rewrite IH by (done || lia); by rewrite <- app_assoc|].
      destruct (op =? wsOpcodePong) eqn:E2; [by rewrite IH by (done || lia)|].
      rewrite !not_elem_of_cons in Hop. destruct Hop as (H0 & H1 & H8 & _).
      rewrite (proj2 (Z.eqb_neq op wsOpcodeClose)), (proj2 (Z.eqb_neq op wsOpcodeText)), (proj2 (Z.eqb_neq op wsOpcodeContinuation)) by done.
      by rewrite IH by (done || lia).
Qed.

(** Messages are put together.  However a peer cuts a message into
    fragments, masks them, and sends pings, pongs or unknown frames in between,
    [ReadMessage] returns exactly the message, answers exactly the pings, each
    with its own payload and in order, and leaves the stream behind the message
    untouched. *)
Theorem ReadMessage_reassembles (ps : list part) (final : bytes) (mask : option bytes) (rest : bytes) :
  Forall part_wf ps -> frame_wf (mkFrame true wsOpcodeContinuation final) mask ->
  len (concat (map fragment ps) ++ final) <= wsMaxMessageSize ->
  ReadMessage (message_bytes false ps final mask ++ rest) =
    Ok (concat (map fragment ps) ++ final, rest, omap ping ps).
Proof.
  intros Hps Hf Hlen. unfold ReadMessage. apply (message_read ps _ false [] []); try done.
  assert (forall s, (length ps < length (message_bytes s ps final mask))%nat) as Hl.
  { clear. induction ps as [|[p m|op p m] ps IH]; intros s; cbn [message_bytes length]; [apply frame_bytes_length|..];
      rewrite length_app; pose proof (IH true); pose proof (IH s);
      match goal with |- context [length (frame_bytes ?f ?m)] => pose proof (frame_bytes_length f m) end; lia. }
  rewrite length_app. specialize (Hl false). lia.
Qed.

Lemma ReadMessage_reassembles_witness :
  ReadMessage (message_bytes false [Fragment [65; 66] None; Other 9 [7] (Some [1; 2; 3; 4])] [67] None ++ [5]) = Ok ([65; 66; 67], [5], [[7]]).
Proof.
  apply (ReadMessage_reassembles [Fragment [65; 66] None; Other 9 [7] (Some [1; 2; 3; 4])] [67] None [5]).
  - constructor; [split; [by vm_compute|split; [by vm_compute|exact I]]|]. constructor; [|constructor].
    split; [split; [by vm_compute|split; [by vm_compute|reflexivity]]|]. apply (bool_decide_unpack _). vm_compute. exact I.
  - split; [by vm_compute|split; [by vm_compute|exact I]].
  - by vm_compute.
Defined.
End HaSocket.
