(* ===== verification/LiveCatalog.v ===== *)
(** The catalogue of camera channels whose images are published to the phones:
    [internal/liveimage/catalog.go].

    The JSON documents - the camera's channel status and the saved catalogue -
    are inputs in their decoded form.  A [Source] is known by the camera channel
    it fetches from; the image diagnostics it adds to a channel are left out. *)
From stdpp Require Import sorting.
From S2P Require Import Prelude GoStrings GoCrypto.

Module LiveCatalog.

Record Channel := mkChannel {
  Number : Z; Name : string; CameraID : string; Online : bool; StatusKnown : bool; Primary : bool;
}.
#[export] Instance eta_channel : Eta Channel := fun c =>
  mkChannel (Number c) (Name c) (CameraID c) (Online c) (StatusKnown c) (Primary c).
Record catalogChannel := mkEntry { ch : Channel; uid : string; source : option Z }.
#[export] Instance eta_entry : Eta catalogChannel := fun e => mkEntry (ch e) (uid e) (source e).
Definition zero_entry : catalogChannel := mkEntry (mkChannel 0 "" "" false false false) "" None.

Record Discovery := mkDiscovery { LastAttempt : Z; LastSuccess : Z; LastFailed : bool }.
Record Catalog := mkCatalog {
  NVRChannel : Z; ReolinkHost : string; channels : gmap Z catalogChannel; discovery : Discovery;
}.
#[export] Instance eta_catalog : Eta Catalog := fun c =>
  mkCatalog (NVRChannel c) (ReolinkHost c) (channels c) (discovery c).

(** One entry of [GetChannelstatus], and of the saved catalogue. *)
Record status := mkStatus { s_channel : Z; s_name : string; s_online : Z; s_uid : string }.
Record persistedChannel := mkPersisted { p_number : Z; p_name : string; p_uid : string; p_online : bool }.
Record persistedCatalog := mkPersistedCatalog {
  p_version : Z; p_host : string; p_lastDiscovery : Z; p_channels : list persistedChannel;
}.
Definition catalogStateVersion : Z := 1.

Section catalog.
Context `{U : Unicode}.

(** * Names and identities *)

Definition normalizeChannelName (value : string) : string :=
  let value := Join (Fields value) " " in
  let rs := runes value in
  if (80 <? length rs)%nat then b2s (concat (map (fun r => encode_rune r.1) (take 80 rs))) else value.
Definition normalizeUID (value : string) : string :=
  let value := ToUpper (TrimSpace value) in
  if (128 <? String.length value)%nat then stake 128 value else value.
Definition cameraIDForUID (u : string) : string :=
  let u := normalizeUID u in
  if decide (u = "") then "" else hex_encode (take 16 (SHA256.Sum (s2b u))).

(** * The channel status *)

Definition number_le (a b : catalogChannel) : Prop := Number (ch a) <= Number (ch b).
#[local] Instance number_le_dec : RelDecision number_le := fun a b => Z.le_dec _ _.
Definition by_number (l : list catalogChannel) : list catalogChannel := merge_sort number_le l.
Definition enter_status (m : gmap Z catalogChannel) (s : status) : gmap Z catalogChannel :=
  let name := normalizeChannelName (s_name s) in
  let u := normalizeUID (s_uid s) in
  if (s_channel s <? 0) || (255 <? s_channel s) || (negb (s_online s =? 1) && bool_decide (name = "") && bool_decide (u = ""))
  then m
  else
    let number := s_channel s + 1 in
    <[number := mkEntry (mkChannel number name (cameraIDForUID u) (s_online s =? 1) true false) u None]> m.
(** The channels a reply reports. *)
Definition channels_of_status (l : list status) : result (list catalogChannel) :=
  let m := foldl enter_status ∅ l in
  if decide (m = ∅) then Err "Reolink channel-status reported no cameras"
  else Ok (by_number (map snd (map_to_list m))).
(** [fetchChannels]: the first endpoint that answers; a reply is its decoded
    status list or an error. *)
Fixpoint fetchChannels (replies : list (result (list status))) : result (list catalogChannel) :=
  match replies with
  | [] => Err "no Reolink channel-status endpoint answered"
  | r :: replies =>
    match (l ← r; channels_of_status l) with
    | Ok chs => Ok chs
    | _ => fetchChannels replies
    end
  end.

(** * The catalogue *)

Definition primaryNumber (c : Catalog) : Z := NVRChannel c + 1.
(** [newCatalog] without saved state. *)
Definition newCatalog (nvrChannel : Z) (host : string) : Catalog :=
  mkCatalog nvrChannel host
    {[nvrChannel + 1 := mkEntry (mkChannel (nvrChannel + 1) "" "" false false true) "" (Some nvrChannel)]}
    (mkDiscovery 0 0 false).
Definition catalogHost (c : Catalog) : string := ToLower (TrimSpace (ReolinkHost c)).

Definition load_channel (c : Catalog) (m : gmap Z catalogChannel) (saved : persistedChannel) : gmap Z catalogChannel :=
  if (p_number saved <? 1) || (256 <? p_number saved) then m
  else
    let u := normalizeUID (p_uid saved) in
    <[p_number saved :=
        mkEntry (mkChannel (p_number saved) (normalizeChannelName (p_name saved)) (cameraIDForUID u) (p_online saved) false
                   (p_number saved =? primaryNumber c)) u (Some (p_number saved - 1))]> m.
Definition loadState (state : persistedCatalog) (c : Catalog) : result unit * Catalog :=
  if negb (p_version state =? catalogStateVersion) || negb (bool_decide (p_host state = catalogHost c)) ||
     (256 <? length (p_channels state))%nat
  then (Err "camera catalog state belongs to another configuration", c)
  else
    let m := foldl (load_channel c) (channels c) (p_channels state) in
    let primary := default zero_entry (m !! primaryNumber c) in
    let primary := primary <| ch := ch primary <| Number := primaryNumber c |> <| Primary := true |> |> <| source := Some (NVRChannel c) |> in
    (Ok tt, c <| channels := <[primaryNumber c := primary]> m |> <| discovery ::= fun d => mkDiscovery (LastAttempt d) (p_lastDiscovery state) (LastFailed d) |>).
(** What [saveState] writes. *)
Definition saveState (c : Catalog) : persistedCatalog :=
  mkPersistedCatalog catalogStateVersion (catalogHost c) (LastSuccess (discovery c))
    (map (fun e => mkPersisted (Number (ch e)) (Name (ch e)) (uid e) (Online (ch e)))
       (by_number (map snd (map_to_list (channels c))))).

(** The channels known before, by camera. *)
Definition by_camera (previous : gmap Z catalogChannel) : gmap string catalogChannel :=
  foldl (fun m e => if decide (CameraID (ch e) = "") then m else <[CameraID (ch e) := e]> m) ∅ (map snd (map_to_list previous)).
(** A channel that reports no name keeps the one its camera had. *)
Definition known_name (previous : gmap Z catalogChannel) (channel : Channel) : Channel :=
  match by_camera previous !! CameraID channel with
  | Some old => if decide (Name channel = "") then channel <| Name := Name (ch old) |> else channel
  | None => channel
  end.
(** One detected channel; a camera that was seen already is skipped. *)
Definition enter_detected (previous : gmap Z catalogChannel) (acc : gmap Z catalogChannel * gset string) (d : catalogChannel) :
    gmap Z catalogChannel * gset string :=
  let '(next, seen) := acc in
  let channel := ch d in
  let id := CameraID channel in
  if decide (id <> "" /\ id ∈ seen) then (next, seen)
  else
    let seen := if decide (id = "") then seen else {[id]} ∪ seen in
    let src := match previous !! Number channel ≫= source with Some s => s | None => Number channel - 1 end in
    let channel := known_name previous channel in
    (<[Number channel := mkEntry channel (uid d) (Some src)]> next, seen).
(** The configured channel is always there. *)
Definition keep_primary (c : Catalog) (next : gmap Z catalogChannel) : gmap Z catalogChannel :=
  let n := primaryNumber c in
  match next !! n with
  | Some e => <[n := e <| ch := ch e <| Primary := true |> |> <| source := Some (NVRChannel c) |>]> next
  | None =>
    let e := default zero_entry (channels c !! n) in
    <[n := mkEntry (ch e <| Number := n |> <| Primary := true |> <| StatusKnown := true |> <| Online := false |>) (uid e)
             (Some (NVRChannel c))]> next
  end.
(** [Discover] at time [now] with what [fetchChannels] returned. *)
Definition Discover (now : Z) (detected : result (list catalogChannel)) (c : Catalog) : result unit * Catalog :=
  let d := discovery c in
  match detected with
  | Ok l =>
    let '(next, _) := foldl (enter_detected (channels c)) (∅, ∅) l in
    (Ok tt, c <| channels := keep_primary c next |> <| discovery := mkDiscovery now now false |>)
  | Err e => (Err e, c <| discovery := mkDiscovery now (LastSuccess d) true |>)
  | Panic => (Panic, c)
  end.
(** The sources [FetchCameraJPEG] can pick: it takes the first channel of that
    camera, in the order in which Go iterates over the map. *)
Definition camera_source (c : Catalog) (id : string) (s : option Z) : Prop :=
  exists n e, channels c !! n = Some e /\ CameraID (ch e) = id /\ source e = s.
Definition channel_source (c : Catalog) (n : Z) : option Z := channels c !! n ≫= source.

(** ** Invariant *)

(** Every entry is filed under its number and fetches from the camera channel
    one below; exactly the configured one is the primary, and it is there. *)
Definition entry_ok (c : Catalog) (n : Z) (e : catalogChannel) : Prop :=
  Number (ch e) = n /\ source e = Some (n - 1) /\ (Primary (ch e) = true <-> n = primaryNumber c).
Record catalog_ok (c : Catalog) : Prop := {
  ok_entries : map_Forall (entry_ok c) (channels c);
  ok_primary : is_Some (channels c !! primaryNumber c);
}.

(** What [fetchChannels] returns: the numbers differ and nothing is primary. *)
Definition detected_ok (l : list catalogChannel) : Prop :=
  NoDup (map (fun e => Number (ch e)) l) /\ Forall (fun e => Primary (ch e) = false) l.

Lemma enter_status_ok m s :
  map_Forall (fun n e => Number (ch e) = n /\ Primary (ch e) = false) m ->
  map_Forall (fun n e => Number (ch e) = n /\ Primary (ch e) = false) (enter_status m s).
Proof. intros H. unfold enter_status. destruct (_ || _); [done|]. cbv zeta. by apply map_Forall_insert_2. Qed.
Lemma by_number_perm l : by_number l ≡ₚ l.
Proof. apply merge_sort_Permutation. Qed.
Lemma channels_of_status_ok l chs : channels_of_status l = Ok chs -> detected_ok chs.
Proof.
  unfold channels_of_status. set (m := foldl enter_status ∅ l).
  assert (map_Forall (fun n e => Number (ch e) = n /\ Primary (ch e) = false) m) as Hm.
  { subst m. generalize (map_Forall_empty (fun n e => Number (ch e) = n /\ Primary (ch e) = false)).
    generalize (∅ : gmap Z catalogChannel). induction l as [|s l IH]; intros m Hm; [done|]. apply IH. by apply enter_status_ok. }
  destruct (decide _); [done|]. intros [= <-]. split.
  - rewrite by_number_perm, map_map.
    rewrite (map_ext_in _ fst); [apply NoDup_fst_map_to_list|]. intros [k e] Hin%list_elem_of_In%elem_of_map_to_list.
    by apply (Hm k e).
  - rewrite by_number_perm. apply Forall_forall. intros e He. apply list_elem_of_In, in_map_iff in He as ([k e'] & <- & Hin).
    apply list_elem_of_In, elem_of_map_to_list in Hin. by apply (Hm k e').
Qed.
Lemma fetchChannels_ok replies l : fetchChannels replies = Ok l -> detected_ok l.
Proof.
  induction replies as [|r replies IH]; [done|]. cbn. destruct r as [sts| |]; cbn; [|exact IH..].
  destruct (channels_of_status sts) eqn:E; [|exact IH..]. intros [= <-]. by eapply channels_of_status_ok.
Qed.

Lemma known_name_frame previous channel :
  Number (known_name previous channel) = Number channel /\ CameraID (known_name previous channel) = CameraID channel /\
  Primary (known_name previous channel) = Primary channel.
Proof. unfold known_name. by destruct (by_camera _ !! _); [destruct (decide _)|]. Qed.
Lemma enter_detected_entry previous acc d :
  (forall n s, previous !! n ≫= source = Some s -> s = n - 1) -> Primary (ch d) = false ->
  map_Forall (fun n e => Number (ch e) = n /\ source e = Some (n - 1) /\ Primary (ch e) = false) acc.1 ->
  map_Forall (fun n e => Number (ch e) = n /\ source e = Some (n - 1) /\ Primary (ch e) = false)
    (enter_detected previous acc d).1.
Proof.
  intros Hs Hp Ha. destruct acc as [next seen]. unfold enter_detected. cbv zeta. destruct (known_name_frame previous (ch d)) as (K1 & K2 & K3). destruct (decide _); [done|]. cbn [fst].
  apply map_Forall_insert_2; [|done]. cbn. split; [|split].
  - done.
  - rewrite K1. f_equal. destruct (previous !! Number (ch d) ≫= source) eqn:E; auto.
  - cbn; congruence.
Qed.
Lemma detected_entries l previous acc :
  (forall n s, previous !! n ≫= source = Some s -> s = n - 1) -> Forall (fun e => Primary (ch e) = false) l ->
  map_Forall (fun n e => Number (ch e) = n /\ source e = Some (n - 1) /\ Primary (ch e) = false) acc.1 ->
  map_Forall (fun n e => Number (ch e) = n /\ source e = Some (n - 1) /\ Primary (ch e) = false)
    (foldl (enter_detected previous) acc l).1.
Proof.
  intros Hs Hl. revert acc. induction Hl as [|d l Hd Hl IH]; intros acc Ha; [done|]. cbn. apply IH.
  by apply enter_detected_entry.
Qed.
Lemma keep_primary_ok c next :
  map_Forall (fun n e => Number (ch e) = n /\ source e = Some (n - 1) /\ Primary (ch e) = false) next ->
  map_Forall (entry_ok c) (keep_primary c next) /\ is_Some (keep_primary c next !! primaryNumber c).
Proof.
  intros H. unfold keep_primary.
  assert (forall e, Number (ch e) = primaryNumber c -> Primary (ch e) = true -> source e = Some (NVRChannel c) ->
    map_Forall (entry_ok c) (<[primaryNumber c := e]> next) /\ is_Some ((<[primaryNumber c := e]> next) !! primaryNumber c)) as Hin.
  { intros e H1 H2 H3. rewrite lookup_insert_eq. split; [|by eexists]. intros n e'. rewrite lookup_insert_Some.
    intros [[<- <-]|[Hne He]].
    - split; [done|]. rewrite H3, H2. split; [f_equal; unfold primaryNumber; lia|done].
    - destruct (H n e' He) as (A & B & C). split; [done|]. split; [done|]. rewrite C. split; [done|]. intros ->. done. }
  destruct (next !! primaryNumber c) as [e|] eqn:E; apply Hin; try done. cbn. by apply (H _ _ E).
Qed.

(** ** Following a camera *)

(** What the loop over the detected channels has done for one camera: it has
    not been met, or it is filed under exactly one number. *)
Definition unseen (id : string) (acc : gmap Z catalogChannel * gset string) : Prop :=
  id ∉ acc.2 /\ map_Forall (fun _ e => CameraID (ch e) <> id) acc.1.
Definition filed (id : string) (n : Z) (acc : gmap Z catalogChannel * gset string) : Prop :=
  id ∈ acc.2 /\ is_Some (acc.1 !! n) /\ map_Forall (fun k e => CameraID (ch e) = id <-> k = n) acc.1.

Lemma enter_detected_unseen previous acc d id :
  id <> "" -> CameraID (ch d) <> id -> unseen id acc -> unseen id (enter_detected previous acc d).
Proof.
  intros Hne Hd [H1 H2]. destruct acc as [next seen]. unfold enter_detected. cbv zeta. destruct (known_name_frame previous (ch d)) as (K1 & K2 & K3). destruct (decide _); [done|]. split; cbn [fst snd].
  - destruct (decide _); set_solver.
  - apply map_Forall_insert_2; [|done]. cbn; congruence.
Qed.
Lemma enter_detected_files previous acc d id :
  id <> "" -> CameraID (ch d) = id -> unseen id acc -> filed id (Number (ch d)) (enter_detected previous acc d).
Proof.
  intros Hne Hd [H1 H2]. destruct acc as [next seen]. unfold enter_detected. cbv zeta. destruct (known_name_frame previous (ch d)) as (K1 & K2 & K3).
  destruct (decide _) as [[_ Hin]|_]; [by subst id|]. cbn [fst snd] in *. split; [|split]; cbn [fst snd].
  - destruct (decide _); [by subst id|set_solver].
  - rewrite K1, lookup_insert_eq. by eexists.
  - intros k e. rewrite lookup_insert_Some. intros [[<- <-]|[Hk He]].
    + split; cbn; congruence.
    + split; [intros A; by destruct (H2 k e He)|by intros ->].
Qed.
Lemma enter_detected_filed previous acc d id n :
  id <> "" -> Number (ch d) <> n -> filed id n acc -> filed id n (enter_detected previous acc d).
Proof.
  intros Hne Hd (H1 & H2 & H3). destruct acc as [next seen]. unfold enter_detected. cbv zeta. destruct (known_name_frame previous (ch d)) as (K1 & K2 & K3). destruct (decide _) as [|Hnew]; [done|].
  cbn in H1, H2, H3. assert (CameraID (ch d) <> id) as Hid.
  { intros <-. by destruct Hnew. }
  split; [|split]; cbn [fst snd].
  - destruct (decide _); set_solver.
  - rewrite lookup_insert_ne; congruence.
  - intros k e. rewrite lookup_insert_Some. intros [[<- <-]|[Hk He]]; [|by apply H3].
    split; cbn; congruence.
Qed.
Lemma detected_filed previous l1 d l2 :
  CameraID (ch d) <> "" -> Forall (fun e => CameraID (ch e) <> CameraID (ch d)) l1 ->
  Forall (fun e => Number (ch e) <> Number (ch d)) l2 ->
  filed (CameraID (ch d)) (Number (ch d)) (foldl (enter_detected previous) (∅, ∅) (l1 ++ d :: l2)).
Proof.
  intros Hne H1 H2. rewrite foldl_app. cbn.
  assert (unseen (CameraID (ch d)) (foldl (enter_detected previous) (∅, ∅) l1)) as Hu.
  { assert (unseen (CameraID (ch d)) (∅, ∅)) as H0 by (split; [set_solver|apply map_Forall_empty]).
    revert H0. generalize (∅ : gmap Z catalogChannel, ∅ : gset string). induction H1 as [|e l He _ IH]; intros acc Ha; [done|].
    cbn. apply IH. by apply enter_detected_unseen. }
  apply (enter_detected_files previous _ d) in Hu; [|done..]. revert Hu. generalize (enter_detected previous (foldl (enter_detected previous) (∅, ∅) l1) d).
  induction H2 as [|e l He _ IH]; intros acc Ha; [done|]. cbn. apply IH. by apply enter_detected_filed.
Qed.

Lemma fetched_distinct replies l1 d l2 :
  fetchChannels replies = Ok (l1 ++ d :: l2) -> Forall (fun e => Number (ch e) <> Number (ch d)) l2.
Proof.
  intros [Hnd _]%fetchChannels_ok. rewrite map_app in Hnd. cbn in Hnd. apply NoDup_app in Hnd as (_ & _ & Hnd).
  apply NoDup_cons in Hnd as [Hn _]. apply Forall_forall. intros e He Heq. apply Hn. rewrite <- Heq.
  by apply (list_elem_of_fmap_2 (fun e => Number (ch e))).
Qed.
Lemma Discover_filed now replies c l1 d l2 :
  fetchChannels replies = Ok (l1 ++ d :: l2) -> CameraID (ch d) <> "" ->
  Forall (fun e => CameraID (ch e) <> CameraID (ch d)) l1 ->
  exists next seen, filed (CameraID (ch d)) (Number (ch d)) (next, seen) /\
    foldl (enter_detected (channels c)) (∅, ∅) (l1 ++ d :: l2) = (next, seen) /\
    channels (Discover now (fetchChannels replies) c).2 = keep_primary c next.
Proof.
  intros Hf Hne H1. pose proof (detected_filed (channels c) l1 d l2 Hne H1 (fetched_distinct _ _ _ _ Hf)) as H.
  rewrite Hf. unfold Discover. destruct (foldl _ _ _) as [next seen]. by exists next, seen.
Qed.

(** What can happen to a catalogue: a status request, or a saved state. *)
Inductive event := Discovered (now : Z) (replies : list (result (list status))) | Loaded (state : persistedCatalog).
Definition apply_event (c : Catalog) (e : event) : Catalog :=
  match e with
  | Discovered now replies => (Discover now (fetchChannels replies) c).2
  | Loaded state => (loadState state c).2
  end.

Lemma newCatalog_ok nvrChannel host : catalog_ok (newCatalog nvrChannel host).
Proof.
  split; cbn; [|eexists; apply lookup_singleton_eq]. intros n e. rewrite lookup_singleton_Some. intros [<- <-].
  split; [done|]. split; [cbn; f_equal; lia|]. cbn. unfold primaryNumber. cbn. done.
Qed.
Lemma Discover_ok now replies c : catalog_ok c -> catalog_ok (Discover now (fetchChannels replies) c).2.
Proof.
  intros [H1 H2]. destruct (fetchChannels replies) as [l|e|] eqn:E; [|by split..]. apply fetchChannels_ok in E as [_ Hp].
  cbn. pose proof (detected_entries l (channels c) (∅, ∅)) as Hd. destruct (foldl _ _ l) as [next seen]. cbn [fst] in Hd.
  assert (map_Forall (fun n e => Number (ch e) = n /\ source e = Some (n - 1) /\ Primary (ch e) = false) next) as Hn.
  { apply Hd; [|done|apply map_Forall_empty]. intros n s. destruct (channels c !! n) as [e|] eqn:En; [|done]. cbn.
    destruct (H1 n e En) as (_ & -> & _). by intros [= <-]. }
  destruct (keep_primary_ok c next Hn) as [A B]. by split.
Qed.
Lemma loadState_ok state c : catalog_ok c -> catalog_ok (loadState state c).2.
Proof.
  intros [H1 H2]. unfold loadState. destruct (_ || _); [by split|]. cbn.
  set (m := foldl (load_channel c) (channels c) (p_channels state)).
  assert (map_Forall (entry_ok c) m /\ is_Some (m !! primaryNumber c)) as [Hm1 Hm2].
  { subst m. revert H1 H2. generalize (channels c) as m. induction (p_channels state) as [|p l IH]; intros m A B; [done|].
    cbn. apply IH; unfold load_channel; destruct (_ || _); try done; cbv zeta.
    - apply map_Forall_insert_2; [|done]. split; [done|]. split; [done|]. cbn. lia.
    - rewrite lookup_insert_is_Some. destruct (decide (p_number p = primaryNumber c)); auto. }
  destruct Hm2 as [e He]. rewrite He. cbn. destruct (Hm1 _ _ He) as (A1 & A2 & A3). split; cbn.
  - apply map_Forall_insert_2; [|done]. split; [done|]. cbn. split; [f_equal; unfold primaryNumber; lia|]. split; done.
  - rewrite lookup_insert_eq. by eexists.
Qed.

(** The door camera is always in the catalogue.  Whatever the recorder
    answers or fails to answer, and whatever a saved catalogue holds, the
    configured channel stays published, it alone is the primary one, and every
    channel fetches the image of its own camera channel; and a status request
    that fails leaves the published channels as they are. *)
Theorem catalog_keeps_primary (nvrChannel : Z) (host : string) (es : list event) :
  let c := foldl apply_event (newCatalog nvrChannel host) es in
  catalog_ok c /\ channel_source c (nvrChannel + 1) = Some nvrChannel /\
  forall now replies, is_ok (fetchChannels replies) = false -> channels (Discover now (fetchChannels replies) c).2 = channels c.
Proof.
  cbv zeta. assert (forall c, catalog_ok c -> NVRChannel c = nvrChannel ->
    catalog_ok (foldl apply_event c es) /\ NVRChannel (foldl apply_event c es) = nvrChannel) as Hrun.
  { induction es as [|e es IH]; intros c Hc Hn; [done|]. cbn. apply IH.
    - destruct e; [by apply Discover_ok|by apply loadState_ok].
    - destruct e as [now replies|state]; cbn; [|unfold loadState; by destruct (_ || _)].
      destruct (fetchChannels replies) as [l| |]; cbn; [by destruct (foldl _ _ l)|done..]. }
  destruct (Hrun (newCatalog nvrChannel host)) as [Hok Hn]; [apply newCatalog_ok|done|].
  set (c := foldl apply_event _ es) in *. split; [done|]. split.
  - destruct (ok_primary c Hok) as [e He]. unfold primaryNumber in He. rewrite Hn in He. unfold channel_source. rewrite He. cbn.
    destruct (ok_entries c Hok _ _ He) as (_ & -> & _). f_equal. lia.
  - intros now replies H. by destruct (fetchChannels replies).
Qed.
(** [FetchCameraJPEG] follows a camera to the channel that it is on now.
    After a status reply the only image source filed under a camera is that of
    the first channel which reports it, whatever channel the camera was on
    before - provided the camera is on the configured door channel, or was not
    on it before (see [moved_primary_ambiguous]). *)
Theorem camera_followed (c : Catalog) (now : Z) (replies : list (result (list status))) (l1 l2 : list catalogChannel)
    (d : catalogChannel)
    (Hok : catalog_ok c) (Hf : fetchChannels replies = Ok (l1 ++ d :: l2)) (Hid : CameraID (ch d) <> "")
    (H1 : Forall (fun e => CameraID (ch e) <> CameraID (ch d)) l1)
    (Hp : Number (ch d) = primaryNumber c \/
          forall e, channels c !! primaryNumber c = Some e -> CameraID (ch e) <> CameraID (ch d)) :
  forall s, camera_source (Discover now (fetchChannels replies) c).2 (CameraID (ch d)) s <-> s = Some (Number (ch d) - 1).
Proof.
  destruct (Discover_filed now replies c l1 d l2 Hf Hid H1) as (next & seen & (_ & [e0 He0] & Hfil) & _ & Hc).
  destruct (Discover_ok now replies c Hok) as [Hent _]. cbn [fst snd] in He0, Hfil. intros s. unfold camera_source.
  assert (forall k e, channels (Discover now (fetchChannels replies) c).2 !! k = Some e ->
    CameraID (ch e) = CameraID (ch d) <-> k = Number (ch d)) as Hk.
  { rewrite Hc. unfold keep_primary. destruct (next !! primaryNumber c) as [p|] eqn:Ep; intros k e; rewrite lookup_insert_Some;
      intros [[<- <-]|[Hne He]]; try by apply Hfil.
    - by apply (Hfil _ _ Ep).
    - cbn. destruct Hp as [Hp|Hp]; [congruence|]. destruct (ok_primary c Hok) as [q Hq]. rewrite Hq. cbn.
      split; [intros A; by destruct (Hp q Hq)|congruence]. }
  assert (is_Some (channels (Discover now (fetchChannels replies) c).2 !! Number (ch d))) as [e He].
  { rewrite Hc. unfold keep_primary. destruct (next !! primaryNumber c); apply lookup_insert_is_Some;
      destruct (decide (primaryNumber c = Number (ch d))); eauto. }
  split.
  - intros (k & e' & Hl & Hid' & <-). apply (Hk k e' Hl) in Hid' as ->. by apply (Hent _ _ Hl).
  - intros ->. exists (Number (ch d)), e. split; [done|]. split; [by apply (Hk _ _ He)|by apply (Hent _ _ He)].
Qed.

(** A door camera that another recorder channel reports now keeps its entry on
    the configured channel as well: two channels carry its camera id, and which
    image [FetchCameraJPEG] returns depends on the iteration order of the map. *)
Lemma moved_primary_ambiguous (c : Catalog) (now : Z) (replies : list (result (list status))) (l1 l2 : list catalogChannel)
    (d e : catalogChannel) :
  catalog_ok c -> fetchChannels replies = Ok (l1 ++ d :: l2) -> CameraID (ch d) <> "" ->
  Forall (fun e => CameraID (ch e) <> CameraID (ch d)) l1 ->
  channels c !! primaryNumber c = Some e -> CameraID (ch e) = CameraID (ch d) ->
  Forall (fun x => Number (ch x) <> primaryNumber c) (l1 ++ d :: l2) ->
  let c' := (Discover now (fetchChannels replies) c).2 in
  camera_source c' (CameraID (ch d)) (Some (NVRChannel c)) /\
  camera_source c' (CameraID (ch d)) (Some (Number (ch d) - 1)) /\ NVRChannel c <> Number (ch d) - 1.
Proof.
  intros Hok Hf Hid H1 He Heq Hno c'. destruct (Discover_filed now replies c l1 d l2 Hf Hid H1) as (next & seen & (_ & [q Hq] & Hfil) & Hn & Hc).
  destruct (Discover_ok now replies c Hok) as [Hent _]. cbn [fst snd] in Hq, Hfil. fold c' in Hc, Hent.
  assert (next !! primaryNumber c = None) as Hnone.
  { change next with (next, seen).1. rewrite <- Hn. assert ((∅ : gmap Z catalogChannel, ∅ : gset string).1 !! primaryNumber c = None) as H0 by done.
    revert H0. generalize (∅ : gmap Z catalogChannel, ∅ : gset string). clear -Hno.
    induction Hno as [|x l Hx _ IH]; intros acc Ha; [done|]. cbn. apply IH. destruct acc as [m sn]. unfold enter_detected.
    destruct (decide _); [done|]. cbv zeta. cbn [fst] in *. by rewrite (proj1 (known_name_frame _ _)), lookup_insert_ne. }
  apply Forall_app in Hno as [_ [Hnd _]%Forall_cons]. split; [|split].
  - unfold camera_source. rewrite Hc. unfold keep_primary. rewrite Hnone, He. eexists _, _. rewrite lookup_insert_eq. by cbn.
  - assert (channels c' !! Number (ch d) = Some q) as Hl.
    { rewrite Hc. unfold keep_primary. rewrite Hnone, lookup_insert_ne; [done|congruence]. }
    exists (Number (ch d)), q. split; [done|]. split; [by apply (Hfil _ _ Hq)|by apply (Hent _ _ Hl)].
  - unfold primaryNumber in Hnd. lia.
Qed.
End catalog.

(** A recorder with two cameras, the second of which had been on channel 1. *)
Definition example_replies : list (result (list status)) :=
  [Err "connection refused"; Ok [mkStatus 0 "Door" 1 "95270001"; mkStatus 2 "  Garden   gate" 1 "95270002"]].
Definition example_catalog : Catalog :=
  (Discover 0 (@fetchChannels ascii_tables [Ok [mkStatus 0 "Door" 1 "95270001"; mkStatus 1 "Garden" 1 "95270002"]])
    (newCatalog 0 "192.168.1.20")).2.
Definition example_detected (k : nat) : catalogChannel :=
  match @fetchChannels ascii_tables example_replies with Ok l => nth k l zero_entry | _ => zero_entry end.
Lemma camera_followed_witness :
  (exists n, n <> Number (ch (example_detected 1)) /\
     camera_source example_catalog (CameraID (ch (example_detected 1))) (Some (n - 1))) /\
  camera_source (Discover 60 (@fetchChannels ascii_tables example_replies) example_catalog).2
    (CameraID (ch (example_detected 1))) (Some 2).
Proof.
  split.
  - exists 2. split; [by vm_compute|]. eexists 2, _. split; [vm_compute; reflexivity|]. by vm_compute.
  - apply (@camera_followed ascii_tables example_catalog 60 example_replies [example_detected 0] [] (example_detected 1)).
    + apply Discover_ok. apply newCatalog_ok.
    + vm_compute. reflexivity.
    + by vm_compute.
    + apply List.Forall_cons; [|apply List.Forall_nil]. by vm_compute.
    + right. intros e. vm_compute. by intros [= <-].
    + vm_compute. reflexivity.
Defined.
End LiveCatalog.
