(* ===== verification/Config.v ===== *)
(** The options of the gateway: [internal/config/config.go].

    [Load] starts from the JSON document in its decoded form: the options, the
    set of the keys that are present, and the aliases of releases before 0.5.0.
    [Validate] returns the errors that Go joins, in the order of the source (some
    texts are shortened); the loop over the five options that must not break a line runs in this order
    here, in any order there. *)
From S2P Require Import Prelude GoStrings GoText Sdp.

(** [net.IP.To4]. *)
Class IPFamily `{N : NetIP} := { is_IPv4 : IP -> bool }.

Module Config.

(** * Options *)

Definition DefaultAECInitialDelayMS : Z := 1450.
Definition DefaultAECSearchWindowMS : Z := 300.
Definition DefaultRTPInactivitySeconds : Z := 15.
Definition MaxParallelDestinations : nat := 3.
Definition MaxCallRoutes : nat := 32.
Definition DefaultRouteID : string := "default".
Definition minimumAECSearchWindowMS : Z := 50.
Definition maximumAECSearchWindowMS : Z := 1000.
Definition MaxSupportedAECDelayMS : Z := 3000.

Record MobileTarget := mkTarget { TargetID : string; TargetName : string; Destination : string }.
Record CallRoute := mkRoute {
  ID : string; Name : string; VisitorEntity : string; DoorbellNumber : string;
  MobileNumber1 : string; MobileNumber2 : string; MobileNumber3 : string;
  LegacyMobileTarget1 : string; LegacyMobileTarget2 : string; LegacyMobileTarget3 : string;
}.
#[export] Instance eta_route : Eta CallRoute := fun r =>
  mkRoute (ID r) (Name r) (VisitorEntity r) (DoorbellNumber r) (MobileNumber1 r) (MobileNumber2 r) (MobileNumber3 r)
    (LegacyMobileTarget1 r) (LegacyMobileTarget2 r) (LegacyMobileTarget3 r).
Record ResolvedCallRoute := mkResolved {
  RouteID : string; RouteName : string; Entity : string; Doorbell : string; MobileTargets : list MobileTarget;
}.

Record Config := mkConfig {
  LegacyVisitorEntity : string; SIPDestination : string; ParallelDestinations : list string;
  LegacyMobileTargets : list MobileTarget;
  ReolinkHost : string; ReolinkRTSPPort : Z; ReolinkStreamPath : string; ReolinkUsername : string;
  ReolinkPassword : string; ReolinkMode : string; BaichuanPort : Z; NVRChannel : Z; FritzFonLiveImageEnabled : bool;
  EchoCancellationEnabled : bool; EchoCancellationSearchWindowMS : Z; WebRTCHighPassFilterEnabled : bool;
  WebRTCNoiseSuppressionEnabled : bool;
  SIPRegistrar : string; SIPRegistrarPort : Z; SIPUsername : string; SIPPassword : string; SIPLocalPort : Z;
  SIPDisplayName : string; SIPCodecPreference : string; DoorCallEnabled : bool; ParallelCallEnabled : bool;
  ParallelUsername : string; ParallelPassword : string; ParallelLocalPort : Z; CallRoutes : list CallRoute;
  IncomingCallsEnabled : bool; IncomingAllowedCallers : list string; IncomingConnectionToneEnabled : bool;
  RTPInactivityTimeoutSeconds : Z; RingTimeoutSeconds : Z; MaxCallDurationSeconds : Z; DebounceSeconds : Z;
  LogLevel : string; DryRun : bool;
  StatusPort : Z; ResolvedReolinkMode : string; AECInitialDelayMS : Z; AECMinDelayMS : Z; AECMaxDelayMS : Z;
  FFmpegBinaryPath : string;
}.
#[export] Instance eta_config : Eta Config := fun c => mkConfig
  (LegacyVisitorEntity c) (SIPDestination c) (ParallelDestinations c) (LegacyMobileTargets c)
  (ReolinkHost c) (ReolinkRTSPPort c) (ReolinkStreamPath c) (ReolinkUsername c)
  (ReolinkPassword c) (ReolinkMode c) (BaichuanPort c) (NVRChannel c) (FritzFonLiveImageEnabled c)
  (EchoCancellationEnabled c) (EchoCancellationSearchWindowMS c) (WebRTCHighPassFilterEnabled c)
  (WebRTCNoiseSuppressionEnabled c)
  (SIPRegistrar c) (SIPRegistrarPort c) (SIPUsername c) (SIPPassword c) (SIPLocalPort c)
  (SIPDisplayName c) (SIPCodecPreference c) (DoorCallEnabled c) (ParallelCallEnabled c)
  (ParallelUsername c) (ParallelPassword c) (ParallelLocalPort c) (CallRoutes c)
  (IncomingCallsEnabled c) (IncomingAllowedCallers c) (IncomingConnectionToneEnabled c)
  (RTPInactivityTimeoutSeconds c) (RingTimeoutSeconds c) (MaxCallDurationSeconds c) (DebounceSeconds c)
  (LogLevel c) (DryRun c)
  (StatusPort c) (ResolvedReolinkMode c) (AECInitialDelayMS c) (AECMinDelayMS c) (AECMaxDelayMS c)
  (FFmpegBinaryPath c).

Section config.
Context `{U : Unicode} `{F : IPFamily}.

Definition nonempty (v : string) : bool := negb (bool_decide (v = "")).
Definition MobileNumbers (r : CallRoute) : list string :=
  filter (fun v => v <> "") (map TrimSpace [MobileNumber1 r; MobileNumber2 r; MobileNumber3 r]).

(** [SetAECDelay] *)
Definition SetAECDelay (delayMS : Z) (c : Config) : Config :=
  let delayMS := clamp 0 MaxSupportedAECDelayMS delayMS in
  let window := if EchoCancellationSearchWindowMS c <=? 0 then DefaultAECSearchWindowMS else EchoCancellationSearchWindowMS c in
  c <| AECInitialDelayMS := delayMS |>
    <| AECMinDelayMS := Z.max 0 (swrap 64 (delayMS - window)) |>
    <| AECMaxDelayMS := Z.min MaxSupportedAECDelayMS (swrap 64 (delayMS + window)) |>.

Definition Haustuer : string := b2s [72; 97; 117; 115; 116; 195; 188; 114].
Definition default_route : CallRoute :=
  mkRoute DefaultRouteID "Standardroute" "binary_sensor.reolink_video_doorbell_visitor" "11" "" "" "" "" "" "".
Definition Defaults : Config :=
  SetAECDelay DefaultAECInitialDelayMS
    (mkConfig "" "" [] [] "192.168.177.50" 554 "/Preview_01_sub" "admin" "" "auto" 9000 1 true
       true DefaultAECSearchWindowMS true true
       "192.168.177.9" 5060 "" "" 5070 Haustuer "pcma" true false "" "" 5071 [default_route]
       false ["*"] true DefaultRTPInactivitySeconds 30 300 3 "info" true 18099 "" 0 0 0 "").

(** * Loading *)

Fixpoint normalize_go (seen : gset string) (values : list string) : list string :=
  match values with
  | [] => []
  | v :: values =>
    let v := TrimSpace v in
    if decide (v = "" \/ v ∈ seen) then normalize_go seen values else v :: normalize_go ({[v]} ∪ seen) values
  end.
Definition normalizeListEntries (values : list string) : list string := normalize_go ∅ values.

(** A legacy reference: the number it stands for, or itself. *)
Definition legacy_number (targets : gmap string string) (number ref : string) : string :=
  if nonempty (TrimSpace number) || negb (nonempty (TrimSpace ref)) then number
  else
    let ref := TrimSpace ref in
    match targets !! ref with
    | Some destination => if decide (destination = "") then ref else destination
    | None => ref
    end.
Definition migrate_route (targets : gmap string string) (r : CallRoute) : CallRoute :=
  r <| MobileNumber1 := legacy_number targets (MobileNumber1 r) (LegacyMobileTarget1 r) |>
    <| MobileNumber2 := legacy_number targets (MobileNumber2 r) (LegacyMobileTarget2 r) |>
    <| MobileNumber3 := legacy_number targets (MobileNumber3 r) (LegacyMobileTarget3 r) |>
    <| LegacyMobileTarget1 := "" |> <| LegacyMobileTarget2 := "" |> <| LegacyMobileTarget3 := "" |>.
(** The one route of a configuration before 1.2. *)
Definition legacy_route (raw : gset string) (c : Config) : CallRoute :=
  let r := default_route in
  let r := if decide ("visitor_entity" ∈ raw) then r <| VisitorEntity := TrimSpace (LegacyVisitorEntity c) |> else r in
  let r := if decide ("sip_destination" ∈ raw) then r <| DoorbellNumber := TrimSpace (SIPDestination c) |> else r in
  match take MaxParallelDestinations (ParallelDestinations c) with
  | [a] => r <| MobileNumber1 := a |>
  | [a; b] => r <| MobileNumber1 := a |> <| MobileNumber2 := b |>
  | a :: b :: d :: _ => r <| MobileNumber1 := a |> <| MobileNumber2 := b |> <| MobileNumber3 := d |>
  | [] => r
  end.
Definition target_numbers (l : list MobileTarget) : gmap string string :=
  foldl (fun m t => let id := TrimSpace (TargetID t) in
                    if nonempty id then <[id := TrimSpace (Destination t)]> m else m) ∅ l.
Definition migrateLegacyRouting (raw : gset string) (c : Config) : Config :=
  let targets := target_numbers (LegacyMobileTargets c) in
  let routes :=
    if negb (bool_decide ("call_routes" ∈ raw)) || bool_decide (CallRoutes c = []) then [legacy_route raw c] else CallRoutes c in
  c <| CallRoutes := map (migrate_route targets) routes |>
    <| LegacyVisitorEntity := "" |> <| SIPDestination := "" |> <| ParallelDestinations := [] |> <| LegacyMobileTargets := [] |>.
Definition normalize_route (r : CallRoute) : CallRoute :=
  r <| ID ::= TrimSpace |> <| Name ::= TrimSpace |> <| VisitorEntity ::= TrimSpace |> <| DoorbellNumber ::= TrimSpace |>
    <| MobileNumber1 ::= TrimSpace |> <| MobileNumber2 ::= TrimSpace |> <| MobileNumber3 ::= TrimSpace |>.
Definition normalizeRouting (c : Config) : Config := c <| CallRoutes ::= map normalize_route |>.

(** The aliases from before 0.5.0. *)
Record legacyOptions := mkLegacy { ConnectionMode : option string; BaichuanChannel : option Z }.
Definition legacy_mode (raw : gset string) (l : legacyOptions) (c : Config) : Config :=
  match ConnectionMode l with
  | Some m =>
    let legacyMode := ToLower (TrimSpace m) in
    if negb (bool_decide ("reolink_mode" ∈ raw)) || (bool_decide (ReolinkMode c = "auto") && negb (bool_decide (legacyMode = "auto")))
    then c <| ReolinkMode := legacyMode |> else c
  | None => c
  end.
Definition legacy_channel (raw : gset string) (l : legacyOptions) (c : Config) : Config :=
  match BaichuanChannel l with
  | Some ch =>
    if negb (bool_decide ("nvr_channel" ∈ raw)) || ((NVRChannel c =? NVRChannel Defaults) && negb (ch =? NVRChannel Defaults))
    then c <| NVRChannel := ch |> else c
  | None => c
  end.
Definition normalize_path (p : string) : string :=
  let p := TrimSpace p in if nonempty p && negb (HasPrefix p "/") then "/" +:+ p else p.
(** [Load] up to the validation. *)
Definition Load (raw : gset string) (l : legacyOptions) (c : Config) : Config :=
  let c := legacy_channel raw l (legacy_mode raw l c) in
  let c := c <| ReolinkStreamPath ::= normalize_path |> <| ReolinkMode ::= fun m => ToLower (TrimSpace m) |>
             <| SIPCodecPreference ::= fun m => ToLower (TrimSpace m) |> <| ParallelDestinations ::= normalizeListEntries |> in
  let c := normalizeRouting (migrateLegacyRouting raw c) in
  SetAECDelay DefaultAECInitialDelayMS
    (c <| IncomingAllowedCallers ::= normalizeListEntries |> <| LogLevel ::= fun m => ToLower (TrimSpace m) |> <| StatusPort := 18099 |>).

(** * Validation *)

Definition check (b : bool) (e : string) : list string := if b then [e] else [].
Definition line_break (v : string) : bool := ContainsAny v [chr 13; chr 10].
Definition validateHost (name value : string) : option string :=
  let v := TrimSpace value in
  if negb (nonempty v) then Some (name +:+ " is required")
  else if Contains v "://" || ContainsAny v ["/"; "?"; "#"]%char then
    Some (name +:+ " must be a hostname or IP address without scheme, path or port")
  else if ContainsAny v [chr 32; chr 9; chr 13; chr 10] then Some (name +:+ " must not contain whitespace")
  else if negb (bool_decide (is_Some (ParseIP v))) && Contains v ":" then
    Some (name +:+ " must be a hostname or IP address without a port")
  else None.

Definition name_char (r : Z) : bool := within 97 122 r || within 48 57 r || (r =? 95).
Definition validRoutingID (value : string) : bool :=
  (1 <=? slen value) && (slen value <=? 64) &&
  match value with
  | String a rest => within 97 122 (code a) && forallb (fun r => name_char r.1) (runes rest)
  | "" => false
  end.
Definition validBinarySensorEntityID (v : string) : bool :=
  HasPrefix v "binary_sensor." && negb (slen v =? 14) && forallb (fun r => name_char r.1) (runes (sdrop 14 v)).
Definition validateRoutingName (name value : string) : option string :=
  if negb (nonempty value) then Some (name +:+ " is required")
  else if 64 <? slen value then Some (name +:+ " must not exceed 64 characters")
  else if line_break value then Some (name +:+ " must not contain CR/LF characters")
  else None.
Definition validateRoutingDestination (name value : string) (optional : bool) : option string :=
  if negb (nonempty value) then if optional then None else Some (name +:+ " is required")
  else if 128 <? slen value then Some (name +:+ " must not exceed 128 characters")
  else if line_break value then Some (name +:+ " must not contain CR/LF characters")
  else None.
(** [strings.Map] drops the runes that map to -1. *)
Definition canonicalRoutingDestination (value : string) : string :=
  b2s (concat (map (fun r : Z * bytes => if bool_decide (r.1 ∈ [32; 9; 45; 46; 47; 40; 41]) then [] else encode_rune r.1)
                 (runes (ToLower (TrimSpace value))))).

(** What [validateRouting] has seen of the routes before. *)
Record seen := mkSeen {
  routeIDs : gset string; entities : gmap string string; doorbellNumbers : gmap string string;
  doorRoutes : nat; mobileRoutes : nat;
}.
Definition trim_route (r : CallRoute) : CallRoute :=
  r <| ID ::= TrimSpace |> <| Name ::= TrimSpace |> <| VisitorEntity ::= TrimSpace |> <| DoorbellNumber ::= TrimSpace |>.
(** The mobile numbers of one route: the errors and the numbers met. *)
Fixpoint check_mobiles (label : string) (index : Z) (fields : list string) (met : gset string) : list string :=
  match fields with
  | [] => []
  | destination :: fields =>
    let destination := TrimSpace destination in
    if negb (nonempty destination) then check_mobiles label (index + 1) fields met
    else
      match validateRoutingDestination (label +:+ ".mobile_number_" +:+ Itoa (index + 1)) destination false with
      | Some e => e :: check_mobiles label (index + 1) fields met
      | None =>
        let canonical := canonicalRoutingDestination destination in
        if decide (canonical ∈ met)
        then (label +:+ " contains the same mobile number more than once") :: check_mobiles label (index + 1) fields met
        else check_mobiles label (index + 1) fields ({[canonical]} ∪ met)
      end
  end.
Definition check_id (label : string) (r : CallRoute) (s : seen) : list string * gset string :=
  if negb (validRoutingID (ID r)) then ([label +:+ ".id must start with a lowercase letter"], routeIDs s)
  else if decide (ID r ∈ routeIDs s) then (["call_routes contains duplicate id " +:+ ID r], routeIDs s)
  else ([], {[ID r]} ∪ routeIDs s).
Definition check_entity (label : string) (r : CallRoute) (s : seen) : list string * gmap string string :=
  if negb (validBinarySensorEntityID (VisitorEntity r))
  then ([label +:+ ".visitor_entity must be a binary_sensor entity ID"], entities s)
  else
    match entities s !! VisitorEntity r with
    | Some previousID => (["call_routes " +:+ previousID +:+ " and " +:+ ID r +:+ " use the same visitor_entity"], entities s)
    | None => ([], <[VisitorEntity r := ID r]> (entities s))
    end.
Definition check_doorbell (label : string) (r : CallRoute) (s : seen) : list string * gmap string string :=
  if negb (nonempty (DoorbellNumber r)) then ([], doorbellNumbers s)
  else
    match validateRoutingDestination (label +:+ ".doorbell_number") (DoorbellNumber r) true with
    | Some e => ([e], doorbellNumbers s)
    | None =>
      let canonical := canonicalRoutingDestination (DoorbellNumber r) in
      match doorbellNumbers s !! canonical with
      | Some previousID => (["call_routes " +:+ previousID +:+ " and " +:+ ID r +:+ " use the same doorbell_number"], doorbellNumbers s)
      | None => ([], <[canonical := ID r]> (doorbellNumbers s))
      end
    end.
(** One turn of the loop of [validateRouting]. *)
Definition check_route (c : Config) (index : Z) (route : CallRoute) (s : seen) : list string * seen :=
  let r := trim_route route in
  let label := "call_routes[" +:+ Itoa index +:+ "]" in
  let '(e1, ids) := check_id label r s in
  let e2 := option_list (validateRoutingName (label +:+ ".name") (Name r)) in
  let '(e3, ents) := check_entity label r s in
  let '(e4, doors) := check_doorbell label r s in
  let mobile := negb (bool_decide (MobileNumbers r = [])) in
  let e5 := check_mobiles label 0 [MobileNumber1 r; MobileNumber2 r; MobileNumber3 r] ∅ in
  let e6 := check (negb (nonempty (DoorbellNumber r)) && negb mobile)
              (label +:+ " must configure a doorbell_number, at least one mobile number, or both") in
  let e7 := check (negb (DryRun c) && negb (DoorCallEnabled c && nonempty (DoorbellNumber r)) && negb (ParallelCallEnabled c && mobile))
              (label +:+ " has no call path on an enabled SIP account") in
  (e1 ++ e2 ++ e3 ++ e4 ++ e5 ++ e6 ++ e7,
   mkSeen ids ents doors (doorRoutes s + (if nonempty (DoorbellNumber r) then 1 else 0)) (mobileRoutes s + (if mobile then 1 else 0))).
Fixpoint check_routes (c : Config) (index : Z) (routes : list CallRoute) (s : seen) : list string * seen :=
  match routes with
  | [] => ([], s)
  | r :: routes =>
    let '(e, s) := check_route c index r s in
    let '(es, s) := check_routes c (index + 1) routes s in
    (e ++ es, s)
  end.
Definition validateRouting (c : Config) : list string :=
  match CallRoutes c with
  | [] => ["call_routes must contain at least one route"]
  | routes =>
    let e0 := check (MaxCallRoutes <? length routes)%nat "call_routes must contain at most 32 entries" in
    let '(es, s) := check_routes c 0 routes (mkSeen ∅ ∅ ∅ 0 0) in
    e0 ++ es ++
    check (DoorCallEnabled c && (doorRoutes s =? 0)%nat) "door_call_enabled requires at least one call route with a doorbell_number" ++
    check (ParallelCallEnabled c && (mobileRoutes s =? 0)%nat) "parallel_call_enabled requires at least one call route with a mobile number"
  end.

Definition bad_port (p : Z) : bool := (p <? 1) || (65535 <? p).
(** The errors of one allowed caller. *)
Definition check_caller (caller : string) : list string :=
  let caller := TrimSpace caller in
  if negb (nonempty caller) then ["incoming_allowed_callers entries must not be empty"]
  else
    check (line_break caller) "incoming_allowed_callers must not contain CR/LF characters" ++
    check (128 <? slen caller) "incoming_allowed_callers entries must not exceed 128 characters".
Definition is_wildcard (caller : string) : bool := bool_decide (TrimSpace caller = "*").
Definition Validate (c : Config) : list string :=
  option_list (validateHost "reolink_host" (ReolinkHost c)) ++
  check (bad_port (ReolinkRTSPPort c)) "reolink_rtsp_port must be 1..65535" ++
  check (bad_port (BaichuanPort c)) "baichuan_port must be 1..65535" ++
  check ((NVRChannel c <? 0) || (255 <? NVRChannel c)) "nvr_channel must be 0..255" ++
  check (negb (bool_decide (ReolinkMode c ∈ ["auto"; "nvr"; "standalone"]))) "reolink_mode must be auto, nvr or standalone" ++
  check ((EchoCancellationSearchWindowMS c <? minimumAECSearchWindowMS) || (maximumAECSearchWindowMS <? EchoCancellationSearchWindowMS c))
    "echo_cancellation_search_window_ms must be 50..1000" ++
  check (negb (DryRun c) && negb (nonempty (TrimSpace (ReolinkUsername c)))) "reolink_username is required unless dry_run is enabled" ++
  check (negb (DryRun c) && negb (nonempty (TrimSpace (ReolinkPassword c)))) "reolink_password is required unless dry_run is enabled" ++
  concat (map (fun nv => check (line_break nv.2) (nv.1 +:+ " must not contain CR/LF characters"))
    [("reolink_stream_path", ReolinkStreamPath c); ("reolink_username", ReolinkUsername c); ("sip_username", SIPUsername c);
     ("sip_display_name", SIPDisplayName c); ("parallel_username", ParallelUsername c)]) ++
  match validateHost "sip_registrar" (SIPRegistrar c) with
  | Some e => [e]
  | None =>
    match ParseIP (TrimSpace (SIPRegistrar c)) with
    | Some ip => check (negb (is_IPv4 ip)) "sip_registrar IPv6 literals are not supported; use an IPv4 address or a hostname resolving to IPv4"
    | None => []
    end
  end ++
  check (bad_port (SIPRegistrarPort c)) "sip_registrar_port must be 1..65535" ++
  check (DoorCallEnabled c && negb (DryRun c) && negb (nonempty (TrimSpace (SIPUsername c)))) "sip_username is required when the door call is enabled" ++
  check (DoorCallEnabled c && negb (DryRun c) && negb (nonempty (TrimSpace (SIPPassword c)))) "sip_password is required when the door call is enabled" ++
  check (bad_port (SIPLocalPort c)) "sip_local_port must be 1..65535" ++
  check (negb (bool_decide (SIPCodecPreference c ∈ ["pcma"; "pcmu"; "auto"]))) "sip_codec_preference must be pcma, pcmu or auto" ++
  check (bad_port (ParallelLocalPort c)) "parallel_local_port must be 1..65535" ++
  check (ParallelCallEnabled c && DoorCallEnabled c && (ParallelLocalPort c =? SIPLocalPort c)) "parallel_local_port must differ from sip_local_port" ++
  check (ParallelCallEnabled c && negb (DryRun c) && negb (nonempty (TrimSpace (ParallelUsername c)))) "parallel_username is required when parallel calling is enabled" ++
  check (ParallelCallEnabled c && negb (DryRun c) && negb (nonempty (TrimSpace (ParallelPassword c)))) "parallel_password is required when parallel calling is enabled" ++
  check (negb (DryRun c) && negb (DoorCallEnabled c) && negb (ParallelCallEnabled c)) "at least one of door_call_enabled or parallel_call_enabled must be enabled" ++
  validateRouting c ++
  check (IncomingCallsEnabled c && bool_decide (IncomingAllowedCallers c = []))
    "incoming_allowed_callers must contain at least one caller or * when incoming calls are enabled" ++
  concat (map check_caller (IncomingAllowedCallers c)) ++
  check (existsb is_wildcard (IncomingAllowedCallers c) && (1 <? length (IncomingAllowedCallers c))%nat)
    "incoming_allowed_callers wildcard * must be the only entry" ++
  check ((RTPInactivityTimeoutSeconds c <? 5) || (120 <? RTPInactivityTimeoutSeconds c)) "rtp_inactivity_timeout_seconds must be 5..120" ++
  check ((RingTimeoutSeconds c <? 5) || (180 <? RingTimeoutSeconds c)) "ring_timeout_seconds must be 5..180" ++
  check ((MaxCallDurationSeconds c <? 15) || (3600 <? MaxCallDurationSeconds c)) "max_call_duration_seconds must be 15..3600" ++
  check ((DebounceSeconds c <? 0) || (60 <? DebounceSeconds c)) "debounce_seconds must be 0..60" ++
  check (bad_port (StatusPort c)) "status_port must be 1..65535" ++
  (if negb (nonempty (TrimSpace (ReolinkStreamPath c))) then ["reolink_stream_path is required"]
   else check (negb (HasPrefix (ReolinkStreamPath c) "/") || ContainsAny (ReolinkStreamPath c) ["?"; "#"]%char)
          "reolink_stream_path must be an absolute RTSP path without query or fragment") ++
  check (negb (bool_decide (LogLevel c ∈ ["debug"; "info"; "warn"; "warning"; "error"]))) "log_level must be debug, info, warn, warning or error".

(** * What the rest of the gateway reads *)

Definition resolve_targets (numbers : list string) : list MobileTarget :=
  imap (fun i d => mkTarget (Itoa (Z.of_nat i + 1)) ("Mobilziel " +:+ Itoa (Z.of_nat i + 1)) d) numbers.
Definition resolve (r : CallRoute) : ResolvedCallRoute :=
  mkResolved (TrimSpace (ID r)) (TrimSpace (Name r)) (TrimSpace (VisitorEntity r)) (TrimSpace (DoorbellNumber r))
    (resolve_targets (MobileNumbers r)).
Definition ResolvedCallRoutes (c : Config) : list ResolvedCallRoute := map resolve (CallRoutes c).
Definition FindCallRoute (id : string) (c : Config) : option ResolvedCallRoute :=
  head (filter (fun r => RouteID r = TrimSpace id) (ResolvedCallRoutes c)).
Definition MaxMobileTargetsPerRoute (c : Config) : nat :=
  foldl (fun m r => Nat.max m (length (MobileTargets r))) 0%nat (ResolvedCallRoutes c).
Definition second : Z := 1000000000.
Definition RingTimeout (c : Config) : Z := swrap 64 (RingTimeoutSeconds c * second).
Definition MaxCallDuration (c : Config) : Z := swrap 64 (MaxCallDurationSeconds c * second).
Definition Debounce (c : Config) : Z := swrap 64 (DebounceSeconds c * second).
Definition RTPInactivityTimeout (c : Config) : Z := swrap 64 (RTPInactivityTimeoutSeconds c * second).
Definition EffectiveReolinkMode (c : Config) : string :=
  if nonempty (ResolvedReolinkMode c) then ResolvedReolinkMode c else ReolinkMode c.
Definition ReceiveMode (c : Config) : string := if decide (EffectiveReolinkMode c = "nvr") then "baichuan" else "rtsp".
Definition WithResolvedReolinkMode (mode : string) (c : Config) : Config := c <| ResolvedReolinkMode := ToLower (TrimSpace mode) |>.

(** ** The routing contract *)

(** What the runtime relies on, in terms of the routes that it reads. *)
Definition numbers (r : ResolvedCallRoute) : list string := map Destination (MobileTargets r).
Definition destination_ok (v : string) : Prop := slen v <= 128 /\ line_break v = false.
Definition door_key (r : ResolvedCallRoute) : option string :=
  if nonempty (Doorbell r) then Some (canonicalRoutingDestination (Doorbell r)) else None.
Record route_ok (dry door mobile : bool) (r : ResolvedCallRoute) : Prop := {
  ok_id : validRoutingID (RouteID r) = true;
  ok_name : RouteName r <> "" /\ slen (RouteName r) <= 64 /\ line_break (RouteName r) = false;
  ok_entity : validBinarySensorEntityID (Entity r) = true;
  ok_doorbell : Doorbell r <> "" -> destination_ok (Doorbell r);
  ok_mobiles : Forall destination_ok (numbers r) /\ NoDup (map canonicalRoutingDestination (numbers r));
  ok_some : Doorbell r <> "" \/ numbers r <> [];
  ok_path : dry = true \/ (door = true /\ Doorbell r <> "") \/ (mobile = true /\ numbers r <> []);
}.
Record routing_ok (dry door mobile : bool) (routes : list ResolvedCallRoute) : Prop := {
  ok_count : (1 <= length routes <= MaxCallRoutes)%nat;
  ok_routes : Forall (route_ok dry door mobile) routes;
  ok_ids : NoDup (map RouteID routes);
  ok_entities : NoDup (map Entity routes);
  ok_doorbells : NoDup (omap door_key routes);
  ok_door_used : door = true -> Exists (fun r => Doorbell r <> "") routes;
  ok_mobile_used : mobile = true -> Exists (fun r => numbers r <> []) routes;
}.

Lemma check_nil b e : check b e = [] <-> b = false.
Proof. by destruct b. Qed.
Lemma option_list_nil {A} (o : option A) : option_list o = [] <-> o = None.
Proof. by destruct o. Qed.
Lemma nonempty_true v : nonempty v = true <-> v <> "".
Proof. unfold nonempty. rewrite negb_true_iff, bool_decide_eq_false. done. Qed.
Lemma nonempty_false v : nonempty v = false <-> v = "".
Proof. unfold nonempty. rewrite negb_false_iff, bool_decide_eq_true. done. Qed.
Lemma numbers_resolve r : numbers (resolve r) = MobileNumbers r.
Proof.
  unfold numbers, resolve, resolve_targets. cbn [MobileTargets]. apply list_eq. intros i.
  change (map Destination) with (fmap (M := list) Destination). rewrite list_lookup_fmap, list_lookup_imap.
  by destruct (MobileNumbers r !! i).
Qed.
Lemma destination_checked name v o : v <> "" -> validateRoutingDestination name v o = None <-> destination_ok v.
Proof.
  intros Hv. unfold validateRoutingDestination, destination_ok. rewrite (proj2 (nonempty_true v) Hv). cbn [negb].
  destruct (Z.ltb_spec 128 (slen v)); [split; [done|lia]|]. destruct (line_break v); split; try done; lia.
Qed.
Lemma name_checked name v : validateRoutingName name v = None <-> v <> "" /\ slen v <= 64 /\ line_break v = false.
Proof.
  unfold validateRoutingName. rewrite <- nonempty_true. destruct (nonempty v); cbn [negb]; [|by split; [|intros []]].
  destruct (Z.ltb_spec 64 (slen v)); [split; [done|lia]|]. destruct (line_break v); split; try done; lia.
Qed.
Lemma mobiles_checked label i fields met :
  let l := filter (fun v => v <> "") (map TrimSpace fields) in
  check_mobiles label i fields met = [] <->
  Forall destination_ok l /\ NoDup (map canonicalRoutingDestination l) /\ Forall (fun v => canonicalRoutingDestination v ∉ met) l.
Proof.
  cbv zeta. revert i met. induction fields as [|f fields IH]; intros i met; cbn [check_mobiles map].
  { split; [|done]. repeat split; constructor. }
  rewrite filter_cons. destruct (decide (TrimSpace f <> "")) as [Hf|Hf].
  2: { rewrite (proj2 (nonempty_false _)) by (by destruct (decide (TrimSpace f = ""))). apply IH. }
  rewrite (proj2 (nonempty_true _) Hf). cbn [negb].
  set (l := filter _ _) in *. cbn [map]. rewrite !Forall_cons, NoDup_cons.
  destruct (validateRoutingDestination _ _ _) eqn:E.
  { split; [done|]. intros ([H _] & _). by rewrite (proj2 (destination_checked _ _ _ Hf) H) in E. }
  apply destination_checked in E; [|done]. destruct (decide _) as [Hin|Hin]; [by split; [|intros (_ & _ & ? & _)]|].
  rewrite IH. split.
  - intros (H1 & H2 & H3). split; [done|]. split; [split; [|done]|split; [done|]].
    + intros Hx. apply list_elem_of_In, in_map_iff in Hx as (v & Hv & Hin'). apply list_elem_of_In in Hin'.
      rewrite Forall_forall in H3. specialize (H3 v Hin'). rewrite Hv in H3. set_solver.
    + eapply Forall_impl; [exact H3|]. set_solver.
  - intros ([_ H1] & [Hx H2] & _ & H3). split; [done|]. split; [done|]. rewrite Forall_forall in H3 |- *. intros v Hv.
    specialize (H3 v Hv). intros [Heq%elem_of_singleton|]%elem_of_union; [|done]. apply Hx. rewrite <- Heq.
    apply list_elem_of_In, in_map, list_elem_of_In. done.
Qed.

(** A route that does not collide with the ones before it, and what entering it
    does. *)
Definition fresh_route (r : ResolvedCallRoute) (s : seen) : Prop :=
  RouteID r ∉ routeIDs s /\ entities s !! Entity r = None /\
  forall k, door_key r = Some k -> doorbellNumbers s !! k = None.
Definition enter_route (r : ResolvedCallRoute) (s : seen) : seen :=
  mkSeen ({[RouteID r]} ∪ routeIDs s) (<[Entity r := RouteID r]> (entities s))
    (match door_key r with Some k => <[k := RouteID r]> (doorbellNumbers s) | None => doorbellNumbers s end)
    (doorRoutes s + (if nonempty (Doorbell r) then 1 else 0)) (mobileRoutes s + (if bool_decide (numbers r = []) then 0 else 1)).

Lemma id_checked label r s : (check_id label (trim_route r) s).1 = [] <->
  validRoutingID (RouteID (resolve r)) = true /\ RouteID (resolve r) ∉ routeIDs s.
Proof.
  unfold check_id. change (ID (trim_route r)) with (RouteID (resolve r)). destruct (validRoutingID _); cbn [negb].
  - destruct (decide _); by split; [|intros []].
  - by split; [|intros []].
Qed.
Lemma entity_checked label r s : (check_entity label (trim_route r) s).1 = [] <->
  validBinarySensorEntityID (Entity (resolve r)) = true /\ entities s !! Entity (resolve r) = None.
Proof.
  unfold check_entity. change (VisitorEntity (trim_route r)) with (Entity (resolve r)).
  destruct (validBinarySensorEntityID _); cbn [negb]; [|by split; [|intros []]].
  destruct (entities s !! _); by split; [|intros []].
Qed.
Lemma doorbell_checked label r s : (check_doorbell label (trim_route r) s).1 = [] <->
  (Doorbell (resolve r) <> "" -> destination_ok (Doorbell (resolve r))) /\
  forall k, door_key (resolve r) = Some k -> doorbellNumbers s !! k = None.
Proof.
  unfold check_doorbell, door_key. change (DoorbellNumber (trim_route r)) with (Doorbell (resolve r)).
  destruct (nonempty (Doorbell (resolve r))) eqn:E; cbn [negb].
  - apply nonempty_true in E. destruct (validateRoutingDestination _ _ _) eqn:Ev.
    + split; [done|]. intros [H _]. by rewrite (proj2 (destination_checked _ _ _ E) (H E)) in Ev.
    + apply destination_checked in Ev; [|done]. destruct (doorbellNumbers s !! _) eqn:El; split; try done.
      * intros [_ H]. specialize (H _ eq_refl). congruence.
      * intros _. split; [done|]. by intros k [= <-].
  - apply nonempty_false in E. by split.
Qed.
Lemma entered label r s :
  (check_id label (trim_route r) s).1 = [] -> (check_entity label (trim_route r) s).1 = [] ->
  (check_doorbell label (trim_route r) s).1 = [] ->
  (check_id label (trim_route r) s).2 = {[RouteID (resolve r)]} ∪ routeIDs s /\
  (check_entity label (trim_route r) s).2 = <[Entity (resolve r) := RouteID (resolve r)]> (entities s) /\
  (check_doorbell label (trim_route r) s).2 =
    match door_key (resolve r) with Some k => <[k := RouteID (resolve r)]> (doorbellNumbers s) | None => doorbellNumbers s end.
Proof.
  unfold check_id, check_entity, check_doorbell, door_key.
  change (ID (trim_route r)) with (RouteID (resolve r)). change (VisitorEntity (trim_route r)) with (Entity (resolve r)).
  change (DoorbellNumber (trim_route r)) with (Doorbell (resolve r)). intros H1 H2 H3. repeat split.
  - destruct (validRoutingID (RouteID (resolve r))); [|done]. by destruct (decide (RouteID (resolve r) ∈ routeIDs s)).
  - destruct (validBinarySensorEntityID (Entity (resolve r))); [|done]. by destruct (entities s !! Entity (resolve r)).
  - destruct (nonempty (Doorbell (resolve r))); [|done]. cbn [negb] in *.
    destruct (validateRoutingDestination (label +:+ ".doorbell_number") (Doorbell (resolve r)) true); [done|].
    by destruct (doorbellNumbers s !! canonicalRoutingDestination (Doorbell (resolve r))).
Qed.

Lemma route_checked c i r s :
  (check_route c i r s).1 = [] <->
  route_ok (DryRun c) (DoorCallEnabled c) (ParallelCallEnabled c) (resolve r) /\ fresh_route (resolve r) s.
Proof.
  unfold check_route. set (label := "call_routes[" +:+ Itoa i +:+ "]").
  pose proof (id_checked label r s) as H1. pose proof (entity_checked label r s) as H3.
  pose proof (doorbell_checked label r s) as H4.
  destruct (check_id label _ s) as [e1 ids], (check_entity label _ s) as [e3 ents], (check_doorbell label _ s) as [e4 doors].
  cbn [fst] in *. rewrite !app_nil, option_list_nil, !check_nil, name_checked, mobiles_checked, H1, H3, H4.
  change (Name (trim_route r)) with (RouteName (resolve r)). change (DoorbellNumber (trim_route r)) with (Doorbell (resolve r)).
  change (MobileNumbers (trim_route r)) with (MobileNumbers r).
  change (filter _ (map TrimSpace _)) with (MobileNumbers r). rewrite <- numbers_resolve.
  pose proof (nonempty_true (Doorbell (resolve r))) as Hn. set (R := resolve r) in *. unfold fresh_route.
  assert (bool_decide (numbers R = []) = true <-> numbers R = []) as Hb by apply bool_decide_eq_true.
  pose proof diff_false_true as Hft. split.
  - intros ((A1 & A2) & B & (C1 & C2) & (D1 & D2) & (E1 & E2 & _) & F1 & G1). split; [|done]. split; try done.
    + destruct (nonempty (Doorbell R)); [left; by apply Hn|right]. destruct (bool_decide (numbers R = [])); [done|].
      intros X. apply Hb in X. done.
    + destruct (DryRun c), (DoorCallEnabled c), (ParallelCallEnabled c), (nonempty (Doorbell R)), (bool_decide (numbers R = [])); try done;
        tauto.
  - intros ([A B C D [E1 E2] F1 G1] & H & I & J). repeat (split; try done).
    + by apply Forall_forall; intros v _; set_solver.
    + destruct (nonempty (Doorbell R)); [done|]. destruct (bool_decide (numbers R = [])); [|done]. cbn. tauto.
    + destruct (DryRun c), (DoorCallEnabled c), (ParallelCallEnabled c), (nonempty (Doorbell R)), (bool_decide (numbers R = [])); try done;
        cbn; exfalso; tauto.
Qed.
Lemma route_entered c i r s : (check_route c i r s).1 = [] -> (check_route c i r s).2 = enter_route (resolve r) s.
Proof.
  unfold check_route. set (label := "call_routes[" +:+ Itoa i +:+ "]"). pose proof (entered label r s) as H.
  destruct (check_id label _ s) as [e1 ids], (check_entity label _ s) as [e3 ents], (check_doorbell label _ s) as [e4 doors].
  cbn [fst snd] in *. rewrite !app_nil. intros (-> & _ & -> & -> & _). destruct H as (-> & -> & ->); [done..|].
  unfold enter_route. rewrite numbers_resolve. change (MobileNumbers (trim_route r)) with (MobileNumbers r). f_equal.
  by destruct (bool_decide _).
Qed.
Lemma route_counted c i r s :
  doorRoutes (check_route c i r s).2 = (doorRoutes s + (if nonempty (Doorbell (resolve r)) then 1 else 0))%nat /\
  mobileRoutes (check_route c i r s).2 = (mobileRoutes s + (if bool_decide (numbers (resolve r) = []) then 0 else 1))%nat.
Proof.
  unfold check_route. destruct (check_id _ _ s), (check_entity _ _ s), (check_doorbell _ _ s). cbn [snd doorRoutes mobileRoutes].
  rewrite numbers_resolve. change (MobileNumbers (trim_route r)) with (MobileNumbers r). split; [done|]. by destruct (bool_decide _).
Qed.

(** A list of routes that can be entered one after the other. *)
Record distinct_routes (routes : list ResolvedCallRoute) : Prop := {
  dr_ids : NoDup (map RouteID routes);
  dr_entities : NoDup (map Entity routes);
  dr_doorbells : NoDup (omap door_key routes);
}.
Lemma fresh_entered r r' s : fresh_route r' (enter_route r s) <->
  fresh_route r' s /\ RouteID r' <> RouteID r /\ Entity r' <> Entity r /\
  forall k, door_key r = Some k -> door_key r' <> Some k.
Proof.
  unfold fresh_route, enter_route. cbn [routeIDs entities doorbellNumbers]. rewrite not_elem_of_union, not_elem_of_singleton, lookup_insert_None.
  destruct (door_key r) as [k|]; [|split; [intros ([] & [] & ?)|intros ((? & ? & ?) & ? & ? & _)]; repeat split; auto; done].
  split.
  - intros ([H1 H2] & [H3 H4] & H5). repeat split; auto.
    + intros k' Hk'. by apply H5, lookup_insert_None in Hk' as [].
    + intros k' [= <-] Hk'. by apply H5, lookup_insert_None in Hk' as [].
  - intros ((H1 & H2 & H3) & H4 & H5 & H6). repeat split; auto. intros k' Hk'. apply lookup_insert_None. split; [by apply H3|].
    intros <-. by apply (H6 k).
Qed.
Lemma elem_map {A B} (f : A -> B) x l : f x ∉ map f l <-> Forall (fun y => f y <> f x) l.
Proof.
  rewrite Forall_forall. split.
  - intros H y Hy Heq. apply H. rewrite <- Heq. by apply (list_elem_of_fmap_2 f).
  - intros H Hin. apply list_elem_of_In, in_map_iff in Hin as (y & Heq & Hy). by apply (H y); [apply list_elem_of_In|].
Qed.
Lemma distinct_cons r routes : distinct_routes (r :: routes) <->
  distinct_routes routes /\ Forall (fun r' => RouteID r' <> RouteID r /\ Entity r' <> Entity r /\
    forall k, door_key r = Some k -> door_key r' <> Some k) routes.
Proof.
  assert (NoDup (omap door_key (r :: routes)) <-> NoDup (omap door_key routes) /\
    Forall (fun r' => forall k, door_key r = Some k -> door_key r' <> Some k) routes) as Hd.
  { cbn [omap list_omap]. rewrite Forall_forall. destruct (door_key r) as [k|]; [|by split; [|intros []]]. rewrite NoDup_cons. split.
    - intros [H1 H2]. split; [done|]. intros r' Hr' k' [= <-] Hk'. apply H1, list_elem_of_omap. by exists r'.
    - intros [H1 H2]. split; [|done]. intros (r' & Hr' & Hk')%list_elem_of_omap. by apply (H2 r' Hr' k). }
  rewrite Forall_and, Forall_and. split.
  - intros [H1 H2 H3]. cbn [map] in H1, H2. apply NoDup_cons in H1 as [A1 A2], H2 as [B1 B2]. apply Hd in H3 as [C1 C2].
    apply elem_map in A1, B1. by repeat split.
  - intros ([A1 A2 A3] & B1 & B2 & B3). split; [..|by apply Hd]; cbn [map]; apply NoDup_cons; split; try done; by apply elem_map.
Qed.

Lemma routes_checked c i routes s :
  (check_routes c i routes s).1 = [] <->
  Forall (route_ok (DryRun c) (DoorCallEnabled c) (ParallelCallEnabled c)) (map resolve routes) /\
  distinct_routes (map resolve routes) /\ Forall (fun r => fresh_route r s) (map resolve routes).
Proof.
  revert i s. induction routes as [|r routes IH]; intros i s; cbn [check_routes map].
  { split; [|done]. repeat split; constructor. }
  pose proof (route_checked c i r s) as H1. pose proof (route_entered c i r s) as H2.
  destruct (check_route c i r s) as [e s1]. cbn [fst snd] in *. specialize (IH (i + 1) s1).
  destruct (check_routes c (i + 1) routes s1) as [es s2]. cbn [fst] in *. rewrite app_nil, distinct_cons, !Forall_cons, H1, IH. split.
  - intros ((A1 & A2) & B1 & B2 & B3). rewrite H2 in B3 by (by apply H1).
    setoid_rewrite fresh_entered in B3. apply Forall_and in B3 as [C1 C2]. done.
  - intros ((A1 & A2) & (B1 & B2) & C1 & C2). split; [done|]. split; [done|]. split; [done|]. rewrite H2 by (by apply H1).
    setoid_rewrite fresh_entered. by apply Forall_and.
Qed.
Lemma routes_counted c i routes s :
  doorRoutes (check_routes c i routes s).2 =
    (doorRoutes s + length (filter (fun r => Doorbell r <> "") (map resolve routes)))%nat /\
  mobileRoutes (check_routes c i routes s).2 =
    (mobileRoutes s + length (filter (fun r => numbers r <> []) (map resolve routes)))%nat.
Proof.
  revert i s. induction routes as [|r routes IH]; intros i s; cbn [check_routes map]; [cbn; lia|].
  destruct (route_counted c i r s) as [H1 H2]. destruct (check_route c i r s) as [e s1]. cbn [snd] in *.
  destruct (IH (i + 1) s1) as [H3 H4]. destruct (check_routes c (i + 1) routes s1) as [es s2]. cbn [snd] in *.
  rewrite H3, H4, H1, H2, !filter_cons. split.
  - destruct (decide (Doorbell (resolve r) <> "")) as [E|E]; cbn [length].
    + apply nonempty_true in E as ->. lia.
    + destruct (nonempty _) eqn:En; [by apply nonempty_true in En|lia].
  - destruct (decide (numbers (resolve r) <> [])) as [E|E]; cbn [length].
    + rewrite bool_decide_eq_false_2 by done. lia.
    + destruct (bool_decide _) eqn:En; [lia|]. by apply bool_decide_eq_false in En.
Qed.
Lemma filter_none {A} (P : A -> Prop) `{forall x, Decision (P x)} l : length (filter P l) = 0%nat <-> ~ Exists P l.
Proof.
  induction l as [|x l IH]; [split; [by intros _ Hx%Exists_nil|done]|]. rewrite filter_cons, Exists_cons.
  destruct (decide (P x)); cbn [length]; [split; [done|tauto]|]. rewrite IH. tauto.
Qed.

Lemma routing_checked (c : Config) :
  validateRouting c = [] <-> routing_ok (DryRun c) (DoorCallEnabled c) (ParallelCallEnabled c) (ResolvedCallRoutes c).
Proof.
  unfold validateRouting, ResolvedCallRoutes. destruct (CallRoutes c) as [|r0 routes0] eqn:E0.
  { split; [done|]. intros [H _ _ _ _ _ _]. cbn in H. lia. }
  set (routes := r0 :: routes0). pose proof (routes_checked c 0 routes (mkSeen ∅ ∅ ∅ 0 0)) as H1.
  destruct (routes_counted c 0 routes (mkSeen ∅ ∅ ∅ 0 0)) as [H2 H3].
  destruct (check_routes c 0 routes _) as [es s]. cbn [fst snd doorRoutes mobileRoutes plus] in *.
  assert (Forall (fun r => fresh_route r (mkSeen ∅ ∅ ∅ 0 0)) (map resolve routes)) as Hf.
  { apply Forall_forall. intros r _. split; [set_solver|]. split; [apply lookup_empty|]. intros k _. apply lookup_empty. }
  rewrite !app_nil, !check_nil, H1, H2, H3, Nat.ltb_ge.
  set (R := map resolve routes) in *.
  assert (1 <= length R)%nat as Hpos by (cbn; lia).
  assert (length routes = length R) as -> by (unfold R; by rewrite length_map).
  pose proof (filter_none (fun r => Doorbell r <> "") R) as F1. pose proof (filter_none (fun r => numbers r <> []) R) as F2.
  rewrite !andb_false_iff, !Nat.eqb_neq.
  assert (forall P : ResolvedCallRoute -> Prop, (forall x, Decision (P x)) -> ~ ~ Exists P R -> Exists P R) as Hdne.
  { intros P HP H. destruct (decide (Exists P R)); tauto. }
  split.
  - intros (A & (B1 & [B2 B3 B4] & _) & C1 & D1). split; try done.
    + intros Hd. destruct C1 as [C1|C1]; [congruence|]. apply Hdne; [apply _|]. by rewrite <- F1.
    + intros Hd. destruct D1 as [D1|D1]; [congruence|]. apply Hdne; [apply _|]. by rewrite <- F2.
  - intros [A B1 B2 B3 B4 C1 D1]. split; [lia|]. split; [by repeat split|]. rewrite F1, F2. split.
    + destruct (DoorCallEnabled c); [right|by left]. intros H. by apply H, C1.
    + destruct (ParallelCallEnabled c); [right|by left]. intros H. by apply H, D1.
Qed.
(** C17: the validator accepts exactly the routing that the rest of the gateway is
    written for.  [validateRouting] reports no error if and only if the resolved
    routes meet the routing contract: there are 1 to 32 of them, each has a valid
    id, name and sensor and a way to be called on an enabled account, and no two
    share an id, a sensor or - up to separators - a number. *)
Theorem routing_contract (c : Config) :
  validateRouting c = [] <-> routing_ok (DryRun c) (DoorCallEnabled c) (ParallelCallEnabled c) (ResolvedCallRoutes c).
Proof. exact (routing_checked c). Qed.

(** ** Loading *)

Lemma legacy_number_none targets n : legacy_number targets n "" = n.
Proof. unfold legacy_number. assert (nonempty (TrimSpace "") = false) as -> by done. by rewrite orb_true_r. Qed.
Lemma migrate_twice t t' r : migrate_route t' (migrate_route t r) = migrate_route t r.
Proof. unfold migrate_route. destruct r. cbn -[legacy_number]. by rewrite !legacy_number_none. Qed.
Lemma normalize_migrated t t' r :
  normalize_route (migrate_route t' (normalize_route (migrate_route t r))) = normalize_route (migrate_route t r).
Proof. unfold normalize_route, migrate_route. destruct r. cbn -[TrimSpace legacy_number]. by rewrite !legacy_number_none, !TrimSpace_idemp. Qed.
Lemma normalize_go_entries seen l : Forall (fun v => TrimSpace v = v /\ v <> "") (normalize_go seen l).
Proof.
  revert seen. induction l as [|v l IH]; intros seen; cbn [normalize_go]; [constructor|].
  destruct (decide _) as [|H]; [apply IH|]. constructor; [|apply IH]. split; [apply TrimSpace_idemp|tauto].
Qed.
Lemma kept_numbers l : Forall (fun v => TrimSpace v = v /\ v <> "") l -> filter (fun v => v <> "") (map TrimSpace l) = l.
Proof.
  induction 1 as [|v l [H1 H2] _ IH]; [done|]. cbn [map]. by rewrite H1, filter_cons_True, IH.
Qed.
(** The routes after [Load]. *)
Lemma Load_routes raw l c :
  CallRoutes (Load raw l c) = map normalize_route (map (migrate_route (target_numbers (LegacyMobileTargets c)))
    (if negb (bool_decide ("call_routes" ∈ raw)) || bool_decide (CallRoutes c = [])
     then [legacy_route raw (c <| ParallelDestinations ::= normalizeListEntries |>)] else CallRoutes c)).
Proof.
  unfold Load, legacy_channel, legacy_mode. destruct c.
  destruct (ConnectionMode l); [destruct (_ || _)|]; (destruct (BaichuanChannel l); [destruct (_ || _)|]); reflexivity.
Qed.
Lemma resolve_legacy raw c t :
  resolve (normalize_route (migrate_route t (legacy_route raw (c <| ParallelDestinations ::= normalizeListEntries |>)))) =
  mkResolved DefaultRouteID "Standardroute"
    (if decide ("visitor_entity" ∈ raw) then TrimSpace (LegacyVisitorEntity c) else "binary_sensor.reolink_video_doorbell_visitor")
    (if decide ("sip_destination" ∈ raw) then TrimSpace (SIPDestination c) else "11")
    (resolve_targets (take MaxParallelDestinations (normalizeListEntries (ParallelDestinations c)))).
Proof.
  pose proof (normalize_go_entries ∅ (ParallelDestinations c)) as Hl.
  apply (Forall_take _ MaxParallelDestinations) in Hl. fold (normalizeListEntries (ParallelDestinations c)) in Hl.
  unfold legacy_route. change (ParallelDestinations (c <| ParallelDestinations ::= normalizeListEntries |>))
    with (normalizeListEntries (ParallelDestinations c)).
  change (LegacyVisitorEntity (c <| ParallelDestinations ::= normalizeListEntries |>)) with (LegacyVisitorEntity c).
  change (SIPDestination (c <| ParallelDestinations ::= normalizeListEntries |>)) with (SIPDestination c).
  set (l := take MaxParallelDestinations (normalizeListEntries (ParallelDestinations c))) in *.
  assert (length l <= 3)%nat as H3 by (unfold l; rewrite length_take; unfold MaxParallelDestinations; lia).
  assert (forall ent door n1 n2 n3, filter (fun v => v <> "") (map TrimSpace [n1; n2; n3]) = l ->
    resolve (normalize_route (migrate_route t (mkRoute DefaultRouteID "Standardroute" ent door n1 n2 n3 "" "" ""))) =
    mkResolved DefaultRouteID "Standardroute" (TrimSpace ent) (TrimSpace door) (resolve_targets l)) as Hr.
  { intros ent door n1 n2 n3 <-. unfold resolve, normalize_route, migrate_route, MobileNumbers. cbn -[TrimSpace legacy_number filter resolve_targets].
    rewrite !legacy_number_none, !TrimSpace_idemp. f_equal. }
  assert (filter (fun v => v <> "") (map TrimSpace (take 3 (l ++ [""; ""; ""]))) = l) as Hl3.
  { rewrite take_app_ge by lia. rewrite map_app, filter_app, (kept_numbers l Hl). rewrite <- (app_nil_r l) at 2. f_equal.
    destruct l as [|? [|? [|? [|? ?]]]]; cbn [length] in H3 |- *; try reflexivity; lia. }
  destruct l as [|a [|b [|d [|? ?]]]]; cbn [app take] in Hl3; [..|cbn in H3; lia];
    (destruct (decide ("visitor_entity" ∈ raw)), (decide ("sip_destination" ∈ raw));
     (etrans; [apply (Hr _ _ _ _ _ Hl3)|]); f_equal; first [reflexivity|apply TrimSpace_idemp]).
Qed.

(** An upgrade keeps the routing.  Options written before 1.2, which have no
    [call_routes], become the one route that they meant: the old sensor, the old
    number and the first three parallel numbers, in order and without
    repetitions.  And loading is stable: loading routes that have been loaded
    before leaves them as they are. *)
Theorem upgrade_keeps_routing (raw : gset string) (l : legacyOptions) (c : Config) :
  ("call_routes" ∉ raw -> ResolvedCallRoutes (Load raw l c) =
     [mkResolved DefaultRouteID "Standardroute"
        (if decide ("visitor_entity" ∈ raw) then TrimSpace (LegacyVisitorEntity c) else "binary_sensor.reolink_video_doorbell_visitor")
        (if decide ("sip_destination" ∈ raw) then TrimSpace (SIPDestination c) else "11")
        (resolve_targets (take MaxParallelDestinations (normalizeListEntries (ParallelDestinations c))))]) /\
  forall raw' l' c', "call_routes" ∈ raw' -> CallRoutes c' = CallRoutes (Load raw l c) ->
    CallRoutes (Load raw' l' c') = CallRoutes (Load raw l c).
Proof.
  split.
  - intros Hraw. unfold ResolvedCallRoutes. rewrite Load_routes, bool_decide_eq_false_2 by done. cbn [negb orb map].
    by rewrite resolve_legacy.
  - intros raw' l' c' Hraw Hc. rewrite (Load_routes raw' l' c'), Hc, bool_decide_eq_true_2, (bool_decide_eq_false_2 (_ = [])) by
      (done || (rewrite Load_routes; destruct (_ || _) eqn:E; [done|];
                apply orb_false_iff in E as [_ E%bool_decide_eq_false]; by destruct (CallRoutes c))).
    cbn [negb orb]. rewrite Load_routes, !map_map. apply map_ext. intros r. apply normalize_migrated.
Qed.

Lemma SetAECDelay_window d c : minimumAECSearchWindowMS <= EchoCancellationSearchWindowMS c <= maximumAECSearchWindowMS ->
  let c' := SetAECDelay d c in
  0 <= AECMinDelayMS c' <= AECInitialDelayMS c' /\ AECInitialDelayMS c' <= AECMaxDelayMS c' <= MaxSupportedAECDelayMS /\
  AECMaxDelayMS c' - AECMinDelayMS c' <= 2 * EchoCancellationSearchWindowMS c.
Proof.
  unfold minimumAECSearchWindowMS, maximumAECSearchWindowMS, MaxSupportedAECDelayMS. intros Hw. cbv zeta. unfold SetAECDelay. cbn.
  pose proof (clamp_range 0 3000 d ltac:(lia)) as Hc. unfold MaxSupportedAECDelayMS. set (x := clamp 0 3000 d) in *.
  rewrite (proj2 (Z.leb_gt _ _)) by lia. rewrite !swrap_id by (unfold sfits; cbn; lia). lia.
Qed.

(** What [Validate] has established when it reports nothing. *)
Lemma Validate_facts c : Validate c = [] ->
  (50 <= EchoCancellationSearchWindowMS c <= 1000 /\ 0 <= NVRChannel c <= 255 /\ ReolinkMode c ∈ ["auto"; "nvr"; "standalone"]) /\
  (1 <= SIPRegistrarPort c <= 65535 /\ 1 <= SIPLocalPort c <= 65535 /\ 1 <= ParallelLocalPort c <= 65535) /\
  (ParallelCallEnabled c = true -> DoorCallEnabled c = true -> ParallelLocalPort c <> SIPLocalPort c) /\
  (5 <= RTPInactivityTimeoutSeconds c <= 120 /\ 5 <= RingTimeoutSeconds c <= 180 /\ 15 <= MaxCallDurationSeconds c <= 3600 /\
   0 <= DebounceSeconds c <= 60) /\
  validateRouting c = [] /\ (IncomingCallsEnabled c = true -> IncomingAllowedCallers c <> []) /\
  (Exists (fun v => is_wildcard v = true) (IncomingAllowedCallers c) -> (length (IncomingAllowedCallers c) <= 1)%nat).
Proof.
  unfold Validate, bad_port, minimumAECSearchWindowMS, maximumAECSearchWindowMS. rewrite !app_nil, !check_nil.
  intros H. repeat match type of H with _ /\ _ => let K := fresh "K" in destruct H as [K H] end.
  rewrite ?orb_false_iff, ?Z.ltb_ge, ?negb_false_iff, ?bool_decide_eq_true in *. split_and!; try lia; try done.
  - intros Hp Hd Heq. rewrite Hp, Hd, Heq, Z.eqb_refl in *. done.
  - intros Hi Hn. rewrite Hi, Hn in *. done.
  - intros Hw. destruct (Nat.ltb_spec 1 (length (IncomingAllowedCallers c))); [|lia].
    assert (existsb is_wildcard (IncomingAllowedCallers c) = true) as Hx.
    { apply existsb_exists. apply Exists_exists in Hw as (v & Hv & Hw). exists v. by rewrite list_elem_of_In in Hv. }
    rewrite Hx in *. done.
Qed.

(** Accepted options are usable as they are.  The echo search window lies
    around whatever delay is measured, inside 0 to 3000 ms; no timeout overflows
    a duration; the two SIP accounts do not share a port; and a star in the list
    of callers stands alone, so that it is never overlooked next to numbers. *)
Theorem accepted_options_usable (raw : gset string) (l : legacyOptions) (c0 : Config) (delayMS : Z) :
  let c := Load raw l c0 in
  let c' := SetAECDelay delayMS c in
  Validate c = [] ->
  (0 <= AECMinDelayMS c' <= AECInitialDelayMS c' /\ AECInitialDelayMS c' <= AECMaxDelayMS c' <= MaxSupportedAECDelayMS) /\
  (RingTimeout c = RingTimeoutSeconds c * second /\ 5 * second <= RingTimeout c <= 180 * second) /\
  (MaxCallDuration c = MaxCallDurationSeconds c * second /\ 15 * second <= MaxCallDuration c <= 3600 * second) /\
  (Debounce c = DebounceSeconds c * second /\ 0 <= Debounce c <= 60 * second) /\
  (RTPInactivityTimeout c = RTPInactivityTimeoutSeconds c * second /\ 5 * second <= RTPInactivityTimeout c <= 120 * second) /\
  (ParallelCallEnabled c = true -> DoorCallEnabled c = true -> ParallelLocalPort c <> SIPLocalPort c) /\
  (IncomingCallsEnabled c = true -> IncomingAllowedCallers c <> []) /\
  (Exists (fun v => is_wildcard v = true) (IncomingAllowedCallers c) -> (length (IncomingAllowedCallers c) <= 1)%nat).
Proof.
  cbv zeta. set (c := Load raw l c0). intros ((Hw & _ & _) & _ & Hports & (T1 & T2 & T3 & T4) & _ & Hin & Hst)%Validate_facts.
  destruct (SetAECDelay_window delayMS c Hw) as (A1 & A2 & _).
  assert (forall s k, 0 <= s <= k -> k <= 3600 -> swrap 64 (s * second) = s * second) as Hd.
  { intros s k Hs Hk. unfold second. apply swrap_id; [lia|]. unfold sfits. cbn. lia. }
  unfold RingTimeout, MaxCallDuration, Debounce, RTPInactivityTimeout.
  rewrite (Hd (RingTimeoutSeconds c) 180), (Hd (MaxCallDurationSeconds c) 3600), (Hd (DebounceSeconds c) 60),
    (Hd (RTPInactivityTimeoutSeconds c) 120) by lia.
  unfold second. split_and!; try lia; done.
Qed.
End config.

(** * Witnesses *)

#[local] Existing Instances ascii_tables Sdp.Sdp.text_addresses.
#[local] Instance family : @IPFamily Sdp.Sdp.text_addresses := { is_IPv4 := fun _ => true }.
Lemma accepted_options_usable_witness :
  Validate (Load {["call_routes"]} (mkLegacy None None) Defaults) = [] /\
  AECMaxDelayMS (SetAECDelay 2900 (Load {["call_routes"]} (mkLegacy None None) Defaults)) <= 3000.
Proof.
  destruct (accepted_options_usable {["call_routes"]} (mkLegacy None None) Defaults 2900) as ([_ [_ H]] & _).
  - vm_compute. reflexivity.
  - split; [vm_compute; reflexivity|exact H].
Defined.
End Config.
