(* ===== verification/EchoCancel.v ===== *)
(** The alignment of the echo canceller: [internal/media/echo_cancel.go].

    The far-end reference is kept on a timeline of 10 ms frames; for each
    10 ms frame of the camera the reference of [currentDelay] earlier is cut out of it and handed, with the frame,
    to the WebRTC processor, whose replies are inputs of the model.  Times are nanoseconds; a zero
    [time.Time] is [None].  The statistics of the echo loss, the health log and its callback are left out:
    nothing else reads them. *)
From Stdlib Require Import SpecFloat.
From S2P Require Import Prelude GoBytes Playout Sequencer Config.
Import Stats.

Module EchoCancel.

Definition Millisecond : Z := 1000000.
Definition aecFrameSamples : Z := 80.
Definition aecFrameDuration : Z := 10 * Millisecond.
Definition aecSampleDuration : Z := 125000.
Definition aecTrackerWindow : Z := 300 * Millisecond.
Definition aecTrackerInterval : Z := 500 * Millisecond.
Definition aecTrackerStep : Z := Millisecond.
Definition aecTrackerExclusion : Z := 30 * Millisecond.
Definition aecTrackerConsistency : Z := 20 * Millisecond.
Definition aecTrackerConfirmations : Z := 3.
Definition aecTrackerConfirmationAge : Z := 4000 * Millisecond.
Definition aecTrackerRecoveryPause : Z := 1500 * Millisecond.
Definition productionAECDelayTracking : bool := false.

Record aecTimedFrame := mkTimed { at_ : Z; samples : list Z }.
Record echoCanceller := mkEcho {
  cfg : Config.Config;
  renderHistory : list aecTimedFrame; captureHistory : list aecTimedFrame;
  renderPending : list Z; renderNextAt : option Z;
  currentDelay : Z; lastTrack : option Z;
  trackerBest : F64.t; trackerSecond : F64.t; trackerCandidate : Z;
  confirmations : list Z; trackerLastConfident : option Z; trackingSuspendedUntil : option Z; lastCaptureAt : option Z;
  CaptureFrames : Z; RenderFrames : Z; MissingRenderFrames : Z;
  TrackerAttempts : Z; TrackerUpdates : Z; TrackerSuspensions : Z; TrackerSuspendedAttempts : Z;
  trackingEnabled : bool;
}.
#[export] Instance eta_echo : Eta echoCanceller := fun e =>
  mkEcho (cfg e) (renderHistory e) (captureHistory e) (renderPending e) (renderNextAt e) (currentDelay e) (lastTrack e)
    (trackerBest e) (trackerSecond e) (trackerCandidate e) (confirmations e) (trackerLastConfident e) (trackingSuspendedUntil e)
    (lastCaptureAt e) (CaptureFrames e) (RenderFrames e) (MissingRenderFrames e) (TrackerAttempts e) (TrackerUpdates e)
    (TrackerSuspensions e) (TrackerSuspendedAttempts e) (trackingEnabled e).

Definition newEchoCancellerWithProcessor (c : Config.Config) : echoCanceller :=
  mkEcho c [] [] [] None (Config.AECInitialDelayMS c * Millisecond) None F64.zero F64.zero 0 [] None None None 0 0 0 0 0 0 0 true.
Definition newProductionEchoCancellerWithProcessor (c : Config.Config) : echoCanceller :=
  newEchoCancellerWithProcessor c <| trackingEnabled := productionAECDelayTracking |>.

(** * The reference timeline *)

Fixpoint trimFramesBefore (l : list aecTimedFrame) (cutoff : Z) : list aecTimedFrame :=
  match l with
  | f :: r => if at_ f <? cutoff then trimFramesBefore r cutoff else l
  | [] => []
  end.
Definition keep (c : Config.Config) : Z :=
  Z.max (Config.AECMaxDelayMS c * Millisecond + 1200 * Millisecond) (2500 * Millisecond).
Definition pruneRenderLocked (now : Z) (e : echoCanceller) : echoCanceller :=
  e <| renderHistory ::= fun l => trimFramesBefore l (now - keep (cfg e)) |>.
Definition pruneCaptureLocked (now : Z) (e : echoCanceller) : echoCanceller :=
  e <| captureHistory ::= fun l => trimFramesBefore l (now - aecTrackerWindow - 100 * Millisecond) |>.

(** [SuspendTracking] and the suspension in [AddRender]. *)
Definition suspend (at_ : Z) (e : echoCanceller) : echoCanceller :=
  let until := at_ + aecTrackerRecoveryPause in
  e <| confirmations := [] |>
    <| trackingSuspendedUntil ::= fun u => match u with Some t => Some (Z.max t until) | None => Some until end |>
    <| TrackerSuspensions ::= incr |>.
Definition SuspendTracking (at_ : Z) (e : echoCanceller) : echoCanceller := if trackingEnabled e then suspend at_ e else e.

(** The loop that cuts whole frames off the pending samples; [fuel] is the number of samples. *)
Fixpoint cut_frames (fuel : nat) (e : echoCanceller) (next : Z) : echoCanceller :=
  match fuel with
  | O => e <| renderNextAt := Some next |>
  | S fuel =>
    if aecFrameSamples <=? len (renderPending e) then
      cut_frames fuel
        (e <| renderHistory ::= fun l => l ++ [mkTimed next (take 80 (renderPending e))] |> <| renderPending ::= drop 80 |>
           <| RenderFrames ::= incr |>) (next + aecFrameDuration)
    else e <| renderNextAt := Some next |>
  end.
(** A chunk far from where the timeline stands begins a new one. *)
Definition rebases (now : Z) (e : echoCanceller) : bool :=
  match renderNextAt e with
  | None => true
  | Some next => (120 * Millisecond <? now - next) || (80 * Millisecond <? next - now)
  end.
Definition AddRender (pcm : list Z) (now : Z) (e : echoCanceller) : echoCanceller :=
  if decide (pcm = []) then e
  else
    let e1 :=
      if rebases now e then
        let e2 := e <| renderNextAt := Some now |> <| renderPending := [] |> in
        if bool_decide (renderNextAt e <> None) && trackingEnabled e then suspend now e2 else e2
      else e in
    let e1 := e1 <| renderPending ::= fun l => l ++ pcm |> in
    pruneRenderLocked now (cut_frames (length (renderPending e1)) e1 (default now (renderNextAt e1))).

Definition contains (h : list aecTimedFrame) (target : Z) (i : Z) : bool :=
  if i <? 0 then false
  else
    match h !! Z.to_nat i with
    | Some f => (aecFrameSamples <=? len (samples f)) && (at_ f <=? target) && (target <? at_ f + aecFrameDuration)
    | None => false
    end.
(** The reverse search, from frame [n - 1] down. *)
Fixpoint search_back (h : list aecTimedFrame) (target : Z) (n : nat) : Z :=
  match n with
  | O => -1
  | S n => if contains h target (Z.of_nat n) then Z.of_nat n else search_back h target n
  end.
Definition findReferenceFrameLocked (e : echoCanceller) (target hint : Z) : Z :=
  let h := renderHistory e in
  if (0 <=? hint) && contains h target (hint + 1) then hint + 1
  else if (0 <=? hint) && contains h target hint then hint
  else if (0 <=? hint) && contains h target (hint + 2) then hint + 2
  else search_back h target (length h).

(** The next frame, if it continues the frame that ends at [end_]. *)
Definition contiguous (h : list aecTimedFrame) (i : Z) (end_ : Z) : option (list Z) :=
  match h !! Z.to_nat (i + 1) with
  | Some next =>
    if (len (samples next) <? aecFrameSamples) || (aecSampleDuration / 2 <? Z.abs (at_ next - end_)) then None
    else Some (samples next)
  | None => None
  end.
(** [None] where the code returns false. *)
Definition fillReferenceFromFrameLocked (e : echoCanceller) (i target : Z) : option (list Z) :=
  let h := renderHistory e in
  if i <? 0 then None
  else
    match h !! Z.to_nat i with
    | None => None
    | Some f =>
      if (len (samples f) <? aecFrameSamples) || (target <? at_ f) || (at_ f + aecFrameDuration <=? target) then None
      else
        let delta := target - at_ f in
        let offset := Z.quot (delta + aecSampleDuration / 2) aecSampleDuration in
        if (offset <? 0) || (aecFrameSamples <? offset) then None
        else if aecSampleDuration / 2 <? Z.abs (at_ f + offset * aecSampleDuration - target) then None
        else if offset =? aecFrameSamples then
          next ← contiguous h i (at_ f + aecFrameDuration);
          Some (take 80 next)
        else
          let first := drop (Z.to_nat offset) (take 80 (samples f)) in
          if len first =? aecFrameSamples then Some first
          else
            next ← contiguous h i (at_ f + aecFrameDuration);
            Some (first ++ take (80 - length first) next)
    end.
Definition fillReferenceAtLocked (e : echoCanceller) (target : Z) : option (list Z) :=
  let i := findReferenceFrameLocked e target (-1) in
  if 0 <=? i then fillReferenceFromFrameLocked e i target else None.
Definition referenceAtLocked (e : echoCanceller) (target : Z) : option (list Z) := fillReferenceAtLocked e target.

(** * The delay tracker *)

Definition sqrt (x : F64.t) : F64.t := SFsqrt 53 1024 x.
Definition leb (x y : F64.t) : bool := SFleb x y.
Definition zeroMeanCorrelation (sumX sumY sumXY sumXX sumYY : F64.t) (n : Z) : F64.t :=
  if n <=? 1 then F64.zero
  else
    let nf := F64.of_Z n in
    let cov := F64.sub sumXY (F64.div (F64.mul sumX sumY) nf) in
    let varX := F64.sub sumXX (F64.div (F64.mul sumX sumX) nf) in
    let varY := F64.sub sumYY (F64.div (F64.mul sumY sumY) nf) in
    if leb varX F64.zero || leb varY F64.zero then F64.zero
    else F64.abs (F64.div cov (sqrt (F64.mul varX varY))).
(** The five sums and the number of samples. *)
Record sums := mkSums { sX : F64.t; sY : F64.t; sXY : F64.t; sXX : F64.t; sYY : F64.t; sN : Z }.
Definition sums0 : sums := mkSums F64.zero F64.zero F64.zero F64.zero F64.zero 0.
Definition add_sample (s : sums) (xy : Z * Z) : sums :=
  let x := F64.of_Z xy.1 in
  let y := F64.of_Z xy.2 in
  mkSums (F64.add (sX s) x) (F64.add (sY s) y) (F64.add (sXY s) (F64.mul x y)) (F64.add (sXX s) (F64.mul x x))
    (F64.add (sYY s) (F64.mul y y)) (sN s + 1).
(** One captured frame: the hint, the sums and the pairs so far. *)
Definition correlate (e : echoCanceller) (delay : Z) (acc : Z * sums * Z) (cf : aecTimedFrame) : Z * sums * Z :=
  let '(hint, s, pairs) := acc in
  let target := at_ cf - delay in
  let i := findReferenceFrameLocked e target hint in
  match (if i <? 0 then None else fillReferenceFromFrameLocked e i target) with
  | None => (-1, s, pairs)
  | Some reference => (i, foldl add_sample s (zip reference (take 80 (samples cf))), pairs + 1)
  end.
Definition windowCorrelationLocked (e : echoCanceller) (captures : list aecTimedFrame) (delay : Z) : F64.t * Z :=
  let '(_, s, pairs) := foldl (correlate e delay) (-1, sums0, 0) captures in
  if (pairs =? 0) || (sN s =? 0) then (F64.zero, pairs)
  else (zeroMeanCorrelation (sX s) (sY s) (sXY s) (sXX s) (sYY s) (sN s), pairs).

(** The insertion sort of [medianDuration]. *)
Fixpoint insert_sorted (x : Z) (l : list Z) : list Z :=
  match l with [] => [x] | y :: r => if x <? y then x :: l else y :: insert_sorted x r end.
Definition medianDuration (v : list Z) : Z :=
  nth (Nat.div2 (length v)) (foldl (fun l x => insert_sorted x l) [] v) 0.

Definition minDelay (e : echoCanceller) : Z := Config.AECMinDelayMS (cfg e) * Millisecond.
Definition maxDelay (e : echoCanceller) : Z := Config.AECMaxDelayMS (cfg e) * Millisecond.
Definition delays (e : echoCanceller) : list Z :=
  map (fun i => minDelay e + i * aecTrackerStep) (seqZ 0 (Z.quot (maxDelay e - minDelay e) aecTrackerStep + 1)).
Definition candidates (e : echoCanceller) (captures : list aecTimedFrame) : list (Z * F64.t) :=
  omap (fun d => let '(corr, pairs) := windowCorrelationLocked e captures d in if 16 <=? pairs then Some (d, corr) else None) (delays e).
Definition best_of (c0 : Z * F64.t) (cs : list (Z * F64.t)) : Z * F64.t :=
  foldl (fun best c => if F64.ltb best.2 c.2 then c else best) c0 cs.
Definition second_of (best : Z * F64.t) (cs : list (Z * F64.t)) : F64.t :=
  foldl (fun second c => if Z.abs (c.1 - best.1) <=? aecTrackerExclusion then second else if F64.ltb second c.2 then c.2 else second) F64.zero cs.
Definition ratio_f (n d : Z) : F64.t := F64.div (F64.of_Z n) (F64.of_Z d).
Definition weak (best second : F64.t) : bool :=
  let ratio := if F64.ltb (ratio_f 1 1000000) second then F64.div best second else S754_infinity false in
  F64.ltb best (ratio_f 20 100) || F64.ltb (F64.sub best second) (ratio_f 5 100) || F64.ltb ratio (ratio_f 130 100).
(** No confident observation for too long. *)
Definition expired (now : Z) (e : echoCanceller) : bool :=
  match trackerLastConfident e with Some t => aecTrackerConfirmationAge <? now - t | None => false end.
(** The step towards the confirmed delay: at most 30 ms, in whole milliseconds, within the window. *)
Definition next_delay (e : echoCanceller) (confirmed : Z) : Z :=
  let old := currentDelay e in
  let delta := confirmed - old in
  let maxStep := 30 * Millisecond in
  let delta := if maxStep <? delta then maxStep else if delta <? - maxStep then - maxStep else delta in
  let next := Z.quot (old + delta + aecTrackerStep / 2) aecTrackerStep * aecTrackerStep in
  if next <? minDelay e then minDelay e else if maxDelay e <? next then maxDelay e else next.
(** A confident observation of [delay]. *)
Definition confirm (now delay : Z) (e : echoCanceller) : echoCanceller :=
  let e := if bool_decide (trackerLastConfident e = None) || expired now e then e <| confirmations := [] |> else e in
  let e := e <| trackerLastConfident := Some now |> in
  let e := if decide (confirmations e = []) then e
           else if aecTrackerConsistency <? Z.abs (delay - medianDuration (confirmations e)) then e <| confirmations := [] |> else e in
  let e := e <| confirmations ::= fun l => l ++ [delay] |> in
  if len (confirmations e) <? aecTrackerConfirmations then e
  else
    let confirmed := medianDuration (confirmations e) in
    let e := e <| confirmations ::= fun l => drop (length l - 2) l |> in
    let next := next_delay e confirmed in
    if next =? currentDelay e then e else e <| currentDelay := next |> <| TrackerUpdates ::= incr |>.
Definition trackDelayLocked (now : Z) (e : echoCanceller) : echoCanceller :=
  let e := e <| TrackerAttempts ::= incr |> in
  if match trackingSuspendedUntil e with Some t => now <? t | None => false end then e <| TrackerSuspendedAttempts ::= incr |>
  else
    let captures := filter (fun f => now - aecTrackerWindow <= at_ f) (captureHistory e) in
    if len captures <? 20 then e
    else
      match candidates e captures with
      | [] => e
      | c0 :: cs =>
        let best := best_of c0 cs in
        let second := second_of best (c0 :: cs) in
        let e := e <| trackerBest := best.2 |> <| trackerSecond := second |> <| trackerCandidate := best.1 |> in
        if weak best.2 second then if expired now e then e <| confirmations := [] |> else e
        else confirm now best.1 e
      end.

(** * [ProcessCapture] *)

(** What the native processor replied, call by call; it replies to each call. *)
Abbreviation replies := (list (result (list Z))).
(** One frame up to the call of the processor: the reference, silence where the timeline has none. *)
Definition capture_frame (capture : list Z) (frameAt : Z) (e : echoCanceller) : list Z * echoCanceller :=
  let e := e <| captureHistory ::= fun l => l ++ [mkTimed frameAt capture] |> <| lastCaptureAt := Some frameAt |> <| CaptureFrames ::= incr |> in
  let e := if trackingEnabled e && match lastTrack e with Some t => aecTrackerInterval <=? frameAt - t | None => true end
           then trackDelayLocked frameAt e <| lastTrack := Some frameAt |> else e in
  let '(reference, e) := match referenceAtLocked e (frameAt - currentDelay e) with
                         | Some r => (r, e)
                         | None => (replicate 80 0, e <| MissingRenderFrames ::= incr |>)
                         end in
  (reference, pruneRenderLocked frameAt (pruneCaptureLocked frameAt e)).
(** The frames of a block: the pairs the processor was asked for, the result, the state. *)
Fixpoint process_frames (n : nat) (pcm : list Z) (at_ : Z) (rs : replies) (e : echoCanceller)
    : list (list Z * list Z) * result (list Z) * echoCanceller :=
  match n with
  | O => ([], Ok [], e)
  | S n =>
    let '(reference, e) := capture_frame (take 80 pcm) at_ e in
    let asked := (reference, take 80 pcm) in
    match rs with
    | Ok processed :: rs =>
      if negb (len processed =? aecFrameSamples) then ([asked], Err "AEC processor returned an unexpected number of samples", e)
      else
        let '(l, r, e) := process_frames n (drop 80 pcm) (at_ + aecFrameDuration) rs e in
        (asked :: l, out ← r; Ok (processed ++ out), e)
    | Err x :: _ => ([asked], Err x, e)
    | Panic :: _ => ([asked], Panic, e)
    | [] => ([asked], Err "no reply", e)
    end
  end.
Definition ProcessCapture (pcm : list Z) (now : Z) (rs : replies) (e : echoCanceller)
    : list (list Z * list Z) * result (list Z) * echoCanceller :=
  if (len pcm =? 0) || negb (len pcm mod aecFrameSamples =? 0) then ([], Err "AEC capture block must contain a whole number of frames", e)
  else process_frames (Z.to_nat (len pcm / aecFrameSamples)) pcm now rs e.

(** ** The timeline *)

(** The whole 10 ms frames of [l], the first of them at [t]. *)
Definition timed (t : Z) (l : list Z) (i : nat) : aecTimedFrame := mkTimed (t + Z.of_nat i * aecFrameDuration) (take 80 (drop (80 * i) l)).
Definition frames (t : Z) (l : list Z) : list aecTimedFrame := map (timed t l) (seq 0 (length l / 80)).

Lemma frames_short t l : (length l < 80)%nat -> frames t l = [].
Proof. intros H. unfold frames. by rewrite Nat.div_small. Qed.
Lemma frames_cons t l : (80 <= length l)%nat -> frames t l = mkTimed t (take 80 l) :: frames (t + aecFrameDuration) (drop 80 l).
Proof.
  intros H. unfold frames. rewrite length_drop. replace (length l / 80)%nat with (S ((length l - 80) / 80)).
  2:{ replace (length l) with ((length l - 80) + 1 * 80)%nat at 2 by lia. rewrite Nat.div_add by lia. lia. }
  cbn [seq map]. f_equal; [unfold timed; cbn [Nat.mul]; f_equal; lia|]. rewrite <- seq_shift, map_map. apply map_ext. intros i.
  unfold timed. f_equal; [lia|]. f_equal. rewrite drop_drop. f_equal. lia.
Qed.
Lemma frames_app l : forall t k, frames t (l ++ k) = frames t l ++ frames (t + Z.of_nat (length l / 80) * aecFrameDuration) (drop (80 * (length l / 80)) l ++ k).
Proof.
  induction l as [l IH] using (induction_ltof1 _ (@length Z)); unfold ltof in IH. intros t k.
  destruct (decide (length l < 80)%nat) as [H|H].
  - rewrite (frames_short t l H), (Nat.div_small _ _ H). cbn [Nat.mul drop app]. f_equal. lia.
  - rewrite frames_cons by (rewrite length_app; lia). rewrite (frames_cons t l) by lia.
    rewrite take_app_le, drop_app_le by lia. cbn [app]. f_equal. rewrite IH by (rewrite length_drop; lia). f_equal. rewrite length_drop.
    replace (length l / 80)%nat with (S ((length l - 80) / 80)).
    2:{ replace (length l) with ((length l - 80) + 1 * 80)%nat at 2 by lia. rewrite Nat.div_add by lia. lia. }
    f_equal; [lia|]. f_equal. rewrite drop_drop. f_equal. lia.
Qed.
Lemma length_frames t l : length (frames t l) = (length l / 80)%nat.
Proof. unfold frames. by rewrite length_map, length_seq. Qed.
Lemma frames_lookup t l i : (i < length l / 80)%nat -> frames t l !! i = Some (timed t l i).
Proof. intros H. unfold frames. rewrite list_lookup_fmap, lookup_seq_lt by done. done. Qed.

Lemma trim_drop l c : exists n, trimFramesBefore l c = drop n l /\ (n <= length l)%nat /\ forall i f, l !! i = Some f -> c <= at_ f -> (n <= i)%nat.
Proof.
  induction l as [|f l IH]; cbn [trimFramesBefore].
  { exists 0%nat. cbn. split; [done|]. split; [lia|]. intros; lia. }
  destruct (Z.ltb_spec (at_ f) c) as [H|H].
  - destruct IH as (n & E & Hn & Hi). exists (S n). cbn. split; [done|]. split; [lia|].
    intros [|i] g Hg Hc; [cbn in Hg; injection Hg as ->; lia|]. specialize (Hi i g Hg Hc). lia.
  - exists 0%nat. split; [done|]. split; [lia|]. intros; lia.
Qed.

(** The timeline that began at [t] with [l] rendered since; no frame at or after [cutoff] was pruned. *)
Record timeline (t : Z) (l : list Z) (cutoff : Z) (e : echoCanceller) : Prop := {
  tl_frames : exists older n, renderHistory e = drop n (older ++ frames t l) /\
    (n <= length older + length l / 80)%nat /\ forall k, cutoff <= t + Z.of_nat k * aecFrameDuration -> (n <= length older + k)%nat;
  tl_pending : renderPending e = drop (80 * (length l / 80)) l;
  tl_next : renderNextAt e = Some (t + Z.of_nat (length l / 80) * aecFrameDuration);
}.

Lemma timeline_weaken t l c c' e : c <= c' -> timeline t l c e -> timeline t l c' e.
Proof. intros Hc [(older & n & H1 & Hn & H2) H3 H4]. split; [|done..]. exists older, n. do 2 (split; [done|]). intros k Hk. apply H2. lia. Qed.
Lemma timeline_ext t l c e e' : renderHistory e' = renderHistory e -> renderPending e' = renderPending e -> renderNextAt e' = renderNextAt e ->
  timeline t l c e -> timeline t l c e'.
Proof. intros E1 E2 E3 [H1 H2 H3]. split; by rewrite ?E1, ?E2, ?E3. Qed.
Lemma prune_timeline t l c now e : now - keep (cfg e) <= c -> timeline t l c e -> timeline t l c (pruneRenderLocked now e).
Proof.
  intros Hc [(older & n & H1 & Hn & H2) H3 H4]. split; [|done..].
  change (renderHistory (pruneRenderLocked now e)) with (trimFramesBefore (renderHistory e) (now - keep (cfg e))). rewrite H1.
  destruct (trim_drop (drop n (older ++ frames t l)) (now - keep (cfg e))) as (n' & -> & Hn' & Hi).
  exists older, (n + n')%nat. rewrite drop_drop. split; [f_equal; lia|].
  rewrite length_drop, length_app, length_frames in Hn'. split; [lia|]. intros k Hk. specialize (H2 k Hk). destruct (decide (k < length l / 80)%nat) as [Hlt|Hge]; [|lia].
  assert (n' <= length older + k - n)%nat; [|lia]. apply (Hi _ (timed t l k)); [|cbn; lia].
  rewrite lookup_drop. replace (n + (length older + k - n))%nat with (length older + k)%nat by lia.
  rewrite lookup_app_r by lia. replace (length older + k - length older)%nat with k by lia. by apply frames_lookup.
Qed.

Lemma cut_frames_spec fuel : forall e next, (length (renderPending e) <= fuel)%nat ->
  let e' := cut_frames fuel e next in
  renderHistory e' = renderHistory e ++ frames next (renderPending e) /\
  renderPending e' = drop (80 * (length (renderPending e) / 80)) (renderPending e) /\
  renderNextAt e' = Some (next + Z.of_nat (length (renderPending e) / 80) * aecFrameDuration) /\
  cfg e' = cfg e /\ currentDelay e' = currentDelay e /\ trackingEnabled e' = trackingEnabled e.
Proof.
  assert (forall (e : echoCanceller) next, (length (renderPending e) < 80)%nat -> let e' := e <| renderNextAt := Some next |> in
    renderHistory e' = renderHistory e ++ frames next (renderPending e) /\
    renderPending e' = drop (80 * (length (renderPending e) / 80)) (renderPending e) /\
    renderNextAt e' = Some (next + Z.of_nat (length (renderPending e) / 80) * aecFrameDuration) /\
    cfg e' = cfg e /\ currentDelay e' = currentDelay e /\ trackingEnabled e' = trackingEnabled e) as Hshort.
  { intros e next H. cbv zeta. rewrite frames_short, Nat.div_small by done. cbn. rewrite app_nil_r. split_and!; try done. f_equal. lia. }
  induction fuel as [|fuel IH]; intros e next Hf; cbn [cut_frames].
  { apply Hshort. lia. }
  unfold aecFrameSamples. destruct (Z.leb_spec 80 (len (renderPending e))) as [H|H]; [|apply Hshort; lia].
  match goal with |- context [cut_frames fuel ?x ?y] => specialize (IH x y); set (e1 := x) in * end. cbv zeta in IH. change (renderPending e1) with (drop 80 (renderPending e)) in IH.
  change (renderHistory e1) with (renderHistory e ++ [mkTimed next (take 80 (renderPending e))]) in IH. change (cfg e1) with (cfg e) in IH. change (currentDelay e1) with (currentDelay e) in IH. change (trackingEnabled e1) with (trackingEnabled e) in IH. clearbody e1. rewrite length_drop in IH.
  destruct IH as (I1 & I2 & I3 & I4 & I5 & I6); [lia|]. cbv zeta. rewrite (frames_cons next) by lia.
  assert (length (renderPending e) / 80 = S ((length (renderPending e) - 80) / 80))%nat as Ed.
  { replace (length (renderPending e)) with ((length (renderPending e) - 80) + 1 * 80)%nat at 1 by lia. rewrite Nat.div_add by lia. lia. }
  rewrite Ed. split; [by rewrite I1, <- app_assoc|]. split; [rewrite I2, drop_drop; f_equal; lia|]. split; [rewrite I3; f_equal; lia|done].
Qed.

(** A first or rebasing chunk begins a timeline; a steady one continues it. *)
Lemma AddRender_same pcm now e : cfg (AddRender pcm now e) = cfg e /\ currentDelay (AddRender pcm now e) = currentDelay e /\
  trackingEnabled (AddRender pcm now e) = trackingEnabled e.
Proof.
  unfold AddRender. destruct (decide (pcm = [])); [done|]. cbv zeta.
  match goal with |- context [alter_field renderPending ?f ?x] => set (e1 := x) end.
  assert (cfg e1 = cfg e /\ currentDelay e1 = currentDelay e /\ trackingEnabled e1 = trackingEnabled e) as (E1 & E2 & E3)
    by (subst e1; destruct (rebases now e); [|done]; by destruct (_ && _)).
  clearbody e1. set (e2 := e1 <| renderPending ::= fun l => l ++ pcm |>).
  pose proof (cut_frames_spec (length (renderPending e2)) e2 (default now (renderNextAt e2)) ltac:(done)) as (_ & _ & _ & C1 & C2 & C3).
  change (cfg e2) with (cfg e1) in C1. change (currentDelay e2) with (currentDelay e1) in C2. change (trackingEnabled e2) with (trackingEnabled e1) in C3.
  split; [|split]; etrans; [exact C1|done|exact C2|done|exact C3|done].
Qed.
Lemma AddRender_begins pcm now e c : pcm <> [] -> rebases now e = true -> now - keep (cfg e) <= c -> c <= now -> timeline now pcm c (AddRender pcm now e).
Proof.
  intros Hp Hr Hc Hc'. unfold AddRender. rewrite decide_False by done. rewrite Hr.
  set (e1 := if _ && _ then _ else _).
  assert (renderPending e1 = [] /\ renderNextAt e1 = Some now /\ cfg e1 = cfg e) as (E1 & E2 & E3) by (subst e1; by destruct (_ && _)).
  clearbody e1. cbv zeta. set (e2 := e1 <| renderPending ::= fun l => l ++ pcm |>).
  assert (renderPending e2 = pcm /\ renderNextAt e2 = Some now /\ cfg e2 = cfg e) as (F1 & F2 & F3) by (subst e2; cbn; by rewrite E1).
  clearbody e2. rewrite F2. cbn [default from_option id]. pose proof (cut_frames_spec (length (renderPending e2)) e2 now ltac:(done)) as (C1 & C2 & C3 & C4 & _).
  apply prune_timeline; [by rewrite C4, F3|]. rewrite F1 in *. split; [|done|done].
  exists (renderHistory e2), 0%nat. split; [done|]. split; [lia|]. lia.
Qed.
Lemma AddRender_continues t l c pcm now e : timeline t l c e -> rebases now e = false -> now - keep (cfg e) <= c ->
  timeline t (l ++ pcm) c (AddRender pcm now e).
Proof.
  intros Ht Hr Hc. unfold AddRender. destruct (decide (pcm = [])) as [->|Hp]; [by rewrite app_nil_r|]. rewrite Hr. cbv zeta.
  set (e2 := e <| renderPending ::= fun l => l ++ pcm |>). destruct Ht as [(older & n & H1 & Hn & H2) H3 H4].
  assert (renderPending e2 = drop (80 * (length l / 80)) l ++ pcm /\ renderNextAt e2 = renderNextAt e /\ cfg e2 = cfg e /\ renderHistory e2 = renderHistory e)
    as (F1 & F2 & F3 & F4) by (subst e2; cbn; by rewrite H3).
  clearbody e2. rewrite F2, H4. cbn [default from_option id]. pose proof (cut_frames_spec (length (renderPending e2)) e2 (t + Z.of_nat (length l / 80) * aecFrameDuration) ltac:(done)) as (C1 & C2 & C3 & C4 & _).
  apply prune_timeline; [by rewrite C4, F3|]. rewrite F1 in *.
  assert (length (l ++ pcm) / 80 = length l / 80 + length (drop (80 * (length l / 80)) l ++ pcm) / 80)%nat as Ed.
  { rewrite !length_app, length_drop. pose proof (Nat.div_mod_eq (length l) 80).
    replace (length l + length pcm)%nat with (length l - 80 * (length l / 80) + length pcm + (length l / 80) * 80)%nat by lia.
    rewrite Nat.div_add by lia. lia. }
  split.
  - exists older, n. split; [|split; [rewrite Ed; lia|done]]. rewrite C1, F4, H1, (frames_app l t pcm), app_assoc.
    rewrite (drop_app_le (older ++ frames t l)); [done|]. rewrite length_app, length_frames. lia.
  - rewrite C2, Ed. rewrite Nat.mul_add_distr_l, <- drop_drop. f_equal. rewrite drop_app_le; [done|]. pose proof (Nat.div_mod_eq (length l) 80). lia.
  - rewrite C3, Ed. f_equal. unfold aecFrameDuration. lia.
Qed.

(** ** The reference of a time *)

Lemma search_back_found h target n idx : (idx < n)%nat -> contains h target (Z.of_nat idx) = true ->
  (forall j, (idx < j < n)%nat -> contains h target (Z.of_nat j) = false) -> search_back h target n = Z.of_nat idx.
Proof.
  intros Hi Hc. induction n as [|n IH]; intros Hj; [lia|]. cbn [search_back]. destruct (decide (idx = n)) as [<-|Hne]; [by rewrite Hc|].
  rewrite Hj by lia. apply IH; [lia|]. intros j Hj'. apply Hj. lia.
Qed.
(** The window of 80 samples at [o] in two consecutive frames. *)
Lemma two_frames {A} (l : list A) (o : nat) : (o <= 80)%nat -> (160 <= length l)%nat ->
  drop o (take 80 l) ++ take (80 - length (drop o (take 80 l))) (take 80 (drop 80 l)) = take 80 (drop o l).
Proof.
  intros Ho Hl. rewrite length_drop, length_take. replace (80 - (80 `min` length l - o))%nat with o by lia.
  rewrite <- (take_drop 80 l) at 3. rewrite drop_app_le by (rewrite length_take; lia).
  rewrite take_app_ge by (rewrite length_drop, length_take; lia). f_equal. rewrite length_drop, length_take, take_take. f_equal. lia.
Qed.

(** The sample of the timeline that is nearest to the time [target]. *)
Definition nearest (t target : Z) : Z := (target - t + aecSampleDuration / 2) / aecSampleDuration.
Lemma reference_of_timeline t l c e target : timeline t l c e -> t <= target ->
  nearest t target + 80 <= 80 * Z.of_nat (length l / 80) -> c <= t + (target - t) / aecFrameDuration * aecFrameDuration ->
  referenceAtLocked e target = Some (take 80 (drop (Z.to_nat (nearest t target)) l)).
Proof.
  intros [(older & n & H1 & Hn & H2) _ _] Ht Hk Hc. set (m := (length l / 80)%nat) in *.
  set (i := Z.to_nat ((target - t) / aecFrameDuration)). set (d := (target - t) mod aecFrameDuration).
  assert (target = t + Z.of_nat i * aecFrameDuration + d /\ 0 <= d < aecFrameDuration) as [Et Hd].
  { subst i d. unfold aecFrameDuration, Millisecond. rewrite Z2Nat.id by (apply Z.div_pos; lia). pose proof (Z.div_mod (target - t) (10 * 1000000)).
    pose proof (Z.mod_pos_bound (target - t) (10 * 1000000)). lia. }
  set (o := (d + 62500) / 125000). assert (0 <= o <= 80 /\ -62500 <= o * 125000 - d <= 62500) as [Ho Hg].
  { subst o. unfold aecFrameDuration, Millisecond in Hd. clear -Hd. Z.to_euclidean_division_equations; lia. }
  assert (nearest t target = 80 * Z.of_nat i + o) as En.
  { subst o. unfold nearest, aecSampleDuration. change (125000 / 2) with 62500.
    replace (target - t + 62500) with (d + 62500 + (80 * Z.of_nat i) * 125000) by (unfold aecFrameDuration, Millisecond in *; lia).
    rewrite Z.div_add by lia. lia. }
  rewrite En in Hk |- *. assert ((i < m)%nat) as Him by lia.
  specialize (H2 i). unfold aecFrameDuration, Millisecond in *. rewrite <- (Z2Nat.id ((target - t) / (10 * 1000000))) in Hc by (apply Z.div_pos; lia).
  specialize (H2 Hc). clear Hc.
  assert (forall q, (q < m)%nat -> (n <= length older + q)%nat -> renderHistory e !! (length older + q - n)%nat = Some (timed t l q)) as Hat.
  { intros q Hq Hnq. rewrite H1, lookup_drop. replace (n + (length older + q - n))%nat with (length older + q)%nat by lia.
    rewrite lookup_app_r by lia. replace (length older + q - length older)%nat with q by lia. by apply frames_lookup. }
  assert (length (renderHistory e) = (length older + m - n)%nat) as Hlen by (rewrite H1, length_drop, length_app, length_frames; lia).
  assert (forall q, (q < m)%nat -> length (samples (timed t l q)) = 80%nat) as Hs.
  { intros q Hq. cbn [timed samples]. rewrite length_take, length_drop. pose proof (Nat.div_mod_eq (length l) 80). subst m. lia. }
  unfold referenceAtLocked, fillReferenceAtLocked, findReferenceFrameLocked. cbn [Z.leb Z.compare andb].
  rewrite (search_back_found _ _ _ (length older + i - n)%nat).
  2: lia.
  2:{ unfold contains. rewrite (proj2 (Z.ltb_ge _ _)) by lia. rewrite Nat2Z.id, Hat, Hs by done. cbn [timed at_].
      rewrite (proj2 (Z.leb_le _ _)), (proj2 (Z.leb_le _ _)), (proj2 (Z.ltb_lt _ _)) by (unfold aecFrameSamples, aecFrameDuration, Millisecond; lia). done. }
  2:{ intros j Hj. unfold contains. rewrite (proj2 (Z.ltb_ge _ _)) by lia. rewrite Nat2Z.id.
      replace j with (length older + (j + n - length older) - n)%nat by lia. rewrite Hat by lia. cbn [timed at_].
      rewrite (proj2 (Z.leb_gt (_ + _) target)); [by rewrite andb_false_r|]. unfold aecFrameDuration, Millisecond. lia. }
  rewrite (proj2 (Z.leb_le _ _)) by lia. unfold fillReferenceFromFrameLocked. rewrite (proj2 (Z.ltb_ge _ 0)) by lia.
  rewrite Nat2Z.id, Hat, Hs by done. cbn [timed at_ samples]. unfold aecFrameSamples, aecSampleDuration, aecFrameDuration, Millisecond.
  rewrite (proj2 (Z.ltb_ge (Z.of_nat 80) 80)), (proj2 (Z.ltb_ge target _)), (proj2 (Z.leb_gt _ target)) by lia. cbn [orb].
  replace (Z.quot _ 125000) with o.
  2:{ change (125000 / 2) with 62500. replace (target - (t + Z.of_nat i * (10 * 1000000)) + 62500) with (d + 62500) by lia.
      subst o. rewrite Z.quot_div_nonneg by lia. done. }
  rewrite (proj2 (Z.ltb_ge o 0)), (proj2 (Z.ltb_ge 80 o)) by lia. cbn [orb]. change (125000 / 2) with 62500.
  rewrite (proj2 (Z.ltb_ge 62500 _)) by lia.
  assert (o <> 0 -> contiguous (renderHistory e) (Z.of_nat (length older + i - n)%nat) (t + Z.of_nat i * (10 * 1000000) + 10 * 1000000) =
    Some (take 80 (drop (80 * S i) l))) as Hnext.
  { intros Ho0. unfold contiguous. replace (Z.to_nat _) with (length older + S i - n)%nat by lia. rewrite Hat, Hs by lia.
    cbn [timed at_ samples]. unfold aecFrameDuration, aecFrameSamples, aecSampleDuration, Millisecond. change (125000 / 2) with 62500. rewrite (proj2 (Z.ltb_ge (Z.of_nat 80) 80)) by lia. cbn [orb]. destruct (Z.ltb_spec 62500 (Z.abs (t + Z.of_nat (S i) * (10 * 1000000) - (t + Z.of_nat i * (10 * 1000000) + 10 * 1000000)))); [lia|done]. }
  assert (Z.to_nat (80 * Z.of_nat i + o) = 80 * i + Z.to_nat o)%nat as Ek by lia. rewrite Ek. pose proof (Nat.div_mod_eq (length l) 80) as Hdm. fold m in Hdm.
  destruct (Z.eqb_spec o 80) as [E80|E80].
  { rewrite Hnext by lia. cbn. rewrite take_take, E80. change (Z.to_nat 80) with 80%nat. do 2 f_equal. f_equal. lia. }
  destruct (Z.eqb_spec (len (drop (Z.to_nat o) (take 80 (take 80 (drop (80 * i) l))))) 80) as [E|E].
  { rewrite !length_drop, !length_take, length_drop in E. assert (o = 0) as E0 by lia. rewrite E0. cbn [drop Z.to_nat]. rewrite take_take, Nat.add_0_r. done. }
  rewrite !length_drop, !length_take, length_drop in E. rewrite Hnext by lia. cbn [mbind option_bind]. f_equal. rewrite (take_take _ 80 80). cbn [Nat.min].
  replace (80 * S i)%nat with (80 * i + 80)%nat by lia. rewrite <- (drop_drop l 80 (80 * i)), <- (drop_drop l (Z.to_nat o) (80 * i)). apply two_frames; [lia|].
  rewrite length_drop. lia.
Qed.

(** ** Capturing *)

(** The reference that belongs to the time [target], and that it is there. *)
Definition window (t : Z) (l : list Z) (target : Z) : list Z := take 80 (drop (Z.to_nat (nearest t target)) l).
Definition covered (t : Z) (l : list Z) (c target : Z) : Prop :=
  t <= target /\ nearest t target + 80 <= 80 * Z.of_nat (length l / 80) /\ c <= t + (target - t) / aecFrameDuration * aecFrameDuration.

Lemma confirm_same now d e : let e' := confirm now d e in
  renderHistory e' = renderHistory e /\ renderPending e' = renderPending e /\ renderNextAt e' = renderNextAt e /\ cfg e' = cfg e /\
  trackingEnabled e' = trackingEnabled e /\ (currentDelay e' = currentDelay e \/ exists x, currentDelay e' = next_delay e x).
Proof.
  cbv zeta. unfold confirm. destruct (_ || _); cbv zeta;
    repeat match goal with |- context [if ?b then _ else _] => destruct b end; split_and!; try done; first [by left|right; eexists; reflexivity].
Qed.
Lemma track_same now e : let e' := trackDelayLocked now e in
  renderHistory e' = renderHistory e /\ renderPending e' = renderPending e /\ renderNextAt e' = renderNextAt e /\ cfg e' = cfg e /\
  trackingEnabled e' = trackingEnabled e /\ (currentDelay e' = currentDelay e \/ exists x, currentDelay e' = next_delay e x).
Proof.
  cbv zeta. unfold trackDelayLocked. destruct (match trackingSuspendedUntil _ with Some t => _ | None => _ end); [split_and!; try done; by left|].
  destruct (_ <? 20); [split_and!; try done; by left|]. destruct (candidates _ _) as [|c0 cs]; [split_and!; try done; by left|]. cbv zeta.
  destruct (weak _ _); [destruct (expired _ _); split_and!; try done; by left|].
  match goal with |- context [confirm now ?d ?x] => pose proof (confirm_same now d x) as H end. exact H.
Qed.

Lemma capture_frame_same capture frameAt e : let '(r, e') := capture_frame capture frameAt e in
  renderPending e' = renderPending e /\ renderNextAt e' = renderNextAt e /\ cfg e' = cfg e /\ trackingEnabled e' = trackingEnabled e /\
  renderHistory e' = trimFramesBefore (renderHistory e) (frameAt - keep (cfg e)) /\
  (trackingEnabled e = false -> currentDelay e' = currentDelay e /\ r = default (replicate 80 0) (referenceAtLocked e (frameAt - currentDelay e))) /\
  (currentDelay e' = currentDelay e \/ exists x, currentDelay e' = next_delay e x).
Proof.
  unfold capture_frame.
  match goal with |- context [if trackingEnabled ?x && _ then _ else _] => set (e1 := x) end.
  set (e2 := if _ && _ then _ else e1).
  assert (renderHistory e2 = renderHistory e /\ renderPending e2 = renderPending e /\ renderNextAt e2 = renderNextAt e /\ cfg e2 = cfg e /\
    trackingEnabled e2 = trackingEnabled e /\ (currentDelay e2 = currentDelay e \/ exists x, currentDelay e2 = next_delay e x) /\
    (trackingEnabled e = false -> e2 = e1)) as (H1 & H2 & H3 & H4 & H5 & H6 & H7).
  { subst e2. destruct (trackingEnabled e1 && _) eqn:Et.
    - destruct (track_same frameAt e1) as (T1 & T2 & T3 & T4 & T5 & T6). apply andb_true_iff in Et as [Et _]. change (trackingEnabled e1) with (trackingEnabled e) in Et.
      split_and!; [exact T1|exact T2|exact T3|exact T4|exact T5|exact T6|congruence].
    - split_and!; try done. by left. }
  clearbody e2. cbv zeta.
  assert (trackingEnabled e = false -> referenceAtLocked e2 (frameAt - currentDelay e2) = referenceAtLocked e (frameAt - currentDelay e)) as Hr by (intros Ht; by rewrite (H7 Ht)).
  destruct (referenceAtLocked e2 (frameAt - currentDelay e2)) as [r|] eqn:Er; cbn -[trimFramesBefore keep]; rewrite H1, H2, H3, H4, H5;
    (split_and!; try done; intros Ht; rewrite <- (Hr Ht), (H7 Ht); done).
Qed.
Lemma capture_frame_timeline t l c capture frameAt e : timeline t l c e -> frameAt - keep (cfg e) <= c ->
  timeline t l c (capture_frame capture frameAt e).2.
Proof.
  intros Ht Hc. pose proof (capture_frame_same capture frameAt e) as H. destruct (capture_frame capture frameAt e) as [r e']. destruct H as (H1 & H2 & H3 & _ & H5 & _).
  cbn [snd]. apply (prune_timeline t l c frameAt e Hc) in Ht. apply (timeline_ext t l c (pruneRenderLocked frameAt e)); done.
Qed.

Lemma process_frames_aligned t l c n : forall pcm now outs e,
  timeline t l c e -> trackingEnabled e = false -> length pcm = (80 * n)%nat -> length outs = n -> Forall (fun o => length o = 80%nat) outs ->
  (forall i, (i < n)%nat -> covered t l c (now + Z.of_nat i * aecFrameDuration - currentDelay e) /\ now + Z.of_nat i * aecFrameDuration - keep (cfg e) <= c) ->
  exists e', process_frames n pcm now (map Ok outs) e =
    (map (fun i => (window t l (now + Z.of_nat i * aecFrameDuration - currentDelay e), take 80 (drop (80 * i) pcm))) (seq 0 n), Ok (concat outs), e').
Proof.
  induction n as [|n IH]; intros pcm now outs e Ht Htr Hp Ho Hs Hw; cbn [process_frames].
  { destruct outs; [|done]. by exists e. }
  destruct outs as [|o outs]; [done|]. apply Forall_cons in Hs as [Ho1 Hs]. injection Ho as Ho.
  pose proof (capture_frame_same (take 80 pcm) now e) as H. pose proof (capture_frame_timeline t l c (take 80 pcm) now e Ht) as Ht1.
  destruct (capture_frame (take 80 pcm) now e) as [r e1]. destruct H as (_ & _ & H3 & H4 & _ & H6 & _). destruct (H6 Htr) as [Hd ->].
  destruct (Hw 0%nat ltac:(lia)) as [[W1 [W2 W3]] W4]. replace (now + Z.of_nat 0 * aecFrameDuration) with now in * by lia.
  rewrite (reference_of_timeline t l c e (now - currentDelay e)) by done. cbn [map default from_option id].
  rewrite Ho1. change (negb (Z.of_nat 80 =? aecFrameSamples)) with false. cbn iota.
  destruct (IH (drop 80 pcm) (now + aecFrameDuration) outs e1) as (e' & E).
  - apply Ht1. done.
  - congruence.
  - rewrite length_drop. lia.
  - done.
  - done.
  - intros i Hi. rewrite Hd, H3. destruct (Hw (S i) ltac:(lia)) as [V1 V2].
    replace (now + aecFrameDuration + Z.of_nat i * aecFrameDuration) with (now + Z.of_nat (S i) * aecFrameDuration) by lia. done.
  - rewrite E. exists e'. cbn [mbind result_bind concat seq map].
    match goal with |- (_ :: map ?f _, _, _) = (_ :: map ?g _, _, _) => assert (map f (seq 0 n) = map g (seq 1 n)) as -> end.
    { rewrite <- seq_shift, map_map. apply map_ext. intros i. rewrite Hd, drop_drop.
      replace (now + aecFrameDuration + Z.of_nat i * aecFrameDuration) with (now + Z.of_nat (S i) * aecFrameDuration) by lia.
      by replace (80 + 80 * i)%nat with (80 * S i)%nat by lia. }
    by replace (now + Z.of_nat 0 * aecFrameDuration) with now by lia.
Qed.

(** ** The canceller as a whole *)

Inductive op := OpRender (pcm : list Z) (now : Z) | OpCapture (pcm : list Z) (now : Z) (rs : replies) | OpSuspend (now : Z).
Definition do_op (o : op) (e : echoCanceller) : echoCanceller :=
  match o with
  | OpRender pcm now => AddRender pcm now e
  | OpCapture pcm now rs => (ProcessCapture pcm now rs e).2
  | OpSuspend now => SuspendTracking now e
  end.
Fixpoint run (ops : list op) (e : echoCanceller) : echoCanceller := match ops with [] => e | o :: ops => run ops (do_op o e) end.
(** No chunk begins a new timeline. *)
Fixpoint steady (ops : list op) (e : echoCanceller) : bool :=
  match ops with
  | [] => true
  | o :: r => match o with OpRender _ now => negb (rebases now e) | _ => true end && steady r (do_op o e)
  end.
Definition rendered (ops : list op) : list Z := flat_map (fun o => match o with OpRender pcm _ => pcm | _ => [] end) ops.
(** The latest time up to which the operation prunes the timeline. *)
Definition op_time (o : op) : Z := match o with OpRender _ now => now | OpCapture pcm now _ => now + len pcm * aecSampleDuration | OpSuspend now => now end.

Lemma process_frames_same n : forall pcm now rs e, let e' := (process_frames n pcm now rs e).2 in
  cfg e' = cfg e /\ trackingEnabled e' = trackingEnabled e /\ (trackingEnabled e = false -> currentDelay e' = currentDelay e).
Proof.
  induction n as [|n IH]; intros pcm now rs e; cbv zeta; cbn [process_frames]; [done|].
  pose proof (capture_frame_same (take 80 pcm) now e) as H. destruct (capture_frame (take 80 pcm) now e) as [r e1].
  destruct H as (_ & _ & H3 & H4 & _ & H6 & _).
  destruct rs as [|[x|x|] rs]; cbn [snd]; try (split_and!; try done; intros Ht; by apply H6).
  destruct (negb _); cbn [snd]; [split_and!; try done; intros Ht; by apply H6|].
  specialize (IH (drop 80 pcm) (now + aecFrameDuration) rs e1). cbv zeta in IH.
  destruct (process_frames n _ _ rs e1) as [[l r'] e2]. cbn [snd] in *. destruct IH as (I1 & I2 & I3).
  split; [congruence|]. split; [congruence|]. intros Ht. rewrite I3 by congruence. by apply H6.
Qed.
Lemma process_frames_timeline t l c n : forall pcm now rs e, timeline t l c e -> now + Z.of_nat n * aecFrameDuration - keep (cfg e) <= c ->
  timeline t l c (process_frames n pcm now rs e).2.
Proof.
  induction n as [|n IH]; intros pcm now rs e Ht Hc; cbn [process_frames]; [done|].
  assert (now - keep (cfg e) <= c) as Hc0 by (unfold aecFrameDuration, Millisecond in Hc; lia).
  pose proof (capture_frame_same (take 80 pcm) now e) as H. pose proof (capture_frame_timeline t l c (take 80 pcm) now e Ht Hc0) as Ht1.
  destruct (capture_frame (take 80 pcm) now e) as [r e1]. destruct H as (_ & _ & H3 & _). cbn [snd] in Ht1.
  destruct rs as [|[x|x|] rs]; try done. destruct (negb _); [done|].
  specialize (IH (drop 80 pcm) (now + aecFrameDuration) rs e1 Ht1). rewrite H3 in IH. specialize (IH ltac:(lia)).
  destruct (process_frames n _ _ rs e1) as [[l' r'] e2]. exact IH.
Qed.
Lemma ProcessCapture_timeline t l c pcm now rs e : timeline t l c e -> now + len pcm * aecSampleDuration - keep (cfg e) <= c ->
  timeline t l c (ProcessCapture pcm now rs e).2.
Proof.
  intros Ht Hc. unfold ProcessCapture. destruct (_ || _); [done|]. apply process_frames_timeline; [done|].
  unfold aecFrameSamples, aecFrameDuration, aecSampleDuration, Millisecond in *. pose proof (Z.div_mod (len pcm) 80). pose proof (Z.mod_pos_bound (len pcm) 80).
  rewrite Z2Nat.id by (apply Z.div_pos; lia). lia.
Qed.
Lemma do_op_same o e : cfg (do_op o e) = cfg e /\ trackingEnabled (do_op o e) = trackingEnabled e /\
  (trackingEnabled e = false -> currentDelay (do_op o e) = currentDelay e).
Proof.
  destruct o as [pcm now|pcm now rs|now]; cbn [do_op].
  - destruct (AddRender_same pcm now e) as (H1 & H2 & H3). done.
  - unfold ProcessCapture. destruct (_ || _); [done|]. apply process_frames_same.
  - unfold SuspendTracking. destruct (trackingEnabled e) eqn:E; [|done]. split_and!; done.
Qed.
Lemma run_timeline t c ops : forall l e, timeline t l c e -> trackingEnabled e = false -> steady ops e = true ->
  Forall (fun o => op_time o - keep (cfg e) <= c) ops ->
  timeline t (l ++ rendered ops) c (run ops e) /\ cfg (run ops e) = cfg e /\ trackingEnabled (run ops e) = false /\ currentDelay (run ops e) = currentDelay e.
Proof.
  induction ops as [|o ops IH]; intros l e Ht Htr Hs Hc; cbn [run rendered flat_map]; [by rewrite app_nil_r|].
  cbn [steady] in Hs. apply andb_true_iff in Hs as [Ho Hs]. apply Forall_cons in Hc as [Hc0 Hc].
  destruct (do_op_same o e) as (D1 & D2 & D3). rewrite Htr in D2. specialize (D3 Htr). rewrite <- D3, <- D1, app_assoc. rewrite <- D1 in Hc.
  apply IH; [|done..]. destruct o as [pcm now|pcm now rs|now]; cbn [do_op] in *.
  - apply negb_true_iff in Ho. by apply AddRender_continues.
  - rewrite app_nil_r. by apply ProcessCapture_timeline.
  - rewrite app_nil_r. unfold SuspendTracking. by rewrite Htr.
Qed.
Lemma nearest_mono t x y : x <= y -> nearest t x <= nearest t y.
Proof. intros H. unfold nearest, aecSampleDuration. apply Z.div_le_mono; lia. Qed.

(** C5: The echo reference is aligned.  A chunk that begins a timeline at [t], whatever was before, and
    then any chunks that continue it, in any interleaving with captures and suspensions: when a block of the camera's
    audio is captured at [now], the processor gets with each 10 ms of it exactly the 80 samples of what
    was played to the door, counted from the one nearest to [currentDelay] before that frame - cut across the frames
    and chunks in which they came, none lost, repeated or taken from before the gap - and the block that goes on is what the processor made
    of them.  It needs that those samples were played, and that nothing so far reached more than the kept
    window (at least 2.5 s) beyond them. *)
Theorem echo_aligned (e0 : echoCanceller) (t now : Z) (pcm0 pcm : list Z) (ops : list op) (outs : list (list Z)) (n : nat) :
  trackingEnabled e0 = false -> pcm0 <> [] -> rebases t e0 = true -> steady ops (AddRender pcm0 t e0) = true ->
  length pcm = (80 * S n)%nat -> length outs = S n -> Forall (fun o => length o = 80%nat) outs ->
  let l := pcm0 ++ rendered ops in
  let d := currentDelay e0 in
  let first := t + (now - d - t) / aecFrameDuration * aecFrameDuration in
  t <= now - d -> nearest t (now + Z.of_nat n * aecFrameDuration - d) + 80 <= 80 * Z.of_nat (length l / 80) ->
  Forall (fun o => op_time o - keep (cfg e0) <= first) ops -> now + Z.of_nat n * aecFrameDuration - keep (cfg e0) <= first ->
  exists e, ProcessCapture pcm now (map Ok outs) (run ops (AddRender pcm0 t e0)) =
    (map (fun i => (window t l (now + Z.of_nat i * aecFrameDuration - d), take 80 (drop (80 * i) pcm))) (seq 0 (S n)), Ok (concat outs), e).
Proof.
  intros Htr Hp0 Hr Hs Hp Ho Houts. cbv zeta. set (d := currentDelay e0). set (c := t + (now - d - t) / aecFrameDuration * aecFrameDuration).
  intros Ht Hk Hops Hc.
  destruct (AddRender_same pcm0 t e0) as (A1 & A2 & A3).
  assert (0 <= (now - d - t) / aecFrameDuration) as Hq by (apply Z.div_pos; unfold aecFrameDuration, Millisecond; lia).
  assert (timeline t pcm0 c (AddRender pcm0 t e0)) as Ht0.
  { apply (timeline_weaken t pcm0 t); [subst c; unfold aecFrameDuration, Millisecond in *; lia|]. apply AddRender_begins; [done|done| |lia].
    unfold keep, Millisecond. lia. }
  destruct (run_timeline t c ops pcm0 _ Ht0) as (R1 & R2 & R3 & R4); [congruence|done|by rewrite A1|].
  rewrite A1 in R2. rewrite A2 in R4. fold d in R4. unfold ProcessCapture. rewrite Hp.
  assert ((Z.of_nat (80 * S n) =? 0) || negb (Z.of_nat (80 * S n) mod aecFrameSamples =? 0) = false) as ->.
  { apply orb_false_iff. split; [apply Z.eqb_neq; lia|]. apply negb_false_iff, Z.eqb_eq. unfold aecFrameSamples. replace (Z.of_nat (80 * S n)) with (Z.of_nat (S n) * 80) by lia. by rewrite Z.mod_mul. }
  replace (Z.to_nat (Z.of_nat (80 * S n) / aecFrameSamples)) with (S n).
  2:{ unfold aecFrameSamples. replace (Z.of_nat (80 * S n)) with (Z.of_nat (S n) * 80) by lia. rewrite Z.div_mul by lia. lia. }
  rewrite <- R4. apply (process_frames_aligned t (pcm0 ++ rendered ops) c); try done. rewrite R2, R4.
  intros i Hi. split; [split; [|split]|].
  - unfold aecFrameDuration, Millisecond. lia.
  - pose proof (nearest_mono t (now + Z.of_nat i * aecFrameDuration - d) (now + Z.of_nat n * aecFrameDuration - d)).
    unfold aecFrameDuration, Millisecond in *. lia.
  - subst c. assert ((now - d - t) / aecFrameDuration <= (now + Z.of_nat i * aecFrameDuration - d - t) / aecFrameDuration).
    { apply Z.div_le_mono; unfold aecFrameDuration, Millisecond; lia. }
    unfold aecFrameDuration, Millisecond in *. lia.
  - unfold aecFrameDuration, Millisecond in *. lia.
Qed.

(** ** The delay *)

Definition in_window (e : echoCanceller) : Prop :=
  minDelay e <= currentDelay e <= maxDelay e /\ currentDelay e mod Millisecond = 0.
Lemma next_delay_ok e x : 0 <= minDelay e -> in_window e ->
  minDelay e <= next_delay e x <= maxDelay e /\ next_delay e x mod Millisecond = 0 /\ Z.abs (next_delay e x - currentDelay e) <= 30 * Millisecond.
Proof.
  unfold in_window, next_delay, minDelay, maxDelay, aecTrackerStep, Millisecond. set (lo := Config.AECMinDelayMS (cfg e)). set (hi := Config.AECMaxDelayMS (cfg e)).
  set (old := currentDelay e). clearbody lo hi old. intros Hlo [Hold Hm].
  change (1000000 / 2) with 500000. set (delta := if 30 * 1000000 <? x - old then 30 * 1000000 else if x - old <? - (30 * 1000000) then - (30 * 1000000) else x - old).
  assert (-30000000 <= delta <= 30000000) as Hd by (subst delta; repeat case_match; lia). clearbody delta.
  apply Z.mod_divide in Hm as [k ->]; [|done].
  assert (forall q, Z.abs (q * 1000000 - k * 1000000) <= 30 * 1000000 -> lo * 1000000 <= k * 1000000 <= hi * 1000000 ->
    let r := if q * 1000000 <? lo * 1000000 then lo * 1000000 else if hi * 1000000 <? q * 1000000 then hi * 1000000 else q * 1000000 in
    lo * 1000000 <= r <= hi * 1000000 /\ r mod 1000000 = 0 /\ Z.abs (r - k * 1000000) <= 30 * 1000000) as H.
  { intros q Hq Hk. cbv zeta. destruct (Z.ltb_spec (q * 1000000) (lo * 1000000)); [|destruct (Z.ltb_spec (hi * 1000000) (q * 1000000))];
      (split; [lia|]; split; [by apply Z.mod_mul|lia]). }
  apply H; [|done]. clear H. Z.to_euclidean_division_equations; lia.
Qed.
Lemma in_window_step e e' : 0 <= minDelay e -> in_window e -> cfg e' = cfg e -> currentDelay e' = currentDelay e \/ (exists x, currentDelay e' = next_delay e x) ->
  in_window e' /\ Z.abs (currentDelay e' - currentDelay e) <= 30 * Millisecond.
Proof.
  intros H0 Hw Hc [E|[x E]].
  - unfold in_window, minDelay, maxDelay in *. rewrite E, Hc. split; [done|]. unfold Millisecond. lia.
  - destruct (next_delay_ok e x H0 Hw) as (H1 & H2 & H3). unfold in_window, minDelay, maxDelay in *. rewrite E, Hc. done.
Qed.
Lemma process_frames_window n : forall pcm now rs e, 0 <= minDelay e -> in_window e -> in_window (process_frames n pcm now rs e).2.
Proof.
  induction n as [|n IH]; intros pcm now rs e H0 Hw; cbn [process_frames]; [done|].
  pose proof (capture_frame_same (take 80 pcm) now e) as H. destruct (capture_frame (take 80 pcm) now e) as [r e1].
  destruct H as (_ & _ & H3 & _ & _ & _ & H7). destruct (in_window_step e e1 H0 Hw H3 H7) as [Hw1 _].
  destruct rs as [|[x|x|] rs]; try done. destruct (negb _); [done|].
  assert (0 <= minDelay e1) as H1 by (unfold minDelay in *; by rewrite H3).
  specialize (IH (drop 80 pcm) (now + aecFrameDuration) rs e1 H1 Hw1).
  destruct (process_frames n _ _ rs e1) as [[l' r'] e2]. exact IH.
Qed.

(** C34: The delay stays where calibration put it.  Whatever is rendered, captured and suspended: with the
    tracker on, the delay stays within the window that the calibration allows, a whole number of
    milliseconds, and one observation moves it by at most 30 ms; in production, where the tracker is off, it
    never moves. *)
Theorem delay_in_window (c : Config.Config) (ops : list op) (now : Z) :
  0 <= Config.AECMinDelayMS c <= Config.AECInitialDelayMS c -> Config.AECInitialDelayMS c <= Config.AECMaxDelayMS c ->
  let e := run ops (newEchoCancellerWithProcessor c) in
  in_window e /\ Z.abs (currentDelay (trackDelayLocked now e) - currentDelay e) <= 30 * Millisecond /\
  currentDelay (run ops (newProductionEchoCancellerWithProcessor c)) = Config.AECInitialDelayMS c * Millisecond.
Proof.
  intros H1 H2. cbv zeta.
  assert (forall e, 0 <= minDelay e -> in_window e -> in_window (run ops e) /\ 0 <= minDelay (run ops e)) as Hrun.
  { induction ops as [|o ops IH]; intros e H0 Hw; cbn [run]; [done|]. destruct (do_op_same o e) as (D1 & _ & _).
    apply IH; [unfold minDelay in *; by rewrite D1|]. destruct o as [pcm x|pcm x rs|x]; cbn [do_op] in *.
    - destruct (AddRender_same pcm x e) as (A1 & A2 & _). by apply (in_window_step e); [..|left].
    - unfold ProcessCapture. destruct (_ || _); [done|]. by apply process_frames_window.
    - apply (in_window_step e); try done. left. unfold SuspendTracking. by destruct (trackingEnabled e). }
  destruct (Hrun (newEchoCancellerWithProcessor c)) as [Hw H0].
  { unfold minDelay, Millisecond. change (cfg (newEchoCancellerWithProcessor c)) with c. lia. }
  { unfold in_window, minDelay, maxDelay. change (cfg (newEchoCancellerWithProcessor c)) with c.
    change (currentDelay (newEchoCancellerWithProcessor c)) with (Config.AECInitialDelayMS c * Millisecond). unfold Millisecond. split; [lia|]. by apply Z.mod_mul. }
  split; [done|]. split.
  - destruct (track_same now (run ops (newEchoCancellerWithProcessor c))) as (_ & _ & _ & T4 & _ & T6). by apply (in_window_step _ _ H0 Hw T4 T6).
  - clear. assert (forall e, trackingEnabled e = false -> currentDelay (run ops e) = currentDelay e) as H; [|by apply H].
    induction ops as [|o ops IH]; intros e Ht; cbn [run]; [done|]. destruct (do_op_same o e) as (_ & D2 & D3). rewrite IH; [by apply D3|congruence].
Qed.

(** ** Witnesses *)

Definition door : Config.Config := Config.SetAECDelay 30 Config.Defaults.
Definition ramp (a n : Z) : list Z := seqZ a n.
Definition session_ops : list op :=
  [OpRender (ramp 512 512) 1064000000; OpCapture (replicate 80 5) 1020000000 []; OpSuspend 1100000000; OpRender (ramp 1024 512) 1127000000].
Lemma echo_aligned_witness :
  exists e, ProcessCapture (replicate 160 9) 1050050000 (map Ok [replicate 80 1; replicate 80 2])
      (run session_ops (AddRender (ramp 0 512) 1000000000 (newProductionEchoCancellerWithProcessor door))) =
    ([(ramp 160 80, replicate 80 9); (ramp 240 80, replicate 80 9)], Ok (replicate 80 1 ++ replicate 80 2), e).
Proof.
  destruct (echo_aligned (newProductionEchoCancellerWithProcessor door) 1000000000 1050050000 (ramp 0 512) (replicate 160 9) session_ops
    [replicate 80 1; replicate 80 2] 1%nat) as [e He].
  - reflexivity.
  - discriminate.
  - reflexivity.
  - vm_compute. reflexivity.
  - reflexivity.
  - reflexivity.
  - repeat constructor.
  - vm_compute. discriminate.
  - vm_compute. discriminate.
  - repeat constructor; vm_compute; discriminate.
  - vm_compute. discriminate.
  - exists e. rewrite He. reflexivity.
Defined.
Lemma delay_in_window_witness :
  in_window (run session_ops (newEchoCancellerWithProcessor door)) /\
  currentDelay (run session_ops (newProductionEchoCancellerWithProcessor door)) = 30 * Millisecond.
Proof.
  destruct (delay_in_window door session_ops 0) as (H1 & _ & H2); [vm_compute; split; discriminate|vm_compute; discriminate|].
  split; [exact H1|exact H2].
Defined.
End EchoCancel.
