(* ===== verification/AecHelper.v ===== *)
(** The native echo processor: the client of [internal/media/webrtc_aec.go] and the other end of its pipes,
    the wire code of [native/aec-helper/main.cc].

    A 64-bit float is its bits, which both ends only move.  The WebRTC library is a parameter of the helper.
    What writing to the pipe does, what has arrived on it and what ended a wait are inputs. *)
From S2P Require Import Prelude GoBytes GoStrings.

Module AecHelper.

Definition aecFrameSamples : Z := 80.
Definition nativeAECRequestMagic : string := "AEC1".
Definition nativeAECReplyMagic : string := "AER1".
Definition nativeAECRequestBytes : Z := 4 + 2 * aecFrameSamples * 2.
Definition nativeAECReplyBytes : Z := 4 + 4 + 4 + 5 * 8 + 3 * 4 + aecFrameSamples * 2.
Definition nativeStatERL : Z := 1.
Definition nativeStatERLE : Z := Z.shiftl 1 1.
Definition nativeStatDivergentFilterFraction : Z := Z.shiftl 1 2.
Definition nativeStatResidualEchoLikelihood : Z := Z.shiftl 1 3.
Definition nativeStatResidualEchoLikelihoodRecentMax : Z := Z.shiftl 1 4.
Definition nativeStatDelayMS : Z := Z.shiftl 1 5.
Definition nativeStatDelayMedianMS : Z := Z.shiftl 1 6.
Definition nativeStatDelayStdDevMS : Z := Z.shiftl 1 7.

Record nativeAECOptions := mkOptions { HighPassFilter : bool; NoiseSuppression : bool; NoiseSuppressionLevel : string }.
Record nativeAECStats := mkStats {
  ValidMask : Z; EchoReturnLossDB : Z; EchoReturnLossEnhancementDB : Z; DivergentFilterFraction : Z;
  ResidualEchoLikelihood : Z; ResidualEchoLikelihoodRecentMax : Z; DelayMS : Z; DelayMedianMS : Z; DelayStdDevMS : Z;
}.
Definition no_stats : nativeAECStats := mkStats 0 0 0 0 0 0 0 0 0.
Definition has (s : nativeAECStats) (bit : Z) : bool := negb (Z.land (ValidMask s) bit =? 0).

Definition buildNativeAECArgs (opts : nativeAECOptions) : list string :=
  let l := NoiseSuppressionLevel opts in
  let noiseLevel := if bool_decide (l ∈ ["low"; "moderate"; "high"; "very-high"]) then l else "moderate" in
  let boolArg (v : bool) := if v then "1" else "0" in
  ["--high-pass=" +:+ boolArg (HighPassFilter opts); "--noise-suppression=" +:+ boolArg (NoiseSuppression opts); "--noise-level=" +:+ noiseLevel].

(** * Frames on the wire *)

Definition put_samples (l : list Z) : bytes := concat (map (fun v => le_put 2 (u16 v)) l).
Definition encode_request (reference capture : list Z) : bytes := s2b nativeAECRequestMagic ++ put_samples reference ++ put_samples capture.
Fixpoint get_samples (n : nat) (buf : bytes) (off : Z) : result (list Z) :=
  match n with O => Ok [] | S n => v ← le_get 2 buf off; r ← get_samples n buf (off + 2); Ok (s16 v :: r) end.
Definition decodeNativeAECResponse (buf : bytes) : result (list Z * nativeAECStats) :=
  _ ← fail_if (negb (len buf =? nativeAECReplyBytes)) "native WebRTC AEC reply size";
  magic ← sub buf 0 4;
  _ ← fail_if (negb (bool_decide (b2s magic = nativeAECReplyMagic))) "native WebRTC AEC reply has invalid magic";
  status ← le_get 4 buf 4;
  _ ← fail_if (negb (s32 status =? 0)) ("native WebRTC AudioProcessing returned status " +:+ Itoa (s32 status));
  mask ← le_get 4 buf 8;
  erl ← le_get 8 buf 12; erle ← le_get 8 buf 20; divergent ← le_get 8 buf 28; residual ← le_get 8 buf 36; recent ← le_get 8 buf 44;
  delay ← le_get 4 buf 52; median ← le_get 4 buf 56; stddev ← le_get 4 buf 60;
  pcm ← get_samples (Z.to_nat aecFrameSamples) buf 64;
  Ok (pcm, mkStats mask erl erle divergent residual recent (s32 delay) (s32 median) (s32 stddev)).
Definition encodeNativeAECResponse (status : Z) (st : nativeAECStats) (pcm : list Z) : bytes :=
  s2b nativeAECReplyMagic ++ le_put 4 (u32 status) ++ le_put 4 (ValidMask st) ++
  concat (map (le_put 8) [EchoReturnLossDB st; EchoReturnLossEnhancementDB st; DivergentFilterFraction st; ResidualEchoLikelihood st; ResidualEchoLikelihoodRecentMax st]) ++
  concat (map (fun v => le_put 4 (u32 v)) [DelayMS st; DelayMedianMS st; DelayStdDevMS st]) ++
  put_samples (map (fun i => default 0 (pcm !! i)) (seq 0 (Z.to_nat aecFrameSamples))).

(** * The client *)

(** The [i]-th write on the pipe, of [n] bytes: how many it took, its error.  [writeAll] also returns what the pipe took. *)
Definition writer : Type := nat -> Z -> Z * option string.
Fixpoint writeAll (fuel : nat) (w : writer) (i : nat) (b : bytes) : result (bytes * option string) :=
  match fuel with
  | O => Panic
  | S fuel =>
    if len b <=? 0 then Ok ([], None)
    else
      let '(n, err) := w i (len b) in
      let took := take (Z.to_nat n) b in
      match err with
      | Some e => Ok (took, Some e)
      | None =>
        if n <=? 0 then Ok (took, Some "short write")
        else rest ← sub b n (len b); '(t, e) ← writeAll fuel w (S i) rest; Ok (took ++ t, e)
      end
  end.

Inductive nativeAECResponse := Reply (pcm : list Z) (stats : nativeAECStats) | Failed (e : string).
(** [source]: what the helper has written and [readResponses] not read; [reading]: it still reads, the channel is open;
    [over]: how its output ended, [Some e] with an error that is not an end of file; [exited]: [done] is closed. *)
Record nativeAECProcessor := mkProcessor {
  responses : list nativeAECResponse;  (** capacity 8 *)
  source : bytes; over : option (option string); reading : bool; exited : bool;
  stats : nativeAECStats; stdin : bytes; stderr : bytes;
}.
#[export] Instance eta_processor : Eta nativeAECProcessor := fun p =>
  mkProcessor (responses p) (source p) (over p) (reading p) (exited p) (stats p) (stdin p) (stderr p).
Definition fresh : nativeAECProcessor := mkProcessor [] [] None true false no_stats [] [].
Definition capacity : nat := 8.

(** [readResponses] until it must wait: for bytes or for room in the channel. *)
Fixpoint readResponses (fuel : nat) (p : nativeAECProcessor) : nativeAECProcessor :=
  match fuel with
  | O => p
  | S fuel =>
    if negb (reading p) || (capacity <=? length (responses p))%nat then p
    else if nativeAECReplyBytes <=? len (source p) then
      let n := Z.to_nat nativeAECReplyBytes in
      let p' := p <| source := drop n (source p) |> in
      match decodeNativeAECResponse (take n (source p)) with
      | Ok (pcm, st) => readResponses fuel (p' <| responses ::= fun l => l ++ [Reply pcm st] |>)
      | Err e => p' <| responses ::= fun l => l ++ [Failed e] |> <| reading := false |>
      | Panic => p' <| reading := false |>
      end
    else
      match over p with
      | Some (Some e) => p <| source := [] |> <| responses ::= fun l => l ++ [Failed ("read native WebRTC AEC reply: " +:+ e)] |> <| reading := false |>
      | Some None => p <| source := [] |> <| reading := false |>
      | None => p
      end
  end.
Definition read (p : nativeAECProcessor) : nativeAECProcessor := readResponses (S (length (source p))) p.

Definition maxBytes : Z := 8192.
Definition stderr_Write (b : bytes) (p : nativeAECProcessor) : nativeAECProcessor :=
  let buf := stderr p ++ b in p <| stderr := drop (Z.to_nat (len buf - maxBytes)) buf |>.
(** [waitErr]: how the process ended, if it has. *)
Definition processError {U : Unicode} (waitErr : option string) (p : nativeAECProcessor) : string :=
  let e := default "native WebRTC AEC helper stopped" waitErr in
  let text := TrimSpace (b2s (stderr p)) in
  "native WebRTC AEC helper: " +:+ e +:+ (if decide (text = "") then "" else " (" +:+ text +:+ ")").

(** [arrived] came on the pipe before the wait ended; [cut] is what ended it when it was not a response (the context or
    the timer).  [None]: the call still waits. *)
Definition Process {U : Unicode} (reference capture : list Z) (w : writer) (arrived : bytes) (cut : option string) (waitErr : option string)
    (p : nativeAECProcessor) : option (result (list Z)) * nativeAECProcessor :=
  if negb (len reference =? aecFrameSamples) || negb (len capture =? aecFrameSamples) then (Some (Err "native WebRTC AEC needs 80-sample frames"), p)
  else if exited p then (Some (Err (processError waitErr p)), p)
  else
    let request := encode_request reference capture in
    match writeAll (S (length request)) w 0 request with
    | Panic => (Some Panic, p)
    | Err e => (Some (Err e), p)
    | Ok (written, err) =>
      let p := p <| stdin ::= fun s => s ++ written |> in
      match err with
      | Some e => (Some (Err ("write native WebRTC AEC frame: " +:+ e +:+ "; " +:+ processError waitErr p)), p)
      | None =>
        let p := read (p <| source ::= fun s => s ++ arrived |>) in
        match cut with
        | Some e => (Some (Err e), p)
        | None =>
          match responses p with
          | Reply pcm st :: rest => (Some (Ok pcm), p <| responses := rest |> <| stats := st |>)
          | Failed e :: rest => (Some (Err e), p <| responses := rest |>)
          | [] => if reading p then (None, p) else (Some (Err (processError waitErr p)), p)
          end
        end
      end
    end.
(** * The helper *)

(** What WebRTC reports, each statistic when it has one. *)
Record AudioProcessingStats := mkApm {
  echo_return_loss : option Z; echo_return_loss_enhancement : option Z; divergent_filter_fraction : option Z;
  residual_echo_likelihood : option Z; residual_echo_likelihood_recent_max : option Z;
  delay_ms : option Z; delay_median_ms : option Z; delay_standard_deviation_ms : option Z;
}.
Definition mask_of (l : list (option Z * Z)) : Z := foldl (fun mask '(v, bit) => if v : option Z then Z.lor mask bit else mask) 0 l.
Definition MakeWireStats (s : AudioProcessingStats) : nativeAECStats :=
  mkStats
    (mask_of [(echo_return_loss s, Z.shiftl 1 0); (echo_return_loss_enhancement s, Z.shiftl 1 1); (divergent_filter_fraction s, Z.shiftl 1 2);
       (residual_echo_likelihood s, Z.shiftl 1 3); (residual_echo_likelihood_recent_max s, Z.shiftl 1 4);
       (delay_ms s, Z.shiftl 1 5); (delay_median_ms s, Z.shiftl 1 6); (delay_standard_deviation_ms s, Z.shiftl 1 7)])
    (default 0 (echo_return_loss s)) (default 0 (echo_return_loss_enhancement s)) (default 0 (divergent_filter_fraction s))
    (default 0 (residual_echo_likelihood s)) (default 0 (residual_echo_likelihood_recent_max s))
    (default 0 (delay_ms s)) (default 0 (delay_median_ms s)) (default 0 (delay_standard_deviation_ms s)).
Definition EncodeReply (status : Z) (st : nativeAECStats) (pcm : list Z) : bytes :=
  s2b "AER1" ++ le_put 4 (u32 status) ++ le_put 4 (ValidMask st) ++
  le_put 8 (EchoReturnLossDB st) ++ le_put 8 (EchoReturnLossEnhancementDB st) ++ le_put 8 (DivergentFilterFraction st) ++
  le_put 8 (ResidualEchoLikelihood st) ++ le_put 8 (ResidualEchoLikelihoodRecentMax st) ++
  le_put 4 (u32 (DelayMS st)) ++ le_put 4 (u32 (DelayMedianMS st)) ++ le_put 4 (u32 (DelayStdDevMS st)) ++ put_samples pcm.

(** The processing options the helper reads from its arguments. *)
Definition BoolArg (value : string) (fallback : bool) : bool :=
  if bool_decide (value = "1") || bool_decide (value = "true") then true
  else if bool_decide (value = "0") || bool_decide (value = "false") then false else fallback.
Definition ValueAfter (arg p : string) : string := if HasPrefix arg p then sdrop (String.length p) arg else "".
Inductive Level := kLow | kModerate | kHigh | kVeryHigh.
Definition NoiseLevel (level : string) : Level :=
  if bool_decide (level = "low") then kLow else if bool_decide (level = "high") then kHigh
  else if bool_decide (level = "very-high") then kVeryHigh else kModerate.
Record helper_config := mkHelper { high_pass : bool; noise_suppression : bool; noise_level : string }.
Definition read_arg (c : helper_config) (arg : string) : helper_config :=
  let v := ValueAfter arg "--high-pass=" in
  if negb (bool_decide (v = "")) then mkHelper (BoolArg v (high_pass c)) (noise_suppression c) (noise_level c)
  else
    let v := ValueAfter arg "--noise-suppression=" in
    if negb (bool_decide (v = "")) then mkHelper (high_pass c) (BoolArg v (noise_suppression c)) (noise_level c)
    else
      let v := ValueAfter arg "--noise-level=" in
      if negb (bool_decide (v = "")) then mkHelper (high_pass c) (noise_suppression c) v else c.
Definition read_args (args : list string) : helper_config := foldl read_arg (mkHelper true true "moderate") args.

Section helper.
(** WebRTC's audio processing: the state, and a status with each call. *)
Context {A : Type} (ProcessReverseStream : A -> list Z -> A * Z) (set_stream_delay_ms : A -> Z -> A * Z)
  (ProcessStream : A -> list Z -> A * Z * list Z) (GetStatistics : A -> AudioProcessingStats).

Definition apm_frame (a : A) (render capture : list Z) : A * Z * list Z :=
  let '(a, status) := ProcessReverseStream a render in
  let '(a, status) := if status =? 0 then set_stream_delay_ms a 0 else (a, status) in
  if status =? 0 then ProcessStream a capture else (a, status, capture).
(** One turn of the loop on one request; [None]: the helper exits. *)
Definition serve (a : A) (request : bytes) : option (A * bytes) :=
  if negb (bool_decide (take 4 request = s2b "AEC1")) then None
  else
    match get_samples 80 request 4, get_samples 80 request 164 with
    | Ok render, Ok capture =>
      let '(a, status, processed) := apm_frame a render capture in
      Some (a, EncodeReply status (MakeWireStats (GetStatistics a)) processed)
    | _, _ => None
    end.
(** The loop on what has come in: the state, the replies, what is left of the input. *)
Fixpoint helper (fuel : nat) (a : A) (input : bytes) : A * bytes * bytes :=
  match fuel with
  | O => (a, [], input)
  | S fuel =>
    if len input <? 324 then (a, [], input)
    else
      match serve a (take 324 input) with
      | Some (a, reply) => let '(a, replies, rest) := helper fuel a (drop 324 input) in (a, reply ++ replies, rest)
      | None => (a, [], input)
      end
  end.

(** Client and helper at the two ends of the pipes, one call of [Process] per frame: the results, the helper's state,
    what it has not read, the client.  [ws] is how the pipe takes the writes of each call. *)
Fixpoint converse {U : Unicode} (frames : list (list Z * list Z)) (ws : nat -> writer) (a : A) (pending : bytes) (p : nativeAECProcessor)
    : option (list (list Z) * A * bytes * nativeAECProcessor) :=
  match frames with
  | [] => Some ([], a, pending, p)
  | (reference, capture) :: frames =>
    let request := encode_request reference capture in
    match writeAll (S (length request)) (ws O) 0 request with
    | Ok (written, None) =>
      let '(a, reply, pending) := helper (length (pending ++ written)) a (pending ++ written) in
      match Process reference capture (ws O) reply None None p with
      | (Some (Ok pcm), p) =>
        '(pcms, a, pending, p) ← converse frames (fun i => ws (S i)) a pending p; Some (pcm :: pcms, a, pending, p)
      | _ => None
      end
    | _ => None
    end
  end.
(** What WebRTC makes of the frames, without the pipes. *)
Fixpoint direct (frames : list (list Z * list Z)) (a : A) : list (list Z) * A :=
  match frames with
  | [] => ([], a)
  | (reference, capture) :: frames =>
    let '(a, _, pcm) := apm_frame a reference capture in let '(pcms, a) := direct frames a in (pcm :: pcms, a)
  end.
End helper.
(** * Properties *)

(** ** The wire *)

Lemma le_get_skip n l k off : len l <= off -> 0 <= n -> le_get n (l ++ k) off = le_get n k (off - len l).
Proof.
  intros Hl Hn. pose proof (len_nonneg l). unfold le_get, sub. rewrite len_app.
  destruct (decide (0 <= off <= off + n /\ off + n <= len l + len k)) as [H1|H1], (decide (0 <= off - len l <= off - len l + n /\ off - len l + n <= len k)) as [H2|H2]; try lia; [|done].
  rewrite slice_app_r by lia. by replace (off + n - len l) with (off - len l + n) by lia.
Qed.
Lemma len_put_samples l : len (put_samples l) = 2 * len l.
Proof. induction l as [|v l IH]; [done|]. unfold put_samples in *. cbn [map concat]. rewrite len_app, len_le_put, IH, len_cons. lia. Qed.
Lemma get_samples_skip n : forall l k off, len l <= off -> get_samples n (l ++ k) off = get_samples n k (off - len l).
Proof.
  induction n as [|n IH]; intros l k off H; [done|]. cbn [get_samples]. rewrite le_get_skip by lia. rewrite IH by lia.
  by replace (off + 2 - len l) with (off - len l + 2) by lia.
Qed.
Lemma s16_u16 v : sfits 16 v -> s16 (u16 v mod 256 ^ 2) = v.
Proof. unfold sfits, swrap, wrap. intros H. change (256 ^ 2) with (2 ^ 16). cbn in *. Z.to_euclidean_division_equations; lia. Qed.
Lemma s32_u32 v : sfits 32 v -> s32 (u32 v mod 256 ^ 4) = v.
Proof. unfold sfits, swrap, wrap. intros H. change (256 ^ 4) with (2 ^ 32). cbn in *. Z.to_euclidean_division_equations; lia. Qed.
Lemma get_put l : forall k, pcm_ok l -> get_samples (length l) (put_samples l ++ k) 0 = Ok l.
Proof.
  induction l as [|v l IH]; intros k H; [done|]. apply Forall_cons_1 in H as [Hv H]. cbn [length get_samples].
  unfold put_samples. cbn [map concat]. rewrite <- app_assoc. rewrite le_get_head by done. cbn [mbind result_bind].
  rewrite get_samples_skip by (rewrite len_le_put; lia). rewrite len_le_put. change (0 + 2 - Z.of_nat 2) with 0.
  fold (put_samples l). rewrite IH by done. cbn [mbind result_bind]. by rewrite s16_u16.
Qed.

Lemma list_of_lookups (l : list Z) : map (fun i => default 0 (l !! i)) (seq 0 (length l)) = l.
Proof.
  induction l as [|x l IH]; [done|]. cbn [length seq map]. rewrite <- seq_shift, map_map. f_equal. exact IH.
Qed.
Lemma le_get_here n m x k off : off = 0 -> n = Z.of_nat m -> le_get n (le_put m x ++ k) off = Ok (x mod 256 ^ n).
Proof. intros ->. apply le_get_head. Qed.
(** Skips the fields before the one read. *)
Ltac skip_fields :=
  repeat (rewrite le_get_skip by (rewrite ?len_le_put; change (len (s2b "AER1")) with 4; lia));
  rewrite le_get_here by (rewrite ?len_le_put; change (len (s2b "AER1")) with 4; lia).
Ltac wire_field := unfold EncodeReply; skip_fields; reflexivity.

Record stats_ok (st : nativeAECStats) : Prop := {
  ok_mask : fits 32 (ValidMask st);
  ok_floats : Forall (fits 64) [EchoReturnLossDB st; EchoReturnLossEnhancementDB st; DivergentFilterFraction st; ResidualEchoLikelihood st; ResidualEchoLikelihoodRecentMax st];
  ok_delays : Forall (sfits 32) [DelayMS st; DelayMedianMS st; DelayStdDevMS st];
}.

(** A reply crosses the pipe unchanged: whatever statistics and 80 samples the helper's [EncodeReply] puts in a reply of
    status 0, [decodeNativeAECResponse] returns them; a reply of any other status is that error; and what the helper
    writes is what the client's own encoder would have written. *)
Lemma reply_crosses (status : Z) (st : nativeAECStats) (pcm : list Z) :
  sfits 32 status -> stats_ok st -> pcm_ok pcm -> len pcm = aecFrameSamples ->
  let buf := EncodeReply status st pcm in
  len buf = nativeAECReplyBytes /\ encodeNativeAECResponse status st pcm = buf /\
  decodeNativeAECResponse buf =
    if status =? 0 then Ok (pcm, st) else Err ("native WebRTC AudioProcessing returned status " +:+ Itoa status).
Proof.
  intros Hs [Hm Hf Hd] Hp Hl. cbv zeta.
  assert (len (EncodeReply status st pcm) = 224) as Hlen.
  { unfold EncodeReply. rewrite !len_app, !len_le_put, len_put_samples, Hl. reflexivity. }
  split; [exact Hlen|]. split.
  { unfold encodeNativeAECResponse, EncodeReply. cbn [map concat]. rewrite !app_nil_r, <- !app_assoc. do 11 f_equal.
    unfold aecFrameSamples in *. replace (Z.to_nat 80) with (length pcm) by lia. clear. f_equal.
    apply (list_of_lookups pcm). }
  unfold decodeNativeAECResponse. rewrite fail_if_false by (by rewrite Hlen). cbn [mbind result_bind].
  assert (sub (EncodeReply status st pcm) 0 4 = Ok (s2b "AER1")) as -> by (rewrite sub_ok by lia; reflexivity). cbn [mbind result_bind].
  rewrite fail_if_false by reflexivity. cbn [mbind result_bind].
  assert (le_get 4 (EncodeReply status st pcm) 4 = Ok (u32 status mod 256 ^ 4)) as -> by wire_field. cbn [mbind result_bind].
  rewrite s32_u32 by done. destruct (status =? 0); [|reflexivity]. cbn [negb fail_if mbind result_bind].
  assert (le_get 4 (EncodeReply status st pcm) 8 = Ok (ValidMask st mod 256 ^ 4)) as -> by wire_field.
  assert (le_get 8 (EncodeReply status st pcm) 12 = Ok (EchoReturnLossDB st mod 256 ^ 8)) as -> by wire_field.
  assert (le_get 8 (EncodeReply status st pcm) 20 = Ok (EchoReturnLossEnhancementDB st mod 256 ^ 8)) as -> by wire_field.
  assert (le_get 8 (EncodeReply status st pcm) 28 = Ok (DivergentFilterFraction st mod 256 ^ 8)) as -> by wire_field.
  assert (le_get 8 (EncodeReply status st pcm) 36 = Ok (ResidualEchoLikelihood st mod 256 ^ 8)) as -> by wire_field.
  assert (le_get 8 (EncodeReply status st pcm) 44 = Ok (ResidualEchoLikelihoodRecentMax st mod 256 ^ 8)) as -> by wire_field.
  assert (le_get 4 (EncodeReply status st pcm) 52 = Ok (u32 (DelayMS st) mod 256 ^ 4)) as -> by wire_field.
  assert (le_get 4 (EncodeReply status st pcm) 56 = Ok (u32 (DelayMedianMS st) mod 256 ^ 4)) as -> by wire_field.
  assert (le_get 4 (EncodeReply status st pcm) 60 = Ok (u32 (DelayStdDevMS st) mod 256 ^ 4)) as -> by wire_field.
  assert (get_samples (Z.to_nat aecFrameSamples) (EncodeReply status st pcm) 64 = Ok pcm) as ->.
  { rewrite <- Hl, Nat2Z.id. unfold EncodeReply.
    repeat (rewrite get_samples_skip by (rewrite ?len_le_put; change (len (s2b "AER1")) with 4; lia)).
    rewrite <- (app_nil_r (put_samples pcm)) at 1.
    match goal with |- get_samples _ _ ?o = _ => replace o with 0 by (rewrite ?len_le_put; reflexivity) end. by apply get_put. }
  cbn [mbind result_bind]. apply Forall_cons_1 in Hd as [D1 Hd]. apply Forall_cons_1 in Hd as [D2 Hd]. apply Forall_cons_1 in Hd as [D3 _].
  do 4 (apply Forall_cons_1 in Hf as [? Hf]). apply Forall_cons_1 in Hf as [? _].
  rewrite !s32_u32 by done. unfold fits in *. change (256 ^ 4) with (2 ^ 32). change (256 ^ 8) with (2 ^ 64).
  rewrite !Z.mod_small by done. by destruct st.
Qed.

Lemma reply_decodes st pcm :
  stats_ok st -> pcm_ok pcm -> len pcm = aecFrameSamples ->
  len (EncodeReply 0 st pcm) = nativeAECReplyBytes /\ decodeNativeAECResponse (EncodeReply 0 st pcm) = Ok (pcm, st).
Proof. intros Hs Hp Hl. destruct (reply_crosses 0 st pcm) as (H1 & _ & H2); [by unfold sfits|done..|]. by rewrite H2. Qed.

(** The bit of each statistic says whether WebRTC gave it. *)
Lemma stats_bits (s : AudioProcessingStats) :
  let w := MakeWireStats s in
  map (has w) [nativeStatERL; nativeStatERLE; nativeStatDivergentFilterFraction; nativeStatResidualEchoLikelihood;
    nativeStatResidualEchoLikelihoodRecentMax; nativeStatDelayMS; nativeStatDelayMedianMS; nativeStatDelayStdDevMS] =
  map (fun o : option Z => if o then true else false)
    [echo_return_loss s; echo_return_loss_enhancement s; divergent_filter_fraction s; residual_echo_likelihood s;
     residual_echo_likelihood_recent_max s; delay_ms s; delay_median_ms s; delay_standard_deviation_ms s] /\
  fits 32 (ValidMask w).
Proof.
  cbv zeta. unfold has, MakeWireStats. cbn [ValidMask].
  destruct s as [[?|] [?|] [?|] [?|] [?|] [?|] [?|] [?|]]; cbn -[Z.land Z.shiftl Z.lor]; (split; [reflexivity|split; vm_compute; congruence]).
Qed.
(** The helper applies the options it was started with; a level it does not know is moderate on both sides. *)
Lemma options_understood (o : nativeAECOptions) :
  let c := read_args (buildNativeAECArgs o) in
  high_pass c = HighPassFilter o /\ noise_suppression c = NoiseSuppression o /\ NoiseLevel (noise_level c) = NoiseLevel (NoiseSuppressionLevel o).
Proof.
  destruct o as [hp ns l]. unfold buildNativeAECArgs. cbn [HighPassFilter NoiseSuppression NoiseSuppressionLevel].
  destruct (bool_decide_reflect (l ∈ ["low"; "moderate"; "high"; "very-high"])) as [H|H].
  - repeat (apply elem_of_cons in H as [->|H]; [by destruct hp, ns|]). by apply elem_of_nil in H.
  - assert (NoiseLevel l = kModerate) as ->; [|by destruct hp, ns].
    unfold NoiseLevel. rewrite !bool_decide_eq_false_2; [done|intros ->; apply H; set_solver..].
Qed.

(** ** The pipes *)

(** The pipe takes at least a byte of every write and no more than it is given. *)
Definition accepts (w : writer) : Prop := forall i n, 0 < n -> exists m, w i n = (m, None) /\ 0 < m <= n.
Lemma writeAll_ok w : accepts w -> forall fuel i b, (length b < fuel)%nat -> writeAll fuel w i b = Ok (b, None).
Proof.
  intros Hw. induction fuel as [|fuel IH]; intros i b H; [lia|]. cbn [writeAll].
  destruct (Z.leb_spec (len b) 0); [by destruct b; [|rewrite len_cons in *; pose proof (len_nonneg b); lia]|].
  destruct (Hw i (len b)) as (m & -> & Hm); [done|]. destruct (Z.leb_spec m 0); [lia|].
  rewrite sub_ok by lia. cbn [mbind result_bind].
  assert (slice b m (len b) = drop (Z.to_nat m) b) as -> by (apply slice_drop; lia).
  rewrite IH by (rewrite length_drop; lia). cbn [mbind result_bind]. by rewrite take_drop.
Qed.
Lemma len_request r c : len (encode_request r c) = 4 + 2 * len r + 2 * len c.
Proof. unfold encode_request. rewrite !len_app, !len_put_samples. change (len (s2b nativeAECRequestMagic)) with 4. lia. Qed.

(** Nothing of earlier frames is under way. *)
Record idle (p : nativeAECProcessor) : Prop := {
  id_responses : responses p = []; id_source : source p = []; id_over : over p = None; id_reading : reading p = true; id_exited : exited p = false;
}.
Lemma read_reply p st pcm :
  idle p -> stats_ok st -> pcm_ok pcm -> len pcm = aecFrameSamples ->
  read (p <| source := EncodeReply 0 st pcm |>) = p <| responses := [Reply pcm st] |>.
Proof.
  intros [H1 H2 H3 H4 H5] Hs Hp Hl. destruct p as [rs src ov rd ex s0 si se]. cbn in H1, H2, H3, H4, H5. subst.
  destruct (reply_decodes st pcm Hs Hp Hl) as [Hlen Hd]. 
  change (read (mkProcessor [] (EncodeReply 0 st pcm) None true false s0 si se) = mkProcessor [Reply pcm st] [] None true false s0 si se).
  unfold read. cbn [source].
  assert (exists n, length (EncodeReply 0 st pcm) = S n) as [n Hn].
  { exists 223%nat. unfold nativeAECReplyBytes, aecFrameSamples in Hlen. lia. }
  rewrite Hn. cbn [readResponses reading responses negb orb length capacity Nat.leb source].
  rewrite Hlen, Z.leb_refl, take_ge, Hd by (rewrite <- Hlen, Nat2Z.id; done).
  change (readResponses (S n) (mkProcessor [Reply pcm st] (drop (Z.to_nat nativeAECReplyBytes) (EncodeReply 0 st pcm)) None true false s0 si se) =
    mkProcessor [Reply pcm st] [] None true false s0 si se).
  rewrite drop_ge by (rewrite <- Hlen, Nat2Z.id; done). reflexivity.
Qed.
Section conversation.
Context `{U : Unicode}.
Context {A : Type} (ProcessReverseStream : A -> list Z -> A * Z) (set_stream_delay_ms : A -> Z -> A * Z)
  (ProcessStream : A -> list Z -> A * Z * list Z) (GetStatistics : A -> AudioProcessingStats).
#[local] Abbreviation apm_frame := (apm_frame ProcessReverseStream set_stream_delay_ms ProcessStream).
#[local] Abbreviation serve := (serve ProcessReverseStream set_stream_delay_ms ProcessStream GetStatistics).
#[local] Abbreviation helper := (helper ProcessReverseStream set_stream_delay_ms ProcessStream GetStatistics).
#[local] Abbreviation converse := (converse ProcessReverseStream set_stream_delay_ms ProcessStream GetStatistics).
#[local] Abbreviation direct := (direct ProcessReverseStream set_stream_delay_ms ProcessStream).

Lemma process_answered reference capture w st pcm p :
  idle p -> accepts w -> len reference = aecFrameSamples -> len capture = aecFrameSamples ->
  stats_ok st -> pcm_ok pcm -> len pcm = aecFrameSamples ->
  let p' := p <| stdin ::= fun s => s ++ encode_request reference capture |> <| stats := st |> in
  Process reference capture w (EncodeReply 0 st pcm) None None p = (Some (Ok pcm), p') /\ idle p'.
Proof.
  intros Hi Hw Hr Hc Hs Hp Hl. cbv zeta. pose proof Hi as [H1 H2 H3 H4 H5]. split; [|by split].
  unfold Process. rewrite Hr, Hc. cbn [Z.eqb negb orb]. change (aecFrameSamples =? aecFrameSamples) with true. cbn [negb orb]. rewrite H5.
  cbv zeta. rewrite writeAll_ok by (done || lia).
  set (q := p <| stdin ::= _ |>). assert (idle q) as Hq by by split.
  assert (q <| source ::= fun s => s ++ EncodeReply 0 st pcm |> = q <| source := EncodeReply 0 st pcm |>) as ->.
  { destruct p. cbn in H2. subst. reflexivity. }
  rewrite read_reply by done. subst q. destruct p. cbn in H1. subst. reflexivity.
Qed.
Lemma serve_request a reference capture :
  pcm_ok reference -> len reference = aecFrameSamples -> pcm_ok capture -> len capture = aecFrameSamples ->
  serve a (encode_request reference capture) =
    let '(a, status, pcm) := apm_frame a reference capture in Some (a, EncodeReply status (MakeWireStats (GetStatistics a)) pcm).
Proof.
  unfold aecFrameSamples. intros Hr Hr' Hc Hc'. unfold AecHelper.serve. rewrite bool_decide_eq_true_2 by reflexivity. cbn [negb].
  assert (forall b, 0 <= b -> get_samples 80 (encode_request reference capture) (4 + b) = get_samples 80 (put_samples reference ++ put_samples capture) b) as Hg.
  { intros b Hb. unfold encode_request. change (s2b nativeAECRequestMagic) with (s2b "AEC1"). 
    rewrite get_samples_skip by (change (len (s2b "AEC1")) with 4; lia).
    change (len (s2b "AEC1")) with 4. f_equal. lia. }
  rewrite (Hg 0 ltac:(lia) : get_samples 80 _ 4 = _), (Hg 160 ltac:(lia) : get_samples 80 _ 164 = _).
  replace 80%nat with (length reference) at 1 by lia. rewrite get_put by done.
  rewrite get_samples_skip by (rewrite len_put_samples; lia). rewrite len_put_samples, Hr'. change (160 - 2 * 80) with 0.
  replace 80%nat with (length capture) by lia. rewrite <- (app_nil_r (put_samples capture)), get_put by done. reflexivity.
Qed.
Definition frame_ok (f : list Z * list Z) : Prop := pcm_ok f.1 /\ len f.1 = aecFrameSamples /\ pcm_ok f.2 /\ len f.2 = aecFrameSamples.
(** WebRTC takes any frame: no error, 80 samples, and statistics that fit their types. *)
Definition well_behaved : Prop := forall a reference capture, frame_ok (reference, capture) ->
  let '(a', status, pcm) := apm_frame a reference capture in
  status = 0 /\ pcm_ok pcm /\ len pcm = aecFrameSamples /\ stats_ok (MakeWireStats (GetStatistics a')).

Lemma helper_one a reference capture :
  well_behaved -> frame_ok (reference, capture) ->
  let request := encode_request reference capture in
  let '(a', _, pcm) := apm_frame a reference capture in
  helper (length request) a request = (a', EncodeReply 0 (MakeWireStats (GetStatistics a')) pcm, []).
Proof.
  intros Hw Hok. pose proof Hok as (Hr & Hr' & Hc & Hc'). cbn [fst snd] in *. cbv zeta. pose proof (Hw a reference capture Hok) as H.
  pose proof (serve_request a reference capture Hr Hr' Hc Hc') as Hs. destruct (apm_frame a reference capture) as [[a' status] pcm].
  destruct H as (-> & _). pose proof (len_request reference capture) as Hl. rewrite Hr', Hc' in Hl. change (4 + 2 * aecFrameSamples + 2 * aecFrameSamples) with 324 in Hl.
  set (request := encode_request reference capture) in *.
  assert (forall n, helper (S n) a request = (a', EncodeReply 0 (MakeWireStats (GetStatistics a')) pcm, [])) as Hn.
  { intros n. cbn [AecHelper.helper]. rewrite Hl. change (324 <? 324) with false. cbv iota. rewrite take_ge by lia. rewrite Hs.
    assert (drop 324 request = []) as -> by (apply drop_ge; lia).
    assert (helper n a' [] = (a', [], [])) as -> by (by destruct n). by rewrite app_nil_r. }
  destruct (length request) as [|n] eqn:E; [lia|]. apply Hn.
Qed.

(** C15: running WebRTC in a process of its own changes nothing but where it runs.  However the pipe splits the writes,
    a call of [Process] per frame gets for every frame exactly the samples WebRTC makes of that frame and its
    reference, in the state the frames before it left; the frames reach the helper unchanged, none is lost, repeated or
    answered with another's reply, and nothing is left on either pipe. *)
Theorem helper_transparent (frames : list (list Z * list Z)) (ws : nat -> writer) (a : A) (p : nativeAECProcessor) :
  well_behaved -> Forall frame_ok frames -> (forall i, accepts (ws i)) -> idle p ->
  exists p', converse frames ws a [] p = Some ((direct frames a).1, (direct frames a).2, [], p') /\ idle p' /\
    stdin p' = stdin p ++ concat (map (fun f => encode_request f.1 f.2) frames) /\
    (frames <> [] -> stats p' = MakeWireStats (GetStatistics (direct frames a).2)).
Proof.
  intros Hb Hf. revert ws a p. induction Hf as [|[reference capture] frames Hok Hf IH]; intros ws a p Hw Hi.
  { exists p. cbn. by rewrite app_nil_r. }
  pose proof Hok as (Hr & Hr' & Hc & Hc'). cbn [fst snd] in Hr, Hr', Hc, Hc'.
  pose proof (helper_one a reference capture Hb Hok) as Hh. pose proof (Hb a reference capture Hok) as Ha.
  cbn [AecHelper.converse AecHelper.direct map concat fst snd]. cbv zeta. rewrite writeAll_ok by (done || lia). cbn [app]. cbv zeta in Hh.
  destruct (apm_frame a reference capture) as [[a' status] pcm]. destruct Ha as (-> & Hp & Hl & Hs). rewrite Hh.
  destruct (process_answered reference capture (ws O) _ pcm p Hi (Hw O) Hr' Hc' Hs Hp Hl) as [Hpr Hi']. rewrite Hpr.
  destruct (IH (fun i => ws (S i)) a' _ (fun i => Hw (S i)) Hi') as (p' & H1 & H2 & H3 & H4).
  rewrite H1. cbn [mbind option_bind]. destruct (direct frames a') as [pcms a2] eqn:Ed. cbn [fst snd] in *.
  exists p'. split; [done|]. split; [done|]. split; [rewrite H3; cbn; by rewrite <- app_assoc|].
  intros _. destruct frames as [|f frames]; [|by apply H4].
  cbn in Ed. injection Ed as <- <-. cbn in H1. by injection H1 as <-.
Qed.
End conversation.

(** The diagnostics kept of the helper: the end of what it wrote, 8 KiB at most. *)
Lemma stderr_kept (bs : list bytes) (p : nativeAECProcessor) :
  stderr p = [] -> let q := foldl (fun p b => stderr_Write b p) p bs in
  len (stderr q) <= maxBytes /\ exists k, stderr q = drop k (concat bs).
Proof.
  intros H0. cbv zeta. induction bs as [|b bs IH] using rev_ind; [cbn; rewrite H0; split; [done|by exists 0%nat]|].
  rewrite foldl_app, concat_app. cbn [foldl concat]. rewrite app_nil_r. destruct IH as [_ [k IH]].
  set (q := foldl _ p bs) in *. unfold stderr_Write. change (stderr (q <| stderr := ?x |>)) with x. rewrite IH.
  set (buf := drop k (concat bs) ++ b). split; [rewrite length_drop; unfold maxBytes; lia|].
  exists (Nat.min k (length (concat bs)) + Z.to_nat (len buf - maxBytes))%nat. rewrite <- drop_drop. f_equal. unfold buf.
  rewrite drop_app_le by lia. f_equal. destruct (Nat.le_ge_cases k (length (concat bs))); [by rewrite Nat.min_l|].
  rewrite Nat.min_r, !drop_ge by lia. done.
Qed.

(** ** Witnesses *)

(** An audio processor that counts its frames and returns them as they are. *)
Definition idle_apm (a : Z) : AudioProcessingStats := mkApm None None None None None (Some 40) None None.
Lemma helper_transparent_witness :
  let U := ascii_tables in
  let ws : nat -> writer := fun _ _ n => (Z.min n 100, None) in
  let f : list Z * list Z := (replicate 80 1, replicate 80 2) in
  exists p', converse (fun a _ => (a, 0)) (fun a _ => (a, 0)) (fun a c => (a + 1, 0, c)) idle_apm [f; f] ws 0 [] fresh =
    Some ([replicate 80 2; replicate 80 2], 2, [], p') /\ len (stdin p') = 2 * nativeAECRequestBytes.
Proof.
  cbv zeta. set (U := ascii_tables). set (f := (replicate 80 1, replicate 80 2)).
  assert (frame_ok f) as Hf by (split; [apply Forall_replicate; by vm_compute|split; [reflexivity|split; [apply Forall_replicate; by vm_compute|reflexivity]]]).
  destruct (helper_transparent (fun a _ => (a, 0)) (fun a _ => (a, 0)) (fun (a : Z) c => (a + 1, 0, c)) idle_apm [f; f]
    (fun _ _ n => (Z.min n 100, None)) 0 fresh) as (p' & H1 & _ & H2 & _).
  - intros a r c (_ & _ & H3 & H4). cbn. split; [reflexivity|]. split; [exact H3|]. split; [exact H4|].
    split; [by vm_compute| |]; repeat (constructor; [by vm_compute|]); constructor.
  - repeat (constructor; [exact Hf|]). constructor.
  - intros _ i n Hn. exists (Z.min n 100). split; [reflexivity|]. lia.
  - by split.
  - exists p'. split; [exact H1|]. rewrite H2. reflexivity.
Defined.
End AecHelper.
