(* ===== verification/CameraBridge.v ===== *)
(** The camera's audio on its way to the phone: [forwardCameraToPhone] and
    [forwardBaichuanToPhone] of [internal/media/session.go].

    A loop is a function of what its reads, its ticker and its [select] give; the
    address of the phone, which the talkback may move meanwhile, is read anew for each packet and enters with the event, as do
    the replies of the native echo processor.  Times are nanoseconds. *)
From S2P Require Import Prelude GoBytes GoStrings Rtp G711 Packetizer Playout Sequencer CameraPlayout EchoCancel Sdp.
Import CameraPlayout.

Module CameraBridge.
#[local] Existing Instances CameraPlayout.eta_pll EchoCancel.eta_echo.

Section camera.
Context `{U : Unicode} {IPs : NetIP}.
Abbreviation Addr := (@Sdp.UDPAddr IPs).
Abbreviation echo_state := (option EchoCancel.echoCanceller).
Abbreviation replies := (list (result (list Z))).

(** [echo.ProcessCapture] where there is a canceller. *)
Definition process (echo : echo_state) (pcm : list Z) (at_ : Z) (rs : replies) : result (list Z) * echo_state :=
  match echo with
  | None => (Ok pcm, None)
  | Some e => let '(_, r, e) := EchoCancel.ProcessCapture pcm at_ rs e in
              (match r with Err x => Err ("WebRTC echo cancellation: " +:+ x) | _ => r end, Some e)
  end.
Definition SuspendTracking (at_ : Z) (echo : echo_state) : echo_state := EchoCancel.SuspendTracking at_ <$> echo.

(** * From the Baichuan receiver *)

Record bridge := mkBridge {
  codecName : string; codecPT : Z; ssrc : Z;
  playout : cameraPlayoutPLL; started : bool; seq : Z; timestamp : Z; marker : bool; echo : echo_state;
  sent : list (bytes * Addr);
}.
#[export] Instance eta_bridge : Eta bridge := fun s =>
  mkBridge (codecName s) (codecPT s) (ssrc s) (playout s) (started s) (seq s) (timestamp s) (marker s) (echo s) (sent s).
(** [rnd] is what [randomRTPState] gives. *)
Definition start (codec : string) (pt : Z) (rnd : Z * Z * Z) (e : echo_state) : bridge :=
  let '(seq, timestamp, ssrc) := rnd in mkBridge codec pt ssrc newCameraPlayoutPLL false seq timestamp true e [].

(** [remote]: the phone's address when it is read; [write]: the error of the write. *)
Inductive event :=
| Cancelled (e : string)
| ReceiverDone (e : option (string * bool))   (** its error and whether it is [Canceled]; [None]: closed or nil *)
| PCM (pcm : list Z) (arrival : Z)
| PCMClosed
| Tick (now : Z) (rs : replies) (remote : option Addr) (write : option string).

Definition ended_unexpectedly : string := "Baichuan camera receive ended unexpectedly".
(** A frame of the smoother on its way out. *)
Definition send_frame (s : bridge) (block : list Z) (missing captureAt : Z) (rs : replies) (remote : option Addr) (write : option string)
    : result (bridge * option string) :=
  let s := if 0 <? missing then s <| echo ::= SuspendTracking captureAt |> else s in
  let '(r, e) := process (echo s) block captureAt rs in
  let s := s <| echo := e |> in
  match r with
  | Panic => Panic
  | Err x => Ok (s, Some x)
  | Ok block =>
    let payload := default [] (G711.EncodePCM block (codecName s)) in
    if negb (len payload =? cameraPlayoutFrameSamples) then Ok (s, Some "encode Baichuan camera PCM")
    else
      match remote, write with
      | None, _ => Ok (s, Some "missing remote RTP address")
      | _, Some x => Ok (s, Some x)
      | Some a, None =>
        Ok (s <| sent ::= fun l => l ++ [(Rtp.Marshal (Rtp.mkPacket (codecPT s) (marker s) (seq s) (timestamp s) (ssrc s) payload), a)] |>
              <| marker := false |> <| seq ::= fun n => u16 (n + 1) |> <| timestamp ::= fun t => u32 (t + cameraPlayoutFrameSamples) |>, None)
      end
  end.
Definition step (s : bridge) (e : event) : result (bridge * option string) :=
  match e with
  | Cancelled x => Ok (s, Some x)
  | ReceiverDone (Some (x, false)) => Ok (s, Some x)
  | ReceiverDone _ => Ok (s, Some ended_unexpectedly)
  | PCMClosed => Ok (s, Some "Baichuan camera PCM stream ended")
  | PCM pcm arrival =>
    if decide (pcm = []) then Ok (s, None)
    else
      let '(dropped, rebased, p) := CameraPlayout.Push pcm arrival (playout s) in
      let s := s <| started := true |> <| playout := p |> in
      Ok (if (0 <? dropped) || rebased then s <| echo ::= SuspendTracking arrival |> else s, None)
  | Tick now rs remote write =>
    if negb (started s) || negb (Ready (playout s)) then Ok (s, None)
    else
      let '(f, p) := PopFrame now (playout s) in
      let s := s <| playout := p |> in
      match f with
      | None => Ok (s, None)
      | Some (block, missing, captureAt) => send_frame s block missing captureAt rs remote write
      end
  end.
Fixpoint run (s : bridge) (es : list event) : result (bridge * option string) :=
  match es with
  | [] => Ok (s, None)
  | e :: es => '(s, r) ← step s e; match r with Some x => Ok (s, Some x) | None => run s es end
  end.

(** * From FFmpeg *)

Definition Second : Z := 1000000000.
Record camera := mkCamera {
  ccodecName : string; ccodecPT : Z;
  packetizer : Repacketizer.rtpRepacketizer; captureClock : MediaClock.rtpMediaClock; firstPacketDeadline : Z; receivedFirst : bool;
  cecho : echo_state; csent : list (bytes * Addr);
}.
#[export] Instance eta_camera : Eta camera := fun s =>
  mkCamera (ccodecName s) (ccodecPT s) (packetizer s) (captureClock s) (firstPacketDeadline s) (receivedFirst s) (cecho s) (csent s).
Definition cstart (codec : string) (pt now : Z) (e : echo_state) : camera :=
  mkCamera codec pt Repacketizer.new (MediaClock.mkClock false 0 0) (now + 12 * Second) false e [].
(** What happens with each packet of a datagram: the processor's replies, the phone's address and the write. *)
Record outgoing := mkOutgoing { o_replies : replies; o_remote : option Addr; o_write : option string }.
Inductive cevent :=
| CTimeout (now : Z) (ctx : option string)
| CReadError (e : string)
| CDatagram (data : bytes) (now : Z) (outs : list outgoing).

Fixpoint send_packets (pkts : list Rtp.Packet) (now : Z) (outs : list outgoing) (s : camera) : result (camera * option string) :=
  match pkts with
  | [] => Ok (s, None)
  | pkt :: pkts =>
    let o := default (mkOutgoing [] None None) (head outs) in
    let '(r, s) :=
      match cecho s with
      | None => (Ok (Rtp.Payload pkt), s)
      | Some _ =>
        let '(captureAt, clock) := MediaClock.At (captureClock s) pkt now in
        let pcm := default [] (G711.DecodePayload (Rtp.Payload pkt) (ccodecName s)) in
        let '(r, e) := process (cecho s) pcm captureAt (o_replies o) in
        (processed ← r; Ok (default [] (G711.EncodePCM processed (ccodecName s))), s <| captureClock := clock |> <| cecho := e |>)
      end in
    match r with
    | Panic => Panic
    | Err x => Ok (s, Some x)
    | Ok payload =>
      match o_remote o, o_write o with
      | None, _ => Ok (s, Some "missing remote RTP address")
      | _, Some x => Ok (s, Some x)
      | Some a, None =>
        send_packets pkts now (tail outs)
          (s <| csent ::= fun l => l ++ [(Rtp.Marshal (Rtp.mkPacket (Rtp.PayloadType pkt) (Rtp.Marker pkt) (Rtp.Sequence pkt) (Rtp.Timestamp pkt) (Rtp.SSRC pkt) payload), a)] |>)
      end
    end
  end.
Definition cstep (s : camera) (e : cevent) : result (camera * option string) :=
  match e with
  | CTimeout now ctx =>
    if negb (receivedFirst s) && (firstPacketDeadline s <? now) then Ok (s, Some "no camera audio RTP received from ffmpeg within 12 seconds")
    else Ok (s, ctx)
  | CReadError x => Ok (s, Some x)
  | CDatagram data now outs =>
    match Rtp.Parse data with
    | Panic => Panic
    | Err _ => Ok (s, None)
    | Ok p =>
      if len (Rtp.Payload p) =? 0 then Ok (s, None)
      else
        let '(pkts, rp) := Repacketizer.Push (packetizer s) p (ccodecPT s) in
        send_packets pkts now outs (s <| receivedFirst := true |> <| packetizer := rp |>)
    end
  end.
Fixpoint crun (s : camera) (es : list cevent) : result (camera * option string) :=
  match es with
  | [] => Ok (s, None)
  | e :: es => '(s, r) ← cstep s e; match r with Some x => Ok (s, Some x) | None => crun s es end
  end.
End camera.

Section facts.
Context `{U : Unicode} {IPs : NetIP}.
Abbreviation bridge := (@bridge IPs).
Abbreviation event := (@event IPs).
Implicit Types s : bridge.

(** ** The echo canceller in the loops *)

Lemma process_frames_length n : forall pcm now rs e out, (EchoCancel.process_frames n pcm now rs e).1.2 = Ok out -> length out = (80 * n)%nat.
Proof.
  induction n as [|n IH]; intros pcm now rs e out; cbn [EchoCancel.process_frames]; [by intros [= <-]|].
  destruct (EchoCancel.capture_frame _ _ _) as [ref e1]. destruct rs as [|[x|x|] rs]; try done.
  destruct (Z.eqb_spec (len x) EchoCancel.aecFrameSamples) as [E|E]; cbn [negb]; [|done].
  specialize (IH (drop 80 pcm) (now + EchoCancel.aecFrameDuration) rs e1). destruct (EchoCancel.process_frames n _ _ rs e1) as [[l r] e2].
  cbn [fst snd] in *. intros (o & -> & [= <-])%bind_ok. specialize (IH o eq_refl). rewrite length_app. unfold EchoCancel.aecFrameSamples in E. lia.
Qed.
Lemma process_frames_panic n : forall pcm now rs e, Forall (fun r => r <> Panic) rs -> (EchoCancel.process_frames n pcm now rs e).1.2 <> Panic.
Proof.
  induction n as [|n IH]; intros pcm now rs e Hr; cbn [EchoCancel.process_frames]; [done|].
  destruct (EchoCancel.capture_frame _ _ _) as [ref e1]. destruct rs as [|[x|x|] rs]; try done; apply Forall_cons in Hr as [H Hr]; [|done].
  destruct (negb _); [done|]. specialize (IH (drop 80 pcm) (now + EchoCancel.aecFrameDuration) rs e1 Hr).
  destruct (EchoCancel.process_frames n _ _ rs e1) as [[l r] e2]. cbn [fst snd] in *. by destruct r.
Qed.
(** What comes out of the canceller is as long as what went in. *)
Lemma process_spec echo pcm at_ rs : Forall (fun r => r <> Panic) rs ->
  let '(r, e) := process echo pcm at_ rs in
  (echo = None -> r = Ok pcm /\ e = None) /\ r <> Panic /\ (forall out, r = Ok out -> length out = length pcm) /\ (e = None -> echo = None).
Proof.
  intros Hr. unfold process. destruct echo as [e|]; [|split; [done|]; split; [done|]; split; [by intros out [= <-]|done]].
  unfold EchoCancel.ProcessCapture. destruct (_ || _) eqn:E; [by split_and!|]. apply orb_false_iff in E as [E1 E2%negb_false_iff%Z.eqb_eq].
  pose proof (process_frames_length (Z.to_nat (len pcm / EchoCancel.aecFrameSamples)) pcm at_ rs e) as Hl.
  pose proof (process_frames_panic (Z.to_nat (len pcm / EchoCancel.aecFrameSamples)) pcm at_ rs e Hr) as Hp.
  destruct (EchoCancel.process_frames _ _ _ _ _) as [[l r] e']. cbn [fst snd] in *. split; [done|]. split; [by destruct r|]. split; [|done].
  intros out Ho. destruct r as [o| |]; [|done..]. injection Ho as ->. rewrite (Hl out eq_refl). unfold EchoCancel.aecFrameSamples in *.
  pose proof (Z.div_mod (len pcm) 80). lia.
Qed.
Lemma encode_length pcm codec L : G711.law_of codec = Some L -> exists l, G711.EncodePCM pcm codec = Some l /\ length l = length pcm.
Proof. intros H. rewrite G711.EncodePCM_law, H. cbn. eexists. split; [done|]. by rewrite length_map. Qed.

(** ** The Baichuan loop *)

(** Packet [i] of the stream that began with [seq0] and [ts0]. *)
Definition packet_at (pt ssrc seq0 ts0 : Z) (i : nat) (payload : bytes) : bytes :=
  Rtp.Marshal (Rtp.mkPacket pt (i =? 0)%nat (u16 (seq0 + Z.of_nat i)) (u32 (ts0 + 160 * Z.of_nat i)) ssrc payload).
Definition encode (codec : string) (pcm : list Z) : bytes := default [] (G711.EncodePCM pcm codec).
Definition to_ops (e : event) : list CameraPlayout.op :=
  match e with PCM pcm t => [OpPush pcm t] | Tick now _ _ _ => [OpPop now] | _ => [] end.
Definition event_ok (e : event) : Prop :=
  match e with PCM pcm _ => pcm_ok pcm /\ len pcm <= 8000 | Tick _ rs _ _ => Forall (fun r => r <> Panic) rs | _ => True end.

(** What the canceller is asked to do, as the smoother has it: tracking is suspended where the
    smoother lost or made up samples, and every frame is a capture at the instant the smoother gives it. *)
Inductive echo_op := Suspend (at_ : Z) | Capture (frame : list Z) (at_ : Z) (rs : list (result (list Z))).
Definition echo_op_of (p : cameraPlayoutPLL) (e : event) : list echo_op :=
  match e with
  | PCM pcm t => let '(dropped, rebased, _) := CameraPlayout.Push pcm t p in if (0 <? dropped) || rebased then [Suspend t] else []
  | Tick now rs _ _ =>
    match (PopFrame now p).1 with
    | Some (frame, missing, t) => (if 0 <? missing then [Suspend t] else []) ++ [Capture frame t rs]
    | None => []
    end
  | _ => []
  end.
Fixpoint echo_ops (p : cameraPlayoutPLL) (es : list event) : list echo_op :=
  match es with [] => [] | e :: es => echo_op_of p e ++ echo_ops (CameraPlayout.run p (to_ops e)).2 es end.
(** The canceller alone: the frames it gives, up to its first failure, and its state. *)
Fixpoint cancel (echo : option EchoCancel.echoCanceller) (ops : list echo_op) : list (list Z) * option EchoCancel.echoCanceller :=
  match ops with
  | [] => ([], echo)
  | Suspend t :: ops => cancel (SuspendTracking t echo) ops
  | Capture frame t rs :: ops =>
    match process echo frame t rs with
    | (Ok out, echo) => let '(l, echo) := cancel echo ops in (out :: l, echo)
    | (_, echo) => ([], echo)
    end
  end.

Record streaming (codec : string) (pt ss seq0 ts0 : Z) s : Prop := {
  st_fixed : codecName s = codec /\ codecPT s = pt /\ ssrc s = ss;
  st_numbers : seq s = u16 (seq0 + len (sent s)) /\ timestamp s = u32 (ts0 + 160 * len (sent s)) /\ marker s = (length (sent s) =? 0)%nat;
  st_inv : CameraPlayout.inv (playout s);
  st_started : started s = false -> active (playout s) = false;
}.
(** From [s] to [s'], over the events taken: the smoother's operations, the canceller's, and the frames that left. *)
Definition forwards (codec : string) (pt ss seq0 ts0 : Z) s (taken : list event) (s' : bridge) (r : option string) : Prop :=
  exists frames ds fs, CameraPlayout.run (playout s) (flat_map to_ops taken) = (ds, fs, playout s') /\ streaming codec pt ss seq0 ts0 s' /\
    map fst (sent s') = map fst (sent s) ++ imap (fun i f => packet_at pt ss seq0 ts0 (length (sent s) + i) (encode codec f)) frames /\
    Forall (fun f => length (encode codec f) = 160%nat) frames /\
    (length frames <= length (omap id fs) <= S (length frames))%nat /\ (r = None -> length frames = length (omap id fs)) /\
    (echo s = None -> echo s' = None /\ frames = take (length frames) (map (fun x => x.1.1) (omap id fs))) /\
    frames `prefix_of` (cancel (echo s) (echo_ops (playout s) taken)).1 /\ echo s' = (cancel (echo s) (echo_ops (playout s) taken)).2 /\
    (r = None -> forall k, cancel (echo s) (echo_ops (playout s) taken ++ k) = (frames ++ (cancel (echo s') k).1, (cancel (echo s') k).2)).

(** The frame goes through the canceller and is encoded; what the canceller did shows in the state. *)
Definition after_cancel (e : option EchoCancel.echoCanceller) (missing captureAt : Z) (block : list Z) (rs : list (result (list Z))) : result (list Z) * option EchoCancel.echoCanceller :=
  process (if 0 <? missing then SuspendTracking captureAt e else e) block captureAt rs.

Lemma send_frame_spec codec L pt ss seq0 ts0 s block missing captureAt rs remote write :
  G711.law_of codec = Some L -> streaming codec pt ss seq0 ts0 s -> len block = 160 -> Forall (fun r => r <> Panic) rs ->
  let '(pr, e) := after_cancel (echo s) missing captureAt block rs in
  exists s' r, send_frame s block missing captureAt rs remote write = Ok (s', r) /\ streaming codec pt ss seq0 ts0 s' /\
    playout s' = playout s /\ echo s' = e /\
    match r with
    | Some _ => sent s' = sent s
    | None => exists out a, pr = Ok out /\ length (encode codec out) = 160%nat /\
        sent s' = sent s ++ [(packet_at pt ss seq0 ts0 (length (sent s)) (encode codec out), a)] /\ remote = Some a
    end.
Proof.
  intros HL [(F1 & F2 & F3) (N1 & N2 & N3) Hi Hst] Hb Hr. unfold send_frame, after_cancel.
  set (s1 := if 0 <? missing then s <| echo ::= SuspendTracking captureAt |> else s).
  assert (codecName s1 = codecName s /\ codecPT s1 = codecPT s /\ ssrc s1 = ssrc s /\ playout s1 = playout s /\ started s1 = started s /\ seq s1 = seq s /\
    timestamp s1 = timestamp s /\ marker s1 = marker s /\ sent s1 = sent s /\ echo s1 = (if 0 <? missing then SuspendTracking captureAt (echo s) else echo s))
    as (E1 & E2 & E3 & E4 & E5 & E6 & E7 & E8 & E9 & E10) by (subst s1; by destruct (0 <? missing)).
  rewrite <- E10. clearbody s1. pose proof (process_spec (echo s1) block captureAt rs Hr) as H. destruct (process (echo s1) block captureAt rs) as [r e].
  destruct H as (_ & H2 & H3 & _).
  assert (streaming codec pt ss seq0 ts0 (s1 <| echo := e |>)) as Hs1 by (split; cbn; rewrite ?E1, ?E2, ?E3, ?E4, ?E5, ?E6, ?E7, ?E8, ?E9; done).
  destruct r as [out|x|]; [|by exists (s1 <| echo := e |>), (Some x)|done]. specialize (H3 out eq_refl).
  set (s2 := s1 <| echo := e |>) in *. assert (codecName s2 = codec) as Ec by apply Hs1. rewrite Ec.
  destruct (encode_length out codec L HL) as (payload & Ep & Hl). unfold encode. rewrite Ep. cbn [default from_option id].
  replace (len payload =? cameraPlayoutFrameSamples) with true by (symmetry; apply Z.eqb_eq; unfold cameraPlayoutFrameSamples; lia). cbn [negb].
  destruct remote as [a|]; [|by eexists s2, (Some _)]. destruct write as [x|]; [by exists s2, (Some x)|].
  eexists _, None. split; [done|]. split; [|split; [exact E4|split; [done|]]].
  - split; cbn; rewrite ?E1, ?E2, ?E3, ?E4, ?E5, ?E9, ?length_app; [done| |done|done]. cbn [length]. split; [|split].
    + rewrite E6, N1, wrap_add_l. f_equal. lia.
    + rewrite E7, N2, wrap_add_l. unfold cameraPlayoutFrameSamples. f_equal. lia.
    + symmetry. apply Nat.eqb_neq. lia.
  - exists out, a. split; [done|]. rewrite Ep. cbn. split; [lia|]. split; [|done].
    rewrite E9. unfold packet_at. by rewrite E2, E3, E6, E7, E8, F2, F3, N1, N2, N3.
Qed.

Lemma smoother_app a : forall b p, CameraPlayout.run p (a ++ b) =
  (let '(d1, f1, p1) := CameraPlayout.run p a in let '(d2, f2, p2) := CameraPlayout.run p1 b in (d1 ++ d2, f1 ++ f2, p2)).
Proof.
  induction a as [|[l t|now] a IH]; intros b p; cbn [app CameraPlayout.run]; [by destruct (CameraPlayout.run p b) as [[? ?] ?]| |].
  - destruct (CameraPlayout.Push l t p) as [[d r] p1]. rewrite IH. destruct (CameraPlayout.run p1 a) as [[d1 f1] p2].
    by destruct (CameraPlayout.run p2 b) as [[d2 f2] p3].
  - destruct (PopFrame now p) as [f p1]. rewrite IH. destruct (CameraPlayout.run p1 a) as [[d1 f1] p2].
    by destruct (CameraPlayout.run p2 b) as [[d2 f2] p3].
Qed.
Lemma echo_ops_app a : forall b p, echo_ops p (a ++ b) = echo_ops p a ++ echo_ops (CameraPlayout.run p (flat_map to_ops a)).2 b.
Proof.
  induction a as [|x a IH]; intros b p; cbn [app echo_ops flat_map]; [done|]. rewrite IH, smoother_app, <- app_assoc.
  destruct (CameraPlayout.run p (to_ops x)) as [[d1 f1] p1]. cbn [snd]. by destruct (CameraPlayout.run p1 _) as [[d2 f2] p2].
Qed.
Lemma forwards_trans codec pt ss seq0 ts0 s a s1 b s2 r :
  forwards codec pt ss seq0 ts0 s a s1 None -> forwards codec pt ss seq0 ts0 s1 b s2 r -> forwards codec pt ss seq0 ts0 s (a ++ b) s2 r.
Proof.
  intros (p1 & d1 & f1 & R1 & S1 & T1 & L1 & _ & N1 & C1 & _ & _ & K1) (p2 & d2 & f2 & R2 & S2 & T2 & L2 & M2 & N2 & C2 & P2 & E2 & K2).
  specialize (N1 eq_refl). specialize (K1 eq_refl).
  exists (p1 ++ p2), (d1 ++ d2), (f1 ++ f2). rewrite flat_map_app, smoother_app, R1, R2. split; [done|]. split; [done|].
  assert (length (sent s1) = length (sent s) + length p1)%nat as Hl.
  { apply (f_equal length) in T1. rewrite length_app, !length_map, length_imap in T1. exact T1. }
  split. { rewrite T2, T1, imap_app, <- app_assoc. do 2 f_equal. apply imap_ext. intros i x _. rewrite Hl. unfold packet_at. cbn. by rewrite Nat.add_assoc. }
  split; [by apply Forall_app|]. rewrite omap_app, !length_app. split; [lia|]. split; [intros Hr; specialize (N2 Hr); lia|].
  rewrite echo_ops_app, R1. cbn [snd]. split; [|rewrite K1; cbn [fst snd]; split; [by apply prefix_app|]; split; [done|]].
  - intros He. destruct (C1 He) as [He1 E1]. destruct (C2 He1) as [He2 E3]. split; [done|]. rewrite map_app.
    rewrite firstn_all2 in E1 by (rewrite length_map; lia). rewrite take_app_ge by (rewrite length_map; lia). rewrite <- E1, E3 at 1. f_equal.
    rewrite length_map, <- N1. by replace (length p1 + length p2 - length p1)%nat with (length p2) by lia.
  - intros Hr k. rewrite <- app_assoc, K1, (K2 Hr k). cbn [fst snd]. by rewrite app_assoc.
Qed.
(** Nothing is given out, and the canceller is at most suspended. *)
Lemma forwards_quiet codec pt ss seq0 ts0 s s' r e ds fs :
  streaming codec pt ss seq0 ts0 s' -> sent s' = sent s -> CameraPlayout.run (playout s) (to_ops e) = (ds, fs, playout s') -> omap id fs = [] ->
  (forall k, cancel (echo s) (echo_op_of (playout s) e ++ k) = cancel (echo s') k) -> (echo s = None -> echo s' = None) ->
  forwards codec pt ss seq0 ts0 s [e] s' r.
Proof.
  intros Hs Hp R E K He. exists [], ds, fs. cbn [flat_map echo_ops]. rewrite Hp, !app_nil_r, E. cbn [imap length take map].
  do 3 (split; [done|]). split; [constructor|]. split; [lia|]. split; [done|].
  split; [by auto|]. pose proof (K []) as K0. rewrite app_nil_r in K0. cbn in K0. rewrite K0. split; [done|]. split; [done|].
  intros _ k. rewrite K. cbn. by destruct (cancel (echo s') k).
Qed.
Lemma forwards_idle codec pt ss seq0 ts0 s r e ds fs :
  streaming codec pt ss seq0 ts0 s -> CameraPlayout.run (playout s) (to_ops e) = (ds, fs, playout s) -> omap id fs = [] ->
  echo_op_of (playout s) e = [] -> forwards codec pt ss seq0 ts0 s [e] s r.
Proof. intros Hs R E K. apply (forwards_quiet _ _ _ _ _ _ _ _ _ ds fs); try done. by rewrite K. Qed.
Lemma frame_tick_spec codec L pt ss seq0 ts0 s now rs remote write f m t p :
  G711.law_of codec = Some L -> streaming codec pt ss seq0 ts0 s -> Forall (fun r => r <> Panic) rs -> started s = true ->
  PopFrame now (playout s) = (Some (f, m, t), p) ->
  exists s' r, send_frame (s <| playout := p |>) f m t rs remote write = Ok (s', r) /\ forwards codec pt ss seq0 ts0 s [Tick now rs remote write] s' r.
Proof.
  intros HL Hs He Ha Ep. pose proof (PopFrame_spec now (playout s) (st_inv _ _ _ _ _ _ Hs)) as H. rewrite Ep in H.
  destruct H as (_ & Hi1 & _ & Hf & _). set (s1 := s <| playout := p |>).
  assert (streaming codec pt ss seq0 ts0 s1) as Hs1 by (destruct Hs; split; try done; cbn; congruence).
  pose proof (send_frame_spec codec L pt ss seq0 ts0 s1 f m t rs remote write HL Hs1 Hf He) as H.
  change (echo s1) with (echo s) in H. change (sent s1) with (sent s) in H.
  assert (forall k, cancel (echo s) (echo_op_of (playout s) (Tick now rs remote write) ++ k) =
    match after_cancel (echo s) m t f rs with (Ok out, e) => (out :: (cancel e k).1, (cancel e k).2) | (_, e) => ([], e) end) as Hk.
  { intros k. cbn [echo_op_of]. rewrite Ep. cbn [fst]. unfold after_cancel. destruct (0 <? m); cbn [app cancel];
      destruct (process _ f t rs) as [[out| |] e]; try done; by destruct (cancel e k). }
  pose proof (Hk []) as Hk0. rewrite app_nil_r in Hk0.
  assert (echo s = None -> after_cancel (echo s) m t f rs = (Ok f, None)) as Hn by (intros ->; unfold after_cancel; by destruct (0 <? m)).
  destruct (after_cancel (echo s) m t f rs) as [pr e]. destruct H as (s2 & r & E & Hs2 & Hp2 & He2 & Hr).
  change (playout s1) with p in Hp2. exists s2, r. split; [exact E|]. subst e.
  destruct r as [x|]; [exists [], [], [Some (f, m, t)]|destruct Hr as (out & a & -> & Hl & Es & _); exists [out], [], [Some (f, m, t)]];
    cbn [flat_map echo_ops to_ops app CameraPlayout.run]; rewrite Ep, Hp2, !app_nil_r, Hk0; cbn [cancel fst snd].
  - rewrite Hr. do 2 (split; [done|]). split; [done|]. split; [constructor|]. split; [cbn; lia|]. split; [done|].
    split; [intros H; specialize (Hn H); by injection Hn as _ ->|]. split; [apply prefix_nil|]. split; [by destruct pr|done].
  - rewrite Es. do 2 (split; [done|]). split; [rewrite map_app; cbn; by rewrite Nat.add_0_r|]. split; [by constructor|]. split; [cbn; lia|]. split; [done|].
    split; [intros H; specialize (Hn H); by injection Hn as -> ->|]. do 2 (split; [done|]). intros _ k. by rewrite Hk.
Qed.

Lemma bridge_step_spec codec L pt ss seq0 ts0 s e : G711.law_of codec = Some L -> streaming codec pt ss seq0 ts0 s -> event_ok e ->
  exists s' r, step s e = Ok (s', r) /\ forwards codec pt ss seq0 ts0 s [e] s' r.
Proof.
  intros HL Hs He.
  assert (forall r, to_ops e = [] -> echo_op_of (playout s) e = [] -> exists s' r', Ok (s, r : option string) = Ok (s', r') /\ forwards codec pt ss seq0 ts0 s [e] s' r') as Hid.
  { intros r E1 E2. exists s, r. split; [done|]. apply (forwards_idle _ _ _ _ _ _ _ _ [] []); [done|by rewrite E1|done..]. }
  destruct e as [x|[[x [|]]|]|pcm arrival| |now rs remote write]; cbn [step]; try by apply Hid.
  - destruct He as [Hp Hl]. destruct (decide (pcm = [])) as [->|Hne].
    { exists s, None. split; [done|]. by apply (forwards_idle _ _ _ _ _ _ _ _ [0] []). }
    destruct (CameraPlayout.Push pcm arrival (playout s)) as [[d rb] p] eqn:E.
    pose proof Hs as [F N Hi Hst]. destruct (CameraPlayout.Push_spec pcm arrival (playout s) d rb p Hi Hp Hl E) as (Hi1 & _ & _ & _).
    set (s1 := s <| started := true |> <| playout := p |>).
    assert (streaming codec pt ss seq0 ts0 s1) as Hs1 by by split.
    assert (forall s2, streaming codec pt ss seq0 ts0 s2 -> playout s2 = p -> sent s2 = sent s ->
      echo s2 = (if (0 <? d) || rb then SuspendTracking arrival (echo s) else echo s) -> forwards codec pt ss seq0 ts0 s [PCM pcm arrival] s2 None) as Hf.
    { intros s2 H1 H2 H3 H4. apply (forwards_quiet _ _ _ _ _ _ _ _ _ [d] []); try done; cbn [CameraPlayout.run to_ops echo_op_of]; rewrite ?E, ?H2, ?H4; try done.
      - intros k. by destruct (_ || _).
      - intros ->. by destruct (_ || _). }
    eexists _, None. split; [done|]. destruct (_ || _); apply Hf; try done; by split.
  - destruct (negb (started s) || negb (Ready (playout s))) eqn:Ea.
    { assert (active (playout s) = false) as Hact.
      { apply orb_true_iff in Ea as [Ea|Ea]; [apply (st_started _ _ _ _ _ _ Hs)|]; by apply negb_true_iff in Ea. }
      assert (PopFrame now (playout s) = (None, playout s)) as Ep by (unfold PopFrame; by rewrite Hact).
      exists s, None. split; [done|]. apply (forwards_idle _ _ _ _ _ _ _ _ [] [None]); [done| |done|]; cbn [CameraPlayout.run to_ops echo_op_of]; by rewrite Ep. }
    apply orb_false_iff in Ea as [Ea _]. apply negb_false_iff in Ea.
    destruct (PopFrame now (playout s)) as [[[[f m] t]|] p] eqn:Ep; [by eapply frame_tick_spec|].
    pose proof (PopFrame_spec now (playout s) (st_inv _ _ _ _ _ _ Hs)) as H. rewrite Ep in H. destruct H as [Hact ->].
    exists s, None. split; [by destruct s|]. apply (forwards_idle _ _ _ _ _ _ _ _ [] [None]); [done| |done|]; cbn [CameraPlayout.run to_ops echo_op_of]; by rewrite Ep.
Qed.
Lemma bridge_run_spec codec L pt ss seq0 ts0 es : G711.law_of codec = Some L -> Forall event_ok es -> forall s, streaming codec pt ss seq0 ts0 s ->
  exists taken s' r, run s es = Ok (s', r) /\ taken `prefix_of` es /\ (r = None -> taken = es) /\ forwards codec pt ss seq0 ts0 s taken s' r.
Proof.
  intros HL. induction 1 as [|e es He Hes IH]; intros s Hs; cbn [run].
  { exists [], s, None. do 3 (split; [done|]). exists [], [], []. cbn. rewrite app_nil_r. split_and!; try done; try lia.
    intros _ k. by destruct (cancel (echo s) k). }
  destruct (bridge_step_spec codec L pt ss seq0 ts0 s e HL Hs He) as (s1 & r & -> & Hf). cbn [mbind result_bind].
  destruct r as [x|].
  - exists [e], s1, (Some x). split; [done|]. split; [by apply prefix_cons, prefix_nil|done].
  - assert (streaming codec pt ss seq0 ts0 s1) as Hs1 by (by destruct Hf as (? & ? & ? & _ & ? & _)).
    destruct (IH s1 Hs1) as (taken & s' & r & E & H1 & H2 & H3). exists (e :: taken), s', r. split; [done|].
    split; [by apply prefix_cons|]. split; [intros Hr; by rewrite H2|]. by eapply (forwards_trans _ _ _ _ _ _ [e]).
Qed.
(** C3: The camera is heard at the phone.  Whatever chunks the receiver hands out and however they interleave with the ticks: the loop
    is the smoother, the echo canceller and the encoder in a row.  Over the events it took, the smoother runs on the chunks and
    the ticks alone; the canceller, where there is one, runs on what the smoother gives alone - tracking suspended where
    the smoother lost samples or had none, then each frame captured at the instant the smoother gives it - and the payloads
    sent are the encodings of the frames it gives out, in order and with none left out: all of them while the loop runs, all but
    at most one when it has ended.  Packet [i] carries 20 ms in the call's codec, the [i]-th sequence number and time
    stamp after the random start, whatever wraps around, one source, and the marker exactly on the first; without a canceller the
    frames are the smoother's own.  Encoding never fails, and the loop never panics unless the native processor does. *)
Theorem camera_to_phone (codec : string) (L : G711.Law) (pt seq0 ts0 ss : Z) (e : option EchoCancel.echoCanceller) (es : list event) :
  G711.law_of codec = Some L -> fits 16 seq0 -> fits 32 ts0 -> Forall event_ok es ->
  exists s r taken ds fs frames,
    run (start codec pt (seq0, ts0, ss) e) es = Ok (s, r) /\
    taken `prefix_of` es /\ CameraPlayout.run newCameraPlayoutPLL (flat_map to_ops taken) = (ds, fs, playout s) /\
    map fst (sent s) = imap (packet_at pt ss seq0 ts0) (map (encode codec) frames) /\
    Forall (fun p => length p = 160%nat) (map (encode codec) frames) /\
    (length frames <= length (omap id fs) <= S (length frames))%nat /\
    (let '(processed, e') := cancel e (echo_ops newCameraPlayoutPLL taken) in
     frames `prefix_of` processed /\ echo s = e' /\ (r = None -> frames = processed)) /\
    (r = None -> taken = es /\ length frames = length (omap id fs)) /\
    (e = None -> frames = take (length frames) (map (fun x => x.1.1) (omap id fs))).
Proof.
  intros HL H16 H32 Hes.
  assert (streaming codec pt ss seq0 ts0 (start codec pt (seq0, ts0, ss) e)) as Hs.
  { split; [done| |apply inv_new|done]. cbn. rewrite Z.mul_0_r, !Z.add_0_r, !wrap_id by done. done. }
  destruct (bridge_run_spec codec L pt ss seq0 ts0 es HL Hes _ Hs) as (taken & s & r & E & H1 & H2 & (frames & ds & fs & R & _ & T & Hl & M & N & C & P & Ee & K)).
  exists s, r, taken, ds, fs, frames. split; [done|]. split; [done|]. split; [exact R|].
  split; [rewrite T; cbn; symmetry; apply (imap_fmap (packet_at pt ss seq0 ts0) (encode codec))|]. split; [by apply Forall_map|]. split; [done|].
  split.
  - cbn in P, Ee, K. destruct (cancel e _) as [processed e'] eqn:Ec in *. do 2 (split; [done|]). intros Hr. specialize (K Hr []).
    rewrite app_nil_r, Ec in K. cbn in K. rewrite app_nil_r in K. by injection K as -> _.
  - split; [intros Hr; split; [by apply H2|by apply N]|]. intros He. by apply C.
Qed.
End facts.

#[local] Existing Instances ascii_tables Sdp.text_addresses.
Definition door_echo : option EchoCancel.echoCanceller := Some (EchoCancel.newProductionEchoCancellerWithProcessor EchoCancel.door).
Definition to_phone : list event :=
  [Tick 1 [] None None; PCM (replicate 512 100) 1000000000; Tick 2 [] None None; PCM (replicate 512 (-100)) 1064000000;
   Tick 1070000000 [Ok (replicate 80 8); Ok (replicate 80 16)] (Some (Sdp.mkAddr Sdp.home 4000)) None;
   Tick 1090000000 [Ok (replicate 80 24); Ok (replicate 80 32)] (Some (Sdp.mkAddr Sdp.home 4002)) None; PCM [] 0; PCMClosed].
Lemma camera_to_phone_witness :
  let frames := [replicate 80 8 ++ replicate 80 16; replicate 80 24 ++ replicate 80 32] in
  exists s r, run (start G711.PCMA 8 (65535, 4294967200, 7) door_echo) to_phone = Ok (s, r) /\ r = Some "Baichuan camera PCM stream ended" /\
    map fst (sent s) = imap (packet_at 8 7 65535 4294967200) (map (encode G711.PCMA) frames) /\
    (cancel door_echo (echo_ops newCameraPlayoutPLL (take 7 to_phone))).1 = frames /\
    exists l taken, map fst (sent s) = imap (packet_at 8 7 65535 4294967200) (map (encode G711.PCMA) l) /\ taken `prefix_of` to_phone /\
      l `prefix_of` (cancel door_echo (echo_ops newCameraPlayoutPLL taken)).1.
Proof.
  intros frames.
  destruct (camera_to_phone G711.PCMA G711.a_law 8 65535 4294967200 7 door_echo to_phone) as (s & r & taken & ds & fs & l & E & Ht & _ & Hm & _ & _ & Hc & _ & _).
  - reflexivity.
  - vm_compute. split; [discriminate|reflexivity].
  - vm_compute. split; [discriminate|reflexivity].
  - repeat constructor; try (apply (bool_decide_unpack _); vm_compute; exact I); vm_compute; discriminate.
  - exists s, r. split; [exact E|].
    assert (match run (start G711.PCMA 8 (65535, 4294967200, 7) door_echo) to_phone with Ok (s, r) => (map fst (sent s), r) | _ => ([], None) end =
      (imap (packet_at 8 7 65535 4294967200) (map (encode G711.PCMA) frames), Some "Baichuan camera PCM stream ended")) as Hn
      by (vm_compute; reflexivity).
    rewrite E in Hn. injection Hn as Hn ->. split; [reflexivity|]. split; [exact Hn|]. split; [vm_compute; reflexivity|].
    exists l, taken. split; [exact Hm|]. split; [exact Ht|]. destruct (cancel door_echo _) as [p e']. exact (proj1 Hc).
Defined.

Section ffmpeg.
Context `{U : Unicode} {IPs : NetIP}.
Abbreviation camera := (@camera IPs).
Abbreviation cevent := (@cevent IPs).
Implicit Types s : camera.

(** ** The FFmpeg loop *)

(** The packets of the datagrams, and all of them repacketized. *)
Definition camera_rtp (e : cevent) : list Rtp.Packet :=
  match e with
  | CDatagram data _ _ => match Rtp.Parse data with Ok p => if len (Rtp.Payload p) =? 0 then [] else [p] | _ => [] end
  | _ => []
  end.
Fixpoint repack (rp : Repacketizer.rtpRepacketizer) (pt : Z) (ps : list Rtp.Packet) : list Rtp.Packet :=
  match ps with [] => [] | p :: ps => let '(out, rp) := Repacketizer.Push rp p pt in out ++ repack rp pt ps end.
(** The datagram that carries the packet, unchanged without a canceller. *)
Definition carries (plain : Prop) (p : Rtp.Packet) (d : bytes) : Prop :=
  exists payload, d = Rtp.Marshal (Rtp.mkPacket (Rtp.PayloadType p) (Rtp.Marker p) (Rtp.Sequence p) (Rtp.Timestamp p) (Rtp.SSRC p) payload) /\
    length payload = length (Rtp.Payload p) /\ (plain -> payload = Rtp.Payload p).
Definition cevent_ok (e : cevent) : Prop :=
  match e with CDatagram data _ outs => bytes_ok data /\ Forall (fun o => Forall (fun r => r <> Panic) (o_replies o)) outs | _ => True end.

(** The canceller alone on the packets, each decoded, with the time it came and the processor's replies: a capture at the
    instant the media clock gives it; the payloads it makes, up to its first failure. *)
Fixpoint cancelled (codec : string) (e : option EchoCancel.echoCanceller) (clock : MediaClock.rtpMediaClock)
    (items : list (Rtp.Packet * Z * list (result (list Z)))) : list bytes :=
  match items with
  | [] => []
  | (pkt, now, rs) :: items =>
    match e with
    | None => Rtp.Payload pkt :: cancelled codec None clock items
    | Some _ =>
      let '(captureAt, clock) := MediaClock.At clock pkt now in
      match process e (default [] (G711.DecodePayload (Rtp.Payload pkt) codec)) captureAt rs with
      | (Ok out, e) => encode codec out :: cancelled codec e clock items
      | _ => []
      end
    end
  end.
Fixpoint attach (pkts : list Rtp.Packet) (now : Z) (outs : list outgoing) : list (Rtp.Packet * Z * list (result (list Z))) :=
  match pkts with
  | [] => []
  | pkt :: pkts => (pkt, now, o_replies (default (mkOutgoing [] None None) (head outs))) :: attach pkts now (tail outs)
  end.
Fixpoint captures (rp : Repacketizer.rtpRepacketizer) (pt : Z) (es : list cevent) : list (Rtp.Packet * Z * list (result (list Z))) :=
  match es with
  | [] => []
  | CDatagram data now outs as e :: es =>
    match camera_rtp e with
    | p :: _ => let '(pkts, rp) := Repacketizer.Push rp p pt in attach pkts now outs ++ captures rp pt es
    | [] => captures rp pt es
    end
  | _ :: es => captures rp pt es
  end.
Definition with_payload (p : Rtp.Packet) (payload : bytes) : bytes :=
  Rtp.Marshal (Rtp.mkPacket (Rtp.PayloadType p) (Rtp.Marker p) (Rtp.Sequence p) (Rtp.Timestamp p) (Rtp.SSRC p) payload).
(** The datagrams [ds] carry the first of [pkts] with the payloads the canceller makes of [items], from [s] on; if it [went] through all of
    them, it goes on from [s']. *)
Definition delivers (codec : string) s (pkts : list Rtp.Packet) items (ds : list bytes) s' (went : Prop) : Prop :=
  exists pls, ds = zip_with with_payload pkts pls /\ length pls = length ds /\
    (forall k, pls `prefix_of` cancelled codec (cecho s) (captureClock s) (items ++ k)) /\
    (went -> forall k, cancelled codec (cecho s) (captureClock s) (items ++ k) = pls ++ cancelled codec (cecho s') (captureClock s') k).

Lemma delivers_nothing codec s pkts items s' : delivers codec s pkts items [] s' False.
Proof. exists []. split; [by destruct pkts|]. split; [done|]. split; [intros k; apply prefix_nil|done]. Qed.
Lemma delivers_idle codec s s' went : cecho s' = cecho s -> captureClock s' = captureClock s -> delivers codec s [] [] [] s' went.
Proof. intros E1 E2. exists []. split_and!; try done; [intros k; apply prefix_nil|]. intros _ k. by rewrite E1, E2. Qed.
Lemma zip_short {A B C} (f : A -> B -> C) a b l : (length l <= length a)%nat -> zip_with f (a ++ b) l = zip_with f a l.
Proof. revert l. induction a as [|x a IH]; intros [|y l] H; cbn in *; try done; [by destruct b|lia|]. rewrite IH by lia. done. Qed.
Lemma zip_prefix {A B C} (f : A -> B -> C) a l k : length (zip_with f a l) = length l -> take (length l) (zip_with f a (l ++ k)) = zip_with f a l.
Proof. revert l. induction a as [|x a IH]; intros [|y l] H; cbn in *; try done. rewrite IH by lia. done. Qed.
Lemma delivers_stop codec s a ia ds s' b ib (went : Prop) : (length ds <= length a)%nat -> ~ went ->
  delivers codec s a ia ds s' went -> delivers codec s (a ++ b) (ia ++ ib) ds s' went.
Proof.
  intros Hl Hn (pls & E & Ll & P & _). exists pls. split; [|split; [done|split; [|done]]].
  - rewrite E at 1. symmetry. apply zip_short. lia.
  - intros k. rewrite <- app_assoc. apply P.
Qed.
Lemma delivers_trans codec s a ia da s1 b ib db s2 went : length da = length a ->
  delivers codec s a ia da s1 True -> delivers codec s1 b ib db s2 went -> delivers codec s (a ++ b) (ia ++ ib) (da ++ db) s2 went.
Proof.
  intros Hl (p1 & E1 & L1 & _ & C1) (p2 & E2 & L2 & P2 & C2). specialize (C1 I). exists (p1 ++ p2).
  split; [rewrite zip_with_app by lia; by rewrite E1, E2|]. rewrite !length_app. split; [lia|]. split.
  - intros k. rewrite <- app_assoc, C1. by apply prefix_app.
  - intros Hw k. rewrite <- app_assoc, C1, (C2 Hw). by rewrite app_assoc.
Qed.

Lemma send_packets_spec codec L pkts : G711.law_of codec = Some L -> forall now outs s,
  ccodecName s = codec -> Forall (fun o => Forall (fun r => r <> Panic) (o_replies o)) outs ->
  exists s' r l, send_packets pkts now outs s = Ok (s', r) /\ csent s' = csent s ++ l /\ (length l <= length pkts)%nat /\
    Forall2 (carries (cecho s = None)) (take (length l) pkts) (map fst l) /\ (r = None -> length l = length pkts) /\
    ccodecName s' = codec /\ ccodecPT s' = ccodecPT s /\ packetizer s' = packetizer s /\ (cecho s' = None <-> cecho s = None) /\
    delivers codec s pkts (attach pkts now outs) (map fst l) s' (r = None).
Proof.
  intros HL. induction pkts as [|p pkts IH]; intros now outs s Hc Ho; cbn [send_packets].
  { exists s, None, []. rewrite app_nil_r. split_and!; try done. by apply delivers_idle. }
  set (o := default _ (head outs)).
  assert (Forall (fun r => r <> Panic) (o_replies o)) as Hr by (subst o; destruct outs as [|x outs]; [constructor|by apply Forall_cons in Ho as [Ho _]]).
  assert (Forall (fun o => Forall (fun r => r <> Panic) (o_replies o)) (tail outs)) as Ht by (destruct outs; [constructor|by apply Forall_cons in Ho as [_ Ho]]).
  match goal with |- context [let '(_, _) := ?x in _] => set (m := x) end.
  assert (exists r s1, m = (r, s1) /\ r <> Panic /\ (forall y, r = Ok y -> length y = length (Rtp.Payload p) /\ (cecho s = None -> y = Rtp.Payload p)) /\
    csent s1 = csent s /\ ccodecName s1 = codec /\ ccodecPT s1 = ccodecPT s /\ packetizer s1 = packetizer s /\ (cecho s1 = None <-> cecho s = None) /\
    forall y k, r = Ok y -> cancelled codec (cecho s) (captureClock s) ((p, now, o_replies o) :: k) = y :: cancelled codec (cecho s1) (captureClock s1) k)
    as (r & s1 & Em & Hp & Hy & E1 & E2 & E3 & E4 & E5 & E6).
  { subst m. destruct (cecho s) as [ec|] eqn:Ee.
    2:{ exists (Ok (Rtp.Payload p)), s. do 2 (split; [done|]). split; [by intros y [= <-]|]. do 4 (split; [done|]). split; [by rewrite Ee|]. intros y k [= <-]. cbn [cancelled]. by rewrite Ee. }
    destruct (MediaClock.At _ _ _) as [ca clock] eqn:Eat. rewrite Hc. rewrite G711.DecodePayload_law, HL. cbn [fmap option_fmap option_map default from_option id].
    match goal with |- context [process (Some ec) ?x ca (o_replies o)] => pose proof (process_spec (Some ec) x ca (o_replies o) Hr) as H; destruct (process (Some ec) x ca (o_replies o)) as [r e] eqn:Epr end.
    destruct H as (_ & H2 & H3 & H4). eexists _, _. split; [done|]. split; [by destruct r|]. split.
    - intros y Hy. split; [|done]. destruct r as [out| |]; [|done..]. cbn in Hy. injection Hy as <-. specialize (H3 out eq_refl).
      destruct (encode_length out codec L HL) as (l & -> & Hl). cbn. rewrite length_map in H3. lia.
    - split_and!; try done. intros y k Hy. cbn [cancelled]. rewrite Eat, G711.DecodePayload_law, HL. cbn [fmap option_fmap option_map default from_option id].
      rewrite Epr. destruct r as [out| |]; [|done..]. by injection Hy as <-. }
  rewrite Em. assert (forall x, exists s' r l, Ok (s1, Some x : option string) = Ok (s', r) /\ csent s' = csent s ++ l /\ (length l <= length (p :: pkts))%nat /\
    Forall2 (carries (cecho s = None)) (take (length l) (p :: pkts)) (map fst l) /\ (r = None -> length l = length (p :: pkts)) /\
    ccodecName s' = codec /\ ccodecPT s' = ccodecPT s /\ packetizer s' = packetizer s /\ (cecho s' = None <-> cecho s = None) /\
    delivers codec s (p :: pkts) (attach (p :: pkts) now outs) (map fst l) s' (r = None)) as Hstop.
  { intros x. exists s1, (Some x), []. rewrite app_nil_r. split; [done|]. split; [done|]. split; [cbn; lia|]. split; [constructor|]. split; [done|]. do 3 (split; [done|]). split; [exact E5|].
    destruct (delivers_nothing codec s (p :: pkts) (attach (p :: pkts) now outs) s1) as (pls & D1 & D2 & D3 & _). exists pls. by split_and!. }
  destruct r as [y|x|]; [|apply Hstop|done]. destruct (Hy y eq_refl) as [Hy1 Hy2].
  destruct (o_remote o) as [a|]; [|apply Hstop]. destruct (o_write o) as [x|]; [apply Hstop|].
  match goal with |- context [send_packets pkts now (tail outs) ?x] => set (s2 := x) end.
  destruct (IH now (tail outs) s2 E2 Ht) as (s' & r & l & -> & I1 & I2 & I3 & I4 & I5 & I6 & I7 & I8 & I9).
  eexists s', r, (_ :: l). split; [done|]. split; [rewrite I1; cbn; by rewrite E1, <- app_assoc|]. split; [cbn; lia|].
  split. { cbn [length take map fst]. constructor; [by exists y|]. eapply Forall2_impl; [exact I3|]. intros q d (pl & H1 & H2 & H3). exists pl. split; [done|]. split; [done|]. intros H. by apply H3, E5. }
  split; [intros H; cbn; by rewrite I4|]. split; [done|]. split; [by rewrite I6|]. split; [by rewrite I7|]. split; [rewrite I8; exact E5|].
  cbn [map fst attach]. fold o. apply (delivers_trans codec s [p] [(p, now, o_replies o)] [_] s2 pkts (attach pkts now (tail outs))); [done| |exact I9].
  exists [y]. split; [done|]. split; [done|]. split; [intros k|intros _ k]; cbn [app]; rewrite (E6 y k eq_refl); [by apply prefix_cons, prefix_nil|done].
Qed.

Lemma crun_spec codec L pt es : G711.law_of codec = Some L -> Forall cevent_ok es -> forall s, ccodecName s = codec -> ccodecPT s = pt ->
  exists s' r l, crun s es = Ok (s', r) /\ csent s' = csent s ++ l /\ let out := repack (packetizer s) pt (flat_map camera_rtp es) in
  (length l <= length out)%nat /\ Forall2 (carries (cecho s = None)) (take (length l) out) (map fst l) /\ (r = None -> length l = length out) /\
  delivers codec s out (captures (packetizer s) pt es) (map fst l) s' (r = None).
Proof.
  intros HL. induction 1 as [|x es Hx Hes IH]; intros s Hc Hp; cbn [crun].
  { exists s, None, []. rewrite app_nil_r. split_and!; try done. by apply delivers_idle. }
  assert (forall r, camera_rtp x = [] -> exists s' r' l, ('(s, r) ← Ok (s, r : option string); match r with Some x => Ok (s, Some x) | None => crun s es end) = Ok (s', r') /\
    csent s' = csent s ++ l /\ let out := repack (packetizer s) pt (flat_map camera_rtp (x :: es)) in
    (length l <= length out)%nat /\ Forall2 (carries (cecho s = None)) (take (length l) out) (map fst l) /\ (r' = None -> length l = length out) /\
    delivers codec s out (captures (packetizer s) pt (x :: es)) (map fst l) s' (r' = None)) as Hid.
  { intros r Er. assert (captures (packetizer s) pt (x :: es) = captures (packetizer s) pt es) as -> by (destruct x; cbn [captures]; by rewrite ?Er).
    cbn [flat_map mbind result_bind]. rewrite Er. destruct r as [y|]; [|exact (IH s Hc Hp)].
    exists s, (Some y), []. rewrite app_nil_r. split; [done|]. split; [done|]. cbv zeta. split; [cbn; lia|]. split; [constructor|]. split; [done|].
    destruct (delivers_nothing codec s (repack (packetizer s) pt ([] ++ flat_map camera_rtp es)) (captures (packetizer s) pt es) s) as (pls & D1 & D2 & D3 & _).
    exists pls. by split_and!. }
  destruct x as [t ctx|y|data t outs]; cbn [cstep]; [destruct (_ && _); by apply Hid|by apply Hid|].
  destruct Hx as [Hd Ho]. pose proof (Rtp.Parse_safe data Hd) as Hs. cbn [camera_rtp flat_map captures] in *.
  destruct (Rtp.Parse data) as [p|y|]; [|by apply Hid|done]. destruct (len (Rtp.Payload p) =? 0); [by apply Hid|].
  rewrite Hp. cbn [app repack]. destruct (Repacketizer.Push (packetizer s) p pt) as [pkts rp].
  set (s1 := s <| receivedFirst := true |> <| packetizer := rp |>).
  destruct (send_packets_spec codec L pkts HL t outs s1 Hc Ho) as (s2 & r & l & -> & I1 & I2 & I3 & I4 & I5 & I6 & I7 & I8 & I9). cbn [mbind result_bind].
  destruct r as [y|].
  - exists s2, (Some y), l. split; [done|]. split; [exact I1|]. rewrite length_app. split; [lia|]. split; [rewrite take_app_le by lia; exact I3|].
    split; [done|]. apply delivers_stop; [rewrite length_map; lia|done|exact I9].
  - specialize (I4 eq_refl). destruct (IH s2 I5) as (s' & r & l' & -> & J1 & J2 & J3 & J4 & J5); [by rewrite I6|].
    rewrite I7 in J2, J3, J4, J5. change (packetizer s1) with rp in J2, J3, J4, J5. exists s', r, (l ++ l'). split; [done|].
    split; [rewrite J1, I1; by rewrite <- app_assoc|]. rewrite !length_app. split; [lia|]. split; [|split; [intros Hr; rewrite J4 by done; lia|]].
    + rewrite take_app_ge by lia. rewrite map_app. replace (length l + length l' - length pkts)%nat with (length l') by lia.
      apply Forall2_app.
      * rewrite firstn_all2 in I3 by lia. exact I3.
      * eapply Forall2_impl; [exact J3|]. intros q d (pl & H1 & H2 & H3). exists pl. split; [done|]. split; [done|]. intros H. by apply H3, I8.
    + rewrite map_app. eapply (delivers_trans codec s); [by rewrite length_map| |exact J5].
      destruct I9 as (pls & D1 & D2 & D3 & D4). exists pls. do 3 (split; [done|]). intros _. by apply D4.
Qed.

(** C27: FFmpeg's audio is heard at the phone.  Whatever arrives on the local socket and whenever: the datagrams sent to the phone carry, in
    order and with none left out, the packets that the repacketizer makes of the well-formed ones that came in, each with its
    header and of its length - the samples unchanged without a canceller, otherwise the encoding of what the canceller, run alone on the decoded packets
    at the instants of the media clock, gives out - and the loop never panics unless the native processor does. *)
Theorem ffmpeg_to_phone (codec : string) (L : G711.Law) (pt now : Z) (e : option EchoCancel.echoCanceller) (es : list cevent) :
  G711.law_of codec = Some L -> Forall cevent_ok es ->
  exists s r, crun (cstart codec pt now e) es = Ok (s, r) /\
    let out := repack Repacketizer.new pt (flat_map camera_rtp es) in
    (length (csent s) <= length out)%nat /\ Forall2 (carries (e = None)) (take (length (csent s)) out) (map fst (csent s)) /\
    map fst (csent s) = take (length (csent s)) (zip_with with_payload out
      (cancelled codec e (MediaClock.mkClock false 0 0) (captures Repacketizer.new pt es))) /\
    (r = None -> length (csent s) = length out).
Proof.
  intros HL Hes.
  destruct (crun_spec codec L pt es HL Hes (cstart codec pt now e) eq_refl eq_refl) as (s & r & l & E & Es & H1 & H2 & H3 & (pls & D1 & D2 & D3 & _)).
  change (csent (cstart codec pt now e) ++ l) with l in Es. exists s, r. split; [exact E|]. rewrite Es. split; [exact H1|]. split; [exact H2|]. split; [|exact H3].
  specialize (D3 []). rewrite app_nil_r in D3. destruct D3 as [k D3]. cbn [cecho captureClock packetizer cstart] in D3. rewrite D3.
  assert (length l = length pls) as -> by (by rewrite D2, length_map). rewrite zip_prefix; [exact D1|]. change (packetizer _) with Repacketizer.new in D1. rewrite <- D1. done.
Qed.
End ffmpeg.

Definition ffmpeg_events : list cevent :=
  [CTimeout 1 None; CDatagram (Rtp.Marshal (Rtp.mkPacket 8 true 7 1000 5 (replicate 172 0xD5))) 1000 [mkOutgoing [] (Some (Sdp.mkAddr Sdp.home 4000)) None];
   CDatagram [1; 2] 2000 []; CTimeout 3000 (Some "context canceled")].
Lemma ffmpeg_to_phone_witness :
  exists s r, crun (cstart G711.PCMA 8 0 None) ffmpeg_events = Ok (s, r) /\ length (csent s) = 1%nat /\
    Forall2 (carries True) (take 1 (repack Repacketizer.new 8 (flat_map camera_rtp ffmpeg_events))) (map fst (csent s)).
Proof.
  destruct (ffmpeg_to_phone G711.PCMA G711.a_law 8 0 None ffmpeg_events) as (s & r & E & _ & H & _).
  - reflexivity.
  - repeat constructor; apply (bool_decide_unpack _); vm_compute; exact I.
  - exists s, r. split; [exact E|].
    assert (match crun (cstart G711.PCMA 8 0 None) ffmpeg_events with Ok (s, _) => length (csent s) | _ => 0%nat end = 1%nat) as Hn by (vm_compute; reflexivity).
    rewrite E in Hn. split; [exact Hn|]. rewrite Hn in H. eapply Forall2_impl; [exact H|]. intros p d (pl & H1 & H2 & H3). exists pl.
    split; [exact H1|]. split; [exact H2|]. intros _. apply H3. reflexivity.
Defined.
End CameraBridge.
