(* ===== verification/HaListener.v ===== *)
(** The Home Assistant listener: [internal/ha/listener.go] and
    [entity_registry.go].

    Messages arrive in their decoded form: an [envelope] where [json.Unmarshal]
    succeeds.  Of the two goroutines that can emit a trigger only the one that
    runs [Run] exists, so the listener is a sequential program over what the
    WebSocket and the REST interface deliver; the trigger channel is the list of
    the triggers in it, with a capacity. *)
From S2P Require Import Prelude GoStrings GoText.

Module HaListener.

Record RouteSubscription := mkSubscription { RouteID : string; EntityID : string }.
Record Trigger := mkTrigger { TRouteID : string; TEntityID : string }.

(** [to_state] of a trigger event, where it is there. *)
Record to_state := mkToState { ts_entity : string; ts_state : string }.
Record envelope := mkEnvelope {
  e_id : Z; e_type : string; e_success : bool; e_event : option to_state;
}.

(** The listener and the channel it writes to. *)
Record Listener := mkListener {
  Routes : list RouteSubscription; previous : gmap string string; initialized : gset string;
  triggers : list Trigger; capacity : nat; dropped : nat;
}.
#[export] Instance eta_listener : Eta Listener := fun l =>
  mkListener (Routes l) (previous l) (initialized l) (triggers l) (capacity l) (dropped l).
Definition new_listener (routes : list RouteSubscription) (capacity : nat) : Listener :=
  mkListener routes ∅ ∅ [] capacity 0.

Section listener.
Context `{U : Unicode}.

(** [emitTrigger]: a trigger that finds the channel full is dropped. *)
Definition emitTrigger (route : RouteSubscription) (l : Listener) : Listener :=
  if (length (triggers l) <? capacity l)%nat
  then l <| triggers ::= fun q => q ++ [mkTrigger (RouteID route) (EntityID route)] |>
  else l <| dropped ::= S |>.
Definition routeForEntity (entityID : string) (l : Listener) : option RouteSubscription :=
  head (filter (fun r => EntityID r = entityID) (Routes l)).

Definition normal_state (state : string) : string := ToLower (TrimSpace state).
Definition remember (entity state : string) (l : Listener) : Listener :=
  l <| previous ::= <[entity := state]> |> <| initialized ::= fun s => {[entity]} ∪ s |>.
(** [acceptState] of a state the REST interface reports. *)
Definition acceptState (route : RouteSubscription) (state : string) (l : Listener) : Listener :=
  let state := normal_state state in
  if decide (EntityID route ∈ initialized l) then
    let l := if negb (bool_decide (default "" (previous l !! EntityID route) = "on")) && bool_decide (state = "on")
             then emitTrigger route l else l in
    l <| previous ::= <[EntityID route := state]> |>
  else remember (EntityID route) state l.
(** What is read when the subscription has become active: the baseline. *)
Definition seed (route : RouteSubscription) (state : option string) (l : Listener) : Listener :=
  match state with Some s => remember (EntityID route) (normal_state s) l | None => l end.
(** A message on the subscription; [None] is one that does not decode. *)
Definition on_message (m : option envelope) (l : Listener) : Listener :=
  match m with
  | Some m =>
    if bool_decide (e_type m = "event") && (e_id m =? 1) then
      match e_event m with
      | Some ts =>
        if EqualFold (TrimSpace (ts_state ts)) "on" then
          let entityID := TrimSpace (ts_entity ts) in
          match routeForEntity entityID l with
          | Some route => emitTrigger route (remember entityID "on" l)
          | None => l
          end
        else l
      | None => l
      end
    else l
  | None => l
  end.
(** One round of [pollFallback]: the results in the order in which they come in,
    and whether all states could be read. *)
Fixpoint poll (results : list (RouteSubscription * option string)) (l : Listener) : bool * Listener :=
  match results with
  | [] => (true, l)
  | (route, Some state) :: results => poll results (acceptState route state l)
  | (_, None) :: results => (false, (poll results l).2)
  end.

(** * The conversation that starts a subscription *)

Inductive request := SendAuth | Subscribe (entities : list string).
(** [runWebSocket] up to the event loop, for the answers in the order they come;
    [None] is an answer that could not be read or decoded.  What was sent, and
    whether the subscription is active. *)
Definition subscribe (answers : list (option envelope)) (l : Listener) : list request * result unit :=
  match answers with
  | Some challenge :: answers =>
    if decide (e_type challenge = "auth_required") then
      match answers with
      | Some res :: answers =>
        if decide (e_type res = "auth_ok") then
          ([SendAuth; Subscribe (map EntityID (Routes l))],
           match answers with
           | Some sub :: _ =>
             fail_if (negb (bool_decide (e_type sub = "result")) || negb (e_id sub =? 1) || negb (e_success sub))
               "Home Assistant rejected visitor trigger subscription"
           | _ => Err "read HA subscription result"
           end)
        else ([SendAuth], Err "Home Assistant websocket authentication failed")
      | _ => ([SendAuth], Err "read HA websocket auth result")
      end
    else ([], Err "unexpected HA websocket auth challenge")
  | _ => ([], Err "unexpected HA websocket auth challenge")
  end.

(** [Run]: the wait before the next attempt, a [time.Duration]. *)
Definition second : Z := 1000000000.
Definition reset_backoff (connected_for : option Z) (backoff : Z) : Z :=
  match connected_for with Some d => if 10 * second <=? d then second else backoff | None => backoff end.
Definition next_backoff (backoff : Z) : Z :=
  if backoff <? 15 * second then Z.min (15 * second) (swrap 64 (backoff * 2)) else backoff.

(** * The visitor sensor *)

Record registryEntity := mkEntity { ent_id : string; Platform : string; TranslationKey : option string }.
Definition is_visitor (e : registryEntity) : bool :=
  HasPrefix (ent_id e) "binary_sensor." && EqualFold (Platform e) "reolink" &&
  match TranslationKey e with Some k => EqualFold (TrimSpace k) "visitor" | None => false end.
(** [ResolveReolinkVisitorEntity] on the entities of the registry.  The order of
    [sort.Strings] only matters for the error text. *)
Definition select_visitor (entities : list registryEntity) : result string :=
  match map ent_id (filter (fun e => is_visitor e = true) entities) with
  | [e] => Ok e
  | [] => Err "no enabled Reolink visitor binary sensor found in the Home Assistant entity registry"
  | _ => Err "multiple enabled Reolink visitor binary sensors found"
  end.

(** ** Rings *)

(** The listener and the triggers that the main loop has taken from its channel;
    what can happen to them. *)
Record world := mkWorld { listener : Listener; taken : list Trigger }.
Inductive event :=
| Polled (route : RouteSubscription) (state : option string)
| Seeded (route : RouteSubscription) (state : option string)
| Received (m : option envelope)
| Taken.
Definition step (w : world) (e : event) : world :=
  let l := listener w in
  match e with
  | Polled route (Some s) => mkWorld (acceptState route s l) (taken w)
  | Polled _ None => w
  | Seeded route s => mkWorld (seed route s l) (taken w)
  | Received m => mkWorld (on_message m l) (taken w)
  | Taken => match triggers l with
             | t :: q => mkWorld (l <| triggers := q |>) (taken w ++ [t])
             | [] => w
             end
  end.
Definition run (es : list event) (w : world) : world := foldl step w es.

(** The abstract detector of one sensor: what is reported about it, and how many
    rings that makes - a poll rings when the state has become [on] since it was
    last known, a subscription event always. *)
Inductive reading := Poll (state : string) | Baseline (state : string) | Told.
Fixpoint rings (last : option string) (l : list reading) : nat :=
  match l with
  | [] => 0
  | Poll s :: l =>
    (match last with Some p => if decide (p <> "on" /\ s = "on") then 1 else 0 | None => 0 end + rings (Some s) l)%nat
  | Baseline s :: l => rings (Some s) l
  | Told :: l => S (rings (Some "on") l)
  end.
(** The sensor of a message that tells of a ring. *)
Definition told (m : option envelope) (l : Listener) : option RouteSubscription :=
  m ← m;
  ts ← e_event m;
  if bool_decide (e_type m = "event") && (e_id m =? 1) && EqualFold (TrimSpace (ts_state ts)) "on"
  then routeForEntity (TrimSpace (ts_entity ts)) l else None.
(** What an event says about the sensor [x]. *)
Definition reading_of (x : string) (routes : Listener) (e : event) : option reading :=
  match e with
  | Polled r (Some s) => if decide (EntityID r = x) then Some (Poll (normal_state s)) else None
  | Seeded r (Some s) => if decide (EntityID r = x) then Some (Baseline (normal_state s)) else None
  | Received m => r ← told m routes; if decide (EntityID r = x) then Some Told else None
  | _ => None
  end.
Definition last_known (x : string) (l : Listener) : option string :=
  if decide (x ∈ initialized l) then Some (default "" (previous l !! x)) else None.
Definition triggered (x : string) (w : world) : nat :=
  length (filter (fun t => TEntityID t = x) (taken w ++ triggers (listener w))).

Lemma routeForEntity_entity x l r : routeForEntity x l = Some r -> EntityID r = x /\ r ∈ Routes l.
Proof.
  unfold routeForEntity. intros H. apply head_Some_elem_of in H. by apply list_elem_of_filter in H.
Qed.
Lemma emit_frame r l : let l' := emitTrigger r l in
  Routes l' = Routes l /\ previous l' = previous l /\ initialized l' = initialized l /\ (dropped l <= dropped l')%nat /\
  (dropped l' = dropped l -> triggers l' = triggers l ++ [mkTrigger (RouteID r) (EntityID r)]).
Proof. unfold emitTrigger. destruct (_ <? _)%nat; cbn; repeat split; lia. Qed.
(** A message is the ring that it tells of, or nothing. *)
Lemma on_message_told m l : on_message m l =
  match told m l with Some r => emitTrigger r (remember (EntityID r) "on" l) | None => l end.
Proof.
  unfold on_message, told. destruct m as [m|]; [|done]. cbn. destruct (bool_decide _ && (e_id m =? 1)) eqn:E.
  - destruct (e_event m) as [ts|]; [|done]. cbn. destruct (EqualFold _ _); [|done].
    destruct (routeForEntity _ l) as [r|] eqn:Er; [|done]. by apply routeForEntity_entity in Er as [-> _].
  - by destruct (e_event m).
Qed.
Lemma last_known_remember x y s l : last_known x (remember y s l) = if decide (y = x) then Some s else last_known x l.
Proof.
  unfold last_known, remember. cbn. destruct (decide (y = x)) as [->|Hne].
  - rewrite decide_True by set_solver. by rewrite lookup_insert_eq.
  - rewrite lookup_insert_ne by done. destruct (decide (x ∈ initialized l)); [rewrite decide_True by set_solver|rewrite decide_False by set_solver]; done.
Qed.

Lemma step_frame w e : Routes (listener (step w e)) = Routes (listener w) /\ (dropped (listener w) <= dropped (listener (step w e)))%nat.
Proof.
  destruct e as [r [s|]|r [s|]|m|]; cbn [step listener]; try done; unfold acceptState, seed.
  - destruct (decide _); [|done]. pose proof (emit_frame r (listener w)) as (A & _ & _ & B & _). by destruct (_ && _).
  - rewrite on_message_told. destruct (told m _) as [r|]; [|done].
    by pose proof (emit_frame r (remember (EntityID r) "on" (listener w))) as (A & _ & _ & B & _).
  - by destruct (triggers _).
Qed.
Lemma step_refines w e x l : Routes (listener w) = Routes l -> dropped (listener (step w e)) = dropped (listener w) ->
  forall later, (triggered x (step w e) + rings (last_known x (listener (step w e))) later)%nat =
    (triggered x w + rings (last_known x (listener w)) (option_list (reading_of x l e) ++ later))%nat.
Proof.
  intros HR Hd later.
  assert (forall r (l' : Listener), triggers l' = triggers (listener w) ++ [mkTrigger (RouteID r) (EntityID r)] ->
    length (filter (fun t => TEntityID t = x) (taken w ++ triggers l')) =
    (triggered x w + if decide (EntityID r = x) then 1 else 0)%nat) as Hemit.
  { intros r l' ->. unfold triggered. rewrite app_assoc, filter_app, length_app, filter_cons. cbn [TEntityID].
    by destruct (decide (EntityID r = x)). }
  destruct e as [r [s|]|r [s|]|m|]; cbn [step reading_of option_list app] in *; try done.
  - unfold acceptState in *. unfold triggered at 1. cbn [listener taken].
    destruct (decide (EntityID r ∈ initialized (listener w))) as [Hin|Hin].
    + set (on := negb _ && bool_decide (normal_state s = "on")) in *.
      set (l1 := if on then emitTrigger r (listener w) else listener w) in *.
      assert (initialized l1 = initialized (listener w) /\ previous l1 = previous (listener w)) as [Hi Hp].
      { subst l1. destruct on; [|done]. by destruct (emit_frame r (listener w)) as (_ & -> & -> & _). }
      assert (length (filter (fun t => TEntityID t = x) (taken w ++ triggers l1)) =
        (triggered x w + if on then if decide (EntityID r = x) then 1 else 0 else 0)%nat) as Hc.
      { subst l1. destruct on; [|unfold triggered; lia]. apply (Hemit r). apply (emit_frame r (listener w)). exact Hd. }
      change (triggers (l1 <| previous ::= _ |>)) with (triggers l1). rewrite Hc. unfold last_known. cbn. rewrite Hi, Hp.
      destruct (decide (EntityID r = x)) as [<-|Hne].
      * rewrite decide_True by done. rewrite lookup_insert_eq. rewrite (decide_True _ _ Hin). cbn [option_list app rings default from_option id].
        change (option_list (Some (Poll (normal_state s))) ++ later) with (Poll (normal_state s) :: later). cbn [rings].
        assert ((if on then 1 else 0) = (if decide (default "" (previous (listener w) !! EntityID r) <> "on" /\ normal_state s = "on")
                                         then 1 else 0))%nat as <-; [|lia].
        subst on. destruct (bool_decide_reflect (default "" (previous (listener w) !! EntityID r) = "on")),
          (bool_decide_reflect (normal_state s = "on")); cbn [negb andb]; by (rewrite decide_True by done) || (rewrite decide_False by tauto).
      * rewrite lookup_insert_ne by done. change (option_list None ++ later) with later. destruct on; lia.
    + rewrite last_known_remember. change (triggers (remember _ _ _)) with (triggers (listener w)). unfold triggered.
      destruct (decide (EntityID r = x)) as [<-|Hne]; [|done].
      change (option_list (Some (Poll (normal_state s))) ++ later) with (Poll (normal_state s) :: later). cbn [rings].
      assert (last_known (EntityID r) (listener w) = None) as -> by (unfold last_known; by rewrite decide_False). done.
  - unfold triggered. cbn [listener taken seed]. rewrite last_known_remember. change (triggers (remember _ _ _)) with (triggers (listener w)).
    by destruct (decide (EntityID r = x)).
  - unfold triggered at 1. cbn [listener taken]. rewrite on_message_told in *.
    assert (told m l = told m (listener w)) as ->.
    { unfold told. destruct m as [m|]; [|done]. cbn. destruct (e_event m); [|done]. cbn. by unfold routeForEntity; rewrite HR. }
    destruct (told m (listener w)) as [r|]; [|done]. cbn [mbind option_bind].
    destruct (emit_frame r (remember (EntityID r) "on" (listener w))) as (_ & Ep & Ei & _ & Et).
    rewrite (Hemit r); [|by apply Et]. unfold last_known at 1. rewrite Ep, Ei. fold (last_known x (remember (EntityID r) "on" (listener w))).
    rewrite last_known_remember. destruct (decide (EntityID r = x));
      [change (option_list (Some Told) ++ later) with (Told :: later)|change (option_list None ++ later) with later]; cbn [rings]; lia.
  - unfold triggered. destruct (triggers (listener w)) as [|t q] eqn:E; [by rewrite E|]. cbn [listener taken triggers alter_field].
    by rewrite <- app_assoc.
Qed.

Lemma run_frame es w : Routes (listener (run es w)) = Routes (listener w) /\ (dropped (listener w) <= dropped (listener (run es w)))%nat.
Proof.
  revert w. induction es as [|e es IH]; intros w; cbn; [done|]. destruct (IH (step w e)) as [A B], (step_frame w e) as [C D].
  fold (run es (step w e)). split; [by rewrite A|]. lia.
Qed.

(** C16: the listener refines one edge detector per sensor.  Whatever it is told
    about its sensors over the subscription and over REST, in whatever order and
    mixture, and whenever the main loop takes triggers: as long as none had to
    be dropped, the triggers of a sensor are exactly the rings of what was
    reported about that sensor alone. *)
Theorem rings_reported (routes : list RouteSubscription) (cap : nat) (es : list event) (x : string) :
  let w := run es (mkWorld (new_listener routes cap) []) in
  dropped (listener w) = 0%nat ->
  triggered x w = rings None (omap (reading_of x (new_listener routes cap)) es).
Proof.
  cbv zeta. set (l0 := new_listener routes cap).
  assert (forall w, Routes (listener w) = Routes l0 -> dropped (listener (run es w)) = dropped (listener w) ->
    triggered x (run es w) = (triggered x w + rings (last_known x (listener w)) (omap (reading_of x l0) es))%nat) as H.
  { induction es as [|e es IH]; intros w HR Hd; cbn [run foldl]; [cbn; lia|].
    destruct (run_frame es (step w e)) as [_ Hm], (step_frame w e) as [HR' Hm']. unfold run in Hm. cbn [run foldl] in Hd.
    fold (run es (step w e)) in *. rewrite (IH (step w e)) by (lia || congruence).
    rewrite (step_refines w e x l0 HR) by lia. f_equal. f_equal. cbn [omap list_omap]. by destruct (reading_of x l0 e). }
  intros Hd. by rewrite H.
Qed.

(** ** The routes of triggers *)

Definition event_ok (routes : list RouteSubscription) (e : event) : Prop :=
  match e with Polled r _ | Seeded r _ => r ∈ routes | _ => True end.
Definition trigger_ok (routes : list RouteSubscription) (t : Trigger) : Prop :=
  exists r, r ∈ routes /\ t = mkTrigger (RouteID r) (EntityID r).
Lemma emit_ok routes r l : r ∈ routes -> Forall (trigger_ok routes) (triggers l) -> Forall (trigger_ok routes) (triggers (emitTrigger r l)).
Proof.
  intros Hr H. unfold emitTrigger. destruct (_ <? _)%nat; [|done]. cbn. apply Forall_app. split; [done|].
  constructor; [|constructor]. by exists r.
Qed.
Lemma triggers_routed es routes w : Routes (listener w) = routes -> Forall (event_ok routes) es ->
  Forall (trigger_ok routes) (taken w ++ triggers (listener w)) ->
  Forall (trigger_ok routes) (taken (run es w) ++ triggers (listener (run es w))).
Proof.
  intros HR Hes. revert w HR. induction Hes as [|e es He _ IH]; intros w HR Hw; [done|]. cbn [run foldl].
  apply IH; [by rewrite (proj1 (step_frame w e))|]. apply Forall_app in Hw as [Ht Hq].
  destruct e as [r [s|]|r [s|]|m|]; cbn [step event_ok] in *; try by apply Forall_app.
  - apply Forall_app. split; [done|]. cbn [listener]. unfold acceptState. destruct (decide _); [|done]. cbn.
    destruct (_ && _); [by apply emit_ok|done].
  - apply Forall_app. split; [done|]. cbn [listener]. rewrite on_message_told. destruct (told m (listener w)) as [r|] eqn:E; [|done].
    apply emit_ok; [|done]. unfold told in E. destruct m as [m|]; [|done]. cbn in E. destruct (e_event m); [|done]. cbn in E.
    destruct (_ && _); [|done]. apply routeForEntity_entity in E as [_ E]. by rewrite <- HR.
  - destruct (triggers (listener w)) as [|t q] eqn:E; [by rewrite E, app_nil_r|]. cbn. rewrite <- app_assoc. by apply Forall_app.
Qed.

(** ** Reconnecting *)

(** [Run] when an attempt ends at [now]: [connected] is when it had become
    connected, if it did.  How long the REST interface is polled before the
    next attempt. *)
Record retry := mkRetry { connectedAt : option Z; backoff : Z }.
Definition retry0 : retry := mkRetry None second.
Definition attempt_ends (connected : option Z) (now : Z) (r : retry) : Z * retry :=
  let at_ := match connected with Some t => Some t | None => connectedAt r end in
  let b := reset_backoff (option_map (fun t => now - t) at_) (backoff r) in
  (b, mkRetry at_ (next_backoff b)).
Fixpoint waits (attempts : list (option Z * Z)) (r : retry) : list Z :=
  match attempts with
  | [] => []
  | (connected, now) :: attempts => let '(b, r) := attempt_ends connected now r in b :: waits attempts r
  end.
Lemma waits_bounded attempts r : second <= backoff r <= 15 * second -> Forall (fun b => second <= b <= 15 * second) (waits attempts r).
Proof.
  revert r. induction attempts as [|[c now] attempts IH]; intros r Hr; cbn [waits]; [constructor|].
  unfold attempt_ends. set (b := reset_backoff _ _). assert (second <= b <= 15 * second) as Hb.
  { subst b. unfold reset_backoff, second in *. destruct (option_map _ _); [destruct (_ <=? _)|]; lia. }
  constructor; [done|]. apply IH. cbn. unfold next_backoff, second in *. destruct (Z.ltb_spec b (15 * 1000000000)); [|lia].
  rewrite swrap_id by (unfold sfits; cbn; lia). lia.
Qed.
(** The time of the last connection is never forgotten: ten seconds after it
    every attempt that fails resets the wait, which stays at one second. *)
Lemma backoff_never_grows r t attempts :
  connectedAt r = Some t -> Forall (fun a => a.1 = None /\ t + 10 * second <= a.2) attempts ->
  Forall (fun b => b = second) (waits attempts r).
Proof.
  intros Hr H. revert r Hr. induction H as [|[c now] attempts [Hc Hn] _ IH]; intros r Hr; cbn [waits]; [constructor|]. cbn in Hc, Hn. subst c.
  unfold attempt_ends, reset_backoff. rewrite Hr. cbn [option_map]. rewrite (proj2 (Z.leb_le _ _)) by lia. constructor; [done|]. by apply IH.
Qed.

(** A sensor that turns on between the last poll and the new subscription is
    lost: the baseline takes the state as known, so neither it nor the polls of
    the next fallback trigger a call. *)
Lemma baseline_swallows_ring route s w :
  EntityID route ∈ initialized (listener w) -> normal_state s = "on" ->
  let w' := step w (Seeded route (Some s)) in
  taken w' ++ triggers (listener w') = taken w ++ triggers (listener w) /\
  triggers (listener (step w' (Polled route (Some s)))) = triggers (listener w').
Proof.
  intros Hi Hs. cbv zeta. cbn [step listener seed]. split; [done|]. unfold acceptState. rewrite Hs.
  rewrite decide_True by (cbn; set_solver). change (previous (remember ?x ?y ?l)) with (<[x := y]> (previous l)).
  by rewrite lookup_insert_eq.
Qed.

(** The sensor that is found is the only visitor sensor of the registry. *)
Lemma select_visitor_spec entities id : select_visitor entities = Ok id <->
  exists e, filter (fun e => is_visitor e = true) entities = [e] /\ ent_id e = id.
Proof.
  unfold select_visitor. destruct (filter _ entities) as [|e [|e' l]]; cbn [map].
  - split; [done|]. by intros (e & H & _).
  - split; [intros [= <-]; by exists e|]. by intros (e' & [= <-] & <-).
  - split; [done|]. by intros (e0 & H & _).
Qed.
End listener.

(** * Witness *)

#[local] Existing Instance ascii_tables.
Definition bell : RouteSubscription := mkSubscription "default" "binary_sensor.bell".
Definition side : RouteSubscription := mkSubscription "side" "binary_sensor.side".
Definition told_on (entity : string) : event := Received (Some (mkEnvelope 1 "event" true (Some (mkToState entity "on")))).
Definition example_events : list event :=
  [Seeded bell (Some "off"); Seeded side (Some "On"); told_on "binary_sensor.bell"; Taken;
   Polled side (Some "on"); Polled bell (Some "on "); Polled bell None; Polled bell (Some "off"); Polled bell (Some "on")].
Lemma rings_reported_witness :
  triggered "binary_sensor.bell" (run example_events (mkWorld (new_listener [bell; side] 2) [])) = 2%nat /\
  triggered "binary_sensor.side" (run example_events (mkWorld (new_listener [bell; side] 2) [])) = 0%nat.
Proof.
  split.
  - rewrite rings_reported; vm_compute; reflexivity.
  - rewrite rings_reported; vm_compute; reflexivity.
Defined.
End HaListener.
