(* ===== verification/Status.v ===== *)
(** The status store and what the integration API reports:
    [internal/status/server.go] ([Snapshot], [Store]) and [api.go]
    ([newAPIStatus], [apiAuthenticated]).

    A [time.Time] is a number, the zero time is 0.  A channel of capacity one is
    an option, the DTMF channels are lists of at most 64.  HTTP, JSON and HTML
    are not modelled. *)
From S2P Require Import Prelude GoStrings.

Module Status.

Record Snapshot := mkSnapshot {
  Version : string; StartedAt : Z; UpdatedAt : Z; Revision : Z; State : string; DryRun : bool; HAConnected : bool;
  DoorCallEnabled : bool; SIPRegistered : bool; LastRegistrationErr : string; ParallelCallEnabled : bool;
  ParallelSIPRegistered : bool; LastParallelRegistrationErr : string; LastVisitorEvent : Z; LastCallStarted : Z;
  LastCallEnded : Z; CurrentCallDirection : string; LastCallDirection : string; CurrentCallerNumber : string;
  LastCallerNumber : string; CurrentRouteID : string; CurrentRouteName : string; LastRouteID : string;
  LastRouteName : string; LastError : string; ActiveCodec : string; ConfiguredReolinkMode : string;
  ActiveReolinkMode : string; MediaProfile : string; EchoCancellationEnabled : bool; CalibratedDelayMS : Z;
  CurrentDelayMS : Z; AECSearchWindowMS : Z; AECMinDelayMS : Z; AECMaxDelayMS : Z; CalibrationStatus : string;
  CalibrationDetails : string; LastCalibration : Z; WebRTCHighPassFilterEnabled : bool;
  WebRTCNoiseSuppressionEnabled : bool; FritzFonLiveImageEnabled : bool; ActiveEchoCancellation : string;
  ActiveTalkback : string; TalkbackDetails : string; ActiveReceive : string; ReceiveDetails : string;
}.
#[export] Instance eta_snapshot : Eta Snapshot := fun s => mkSnapshot
  (Version s) (StartedAt s) (UpdatedAt s) (Revision s) (State s) (DryRun s) (HAConnected s)
  (DoorCallEnabled s) (SIPRegistered s) (LastRegistrationErr s) (ParallelCallEnabled s)
  (ParallelSIPRegistered s) (LastParallelRegistrationErr s) (LastVisitorEvent s) (LastCallStarted s)
  (LastCallEnded s) (CurrentCallDirection s) (LastCallDirection s) (CurrentCallerNumber s)
  (LastCallerNumber s) (CurrentRouteID s) (CurrentRouteName s) (LastRouteID s)
  (LastRouteName s) (LastError s) (ActiveCodec s) (ConfiguredReolinkMode s)
  (ActiveReolinkMode s) (MediaProfile s) (EchoCancellationEnabled s) (CalibratedDelayMS s)
  (CurrentDelayMS s) (AECSearchWindowMS s) (AECMinDelayMS s) (AECMaxDelayMS s) (CalibrationStatus s)
  (CalibrationDetails s) (LastCalibration s) (WebRTCHighPassFilterEnabled s)
  (WebRTCNoiseSuppressionEnabled s) (FritzFonLiveImageEnabled s) (ActiveEchoCancellation s)
  (ActiveTalkback s) (TalkbackDetails s) (ActiveReceive s) (ReceiveDetails s).
#[export] Instance snapshot_eq_dec : EqDecision Snapshot.
Proof. solve_decision. Defined.

Record dtmfEvent := mkDtmf {
  Digit : string; DurationMS : Z; ReceivedAt : Z; CallDirection : string; RemoteNumber : string; CallID : string;
}.
Record subscriber := mkSubscriber { status : option Snapshot; dtmf : option (list dtmfEvent) }.
Record RouteDefinition := mkRouteDef { ID : string; Name : string; DoorCall : bool; MobileCall : bool }.
Record Store := mkStore {
  value : Snapshot; subscribers : gmap Z subscriber; nextSubscriber : Z; routes : list RouteDefinition;
}.
#[export] Instance eta_store : Eta Store := fun s => mkStore (value s) (subscribers s) (nextSubscriber s) (routes s).

Definition zero_snapshot : Snapshot :=
  mkSnapshot "" 0 0 0 "" false false false false "" false false "" 0 0 0 "" "" "" "" "" "" "" "" "" "" "" "" "" false 0 0 0 0 0
    "" "" 0 false false false "" "" "" "" "".
Definition New (version : string) (now : Z) : Store :=
  mkStore (zero_snapshot <| Version := version |> <| StartedAt := now |> <| UpdatedAt := now |> <| Revision := 1 |>
             <| State := "starting" |>) ∅ 0 [].

(** [Update] hands a changed snapshot to a subscriber.  [raced] tells whether the
    reader takes a stale snapshot between the first and the second [select]. *)
Definition offer (raced : bool) (current : Snapshot) (s : subscriber) : subscriber :=
  match status s with
  | None => mkSubscriber (Some current) (dtmf s)
  | Some stale =>
    let s := if raced then mkSubscriber None (dtmf s) else s in
    let s := match status s with Some _ => mkSubscriber None (dtmf s) | None => s end in
    match status s with None => mkSubscriber (Some current) (dtmf s) | Some _ => s end
  end.
Definition Update (fn : Snapshot -> Snapshot) (now : Z) (raced : Z -> bool) (s : Store) : Store :=
  let before := value s in
  let after := fn before in
  if decide (after = before) then s <| value := after |>
  else
    let current := after <| Revision := u64 (Revision after + 1) |> <| UpdatedAt := now |> in
    s <| value := current |> <| subscribers ::= map_imap (fun id x => Some (offer (raced id) current x)) |>.
Definition SetRoutes (l : list RouteDefinition) (s : Store) : Store := s <| routes := l |>.
Definition Subscribe (s : Store) : Z * Store :=
  let id := u64 (nextSubscriber s + 1) in
  (id, s <| nextSubscriber := id |> <| subscribers ::= <[id := mkSubscriber (Some (value s)) None]> |>).
Definition subscribeEvents (s : Store) : Z * Store :=
  let id := u64 (nextSubscriber s + 1) in
  (id, s <| nextSubscriber := id |> <| subscribers ::= <[id := mkSubscriber (Some (value s)) (Some [])]> |>).
Definition cancelSubscriber (id : Z) (s : Store) : Store := s <| subscribers ::= delete id |>.
Definition dtmfQueue : nat := 64.
Definition send_dtmf (e : dtmfEvent) (s : subscriber) : subscriber :=
  match dtmf s with
  | Some q => if (length q <? dtmfQueue)%nat then mkSubscriber (status s) (Some (q ++ [e])) else s
  | None => s
  end.
Definition PublishDTMF (e : dtmfEvent) (now : Z) (s : Store) : Store :=
  let e := if ReceivedAt e =? 0 then mkDtmf (Digit e) (DurationMS e) now (CallDirection e) (RemoteNumber e) (CallID e) else e in
  s <| subscribers ::= fmap (send_dtmf e) |>.

(** * What the API reports *)

Record APIRouteStatus := mkAPIRoute { RID : string; RName : string; RTestCallAvailable : bool }.
Record APIStatus := mkAPIStatus {
  AnyRegistered : bool; DoorRegistered : bool; ParallelRegistered : bool; CallActive : bool; CallState : string;
  TestCallAvailable : bool; HangupAvailable : bool; APIRoutes : list APIRouteStatus;
}.
(** [newAPIStatus]: the fields that are computed; the others copy the snapshot. *)
Definition route_status (active callCanStart doorRegistered parallelRegistered dry : bool) (r : RouteDefinition) : APIRouteStatus :=
  let pathRegistered := (DoorCall r && doorRegistered) || (MobileCall r && parallelRegistered) in
  mkAPIRoute (ID r) (Name r) (negb dry && pathRegistered && negb active && callCanStart).
Definition newAPIStatus (snapshot : Snapshot) (routes : list RouteDefinition) : APIStatus :=
  let active := negb (bool_decide (CurrentCallDirection snapshot = "")) in
  let callCanStart := bool_decide (State snapshot = "idle") || bool_decide (State snapshot = "error") in
  let doorRegistered := DoorCallEnabled snapshot && SIPRegistered snapshot in
  let parallelRegistered := ParallelCallEnabled snapshot && ParallelSIPRegistered snapshot in
  let anyRegistered := doorRegistered || parallelRegistered in
  let callState := if active then State snapshot else "idle" in
  let routeStatuses := map (route_status active callCanStart doorRegistered parallelRegistered (DryRun snapshot)) routes in
  let legacy := negb (DryRun snapshot) && anyRegistered && negb active && callCanStart in
  let legacy := match routeStatuses with [] => legacy | _ => existsb RTestCallAvailable routeStatuses end in
  mkAPIStatus anyRegistered doorRegistered parallelRegistered active callState legacy active routeStatuses.

(** [apiAuthenticated]: the status code of a refusal.  [local] is
    [allowedAPIRemote] of the peer. *)
Section auth.
Context `{U : Unicode}.
Definition apiAuthenticated (token : string) (local : bool) (authorization : string) : option Z :=
  if negb local then Some 403
  else
    match Fields authorization with
    | [scheme; given] =>
      if negb (EqualFold scheme "Bearer") || bool_decide (token = "") || negb (bool_decide (given = token)) then Some 401 else None
    | _ => Some 401
    end.
End auth.

(** ** Subscribers see the newest snapshot *)

(** The store with, for every subscription, the snapshot that was read last. *)
Record world := mkWorld { store : Store; seen : gmap Z Snapshot }.
Inductive event :=
| Updated (fn : Snapshot -> Snapshot) (now : Z) (raced : Z -> bool)
| Subscribed (with_dtmf : bool)
| Cancelled (id : Z)
| Read (id : Z)
| Published (e : dtmfEvent) (now : Z).
Definition step_world (w : world) (e : event) : world :=
  let s := store w in
  match e with
  | Updated fn now raced =>
    let took := map_imap (fun id x => if raced id then status x else None) (subscribers s) in
    mkWorld (Update fn now raced s) (if decide (fn (value s) = value s) then seen w else took ∪ seen w)
  | Subscribed d => mkWorld (if d then subscribeEvents s else Subscribe s).2 (delete (u64 (nextSubscriber s + 1)) (seen w))
  | Cancelled id => mkWorld (cancelSubscriber id s) (seen w)
  | Read id =>
    match subscribers s !! id with
    | Some (mkSubscriber (Some v) d) => mkWorld (s <| subscribers ::= <[id := mkSubscriber None d]> |>) (<[id := v]> (seen w))
    | _ => w
    end
  | Published e now => mkWorld (PublishDTMF e now s) (seen w)
  end.
(** A subscriber that has nothing to read has read the current snapshot; what
    it has to read is the current snapshot. *)
Definition up_to_date (w : world) : Prop :=
  forall id x, subscribers (store w) !! id = Some x ->
    match status x with Some v => v = value (store w) | None => seen w !! id = Some (value (store w)) end.
Definition queues_bounded (s : Store) : Prop :=
  forall id x, subscribers s !! id = Some x -> match dtmf x with Some q => (length q <= dtmfQueue)%nat | None => True end.

Lemma offer_newest raced current s : offer raced current s = mkSubscriber (Some current) (dtmf s).
Proof. unfold offer. destruct s as [[stale|] d]; [|done]. by destruct raced. Qed.
Lemma step_up_to_date w e : up_to_date w -> up_to_date (step_world w e).
Proof.
  intros H id x. destruct e as [fn now raced|d|i|i|ev now]; cbn [step_world store seen].
  - unfold Update. destruct (decide (fn (value (store w)) = value (store w))) as [E|E]; cbn [value subscribers alter_field].
    + rewrite E. apply H.
    + cbn. rewrite map_lookup_imap. destruct (subscribers (store w) !! id); [|done]. cbn. rewrite offer_newest. by intros [= <-].
  - destruct d; cbn; rewrite lookup_insert_Some; (intros [[<- <-]|[Hne Hx]]; [done|]); specialize (H id x Hx);
      destruct (status x); try done; by rewrite lookup_delete_ne.
  - cbn. rewrite lookup_delete_Some. intros [_ Hx]. by apply H.
  - destruct (subscribers (store w) !! i) as [[[v|] d]|] eqn:Ei; [|by apply H..]. cbn. rewrite lookup_insert_Some.
    pose proof (H i _ Ei) as Hv. cbn in Hv. subst v. intros [[<- <-]|[Hne Hx]]; [cbn; by rewrite lookup_insert_eq|].
    specialize (H id x Hx). destruct (status x); [done|]. by rewrite lookup_insert_ne.
  - unfold PublishDTMF. cbn. rewrite lookup_fmap. destruct (subscribers (store w) !! id) as [y|] eqn:E; [|done]. cbn. intros [= <-].
    specialize (H id y E). unfold send_dtmf. destruct (dtmf y); [|done]. by destruct (_ <? _)%nat.
Qed.
Lemma step_queues w e : queues_bounded (store w) -> queues_bounded (store (step_world w e)).
Proof.
  intros H id x. destruct e as [fn now raced|d|i|i|ev now]; cbn [step_world store].
  - unfold Update. destruct (decide _); [apply H|]. cbn. rewrite map_lookup_imap.
    destruct (subscribers (store w) !! id) as [y|] eqn:E; [|done]. cbn. rewrite offer_newest. intros [= <-]. by apply (H id y).
  - destruct d; cbn; rewrite lookup_insert_Some; (intros [[<- <-]|[Hne Hx]]; [cbn; unfold dtmfQueue; lia|by apply (H id x)]).
  - cbn. rewrite lookup_delete_Some. intros [_ Hx]. by apply (H id x).
  - destruct (subscribers (store w) !! i) as [[[v|] d]|] eqn:Ei; [|by apply H..]. cbn. rewrite lookup_insert_Some.
    intros [[<- <-]|[Hne Hx]]; [by apply (H i _ Ei)|by apply (H id x)].
  - unfold PublishDTMF. cbn. rewrite lookup_fmap. destruct (subscribers (store w) !! id) as [y|] eqn:E; [|done]. cbn. intros [= <-].
    specialize (H id y E). unfold send_dtmf. destruct (dtmf y) as [q|] eqn:Eq; [|by rewrite Eq].
    destruct (Nat.ltb_spec (length q) dtmfQueue); cbn; [rewrite length_app; cbn; lia|by rewrite Eq].
Qed.

(** A slow reader misses intermediate states, never the last one.  Whatever
    updates, key presses, subscriptions and reads happen in whatever order, and
    whenever a reader takes a snapshot while it is being replaced: a subscriber
    either finds the current snapshot in its channel or has read it already;
    its key-press queue stays bounded; and an update that changes nothing, like
    a key press, does not change the revision. *)
Theorem subscribers_up_to_date (version : string) (t0 : Z) (es : list event) :
  let w := foldl step_world (mkWorld (New version t0) ∅) es in
  up_to_date w /\ queues_bounded (store w) /\
  forall e, match e with
            | Updated fn now raced => value (store (step_world w e)) =
                if decide (fn (value (store w)) = value (store w)) then value (store w)
                else fn (value (store w)) <| Revision := u64 (Revision (fn (value (store w))) + 1) |> <| UpdatedAt := now |>
            | _ => value (store (step_world w e)) = value (store w)
            end.
Proof.
  cbv zeta. assert (forall w, up_to_date w /\ queues_bounded (store w) ->
    up_to_date (foldl step_world w es) /\ queues_bounded (store (foldl step_world w es))) as H.
  { induction es as [|e es IH]; intros w [H1 H2]; [done|]. cbn. apply IH. split; [by apply step_up_to_date|by apply step_queues]. }
  destruct (H (mkWorld (New version t0) ∅)) as [H1 H2].
  { split; intros id x; cbn; by rewrite lookup_empty. }
  split; [done|]. split; [done|]. set (w := foldl _ _ es). intros [fn now raced|d|i|i|ev now]; cbn [step_world store].
  - unfold Update. destruct (decide _) as [E|E]; [exact E|reflexivity].
  - by destruct d.
  - done.
  - by destruct (subscribers (store w) !! i) as [[[v|] d]|].
  - done.
Qed.
End Status.
