(* ===== verification/CallHandlers.v ===== *)
(** The two calls the gateway runs: [handleCall] and [handleIncomingCall] of
    [cmd/gateway/main.go].

    A handler is a program over what happens around it: which legs report what,
    whether ports can be had, how the media session and the call end.  It is a
    function from such a script to the list of its actions, deferred ones
    included, in their order; what runs beside it (the losing legs, the
    goroutine that waits for the media) stands where it is over at the latest.
    The incoming handler also changes the SIP client of SipDialog. *)
From S2P Require Import Prelude GoStrings CallControl SipText Sdp SipCaller SipDialog Status Config.

Module CallHandlers.
Import Status.Status.

(** * Errors *)

(** An error: its text and the sentinels that [errors.Is] finds in it. *)
Inductive sentinel := Canceled | DeadlineExceeded | ErrClosed | ErrIncomingCallCanceled.
#[export] Instance sentinel_eq : EqDecision sentinel.
Proof. solve_decision. Defined.
Record error := mkError { text : string; wraps : list sentinel }.
Definition errorIs (e : option error) (s : sentinel) : bool :=
  match e with Some e => bool_decide (s ∈ wraps e) | None => false end.
Definition wrapped (context : string) (e : error) : error := mkError (context +:+ ": " +:+ text e) (wraps e).
Definition or_else (a b : option error) : option error := match a with Some _ => a | None => b end.

(** [waitMedia]: what the media session returned, [None] when it did not in time. *)
Definition waitMedia (r : option (option error)) : option error :=
  match r with
  | Some e => if errorIs e Canceled || errorIs e ErrClosed then None else e
  | None => Some (mkError "media shutdown timed out" [])
  end.

(** * The snapshot of a call *)

Record SessionInfo := mkInfo {
  TalkMode : string; TalkInfo : string; RecvMode : string; RecvInfo : string; Echo : string;
}.
Definition clearActiveMedia (s : Snapshot) : Snapshot :=
  s <| ActiveCodec := "" |> <| ActiveTalkback := "" |> <| TalkbackDetails := "" |> <| ActiveReceive := "" |>
    <| ReceiveDetails := "" |> <| ActiveEchoCancellation := "" |>.
Definition clearActiveCall (s : Snapshot) : Snapshot :=
  clearActiveMedia (s <| CurrentCallDirection := "" |> <| CurrentCallerNumber := "" |> <| CurrentRouteID := "" |>
    <| CurrentRouteName := "" |>).
Definition recordCallError (ended : Z) (e : error) (s : Snapshot) : Snapshot :=
  clearActiveCall (s <| State := "error" |> <| LastError := text e |> <| LastCallEnded := ended |>).
Definition recordIncomingCallError (ended : Z) (e : error) (s : Snapshot) : Snapshot :=
  clearActiveCall (s <| State := "error" |> <| LastError := text e |> <| LastCallEnded := ended |>).
Definition finishCanceledIncomingCall (ended : Z) (s : Snapshot) : Snapshot :=
  clearActiveCall (s <| State := "idle" |> <| LastError := "" |> <| LastCallEnded := ended |>).
Definition finishCall (ended : Z) (finalErr : option error) (s : Snapshot) : Snapshot :=
  match finalErr with
  | Some e =>
    if negb (errorIs finalErr Canceled)
    then clearActiveCall (s <| State := "error" |> <| LastError := text e |> <| LastCallEnded := ended |>)
    else clearActiveCall (s <| State := "idle" |> <| LastError := "" |> <| LastCallEnded := ended |>)
  | None => clearActiveCall (s <| State := "idle" |> <| LastError := "" |> <| LastCallEnded := ended |>)
  end.
Definition begin_outgoing (cfg : Config.Config) (route : Config.ResolvedCallRoute) (started : Z) (s : Snapshot) : Snapshot :=
  clearActiveMedia (s <| State := "dialing" |> <| LastCallStarted := started |> <| CurrentCallDirection := "outgoing" |>
    <| LastCallDirection := "outgoing" |> <| CurrentCallerNumber := "" |> <| CurrentRouteID := Config.RouteID route |>
    <| CurrentRouteName := Config.RouteName route |> <| LastRouteID := Config.RouteID route |>
    <| LastRouteName := Config.RouteName route |> <| LastError := "" |>) <| CurrentDelayMS := Config.AECInitialDelayMS cfg |>.
Definition begin_incoming (cfg : Config.Config) (started : Z) (caller codec : string) (s : Snapshot) : Snapshot :=
  let s := s <| State := "connecting_media" |> <| LastCallStarted := started |> <| CurrentCallDirection := "incoming" |>
    <| LastCallDirection := "incoming" |> <| CurrentCallerNumber := caller |> <| CurrentRouteID := "" |> <| CurrentRouteName := "" |> in
  let s := if decide (caller = "") then s else s <| LastCallerNumber := caller |> in
  clearActiveMedia (s <| LastError := "" |>) <| ActiveCodec := codec |> <| CurrentDelayMS := Config.AECInitialDelayMS cfg |>.
Definition show_media (i : SessionInfo) (s : Snapshot) : Snapshot :=
  s <| ActiveTalkback := TalkMode i |> <| TalkbackDetails := TalkInfo i |> <| ActiveReceive := RecvMode i |>
    <| ReceiveDetails := RecvInfo i |> <| ActiveEchoCancellation := Echo i |>.
(** The update of the goroutine of [handleCall] that waits for [Ready]. *)
Definition outgoing_ready (i : SessionInfo) (s : Snapshot) : Snapshot :=
  show_media i (if decide (State s = "connecting_media") then s <| State := "active" |> else s).
Definition incoming_ready (i : SessionInfo) (s : Snapshot) : Snapshot := show_media i (s <| State := "active" |>).

(** * Actions *)

(** [D] names a dialog. *)
Inductive act {D : Type} :=
| Upd (fn : Snapshot -> Snapshot)
| Publish (e : dtmfEvent)
| HangUp (d : D)       (** [Call.Hangup] *)
| CloseConn (d : D)    (** the RTP port of the dialog *)
| OpenFF | CloseFF     (** the port for FFmpeg *)
| RunMedia | CancelCall.
Arguments act : clear implicits.

(** [forwardMediaEvents]: what the media session reports during the call. *)
Inductive media_event := AECStatus (delay : Z) | DTMF (digit : string) (duration received : Z).
Definition forward {D} (direction remote callID : string) (e : media_event) : act D :=
  match e with
  | AECStatus d => Upd (fun s => s <| CurrentDelayMS := d |>)
  | DTMF digit duration received => Publish (mkDtmf digit duration received direction remote callID)
  end.

(** How the second [select] of a handler is left: the call is over; the media
    session is; or the context is, by its deadline or because its parent is. *)
Inductive ending :=
| CallDone (err : option error) (media : option (option error))
| MediaDone (err : option error) (deadline : bool) (hangup : option error)
| CtxDone (deadline parent : bool) (hangup : option error) (media : option (option error)).
Definition max_duration : error := mkError "maximum call duration reached" [].
Definition final_error (e : ending) : option error :=
  match e with
  | CallDone err media => or_else err (waitMedia media)
  | MediaDone err deadline hangup =>
    or_else (if errorIs err DeadlineExceeded && deadline then Some max_duration else err) hangup
  | CtxDone deadline parent hangup media =>
    let err := if deadline then Some max_duration else None in
    or_else (or_else err (if parent then None else hangup)) (waitMedia media)
  end.
Definition by_peer (e : ending) : bool := match e with CallDone _ _ => true | _ => false end.
Definition end_call {D} (d : D) (e : ending) : list (act D) :=
  match e with
  | CallDone _ _ => [CancelCall]
  | MediaDone _ _ _ => [CancelCall; HangUp d]
  | CtxDone _ _ _ _ => [HangUp d]
  end.

Section handlers.
Context `{U : Unicode} {IPs : NetIP} {F : @Config.IPFamily IPs}.

(** * The legs of an outgoing call *)

(** A SIP account's client as the handlers see it: nil, or whether it is registered. *)
Definition account := option bool.
Definition registered (c : account) : bool := match c with Some r => r | None => false end.
Inductive line := DoorLine | MobileLine.
#[export] Instance line_eq : EqDecision line.
Proof. solve_decision. Defined.
Record leg := mkLeg { LegID : string; LegDestination : string; over : line }.
Definition outboundDialLegs (cfg : Config.Config) (route : Config.ResolvedCallRoute) (door parallel : account) : list leg :=
  (if Config.DoorCallEnabled cfg && Config.nonempty (Config.Doorbell route) && registered door
   then [mkLeg "door" (Config.Doorbell route) DoorLine] else []) ++
  (if Config.ParallelCallEnabled cfg && registered parallel
   then map (fun t => mkLeg ("mobile_" +:+ Config.TargetID t) (Config.Destination t) MobileLine) (Config.MobileTargets route)
   else []).

(** [outboundCandidate]: its call and its RTP port. *)
Record outboundCandidate := mkCandidate { call : option nat; rtpConn : option nat }.
(** The [Dial] of [newOutboundDialLeg]: no port, [Client.Dial] failed, or a call.
    An error is [dial_error] also for [DialFirst]. *)
Inductive dialled := NoPort (e : error) | DialFailed (e : error) | Established (call conn : nat).
Definition dial_leg (l : leg) (o : dialled) : @Fork.dialResult outboundCandidate :=
  match o with
  | NoPort e => Fork.mkResult (LegID l) (LegDestination l) None (Some (text (wrapped "reserve SIP RTP port" e)))
  | DialFailed e => Fork.mkResult (LegID l) (LegDestination l) None (Some (text e))
  | Established c p => Fork.mkResult (LegID l) (LegDestination l) (Some (mkCandidate (Some c) (Some p))) None
  end.
(** [outboundCandidate.Hangup] *)
Definition hangup_candidate (c : outboundCandidate) : list (act outboundCandidate) := [HangUp c; CloseConn c].

(** * [handleCall] *)

(** When the goroutine that waits for [Ready] stores the session's properties:
    never, during the call, or - it has looked at the context just before - only
    after the call has been closed. *)
Inductive readiness := NotReady | ReadyInTime (i : SessionInfo) | ReadyLate (i : SessionInfo).
Record outgoing := mkOutgoing {
  o_started : Z; o_ended : Z; o_door : account; o_parallel : account;
  o_ctx : option string;                                (** [ringCtx.Err()] at the start of [DialFirst] *)
  o_arrivals : list (@Fork.event outboundCandidate);
  o_canceled : bool;                                    (** [errors.Is(err, context.Canceled) && parent.Err() != nil] *)
  o_ff : option error; o_codec : string; o_callID : string; o_ready : readiness; o_events : list media_event;
  o_ending : ending;
}.
Definition newline : string := String (chr 10) "".
Definition dial_failed (s : outgoing) (e : string) : list (act outboundCandidate) :=
  [Upd (if o_canceled s then finishCall (o_ended s) None
        else recordCallError (o_ended s) (mkError ("all SIP call legs failed: " +:+ e) []))].
Definition ready_in_time (s : outgoing) : list (act outboundCandidate) :=
  match o_ready s with ReadyInTime i => [Upd (outgoing_ready i)] | _ => [] end.
Definition ready_late (s : outgoing) : list (act outboundCandidate) :=
  match o_ready s with ReadyLate i => [Upd (outgoing_ready i)] | _ => [] end.
Definition run_call (s : outgoing) (r : @Fork.dialResult outboundCandidate) (d : outboundCandidate)
    (losers : list outboundCandidate) (rtsp : bool) : list (act outboundCandidate) :=
  [Upd (fun v => v <| State := "connecting_media" |> <| ActiveCodec := o_codec s |>); RunMedia] ++
  ready_in_time s ++ map (forward "outgoing" (SipCaller.canonicalCallerID (Fork.destination r)) (o_callID s)) (o_events s) ++
  end_call d (o_ending s) ++ flat_map hangup_candidate losers ++
  [Upd (finishCall (o_ended s) (final_error (o_ending s))); CancelCall] ++ (if rtsp then [CloseFF] else []) ++ [CloseConn d] ++
  ready_late s.
Definition take_winner (cfg : Config.Config) (s : outgoing) (r : @Fork.dialResult outboundCandidate) (d : outboundCandidate)
    (losers : list outboundCandidate) : list (act outboundCandidate) :=
  match call d, rtpConn d with
  | Some _, Some _ =>
    if decide (Config.ReceiveMode cfg = "rtsp") then
      match o_ff s with
      | Some e => [HangUp d] ++ flat_map hangup_candidate losers ++
                  [Upd (recordCallError (o_ended s) (wrapped "reserve local FFmpeg RTP port" e)); CloseConn d]
      | None => [OpenFF] ++ run_call s r d losers true
      end
    else run_call s r d losers false
  | _, _ => hangup_candidate d ++ flat_map hangup_candidate losers ++
            [Upd (recordCallError (o_ended s) (mkError "SIP fork returned an invalid winning dialog" []))]
  end.
(** [None] while the legs are still ringing. *)
Definition handleCall (cfg : Config.Config) (route : Config.ResolvedCallRoute) (s : outgoing)
    : option (list (act outboundCandidate)) :=
  let start := Upd (begin_outgoing cfg route (o_started s)) in
  if Config.DryRun cfg
  then Some [start; Upd (fun v => clearActiveCall (v <| State := "idle" |> <| LastCallEnded := o_ended s |>))]
  else
    let legs := outboundDialLegs cfg route (o_door s) (o_parallel s) in
    match legs with
    | [] => Some [start; Upd (recordCallError (o_ended s) (mkError "no configured SIP account is registered" []))]
    | _ =>
      match Fork.DialFirst (o_ctx s) (map (fun l => (LegID l, true)) legs) (o_arrivals s) with
      | Fork.Waiting => None
      | Fork.Rejected e => Some (start :: dial_failed s e)
      | Fork.Settled (Fork.Winner r d) losers => Some (start :: take_winner cfg s r d losers)
      | Fork.Settled (Fork.Stopped e) losers => Some (start :: flat_map hangup_candidate losers ++ dial_failed s e)
      | Fork.Settled (Fork.AllFailed fs) losers => Some (start :: flat_map hangup_candidate losers ++ dial_failed s (Join fs newline))
      end
    end.

(** * [handleIncomingCall] *)

(** How the first [select] is left.  The media session is waited for when the
    call is over or the context done. *)
Inductive preparation :=
| MediaReady (i : SessionInfo) (events : list media_event) (e : ending)
| MediaEnded (err : option error)
| CallOver (err : option error)
| Expired (deadline : bool).
Record arrival := mkArrival {
  i_started : Z; i_ended : Z; i_caller : string; i_codec : string; i_callID : string;
  i_port : option error; i_rtpPort : Z; i_ff : option error; i_prepared : preparation;
  i_now : Z; i_write_ok : bool;                         (** for [Answer] *)
}.
Definition error_of (e : string) : error :=
  mkError e (if decide (e = "incoming SIP call canceled") then [ErrIncomingCallCanceled] else []).
Definition error_text (e : option error) : string := match e with Some e => text e | None => "%!w(<nil>)" end.
(** [rejectUnavailable]; [p] is the INVITE. *)
Definition reject_unavailable (p : nat) (c : SipDialog.client) : SipDialog.client := (SipDialog.Reject p 480 "Temporarily Unavailable" c).2.
Definition unavailable (p : nat) (ended : Z) (cause : error) (c : SipDialog.client) : list (act nat) * SipDialog.client :=
  ([Upd (recordIncomingCallError ended cause)], reject_unavailable p c).
Definition prepared_call (p : nat) (a : arrival) (c : SipDialog.client) : list (act nat) * SipDialog.client :=
  match i_prepared a with
  | MediaReady i events e =>
    let '(r, c) := SipDialog.Answer p (i_rtpPort a) (i_now a) (i_write_ok a) c in
    match r with
    | Ok _ =>
      ([Upd (incoming_ready i)] ++ map (forward "incoming" (i_caller a) (i_callID a)) events ++ end_call p e ++
       [Upd (finishCall (i_ended a) (final_error e))], c)
    | Err e =>
      ([CancelCall; Upd (if errorIs (Some (error_of e)) ErrIncomingCallCanceled then finishCanceledIncomingCall (i_ended a)
                         else recordIncomingCallError (i_ended a) (wrapped "answer incoming SIP call" (error_of e)))], c)
    | Panic => ([], c)
    end
  | MediaEnded err =>
    let '(l, c) := unavailable p (i_ended a)
      (mkError ("prepare Reolink media for incoming call: " +:+ error_text err) (match err with Some e => wraps e | None => [] end)) c in
    ([CancelCall] ++ l, c)
  | CallOver err =>
    ([CancelCall; Upd (match err with
                       | Some e => if errorIs err ErrIncomingCallCanceled then finishCanceledIncomingCall (i_ended a)
                                   else recordIncomingCallError (i_ended a) e
                       | None => finishCanceledIncomingCall (i_ended a)
                       end)], c)
  | Expired deadline =>
    if deadline then
      let '(l, c) := unavailable p (i_ended a) (mkError "incoming call media preparation timed out" []) c in ([CancelCall] ++ l, c)
    else ([CancelCall; Upd (finishCall (i_ended a) None)], reject_unavailable p c)
  end.
(** The handler on the client as it is when the handler answers or rejects. *)
Definition handleIncomingCall (p : nat) (cfg : Config.Config) (a : arrival) (c : SipDialog.client) : list (act nat) * SipDialog.client :=
  let start := Upd (begin_incoming cfg (i_started a) (i_caller a) (i_codec a)) in
  match i_port a with
  | Some e => let '(l, c) := unavailable p (i_ended a) (wrapped "reserve SIP RTP port" e) c in (start :: l, c)
  | None =>
    let rtsp := decide (Config.ReceiveMode cfg = "rtsp") in
    match (if rtsp then i_ff a else None) with
    | Some e =>
      let '(l, c) := unavailable p (i_ended a) (wrapped "reserve local FFmpeg RTP port" e) c in (start :: l ++ [CloseConn p], c)
    | None =>
      let '(l, c) := prepared_call p a c in
      (start :: (if rtsp then [OpenFF] else []) ++ [RunMedia] ++ l ++ [CancelCall] ++ (if rtsp then [CloseFF] else []) ++ [CloseConn p], c)
    end
  end.
End handlers.

(** * What a handler leaves behind *)

Section leaves.
Context {D : Type}.
Definition hangups (l : list (act D)) : list D := omap (fun a => match a with HangUp d => Some d | _ => None end) l.
Definition closes (l : list (act D)) : list D := omap (fun a => match a with CloseConn d => Some d | _ => None end) l.
Definition snapshot_after (l : list (act D)) (s : Snapshot) : Snapshot :=
  foldl (fun s a => match a with Upd fn => fn s | _ => s end) s l.
Definition call_cleared (s : Snapshot) : Prop :=
  (State s = "idle" \/ State s = "error") /\ CurrentCallDirection s = "" /\ CurrentCallerNumber s = "" /\
  CurrentRouteID s = "" /\ CurrentRouteName s = "".
Definition media_cleared (s : Snapshot) : Prop :=
  ActiveCodec s = "" /\ ActiveTalkback s = "" /\ TalkbackDetails s = "" /\ ActiveReceive s = "" /\
  ReceiveDetails s = "" /\ ActiveEchoCancellation s = "".
(** An update that ends a call. *)
Definition closing (fn : Snapshot -> Snapshot) : Prop := forall s, call_cleared (fn s) /\ media_cleared (fn s).
Definition no_update (l : list (act D)) : Prop := Forall (fun a => match a with Upd _ => False | _ => True end) l.

Lemma hangups_app l k : hangups (l ++ k) = hangups l ++ hangups k.
Proof. apply omap_app. Qed.
Lemma closes_app l k : closes (l ++ k) = closes l ++ closes k.
Proof. apply omap_app. Qed.
Lemma snapshot_app l k s : snapshot_after (l ++ k) s = snapshot_after k (snapshot_after l s).
Proof. apply foldl_app. Qed.
Lemma snapshot_same l s : no_update l -> snapshot_after l s = s.
Proof. intros H. induction H as [|a l Ha _ IH]; [done|]. by destruct a. Qed.
Lemma snapshot_closed l fn k s : closing fn -> no_update k -> snapshot_after (l ++ Upd fn :: k) s = fn (snapshot_after l s).
Proof. intros _ Hk. rewrite snapshot_app. cbn. by apply snapshot_same. Qed.
Lemma snapshot_ends l fn k s : closing fn -> no_update k ->
  call_cleared (snapshot_after (l ++ Upd fn :: k) s) /\ media_cleared (snapshot_after (l ++ Upd fn :: k) s).
Proof. intros Hf Hk. rewrite snapshot_closed by done. apply Hf. Qed.

Lemma forward_quiet direction remote callID es :
  hangups (map (@forward D direction remote callID) es) = [] /\ closes (map (@forward D direction remote callID) es) = [].
Proof. induction es as [|[d|g u r] es [H1 H2]]; done. Qed.
Lemma end_call_hangups (d : D) e : hangups (end_call d e) = (if by_peer e then [] else [d]) /\ closes (end_call d e) = [].
Proof. by destruct e. Qed.
End leaves.

Lemma clear_closing g : (forall s, State (g s) = "idle" \/ State (g s) = "error") -> closing (fun s => clearActiveCall (g s)).
Proof. intros H s. split; [split; [exact (H s)|done]|done]. Qed.
Lemma finishCall_closing ended e : closing (finishCall ended e).
Proof. intros s. unfold finishCall. destruct e as [e|]; [destruct (negb _)|]; apply (clear_closing (fun s => s <| State := _ |> <| LastError := _ |> <| LastCallEnded := _ |>)); cbn; auto. Qed.
Lemma recordCallError_closing ended e : closing (recordCallError ended e).
Proof. apply clear_closing. cbn. auto. Qed.
Lemma recordIncomingCallError_closing ended e : closing (recordIncomingCallError ended e).
Proof. apply clear_closing. cbn. auto. Qed.
Lemma finishCanceled_closing ended : closing (finishCanceledIncomingCall ended).
Proof. apply clear_closing. cbn. auto. Qed.
Lemma dry_run_closing ended : closing (fun v => clearActiveCall (v <| State := "idle" |> <| LastCallEnded := ended |>)).
Proof. apply (clear_closing (fun v => v <| State := "idle" |> <| LastCallEnded := ended |>)). cbn. auto. Qed.
Create HintDb calls.
#[local] Hint Resolve finishCall_closing recordCallError_closing recordIncomingCallError_closing finishCanceled_closing
  dry_run_closing : calls.

(** ** The outgoing call *)

Section outgoing.
Context `{U : Unicode} `{F : Config.IPFamily}.

(** Every leg reports once, in any order, and a fork that is not begun asks none. *)
Definition reported (legs : list leg) (s : outgoing) : Prop :=
  match o_ctx s with
  | Some _ => o_arrivals s = []
  | None => exists outcomes, length outcomes = length legs /\
      Fork.results (o_arrivals s) ≡ₚ zip_with dial_leg legs outcomes
  end.
Definition legs_of (cfg : Config.Config) (route : Config.ResolvedCallRoute) (s : outgoing) : list leg :=
  if Config.DryRun cfg then [] else outboundDialLegs cfg route (o_door s) (o_parallel s).
(** [ds] are the dialogs the legs had established, the winner at the head. *)
Record accounted (s : outgoing) (ds : list outboundCandidate) (l : list (act outboundCandidate)) : Prop := {
  acc_hangups : hangups l ≡ₚ ds \/ by_peer (o_ending s) = true /\ hangups l ≡ₚ tail ds;
  acc_ports : closes l ≡ₚ ds;
  acc_ff : OpenFF ∈ l <-> CloseFF ∈ l;
  acc_media : RunMedia ∈ l -> CancelCall ∈ l;
  acc_call : forall v, call_cleared (snapshot_after l v);
  acc_shown : forall v, match o_ready s with ReadyLate _ => True | _ => media_cleared (snapshot_after l v) end;
}.

Lemma hangups_losers ds : hangups (flat_map hangup_candidate ds) = ds /\ closes (flat_map hangup_candidate ds) = ds.
Proof. induction ds as [|d ds [H1 H2]]; [done|]. cbn. unfold hangups, closes in *. by rewrite H1, H2. Qed.
Lemma not_losers (a : act outboundCandidate) ds : match a with HangUp _ | CloseConn _ => False | _ => True end ->
  a ∉ flat_map hangup_candidate ds.
Proof.
  intros Ha H. induction ds as [|d ds IH]; [by apply elem_of_nil in H|]. cbn in H. rewrite !elem_of_cons in H.
  destruct H as [->|[->|H]]; done || by apply IH.
Qed.
Lemma not_forwarded direction remote callID es (a : act outboundCandidate) :
  a = OpenFF \/ a = CloseFF -> a ∉ map (forward direction remote callID) es.
Proof. intros Ha [e [He _]]%list_elem_of_fmap. by destruct Ha as [-> | ->], e. Qed.
Lemma quiet_losers ds : no_update (flat_map hangup_candidate ds).
Proof. unfold no_update. induction ds; repeat (constructor; [done|]); done. Qed.

Lemma dial_failed_spec s e : exists fn, dial_failed s e = [Upd fn] /\ closing fn.
Proof.
  exists (if o_canceled s then finishCall (o_ended s) None
          else recordCallError (o_ended s) (mkError ("all SIP call legs failed: " +:+ e) [])).
  split; [done|]. destruct (o_canceled s); auto with calls.
Qed.
Lemma failed_accounted s ds start e : accounted s ds (Upd start :: flat_map hangup_candidate ds ++ dial_failed s e).
Proof.
  destruct (dial_failed_spec s e) as (fn & -> & Hfn). destruct (hangups_losers ds) as [H1 H2].
  pose proof (fun v => snapshot_ends (Upd start :: flat_map hangup_candidate ds) fn [] v Hfn (Forall_nil_2 _)) as Hv.
  split.
  - left. change (Upd start :: ?l) with ([Upd start] ++ l). rewrite !hangups_app, H1. cbn. by rewrite app_nil_r.
  - change (Upd start :: ?l) with ([Upd start] ++ l). rewrite !closes_app, H2. cbn. by rewrite app_nil_r.
  - pose proof (not_losers OpenFF ds I). pose proof (not_losers CloseFF ds I). set_solver.
  - pose proof (not_losers RunMedia ds I). set_solver.
  - intros v. apply Hv.
  - intros v. destruct (o_ready s); [apply Hv|apply Hv|done].
Qed.

Lemma run_accounted s r d losers (rtsp : bool) start :
  accounted s (d :: losers) (Upd start :: (if rtsp then [OpenFF] else []) ++ run_call s r d losers rtsp).
Proof.
  unfold run_call. set (fw := map (forward _ _ _) (o_events s)). set (fin := Upd (finishCall _ _)).
  destruct (forward_quiet (D := outboundCandidate) "outgoing" (SipCaller.canonicalCallerID (Fork.destination r)) (o_callID s) (o_events s)) as [F1 F2].
  fold fw in F1, F2. destruct (end_call_hangups d (o_ending s)) as [E1 E2], (hangups_losers losers) as [L1 L2].
  assert (hangups (ready_in_time s) = [] /\ closes (ready_in_time s) = [] /\ hangups (ready_late s) = [] /\ closes (ready_late s) = [])
    as (R1 & R2 & R3 & R4) by (unfold ready_in_time, ready_late; by destruct (o_ready s)).
  change (Upd start :: ?l) with ([Upd start] ++ l).
  split.
  - rewrite !hangups_app, F1, E1, L1, R1, R3. change (hangups [fin; CancelCall]) with (@nil outboundCandidate).
    change (hangups [CloseConn d]) with (@nil outboundCandidate).
    replace (hangups (if rtsp then [CloseFF] else [])) with (@nil outboundCandidate) by (by destruct rtsp).
    rewrite !app_nil_r. destruct (by_peer (o_ending s)); [right|left]; by destruct rtsp.
  - rewrite !closes_app, F2, E2, L2, R2, R4. change (closes [fin; CancelCall]) with (@nil outboundCandidate).
    replace (closes (if rtsp then [CloseFF] else [])) with (@nil outboundCandidate) by (by destruct rtsp).
    rewrite app_nil_r. transitivity (losers ++ [d]); [by destruct rtsp|]. by rewrite Permutation_app_comm.
  - assert (forall a : act outboundCandidate, a = OpenFF \/ a = CloseFF ->
      a ∉ ready_in_time s /\ a ∉ ready_late s /\ a ∉ fw /\ a ∉ flat_map hangup_candidate losers /\ a ∉ end_call d (o_ending s)) as H.
    { intros a Ha. split_and!.
      - unfold ready_in_time. destruct (o_ready s); destruct Ha as [-> | ->]; set_solver.
      - unfold ready_late. destruct (o_ready s); destruct Ha as [-> | ->]; set_solver.
      - by apply not_forwarded.
      - apply not_losers. by destruct Ha as [-> | ->].
      - destruct (o_ending s), Ha as [-> | ->]; set_solver. }
    pose proof (H OpenFF (or_introl eq_refl)). pose proof (H CloseFF (or_intror eq_refl)). destruct rtsp; set_solver.
  - set_solver.
  - intros v. rewrite !snapshot_app. set (x := snapshot_after (flat_map _ _) _).
    pose proof (finishCall_closing (o_ended s) (final_error (o_ending s)) x) as [Hx _].
    unfold ready_late. destruct rtsp, (o_ready s); try exact Hx; destruct Hx as ([Hst|Hst] & Hx);
      (split; [cbn -[finishCall]; unfold outgoing_ready; cbn -[finishCall]; rewrite Hst; auto|]); cbn -[finishCall] in *;
      unfold outgoing_ready; destruct (decide _); exact Hx.
  - intros v. rewrite !snapshot_app. set (x := snapshot_after (flat_map _ _) _).
    pose proof (finishCall_closing (o_ended s) (final_error (o_ending s)) x) as [_ Hx].
    unfold ready_late. by destruct rtsp, (o_ready s).
Qed.
Lemma winner_accounted cfg s r d losers start : is_Some (call d) -> is_Some (rtpConn d) ->
  accounted s (d :: losers) (Upd start :: take_winner cfg s r d losers).
Proof.
  intros [c Hc] [p Hp]. unfold take_winner. rewrite Hc, Hp.
  destruct (decide (Config.ReceiveMode cfg = "rtsp")); [|by apply (run_accounted s r d losers false)].
  destruct (o_ff s) as [err|]; [|by apply (run_accounted s r d losers true)].
  destruct (hangups_losers losers) as [L1 L2]. set (fn := recordCallError _ _).
  assert (closing fn) as Hfn by apply recordCallError_closing.
  assert (no_update [CloseConn d]) as Hk by (repeat constructor).
  pose proof (fun v => snapshot_ends (Upd start :: [HangUp d] ++ flat_map hangup_candidate losers) fn [CloseConn d] v Hfn Hk) as Hv.
  split.
  - left. change (Upd start :: ?l) with ([Upd start] ++ l). rewrite !hangups_app, L1. cbn. by rewrite app_nil_r.
  - change (Upd start :: ?l) with ([Upd start] ++ l). rewrite !closes_app, L2. cbn. by rewrite Permutation_app_comm.
  - pose proof (not_losers OpenFF losers I). pose proof (not_losers CloseFF losers I). set_solver.
  - pose proof (not_losers RunMedia losers I). set_solver.
  - intros v. apply Hv.
  - intros v. destruct (o_ready s); [apply Hv|apply Hv|done].
Qed.

Lemma dialled_candidate l o d : Fork.established (dial_leg l o) = Some d -> is_Some (call d) /\ is_Some (rtpConn d).
Proof. destruct o; cbn; [done|done|]. intros [= <-]. split; eauto. Qed.
Lemma reported_results legs s : o_ctx s = None -> reported legs s ->
  length (Fork.results (o_arrivals s)) = length legs /\
  forall r d, r ∈ Fork.results (o_arrivals s) -> Fork.established r = Some d -> is_Some (call d) /\ is_Some (rtpConn d).
Proof.
  unfold reported. intros ->. intros (outcomes & Hl & Hp). split.
  - rewrite Hp, length_zip_with. lia.
  - intros r d Hr Hd. rewrite Hp in Hr. apply elem_of_lookup_zip_with in Hr as (i & l & o & -> & _ & _).
    exact (dialled_candidate l o d Hd).
Qed.

(** C7: an outgoing call leaves nothing behind.  Whatever the legs report in
    whatever order, whenever the ringing time or the gateway ends, and however the
    call ends afterwards: the handler comes to an end; every dialog a leg had
    established is hung up exactly once, except the one whose call the other side
    ended; every such dialog's RTP port is closed, and the port for FFmpeg and the
    media session if they were opened; and the status ends in idle or error with
    no call in it - and with no media in it, unless the media became ready at the
    moment the call ended. *)
Theorem outgoing_call_accounted (cfg : Config.Config) (route : Config.ResolvedCallRoute) (s : outgoing) :
  reported (legs_of cfg route s) s ->
  exists l, handleCall cfg route s = Some l /\ accounted s (Fork.dialogs (o_arrivals s)) l.
Proof.
  unfold legs_of, handleCall. set (start := begin_outgoing _ _ _). set (legs := outboundDialLegs _ _ _ _).
  assert (forall fn, reported [] s -> closing fn -> accounted s (Fork.dialogs (o_arrivals s)) [Upd start; Upd fn]) as Hnone.
  { intros fn Hr Hfn. assert (Fork.dialogs (o_arrivals s) = []) as ->.
    { unfold reported in Hr. destruct (o_ctx s); [by rewrite Hr|]. destruct Hr as (o & _ & Hr). cbn in Hr.
      apply Permutation_nil_r in Hr. unfold Fork.dialogs. by rewrite Hr. }
    split; [by left|done|set_solver|set_solver|intros v; apply Hfn|intros v; destruct (o_ready s); [apply Hfn|apply Hfn|done]]. }
  destruct (Config.DryRun cfg).
  { intros Hr. eexists. split; [reflexivity|]. apply Hnone; auto with calls. }
  intros Hr. destruct legs as [|l0 legs0] eqn:El.
  { eexists. split; [reflexivity|]. apply Hnone; auto with calls. }
  rewrite <- El in *. unfold Fork.DialFirst. destruct (o_ctx s) as [e|] eqn:Ec.
  { eexists. split; [reflexivity|]. unfold reported in Hr. rewrite Ec in Hr. rewrite Hr. exact (failed_accounted s [] start e). }
  destruct (reported_results legs s Ec Hr) as [Hl Hd].
  set (L := map _ legs). assert (length L = length legs) as HL by (by apply length_map).
  assert (filter (fun l => l.2 = false) L = []) as Hf.
  { apply Fork.all_dialable. subst L. clear. by induction legs; constructor. }
  destruct L as [|l1 L1] eqn:EL; [by rewrite El in HL|]. rewrite Hf, HL.
  destruct (Fork.select_loop_settles (o_arrivals s) (length legs) []) as [[v h] Hs]; [lia|].
  rewrite Hs. apply Fork.select_loop_spec in Hs; [|done]. destruct v as [r d|e|fs].
  - destruct Hs as (He & Hin & _ & ->). eexists. split; [reflexivity|]. destruct (Hd r d Hin He). by apply winner_accounted.
  - destruct Hs as (_ & ->). eexists. split; [reflexivity|]. apply failed_accounted.
  - destruct Hs as (-> & -> & _). eexists. split; [reflexivity|]. exact (failed_accounted s [] start _).
Qed.
End outgoing.

(** ** The incoming call *)

Section incoming.
Import SipDialog.
Context `{U : Unicode} {IPs : NetIP} {F : @Config.IPFamily IPs}.

(** What the handler does about its INVITE: answer, reject, or nothing. *)
Definition decision (cfg : Config.Config) (a : arrival) : option bool :=
  match i_port a, (if decide (Config.ReceiveMode cfg = "rtsp") then i_ff a else None), i_prepared a with
  | None, None, MediaReady _ _ _ => Some true
  | None, None, CallOver _ => None
  | _, _, _ => Some false
  end.
(** Ports and, for the RTSP paths, FFmpeg are there. *)
Definition opened (cfg : Config.Config) (a : arrival) : Prop :=
  i_port a = None /\ (Config.ReceiveMode cfg = "rtsp" -> i_ff a = None).
Lemma decision_answers cfg a : decision cfg a = Some true <-> opened cfg a /\ exists info es e, i_prepared a = MediaReady info es e.
Proof. unfold decision, opened. destruct (i_port a), (decide (Config.ReceiveMode cfg = "rtsp")), (i_ff a), (i_prepared a); naive_solver. Qed.
Lemma decision_leaves cfg a : decision cfg a = None <-> opened cfg a /\ exists deadline, i_prepared a = CallOver deadline.
Proof. unfold decision, opened. destruct (i_port a), (decide (Config.ReceiveMode cfg = "rtsp")), (i_ff a), (i_prepared a); naive_solver. Qed.
Definition ending_of (a : arrival) : option ending := match i_prepared a with MediaReady _ _ e => Some e | _ => None end.

Lemma finish_invite q c p i : invites c !! p = Some i ->
  sent (finish q c) = sent c /\ exists i', invites (finish q c) !! p = Some i' /\
    istate i' = istate i /\ lastResponse i' = lastResponse i.
Proof.
  intros Hi. unfold finish. destruct (calls c !! q) as [call|]; [|split; eauto].
  destruct (finished call); [split; eauto|]. destruct (_ && _), (incoming call) as [k|]; cbn; (split; [done|]); eauto.
  all: destruct (decide (k = p)) as [->|Hne]; [rewrite !lookup_alter_eq, Hi; cbn; eauto|rewrite !lookup_alter_ne by done; eauto].
Qed.

(** [Answer] and [Reject] on an INVITE the client knows. *)
Lemma Answer_decides p port now ok c i call : invites c !! p = Some i -> calls c !! icall i = Some call -> 1 <= port <= 65535 ->
  let '(r, c') := Answer p port now ok c in
  safe r /\
  if decide (istate i = incomingPending) then
    is_ok r = ok /\ exists i', invites c' !! p = Some i' /\ istate i' = incomingAnswered /\
      sent c' = sent c ++ (if ok then [(lastResponse i', source i)] else [])
  else is_ok r = false /\ c' = c.
Proof.
  intros Hi Hc Hp. unfold Answer. rewrite (proj2 (orb_false_iff _ _)) by (rewrite !Z.ltb_ge; lia). rewrite Hi, Hc.
  destruct (decide (istate i = incomingPending)); [|split; [apply err_safe|done]].
  destruct ok; cbn -[Sdp.answerSDP SipText.buildResponse SipText.contactLine]; (split; [apply ok_safe || apply err_safe|]).
  - split; [done|]. eexists. split; [apply lookup_insert_eq|]. done.
  - split; [done|]. match goal with |- context [finish _ ?w] => set (c1 := w) end.
    destruct (finish_invite (icall i) c1 p _ (lookup_insert_eq _ _ _)) as (Hs & i' & H1 & H2 & H3).
    exists i'. rewrite Hs, app_nil_r. done.
Qed.
Lemma reject_decides p c i call : invites c !! p = Some i -> calls c !! icall i = Some call ->
  let c' := reject_unavailable p c in
  if decide (istate i = incomingPending) then
    exists i', invites c' !! p = Some i' /\ istate i' = incomingRejected /\ sent c' = sent c ++ [(lastResponse i', source i)]
  else c' = c.
Proof.
  intros Hi Hc. unfold reject_unavailable, Reject. change ((480 <? 400) || (699 <? 480)) with false. cbn [negb]. rewrite Hi, Hc.
  destruct (decide (istate i = incomingPending)); [|done]. cbn -[SipText.buildResponse].
  match goal with |- context [finish _ ?w] => set (c1 := w) end.
  destruct (finish_invite (icall i) c1 p _ (lookup_insert_eq _ _ _)) as (Hs & i' & H1 & H2 & H3).
  eexists. rewrite lookup_alter_eq, H1. split; [reflexivity|]. cbn. rewrite H2, H3, Hs. done.
Qed.

(** A list of actions that ends with an update that ends the call, and closes no port. *)
Definition ends_call (l : list (act nat)) : Prop :=
  (exists pre fn, l = pre ++ [Upd fn] /\ closing fn) /\ closes l = [] /\ OpenFF ∉ l /\ CloseFF ∉ l.
Lemma ends_call_intro pre fn : closing fn -> closes pre = [] -> OpenFF ∉ pre -> CloseFF ∉ pre -> ends_call (pre ++ [Upd fn]).
Proof. intros H1 H2 H3 H4. split; [by exists pre, fn|]. rewrite closes_app, H2. set_solver. Qed.

Lemma prepared_spec p a c i cl : invites c !! p = Some i -> calls c !! icall i = Some cl -> 1 <= i_rtpPort a <= 65535 ->
  let '(l, c') := prepared_call p a c in
  ends_call l /\
  c' = match i_prepared a with
       | MediaReady _ _ _ => (Answer p (i_rtpPort a) (i_now a) (i_write_ok a) c).2
       | CallOver _ => c
       | _ => reject_unavailable p c
       end /\
  hangups l = match i_prepared a with
              | MediaReady _ _ e => if bool_decide (istate i = incomingPending) && i_write_ok a && negb (by_peer e) then [p] else []
              | _ => []
              end.
Proof.
  intros Hi Hc Hp. unfold prepared_call, unavailable. destruct (i_prepared a) as [info es e|err|err|deadline].
  - pose proof (Answer_decides p (i_rtpPort a) (i_now a) (i_write_ok a) c i cl Hi Hc Hp) as HA.
    destruct (Answer p _ _ _ c) as [r c']. destruct HA as [Hs HA]. cbn [snd].
    assert (is_ok r = bool_decide (istate i = incomingPending) && i_write_ok a) as <-.
    { destruct (decide (istate i = incomingPending)) as [E|E]; destruct HA as [HA _];
        [rewrite bool_decide_true by done|rewrite bool_decide_false by done]; exact HA. }
    destruct r as [[]|err|]; cbn [is_ok andb]; [| |by destruct Hs].
    + destruct (forward_quiet (D := nat) "incoming" (i_caller a) (i_callID a) es) as [F1 F2]. destruct (end_call_hangups p e) as [E1 E2].
      set (fw := map (forward _ _ _) es) in *.
      assert (forall x, x = OpenFF \/ x = CloseFF -> x ∉ fw /\ x ∉ end_call p e) as Hx.
      { intros x Hx. split; [intros [y [Hy _]]%list_elem_of_fmap; by destruct Hx as [-> | ->], y|].
        destruct e, Hx as [-> | ->]; set_solver. }
      pose proof (Hx OpenFF (or_introl eq_refl)). pose proof (Hx CloseFF (or_intror eq_refl)). split.
      * rewrite !app_assoc. apply ends_call_intro; [auto with calls|by rewrite !closes_app, F2, E2|set_solver|set_solver].
      * split; [done|]. rewrite !hangups_app, F1, E1. by destruct (by_peer e).
    + split; [|done]. apply (ends_call_intro [CancelCall]); try set_solver. destruct (errorIs _ _); auto with calls.
  - split; [|done]. apply (ends_call_intro [CancelCall]); auto with calls; set_solver.
  - split; [|done]. apply (ends_call_intro [CancelCall]); try set_solver.
    destruct err as [e|]; [destruct (errorIs _ _)|]; auto with calls.
  - destruct deadline; (split; [|done]); apply (ends_call_intro [CancelCall]); auto with calls; set_solver.
Qed.

(** C10: what becomes of an incoming call.  Once the media session runs, whatever
    becomes of it, of the call and of the context, and if ports are missing: the
    handler answers its INVITE exactly when the ports are there and the media is
    ready, and rejects it when they are not or the media fails or the context ends,
    with one final response if the INVITE is still pending and none if it was cancelled
    meanwhile.  In one case, and in that one only, it neither answers nor rejects but
    leaves the INVITE as it is: the call is over before the media is ready.  After
    a CANCEL the INVITE has had its 487 by then; after an early BYE it stays without a
    final response ([early_bye_unanswered]).  In every case the answered call is hung
    up unless the other side ended it, the ports and the media session are closed,
    and the status ends in idle or error with no call and no media in it. *)
Theorem incoming_call_settled (p : nat) (cfg : Config.Config) (a : arrival) (c : client) (i : IncomingInvite) (cl : Call) :
  invites c !! p = Some i -> calls c !! icall i = Some cl -> 1 <= i_rtpPort a <= 65535 ->
  let '(l, c') := handleIncomingCall p cfg a c in
  (decision cfg a = Some true <-> opened cfg a /\ exists info es e, i_prepared a = MediaReady info es e) /\
  (decision cfg a = None <-> opened cfg a /\ exists deadline, i_prepared a = CallOver deadline) /\
  (match decision cfg a with
   | Some answers =>
     if decide (istate i = incomingPending) then
       exists i', invites c' !! p = Some i' /\ istate i' = (if answers then incomingAnswered else incomingRejected) /\
         sent c' = sent c ++ (if answers && negb (i_write_ok a) then [] else [(lastResponse i', source i)])
     else c' = c
   | None => c' = c
   end) /\
  hangups l = (if bool_decide (decision cfg a = Some true) && bool_decide (istate i = incomingPending) && i_write_ok a &&
                  negb (match ending_of a with Some e => by_peer e | None => false end) then [p] else []) /\
  closes l = (match i_port a with Some _ => [] | None => [p] end) /\ (OpenFF ∈ l <-> CloseFF ∈ l) /\
  (RunMedia ∈ l -> CancelCall ∈ l) /\
  forall v, call_cleared (snapshot_after l v) /\ media_cleared (snapshot_after l v).
Proof.
  intros Hi Hc Hp. pose proof (decision_answers cfg a) as HD1. pose proof (decision_leaves cfg a) as HD2. revert HD1 HD2.
  unfold handleIncomingCall, decision, ending_of. set (start := begin_incoming _ _ _ _).
  pose proof (reject_decides p c i cl Hi Hc) as HR. cbv zeta in HR.
  assert (forall e k, no_update k -> forall v, let l := (Upd start :: [Upd (recordIncomingCallError (i_ended a) e)] ++ k : list (act nat)) in
    call_cleared (snapshot_after l v) /\ media_cleared (snapshot_after l v)) as Hv.
  { intros e k Hk v. apply (snapshot_ends [Upd start]); auto with calls. }
  destruct (i_port a) as [e|].
  { intros HD1 HD2. do 2 (split; [done|]). split; [exact HR|]. do 2 (split; [done|]). split; [set_solver|]. split; [set_solver|]. intros v. apply (Hv _ [] (Forall_nil_2 _)). }
  destruct (if decide _ then i_ff a else None) as [e|].
  { intros HD1 HD2. do 2 (split; [done|]). split; [exact HR|]. do 2 (split; [done|]). split; [set_solver|]. split; [set_solver|]. intros v. apply (Hv _ [CloseConn p]). by repeat constructor. }
  pose proof (prepared_spec p a c i cl Hi Hc Hp) as HP. destruct (prepared_call p a c) as [l c'].
  destruct HP as (((pre & fn & -> & Hfn) & Hcl & HO & HC) & -> & Hh).
  set (rtsp := decide (Config.ReceiveMode cfg = "rtsp")). set (l := pre ++ [Upd fn]) in *.
  change (Upd start :: ?k) with ([Upd start] ++ k). rewrite !hangups_app, !closes_app, Hcl, Hh.
  assert (forall v, let k := [Upd start] ++ (if rtsp then [OpenFF] else []) ++ [RunMedia] ++ l ++ [CancelCall] ++
    (if rtsp then [CloseFF] else []) ++ [CloseConn p] in call_cleared (snapshot_after k v) /\ media_cleared (snapshot_after k v)) as Hend.
  { intros v. cbv zeta. subst l. rewrite !snapshot_app. cbn [snapshot_after foldl]. destruct rtsp; apply Hfn. }
  intros HD1 HD2. do 2 (split; [done|]). split; [|split; [|split; [by destruct rtsp|split; [|split; [|exact Hend]]]]].
  - pose proof (Answer_decides p (i_rtpPort a) (i_now a) (i_write_ok a) c i cl Hi Hc Hp) as HA.
    destruct (i_prepared a); try exact HR; [|done]. destruct (Answer p _ _ _ c) as [r c']. destruct HA as [_ HA]. cbn [snd].
    destruct (decide (istate i = incomingPending)); [|by destruct HA]. destruct HA as (_ & i' & H1 & H2 & H3).
    exists i'. split; [done|]. split; [done|]. rewrite H3. by destruct (i_write_ok a).
  - destruct (i_prepared a) as [info es e|err|err|dl]; cbn; try (by destruct rtsp).
    rewrite app_nil_r. by destruct rtsp; rewrite ?app_nil_r.
  - clear -HO HC. destruct rtsp; set_solver.
  - intros _. rewrite !elem_of_app, !list_elem_of_singleton. tauto.
Qed.
End incoming.

(** * Witnesses *)

#[local] Existing Instances ascii_tables Sdp.Sdp.text_addresses SipDialog.SipDialog.literal_resolver Config.eta_config.
#[local] Instance one_family : @Config.IPFamily Sdp.Sdp.text_addresses := { is_IPv4 := fun _ => true }.

Definition two_numbers : Config.ResolvedCallRoute :=
  Config.mkResolved "default" "Standardroute" "binary_sensor.visitor" "11" [Config.mkTarget "1" "Mobilziel 1" "0176"].
Definition both_lines : Config.Config :=
  Config.Defaults <| Config.DryRun := false |> <| Config.ParallelCallEnabled := true |> <| Config.ResolvedReolinkMode := "nvr" |>.
Definition camera : SessionInfo := mkInfo "baichuan" "ADPCM" "baichuan" "AAC" "webrtc".
(** The mobile answers first, the door phone at the same moment; the mobile hangs up. *)
Definition both_answer (ready : readiness) : outgoing :=
  mkOutgoing 1 9 (Some true) (Some true) None
    [Fork.Result (dial_leg (mkLeg "mobile_1" "0176" MobileLine) (Established 2 7));
     Fork.Result (dial_leg (mkLeg "door" "11" DoorLine) (Established 1 5))]
    false None "PCMA" "c1" ready [] (CallDone None (Some (Some (mkError "context canceled" [Canceled])))).
Lemma both_reported ready : reported (legs_of both_lines two_numbers (both_answer ready)) (both_answer ready).
Proof. exists [Established 1 5; Established 2 7]. split; [reflexivity|]. apply Permutation_swap. Qed.

Lemma outgoing_call_accounted_witness :
  exists l, handleCall both_lines two_numbers (both_answer (ReadyInTime camera)) = Some l /\
    hangups l = [mkCandidate (Some 1%nat) (Some 5%nat)] /\ forall v, call_cleared (snapshot_after l v).
Proof.
  destruct (outgoing_call_accounted both_lines two_numbers (both_answer (ReadyInTime camera)) (both_reported _)) as (l & H & Hl).
  exists l. split; [exact H|]. split; [|exact (acc_call _ _ _ Hl)]. vm_compute in H. injection H as <-. reflexivity.
Defined.

(** The status of a call whose media became ready as it ended: idle, with media. *)
Lemma late_media_lingers :
  exists l, handleCall both_lines two_numbers (both_answer (ReadyLate camera)) = Some l /\
    let v := snapshot_after l zero_snapshot in State v = "idle" /\ CurrentCallDirection v = "" /\ ActiveTalkback v = "baichuan".
Proof. eexists. split; [vm_compute; reflexivity|]. by vm_compute. Qed.

Section witnesses.
Import SipDialog.
Definition ready_call (prepared : preparation) : arrival :=
  mkArrival 1 9 "0163" "PCMA" "c1" None 4002 None prepared 7 true.
Lemma incoming_call_settled_witness :
  exists c c' l i, play door rung = Some c /\
    handleIncomingCall 1 both_lines (ready_call (MediaReady camera [] (CtxDone true false None (Some None)))) c = (l, c') /\
    invites c' !! 1%nat = Some i /\ istate i = incomingAnswered /\ hangups l = [1%nat].
Proof.
  assert (match play door rung with
          | Some c => match invites c !! 1%nat with
                      | Some i => bool_decide (istate i = incomingPending) && bool_decide (is_Some (calls c !! icall i))
                      | None => false
                      end
          | None => false
          end = true) as H by (vm_compute; reflexivity).
  destruct (play door rung) as [c|]; [|done]. destruct (invites c !! 1%nat) as [i|] eqn:Hi; [|done].
  apply andb_prop in H as [Hp%bool_decide_eq_true H%bool_decide_eq_true]. destruct (calls c !! icall i) as [cl|] eqn:Hc; [|by destruct H].
  set (a := ready_call _).
  pose proof (incoming_call_settled 1 both_lines a c i cl Hi Hc) as Hw.
  destruct (handleIncomingCall 1 both_lines a c) as [l c'] eqn:E. destruct Hw as (_ & _ & H1 & H2 & _); [split; apply Z.leb_le; reflexivity|].
  assert (decision both_lines a = Some true) as Hd by reflexivity. rewrite Hd, decide_True in H1 by exact Hp.
  destruct H1 as (i' & Hi' & Hs & _). exists c, c', l, i'. rewrite Hd, (bool_decide_true _ Hp) in H2.
  split; [reflexivity|]. split; [exact E|]. split; [exact Hi'|]. split; [exact Hs|exact H2].
Defined.

(** A caller that hangs up with BYE before the answer gets no final response to
    its INVITE: BYE only ends the call, and the handler then leaves the INVITE
    pending. *)
Lemma early_bye_unanswered :
  exists c i cl, play door (rung ++ [GotRequest (offer_as "BYE") pbx]) = Some c /\ invites c !! 1%nat = Some i /\
    istate i = incomingPending /\ calls c !! icall i = Some cl /\ finished cl = true /\
    (handleIncomingCall 1 both_lines (ready_call (CallOver None)) c).2 = c.
Proof.
  assert (match play door (rung ++ [GotRequest (offer_as "BYE") pbx]) with
          | Some c => match invites c !! 1%nat with
                      | Some i => bool_decide (istate i = incomingPending) &&
                                  match calls c !! icall i with Some cl => finished cl | None => false end
                      | None => false
                      end
          | None => false
          end = true) as H by (vm_compute; reflexivity).
  destruct (play door _) as [c|]; [|done]. destruct (invites c !! 1%nat) as [i|] eqn:Hi; [|done].
  apply andb_prop in H as [Hp%bool_decide_eq_true H]. destruct (calls c !! icall i) as [cl|] eqn:Hc; [|done].
  by exists c, i, cl.
Qed.
End witnesses.
End CallHandlers.
