(* ===== verification/MediaSession.v ===== *)
(** The media of one call ([internal/media/session.go], [Run]): the start of the echo canceller, the talkback and
    the camera's audio, the workers that carry the audio, and how everything ends.

    What the calls return is the input.  The workers run concurrently: each returns whenever it does and hands its
    error over through a bounded channel.  The loops themselves are in [CameraBridge] and [PhoneBridge].
    Messages leave out values the code quotes. *)
From S2P Require Import Prelude GoBytes GoStrings GoText Packetizer Sdp G711 Config CallHandlers Talkback.

Module MediaSession.
Import CallHandlers.

(** * Data *)

Record ReceiveInfo := mkReceive { Mode : string; Details : string }.
Record SessionInfo := mkSessionInfo { Talkback : Talkback.TalkbackInfo; Receive : ReceiveInfo; EchoCancellation : string }.

(** What a session opens, and the goroutines it starts. *)
Inductive resource := EchoHelper | RtpSocket | FFSocket | TalkbackLink | FFmpeg | Receiver.
Inductive worker := CameraForwarder | FFmpegWatch | BaichuanForwarder | TalkbackLoop.
#[export] Instance resource_eq : EqDecision resource. Proof. solve_decision. Defined.
Inductive action :=
| Opened (r : resource) | Closed (r : resource) | PlayTone | Drain (packets : nat)
| Spawn (w : worker) | SignalReady (info : SessionInfo) | CancelRun | Joined.

(** The result of the connection tone: none for the rate, or what [PlayPCM] returned. *)
Inductive tone := NoTone | Tone (e : option error).
(** What ended the wait for the camera's audio. *)
Inductive readiness := RReady (details : string) | RReadyClosed | RDone (e : option error) | RTimeout | RCancelled (e : error).

Record env := mkEnv {
  rtpConn : bool;  (** the sockets are prepared *)
  ffConn : bool;
  lookPath : option error;
  startEcho : option error;
  openTalkback : error + Talkback.TalkbackInfo;
  IsInbound : bool;
  toneResult : tone;
  startFFmpegResult : option error;
  openReceiver : option error;
  receiverReady : readiness;
  sip_socket : nat -> PreAnswer.turn;
  reset_error : option string;
}.

(** * The monad: what was done, and the deferred calls, the last first *)

Record st := mkSt { trace : list action; defers : list action }.
Definition M (A : Type) : Type := st -> (error + A) * st.
#[local] Instance m_ret : MRet M := fun A a s => (inr a, s).
#[local] Instance m_bind : MBind M := fun A B f m s => match m s with (inl e, s) => (inl e, s) | (inr a, s) => f a s end.
Definition act (a : action) : M unit := fun s => (inr tt, mkSt (trace s ++ [a]) (defers s)).
Definition acts (l : list action) : M unit := fun s => (inr tt, mkSt (trace s ++ l) (defers s)).
Definition defer (a : action) : M unit := fun s => (inr tt, mkSt (trace s) (a :: defers s)).
Definition throw {A} (e : error) : M A := fun s => (inl e, s).
(** [if err != nil { cleanup; return ... }]. *)
Definition check (e : option error) (cleanup : list action) (context : string) : M unit :=
  match e with None => mret tt | Some e => _ ← acts cleanup; throw (if decide (context = "") then e else wrapped context e) end.
Definition plain (s : string) : error := mkError s [].

Section session.
Context `{U : Unicode}.

(** [baichuan.ParseStream]. *)
Definition ParseStream (v : string) : result string :=
  let s := ToLower (TrimSpace v) in
  if bool_decide (s = "main") || bool_decide (s = "mainstream") then Ok "mainStream"
  else if bool_decide (s = "sub") || bool_decide (s = "substream") then Ok "subStream"
  else if bool_decide (s = "extern") || bool_decide (s = "externstream") then Ok "externStream"
  else Err "unsupported Baichuan preview stream".
Definition BaichuanReceiveStream : string := "sub".

(** * [Run], up to the workers *)

Definition start_echo (cfg : Config.Config) (e : env) : M bool :=
  if Config.EchoCancellationEnabled cfg then
    _ ← check (startEcho e) [] "start WebRTC echo cancellation";
    _ ← act (Opened EchoHelper);
    _ ← defer (Closed EchoHelper);
    mret true
  else mret false.
Definition play_tone (cfg : Config.Config) (e : env) (info : Talkback.TalkbackInfo) : M unit :=
  if IsInbound e && Config.IncomingConnectionToneEnabled cfg then
    match toneResult e with
    | NoTone => check (Some (plain ("generate incoming-call connection tone at " +:+ Itoa (Talkback.SampleRate info) +:+ " Hz"))) [Closed TalkbackLink] ""
    | Tone r => _ ← act PlayTone; check r [Closed TalkbackLink] "play incoming-call connection tone"
    end
  else mret tt.
(** [cleanupReceive], once the receive side has been opened. *)
Definition cleanupReceive (rtsp : bool) : list action := if rtsp then [Closed FFmpeg] else [Closed Receiver].
Definition open_receive (cfg : Config.Config) (e : env) : M ReceiveInfo :=
  if decide (Config.ReceiveMode cfg = "rtsp") then
    _ ← check (startFFmpegResult e) [Closed TalkbackLink] "";
    _ ← act (Opened FFmpeg);
    mret (mkReceive "rtsp" ("RTSP " +:+ Config.ReolinkStreamPath cfg))
  else if decide (Config.ReceiveMode cfg = "baichuan") then
    _ ← match ParseStream BaichuanReceiveStream with
        | Ok _ => mret tt
        | Err x => check (Some (plain x)) [Closed TalkbackLink] ""
        | Panic => throw (plain "panic")
        end;
    _ ← check (openReceiver e) [Closed TalkbackLink] "open Baichuan camera receive";
    _ ← act (Opened Receiver);
    let early := plain "Baichuan receive ended before audio became ready" in
    let fail x context := _ ← check (Some x) (cleanupReceive false ++ [Closed TalkbackLink]) context; throw x in
    match receiverReady e with
    | RReady details => mret (mkReceive "baichuan" details)
    | RReadyClosed => fail early ""
    | RDone x => fail (default early x) "Baichuan camera receive"
    | RTimeout => fail (plain "no Baichuan camera audio detected within 10 seconds") ""
    | RCancelled x => fail x ""
    end
  else _ ← acts [Closed TalkbackLink]; throw (plain ("unsupported receive mode " +:+ Config.ReceiveMode cfg)).
Definition drain (rtsp : bool) (e : env) : M unit :=
  let o := PreAnswer.discardQueuedSIPRTP (Some (sip_socket e)) (reset_error e) in
  _ ← act (Drain (PreAnswer.discarded o));
  check (option_map plain (PreAnswer.error o)) (cleanupReceive rtsp ++ [Closed TalkbackLink]) "discard queued pre-answer SIP RTP".
Definition echo_text (cfg : Config.Config) (on : bool) : string :=
  if on then "native WebRTC APM, " +:+ Itoa (Config.AECInitialDelayMS cfg) +:+ " ms fixed coarse delay, tracking=false" else "off".
Definition workers_of (rtsp : bool) : list worker :=
  (if rtsp then [CameraForwarder; FFmpegWatch] else [BaichuanForwarder]) ++ [TalkbackLoop].

(** The session is started: its goroutines run and [Ready] was signalled. *)
Definition setup (cfg : Config.Config) (e : env) : M unit :=
  let rtsp := bool_decide (Config.ReceiveMode cfg = "rtsp") in
  _ ← check (if rtpConn e then None else Some (plain "SIP RTP socket is not prepared")) [] "";
  _ ← check (if rtsp && negb (ffConn e) then Some (plain "ffmpeg RTP socket is not prepared") else None) [] "";
  _ ← check (lookPath e) [] "ffmpeg not found";
  _ ← defer CancelRun;
  echo ← start_echo cfg e;
  _ ← defer (Closed RtpSocket);
  _ ← (if ffConn e then defer (Closed FFSocket) else mret tt);
  info ← (match openTalkback e with inl x => throw (wrapped "open Reolink talkback" x) | inr i => _ ← act (Opened TalkbackLink); mret i end);
  _ ← play_tone cfg e info;
  recv ← open_receive cfg e;
  _ ← drain rtsp e;
  _ ← acts (map Spawn (workers_of rtsp));
  act (SignalReady (mkSessionInfo info recv (echo_text cfg echo))).
End session.
(** * FFmpeg and the stream's start *)

Definition buildFFmpegArgs (inputURL : string) (port : Z) (codec : string) : list string :=
  let '(encoder, pt) := if decide (codec = G711.PCMU) then ("pcm_mulaw", "0") else ("pcm_alaw", "8") in
  ["-hide_banner"; "-nostdin"; "-loglevel"; "warning"; "-timeout"; "10000000"; "-rtsp_transport"; "tcp"; "-fflags"; "nobuffer"; "-flags"; "low_delay";
   "-i"; inputURL; "-map"; "0:a:0"; "-vn"; "-ac"; "1"; "-ar"; "8000"; "-c:a"; encoder; "-f"; "rtp"; "-payload_type"; pt;
   "rtp://127.0.0.1:" +:+ Itoa port +:+ "?pkt_size=172"].
(** What the goroutine of [startFFmpeg] reports when the process is over. *)
Definition ffmpeg_end (ctxErr waitErr scanErr : option error) : error :=
  match ctxErr, waitErr, scanErr with
  | Some e, _, _ => e
  | None, Some e, _ => wrapped "ffmpeg exited" e
  | None, None, Some e => wrapped "read ffmpeg stderr" e
  | None, None, None => plain "ffmpeg exited unexpectedly"
  end.
(** [randomRTPState] of ten random bytes, or of the time when there are none: sequence number, timestamp, SSRC. *)
Definition randomRTPState (r : option bytes) (nanos : Z) : Z * Z * Z :=
  match r with
  | Some b => (be_dec (take 2 b), be_dec (take 4 (drop 2 b)), be_dec (take 4 (drop 6 b)))
  | None => let n := u64 nanos in (u16 n, u32 (Z.shiftr n 16), u32 (Z.shiftr n 32))
  end.
(** The status callback: the one-place mailbox holds the latest delay. *)
Definition post_status (update : Z) (aecStatus : list Z) : list Z :=
  if (length aecStatus <? 1)%nat then aecStatus ++ [update]
  else let rest := drop 1 aecStatus in if (length rest <? 1)%nat then rest ++ [update] else rest.

(** * [Run], from the workers on *)

(** A worker carries audio; its function has returned an error and waits to hand it over; it is gone. *)
Inductive wstate := Running | Sending (e : option error) | Exited.
(** The session waits for the first error or its context; it has ended everything and waits for the workers; it has returned. *)
Inductive pc := Selecting | Winding (e : option error) | Finished (r : option error).
Record state := mkState {
  workers : list (worker * wstate);
  errCh : list (option error);   (** capacity 4 *)
  ctx : option error;            (** the session's context: why it ended *)
  main : pc;
  log : list action;
}.
#[export] Instance eta_state : Eta state := fun s => mkState (workers s) (errCh s) (ctx s) (main s) (log s).
Definition errChCapacity : nat := 4.

Inductive move := Returns (i : nat) (e : option error) | Sends (i : nat) | ContextDone (e : error) | TakeError | SeeContext | Join.

Definition set_worker (i : nat) (w : worker) (x : wstate) (s : state) : state := s <| workers ::= <[i := (w, x)]> |>.
Definition exited (p : worker * wstate) : bool := match p.2 with Exited => true | _ => false end.
(** After the select: [cancelRun], the sockets, [cleanupReceive]. *)
Definition wind (rtsp ff : bool) (e : option error) (s : state) : state :=
  s <| main := Winding e |> <| log ::= fun l => l ++ [CancelRun; Closed RtpSocket] ++ (if ff then [Closed FFSocket] else []) ++ cleanupReceive rtsp |>.
Definition final (ctx err : option error) : option error :=
  let err := or_else ctx err in
  if errorIs err Canceled || errorIs err ErrClosed then None else err.

(** One step; [None] when the move is not possible in the state. *)
Definition step (rtsp ff : bool) (m : move) (s : state) : option state :=
  match m with
  | Returns i e =>
    match workers s !! i with Some (w, Running) => Some (set_worker i w (Sending e) s) | _ => None end
  | Sends i =>
    match workers s !! i with
    | Some (w, Sending e) =>
      if (length (errCh s) <? errChCapacity)%nat then Some (set_worker i w Exited s <| errCh ::= fun l => l ++ [e] |>) else None
    | _ => None
    end
  | ContextDone e => match ctx s, main s with None, (Selecting | Winding _) => Some (s <| ctx := Some e |>) | _, _ => None end
  | TakeError =>
    match main s, errCh s with Selecting, e :: rest => Some (wind rtsp ff e (s <| errCh := rest |>)) | _, _ => None end
  | SeeContext => match main s, ctx s with Selecting, Some e => Some (wind rtsp ff (Some e) s) | _, _ => None end
  | Join =>
    match main s with
    | Winding e =>
      if forallb exited (workers s)
      then Some (s <| main := Finished (final (ctx s) e) |> <| log ::= fun l => l ++ [Joined; Closed TalkbackLink] |>)
      else None
    | _ => None
    end
  end.
Fixpoint moves (rtsp ff : bool) (ms : list move) (s : state) : option state :=
  match ms with [] => Some s | m :: ms => match step rtsp ff m s with Some s => moves rtsp ff ms s | None => None end end.

Section run.
Context `{U : Unicode}.
(** The state when the goroutines have been started. *)
Definition started (rtsp : bool) (tr : list action) : state :=
  mkState (map (fun w => (w, Running)) (workers_of rtsp)) [] None Selecting tr.
(** [Run]: everything it did, and its result; [None] when [ms] is not a complete run.  [ms] matters once the workers run. *)
Definition Run (cfg : Config.Config) (e : env) (ms : list move) : option (list action * option error) :=
  match setup cfg e (mkSt [] []) with
  | (inl err, s) => Some (trace s ++ defers s, Some err)
  | (inr _, s) =>
    let rtsp := bool_decide (Config.ReceiveMode cfg = "rtsp") in
    match moves rtsp (ffConn e) ms (started rtsp (trace s)) with
    | Some t => match main t with Finished r => Some (log t ++ defers s, r) | _ => None end
    | None => None
    end
  end.
End run.
(** * Properties *)

(** ** Settling *)

Definition running (p : worker * wstate) : bool := match p.2 with Running => true | _ => false end.
Definition weight (p : worker * wstate) : nat := match p.2 with Running => 2 | Sending _ => 1 | Exited => 0 end.
(** How many moves are left. *)
Definition left_over (s : state) : nat :=
  (sum_list_with weight (workers s) + (if ctx s then 0 else 1) + match main s with Selecting => 2 | Winding _ => 1 | Finished _ => 0 end)%nat.
Definition gone (s : state) : nat := length (filter (fun p => exited p = true) (workers s)).

Lemma list_sum_insert (l : list (worker * wstate)) i p q :
  l !! i = Some p -> (sum_list_with weight (<[i := q]> l) + weight p = sum_list_with weight l + weight q)%nat.
Proof.
  revert i. induction l as [|x l IH]; intros [|i] H; simpl in *; [done|done| |].
  - injection H as ->. lia.
  - specialize (IH i H). lia.
Qed.
Lemma filter_insert (l : list (worker * wstate)) i p q :
  l !! i = Some p -> exited p = false ->
  length (filter (fun p => exited p = true) (<[i := q]> l)) =
  (length (filter (fun p => exited p = true) l) + (if exited q then 1 else 0))%nat.
Proof.
  revert i. induction l as [|x l IH]; intros [|i] H Hp; simpl in *; [done|done| |].
  - injection H as ->. rewrite !filter_cons, Hp. destruct (exited q); repeat case_decide; simpl; try congruence; lia.
  - rewrite !filter_cons. destruct (decide (exited x = true)); simpl; rewrite (IH i H Hp); lia.
Qed.

(** What holds of every state a session can be in; [tr] is what was done before the workers. *)
Record inv (rtsp ff : bool) (tr : list action) (s : state) : Prop := {
  inv_workers : map fst (workers s) = workers_of rtsp;
  inv_ch : (length (errCh s) <= gone s)%nat;
  inv_selecting : main s = Selecting -> length (errCh s) = gone s;
  inv_finished : (exists r, main s = Finished r) -> forallb exited (workers s) = true;
  inv_log : log s = tr ++
    match main s with
    | Selecting => []
    | Winding _ => [CancelRun; Closed RtpSocket] ++ (if ff then [Closed FFSocket] else []) ++ cleanupReceive rtsp
    | Finished _ => [CancelRun; Closed RtpSocket] ++ (if ff then [Closed FFSocket] else []) ++ cleanupReceive rtsp ++ [Joined; Closed TalkbackLink]
    end;
}.
Lemma inv_started rtsp ff tr : inv rtsp ff tr (started rtsp tr).
Proof.
  split; cbn [workers errCh main log started].
  - rewrite map_map. cbn. by rewrite map_id.
  - cbn. lia.
  - intros _. by destruct rtsp.
  - by intros [r [=]].
  - by rewrite app_nil_r.
Qed.
Lemma workers_insert (l : list (worker * wstate)) i w x y : l !! i = Some (w, x) -> map fst (<[i := (w, y)]> l) = map fst l.
Proof. revert i. induction l as [|p l IH]; intros [|i] H; simpl in *; [done|done| |]; [by injection H as ->|]. by rewrite (IH i H). Qed.
Lemma forallb_busy (l : list (worker * wstate)) i p : l !! i = Some p -> exited p = false -> forallb exited l = true -> False.
Proof. revert i. induction l as [|x l IH]; intros [|i] H Hp; simpl in *; [done|done| |]; [injection H as ->; by rewrite Hp|]. intros [_ ?]%andb_true_iff. by apply (IH i). Qed.

Lemma session_step_inv rtsp ff tr m s t : step rtsp ff m s = Some t -> inv rtsp ff tr s -> inv rtsp ff tr t.
Proof.
  intros H [I1 I2 I3 I4 I5]. unfold gone in *. destruct m as [i e|i|e| | |]; cbn [step] in H.
  - destruct (workers s !! i) as [[w []]|] eqn:E; [|done..]. injection H as <-. cbn. split; cbn; unfold gone; cbn.
    + by rewrite (workers_insert _ _ _ _ _ E).
    + rewrite (filter_insert _ _ _ _ E) by done. cbn. lia.
    + intros Hm. rewrite (filter_insert _ _ _ _ E) by done. cbn. rewrite I3 by done. lia.
    + intros Hm. destruct (forallb_busy _ _ _ E eq_refl (I4 Hm)).
    + done.
  - destruct (workers s !! i) as [[w []]|] eqn:E; [done| |done|done]. destruct (_ <? _)%nat; [|done]. injection H as <-.
    split; cbn; unfold gone; cbn.
    + by rewrite (workers_insert _ _ _ _ _ E).
    + rewrite (filter_insert _ _ _ _ E), length_app by done. cbn. lia.
    + intros Hm. rewrite (filter_insert _ _ _ _ E), length_app by done. cbn. rewrite I3 by done. lia.
    + intros Hm. destruct (forallb_busy _ _ _ E eq_refl (I4 Hm)).
    + done.
  - destruct (ctx s); [done|]. destruct (main s) eqn:Em; [| |done]; injection H as <-; split; cbn; unfold gone; cbn; rewrite ?Em in *; auto.
  - destruct (main s) eqn:Em; [|done..]. destruct (errCh s) as [|x rest] eqn:Ee; [done|]. injection H as <-.
    split; cbn; unfold gone; cbn; rewrite ?Em in *; try done; [cbn in I2; lia|by intros [r [=]]|]. rewrite I5. by rewrite app_nil_r.
  - destruct (main s) eqn:Em; [|done..]. destruct (ctx s); [|done]. injection H as <-.
    split; cbn; unfold gone; cbn; rewrite ?Em in *; try done; [by intros [r [=]]|]. rewrite I5. by rewrite app_nil_r.
  - destruct (main s) eqn:Em; [done| |done]. destruct (forallb exited (workers s)) eqn:Ef; [|done]. injection H as <-.
    split; cbn; unfold gone; cbn; rewrite ?Em in *; try done. rewrite I5. by rewrite <- !app_assoc.
Qed.
Lemma step_left rtsp ff m s t : step rtsp ff m s = Some t -> left_over s = S (left_over t).
Proof.
  intros H. unfold left_over. destruct m as [i e|i|e| | |]; cbn [step] in H.
  - destruct (workers s !! i) as [[w []]|] eqn:E; [|done..]. injection H as <-. cbn.
    pose proof (list_sum_insert _ _ _ (w, Sending e) E) as Hs. cbn in Hs. lia.
  - destruct (workers s !! i) as [[w []]|] eqn:E; [done| |done|done]. destruct (_ <? _)%nat; [|done]. injection H as <-. cbn.
    pose proof (list_sum_insert _ _ _ (w, Exited) E) as Hs. cbn in Hs. lia.
  - destruct (ctx s); [done|]. destruct (main s) eqn:Em; [| |done]; injection H as <-; cbn; rewrite Em; lia.
  - destruct (main s) eqn:Em; [|done..]. destruct (errCh s); [done|]. injection H as <-. cbn. lia.
  - destruct (main s) eqn:Em; [|done..]. destruct (ctx s) eqn:Ec; [|done]. injection H as <-. cbn. rewrite Ec. lia.
  - destruct (main s) eqn:Em; [done| |done]. destruct (forallb _ _); [|done]. injection H as <-. cbn. lia.
Qed.
Lemma moves_inv rtsp ff tr ms : forall s t, moves rtsp ff ms s = Some t -> inv rtsp ff tr s ->
  inv rtsp ff tr t /\ (length ms + left_over t = left_over s)%nat.
Proof.
  induction ms as [|m ms IH]; intros s t H Hi; cbn [moves] in H; [by injection H as <-|].
  destruct (step rtsp ff m s) as [s1|] eqn:E; [|done]. pose proof (step_left _ _ _ _ _ E).
  destruct (IH s1 t H (session_step_inv _ _ _ _ _ _ E Hi)) as [? ?]. split; [done|]. cbn [length]. lia.
Qed.
Lemma gone_all (l : list (worker * wstate)) : forallb exited l = true -> filter (fun p => exited p = true) l = l.
Proof. induction l as [|p l IH]; [done|]. simpl. rewrite filter_cons. intros [H1 H2]%andb_true_iff. rewrite decide_True by done. by rewrite IH. Qed.
Lemma pending_room (l : list (worker * wstate)) i p : l !! i = Some p -> exited p = false ->
  (length (filter (fun p => exited p = true) l) < length l)%nat.
Proof.
  revert i. induction l as [|x l IH]; intros [|i] H Hp; simpl in *; [done|done| |]; rewrite filter_cons.
  - injection H as ->. rewrite Hp, decide_False by done. pose proof (length_filter (fun p => exited p = true) l). lia.
  - specialize (IH i H Hp). case_decide; simpl; lia.
Qed.

Section settle.
Context `{U : Unicode}.
(** The workers' errors never wait: there is room in the channel for every one of them. *)
Lemma send_never_blocks rtsp ff tr s i w e :
  inv rtsp ff tr s -> workers s !! i = Some (w, Sending e) -> is_Some (step rtsp ff (Sends i) s).
Proof.
  intros [I1 I2 _ _ _] H. cbn [step]. rewrite H. pose proof (pending_room _ _ _ H eq_refl) as Hp. unfold gone in *.
  assert (length (workers s) <= 3)%nat as Hl by (rewrite <- (length_map fst), I1; destruct rtsp; cbn; lia).
  unfold errChCapacity. destruct (Nat.ltb_spec (length (errCh s)) 4); [by eexists|lia].
Qed.

(** C11: a media session always comes to an end and nothing in it waits for ever.  Once the workers run, at most
    nine moves remain, whatever their order; a worker that has returned can always hand its error over, even if
    nobody will read it; and in any state in which every worker's function has returned, and the session has not,
    the session itself has a next move.  When it returns, every worker is gone. *)
Theorem session_settles (rtsp ff : bool) (tr : list action) (ms : list move) (s : state) :
  moves rtsp ff ms (started rtsp tr) = Some s ->
  (length ms <= 9)%nat /\
  (forall i w e, workers s !! i = Some (w, Sending e) -> is_Some (step rtsp ff (Sends i) s)) /\
  ((forall i w, workers s !! i <> Some (w, Running)) -> (forall r, main s <> Finished r) ->
    exists m, is_Some (step rtsp ff m s) /\ match m with Returns _ _ | ContextDone _ => False | _ => True end) /\
  (forall r, main s = Finished r -> forall p, p ∈ workers s -> p.2 = Exited).
Proof.
  intros H. destruct (moves_inv _ _ tr _ _ _ H (inv_started rtsp ff tr)) as [Hi Hl].
  assert (left_over (started rtsp tr) <= 9)%nat as H9 by (destruct rtsp; cbn; lia).
  split; [lia|]. split; [intros i w e; by apply send_never_blocks with tr|]. split.
  - intros Hr Hf. destruct (forallb exited (workers s)) eqn:Ea.
    + destruct (main s) as [|e|r] eqn:Em; [| |by destruct (Hf r)].
      * pose proof (inv_selecting _ _ _ _ Hi Em) as Hg. unfold gone in Hg. rewrite gone_all in Hg by done.
        assert (length (workers s) <> 0)%nat as Hn by (rewrite <- (length_map fst), (inv_workers _ _ _ _ Hi); by destruct rtsp).
        exists TakeError. cbn [step]. rewrite Em. destruct (errCh s); [done|]. by eexists.
      * exists Join. cbn [step]. rewrite Em, Ea. by eexists.
    + assert (exists i w e, workers s !! i = Some (w, Sending e)) as (i & w & e & Hs).
      { clear -Hr Ea. induction (workers s) as [|[w [|e|]] l IH]; [done|by destruct (Hr 0%nat w)|by exists 0%nat, w, e|].
        destruct IH as (i & w' & e & IH); [intros i w'; apply (Hr (S i))|done|by exists (S i), w', e]. }
      exists (Sends i). split; [by apply send_never_blocks with tr w e|done].
  - intros r Hm p Hp. pose proof (inv_finished _ _ _ _ Hi (ex_intro _ r Hm)) as Ha.
    rewrite forallb_forall in Ha. apply list_elem_of_In in Hp. apply Ha in Hp. unfold exited in Hp. by destruct p as [? []].
Qed.
End settle.
(** ** What is opened is closed *)

Definition is_opened (r : resource) (a : action) : bool := match a with Opened r' => bool_decide (r = r') | _ => false end.
Definition is_closed (r : resource) (a : action) : bool := match a with Closed r' => bool_decide (r = r') | _ => false end.
Definition is_spawn (a : action) : bool := match a with Spawn _ => true | _ => false end.
Definition is_ready (a : action) : bool := match a with SignalReady _ => true | _ => false end.
Definition count (p : action -> bool) (l : list action) : nat := length (filter (fun a => p a = true) l).
(** Every time [r] is opened it is closed later. *)
Fixpoint released (r : resource) (l : list action) : bool :=
  match l with [] => true | a :: l => (negb (is_opened r a) || existsb (is_closed r) l) && released r l end.
Definition resources : list resource := [EchoHelper; RtpSocket; FFSocket; TalkbackLink; FFmpeg; Receiver].
(** Before anything runs concurrently: no goroutine, nothing left open, the talkback closed as often as opened. *)
Definition undone (l : list action) : bool :=
  forallb (fun r => released r l) resources && (count (is_opened TalkbackLink) l =? count (is_closed TalkbackLink) l)%nat &&
  (count is_spawn l + count is_ready l =? 0)%nat.

Lemma released_spec r l : released r l = true -> forall a b, l = a ++ Opened r :: b -> Closed r ∈ b.
Proof.
  induction l as [|x l IH]; intros H a b E; [by destruct a|]. cbn [released] in H. apply andb_true_iff in H as [H1 H2].
  destruct a as [|y a]; cbn in E; injection E as -> ->; [|by eapply IH].
  cbn in H1. rewrite bool_decide_eq_true_2 in H1 by done. cbn in H1.
  apply existsb_exists in H1 as (z & Hz & Hc). destruct z; try done. cbn in Hc. apply bool_decide_eq_true in Hc as ->. by apply list_elem_of_In.
Qed.

Ltac monad := repeat (progress (unfold check, acts, act, defer, throw, mbind, mret, m_bind, m_ret); cbn [trace defers]).

Section shape.
Context `{U : Unicode}.
(** The steps a started session went through. *)
Definition opening (rtsp echo played : bool) (n : nat) (info : SessionInfo) : list action :=
  (if echo then [Opened EchoHelper] else []) ++ [Opened TalkbackLink] ++ (if played then [PlayTone] else []) ++
  [Opened (if rtsp then FFmpeg else Receiver); Drain n] ++ map Spawn (workers_of rtsp) ++ [SignalReady info].
Definition deferred (ff echo : bool) : list action :=
  (if ff then [Closed FFSocket] else []) ++ [Closed RtpSocket] ++ (if echo then [Closed EchoHelper] else []) ++ [CancelRun].

Lemma start_echo_cases cfg e s :
  (exists x, start_echo cfg e s = (inl x, s)) \/
  (start_echo cfg e s = (inr false, s) /\ Config.EchoCancellationEnabled cfg = false) \/
  (start_echo cfg e s = (inr true, mkSt (trace s ++ [Opened EchoHelper]) (Closed EchoHelper :: defers s)) /\ Config.EchoCancellationEnabled cfg = true).
Proof.
  destruct s as [t d]. unfold start_echo. destruct (Config.EchoCancellationEnabled cfg); [|by right; left].
  destruct (startEcho e) as [x|]; [left|by right; right]. eexists. monad. by rewrite app_nil_r.
Qed.
Lemma play_tone_cases cfg e i s :
  exists played, let t := trace s ++ (if played : bool then [PlayTone] else []) in
  (exists x, play_tone cfg e i s = (inl x, mkSt (t ++ [Closed TalkbackLink]) (defers s))) \/ play_tone cfg e i s = (inr tt, mkSt t (defers s)).
Proof.
  unfold play_tone. destruct (_ && _); [|exists false; rewrite app_nil_r; right; by destruct s].
  destruct (toneResult e) as [|[x|]]; [exists false|exists true|exists true]; monad; rewrite ?app_nil_r; eauto.
Qed.
Lemma mode_cases cfg : Config.ReceiveMode cfg = "baichuan" \/ Config.ReceiveMode cfg = "rtsp".
Proof. unfold Config.ReceiveMode. case_decide; auto. Qed.
Lemma stream_known : ParseStream BaichuanReceiveStream = Ok "subStream".
Proof. vm_compute. reflexivity. Qed.
Lemma open_receive_cases cfg e s :
  let rtsp := bool_decide (Config.ReceiveMode cfg = "rtsp") in let r := if rtsp then FFmpeg else Receiver in
  (exists x, open_receive cfg e s = (inl x, mkSt (trace s ++ [Closed TalkbackLink]) (defers s))) \/
  (exists x, open_receive cfg e s = (inl x, mkSt (trace s ++ [Opened r; Closed r; Closed TalkbackLink]) (defers s))) \/
  (exists i, open_receive cfg e s = (inr i, mkSt (trace s ++ [Opened r]) (defers s))).
Proof.
  unfold open_receive. destruct s as [t d]. destruct (mode_cases cfg) as [H|H]; rewrite H; cbv zeta.
  - rewrite !(decide_False (P := "baichuan" = "rtsp")), !(decide_True (P := "baichuan" = "baichuan")), !(bool_decide_eq_false_2 ("baichuan" = "rtsp")) by done.
    rewrite stream_known. destruct (openReceiver e) as [x|]; [left; eexists; monad; done|].
    destruct (receiverReady e); [by right; right; eexists|..]; right; left; eexists; monad; rewrite <- app_assoc; reflexivity.
  - rewrite !(decide_True (P := "rtsp" = "rtsp")), !(bool_decide_eq_true_2 ("rtsp" = "rtsp")) by done.
    destruct (startFFmpegResult e) as [x|]; [left; eexists; monad; done|]. right; right. eexists. monad. done.
Qed.
Lemma drain_cases rtsp e s :
  exists n, (exists x, drain rtsp e s = (inl x, mkSt (trace s ++ [Drain n] ++ cleanupReceive rtsp ++ [Closed TalkbackLink]) (defers s))) \/
  drain rtsp e s = (inr tt, mkSt (trace s ++ [Drain n]) (defers s)).
Proof.
  unfold drain. cbv zeta. set (o := PreAnswer.discardQueuedSIPRTP _ _). exists (PreAnswer.discarded o).
  destruct (PreAnswer.error o); [left; eexists|right]; cbn [option_map]; monad; rewrite <- ?app_assoc; reflexivity.
Qed.
(** A setup that fails leaves nothing open; one that succeeds has the session's steps behind it. *)
Lemma setup_shape cfg e :
  let rtsp := bool_decide (Config.ReceiveMode cfg = "rtsp") in
  match setup cfg e (mkSt [] []) with
  | (inl _, s) => undone (trace s ++ defers s) = true
  | (inr _, s) => exists echo played n info, trace s = opening rtsp echo played n info /\ defers s = deferred (ffConn e) echo
  end.
Proof.
  cbv zeta. unfold setup. set (rtsp := bool_decide _). unfold mbind, m_bind.
  destruct (rtpConn e); [|reflexivity]. cbn [check].
  destruct (rtsp && negb (ffConn e)); [reflexivity|]. cbn [check mret m_ret].
  destruct (lookPath e) as [x|]; [reflexivity|]. cbn [check mret m_ret defer trace defers].
  destruct (start_echo_cases cfg e (mkSt [] [CancelRun])) as [[x ->]|H]; [reflexivity|].
  assert (exists echo : bool, start_echo cfg e (mkSt [] [CancelRun]) =
    (inr echo, mkSt (if echo then [Opened EchoHelper] else []) ((if echo then [Closed EchoHelper] else []) ++ [CancelRun]))) as [echo ->]
    by (destruct H as [[-> _]|[-> _]]; [exists false|exists true]; reflexivity). clear H.
  unfold mret, m_ret, defer. cbn [trace defers]. set (t0 := if echo then [Opened EchoHelper] else []).
  match goal with |- context [if ffConn e then ?f else ?g] =>
    assert (forall s, (if ffConn e then f else g) s = (inr tt, mkSt (trace s) ((if ffConn e then [Closed FFSocket] else []) ++ defers s))) as Hff
      by (intros [? ?]; by destruct (ffConn e)) end.
  rewrite Hff. cbn [trace defers]. change (_ ++ Closed RtpSocket :: _) with (deferred (ffConn e) echo).
  set (d := deferred (ffConn e) echo).
  destruct (openTalkback e) as [x|i].
  { unfold t0, d. by destruct (ffConn e), echo. }
  unfold act. cbn [trace defers].
  destruct (play_tone_cases cfg e i (mkSt (t0 ++ [Opened TalkbackLink]) d)) as (played & [[x ->]| ->]); cbn [trace defers].
  { unfold t0, d. by destruct (ffConn e), echo, played. }
  match goal with |- context [open_receive cfg e ?s] => destruct (open_receive_cases cfg e s) as [[x ->]|[[x ->]|[r ->]]] end; fold rtsp; cbn [trace defers].
  { unfold t0, d. by destruct (ffConn e), echo, played. }
  { unfold t0, d. by destruct (ffConn e), echo, played, rtsp. }
  match goal with |- context [drain rtsp e ?s] => destruct (drain_cases rtsp e s) as (n & [[x ->]| ->]) end; cbn [trace defers].
  { unfold t0, d. by destruct (ffConn e), echo, played, rtsp. }
  unfold acts. cbn [trace defers]. exists echo, played, n. eexists. split; [|reflexivity].
  unfold opening, t0. by rewrite <- !app_assoc.
Qed.
End shape.
Section release.
Context `{U : Unicode}.

Lemma setup_fresh cfg e ms tr r : Run cfg e ms = Some (tr, r) ->
  let rtsp := bool_decide (Config.ReceiveMode cfg = "rtsp") in
  undone tr = true /\ r <> None \/
  exists echo played n info s,
    moves rtsp (ffConn e) ms (started rtsp (opening rtsp echo played n info)) = Some s /\ main s = Finished r /\
    tr = opening rtsp echo played n info ++ [CancelRun; Closed RtpSocket] ++ (if ffConn e then [Closed FFSocket] else []) ++
      cleanupReceive rtsp ++ [Joined; Closed TalkbackLink] ++ deferred (ffConn e) echo.
Proof.
  unfold Run. pose proof (setup_shape cfg e) as Hs. cbv zeta in *. destruct (setup cfg e (mkSt [] [])) as [[x|u] s].
  { intros [= <- <-]. by left. }
  destruct Hs as (echo & played & n & info & Ht & Hd). rewrite Ht, Hd. set (rtsp := bool_decide _) in *.
  destruct (moves _ _ _ _) as [t|] eqn:Em; [|done]. destruct (main t) as [| |r'] eqn:Er; [done..|]. intros [= <- <-].
  right. exists echo, played, n, info, t. split; [done|]. split; [done|].
  destruct (moves_inv _ _ (opening rtsp echo played n info) _ _ _ Em (inv_started _ _ _)) as [[_ _ _ _ Hl] _].
  rewrite Hl, Er. by rewrite <- !app_assoc.
Qed.

(** C2: a session ends everything it began, in the right order.  Whatever fails and however the workers race, each
    thing that was opened - the echo canceller, the talkback, FFmpeg or the camera's receiver - is closed after
    that; the talkback at most once opened and exactly as often closed; and either no goroutine was started and
    [Ready] never signalled, or [Ready] was signalled once, after the talkback was open and all goroutines
    started, the context was cancelled and the sockets closed before waiting for the goroutines, and the talkback
    was closed only when all of them had ended. *)
Theorem session_releases (cfg : Config.Config) (e : env) (ms : list move) (tr : list action) (r : option error) :
  Run cfg e ms = Some (tr, r) ->
  let rtsp := bool_decide (Config.ReceiveMode cfg = "rtsp") in
  (forall res a b, tr = a ++ Opened res :: b -> Closed res ∈ b) /\
  count (is_opened TalkbackLink) tr = count (is_closed TalkbackLink) tr /\
  (count is_spawn tr = 0%nat /\ count is_ready tr = 0%nat \/
   exists a info c d,
     tr = a ++ map Spawn (workers_of rtsp) ++ [SignalReady info] ++ c ++ [Joined; Closed TalkbackLink] ++ d /\
     Opened TalkbackLink ∈ a /\ CancelRun ∈ c /\ Closed RtpSocket ∈ c /\ (ffConn e = true -> Closed FFSocket ∈ c) /\
     forall l, l = a \/ l = c \/ l = d -> count is_spawn l = 0%nat /\ count is_ready l = 0%nat /\
       (l <> a -> count (is_opened TalkbackLink) l = 0%nat)).
Proof.
  intros H. apply setup_fresh in H. cbv zeta in *. set (rtsp := bool_decide _) in *.
  assert (forall l, forallb (fun r => released r l) resources = true -> forall res a b, l = a ++ Opened res :: b -> Closed res ∈ b) as Hr.
  { intros l Hl res. rewrite forallb_forall in Hl. apply released_spec, Hl. destruct res; cbn; tauto. }
  destruct H as [[H _]|(echo & played & n & info & s & _ & _ & ->)].
  { unfold undone in H. apply andb_true_iff in H as [[H1 H2]%andb_true_iff H3]. apply Nat.eqb_eq in H2, H3.
    split; [by apply Hr|]. split; [done|]. left. lia. }
  split; [apply Hr; by destruct rtsp, (ffConn e), echo, played|].
  split; [by destruct rtsp, (ffConn e), echo, played|]. right.
  exists ((if echo then [Opened EchoHelper] else []) ++ [Opened TalkbackLink] ++ (if played then [PlayTone] else []) ++
    [Opened (if rtsp then FFmpeg else Receiver); Drain n]), info,
    ([CancelRun; Closed RtpSocket] ++ (if ffConn e then [Closed FFSocket] else []) ++ cleanupReceive rtsp), (deferred (ffConn e) echo).
  split; [unfold opening; by rewrite <- !app_assoc|]. split; [set_solver|]. split; [set_solver|]. split; [set_solver|].
  split; [intros ->; set_solver|].
  intros l [->|[-> | ->] ]; (split; [|split; [|intros Hne]]); try (by destruct rtsp, (ffConn e), echo, played); by destruct Hne.
Qed.
End release.
(** ** The result *)

(** Where the errors in a state come from. *)
Record sourced (ms : list move) (s : state) : Prop := {
  so_none : ctx s = None -> forall c, ContextDone c ∉ ms;
  so_some : forall c, ctx s = Some c -> ContextDone c ∈ ms /\ forall c', ContextDone c' ∈ ms -> c' = c;
  so_sent : forall e, e ∈ errCh s -> exists i, Returns i e ∈ ms;
  so_sending : forall w e, (w, Sending e) ∈ workers s -> exists i, Returns i e ∈ ms;
  so_wind : forall e, main s = Winding e -> (exists i, Returns i e ∈ ms) \/ e <> None /\ ctx s = e;
  so_done : forall r, main s = Finished r -> exists e, r = final (ctx s) e /\ ((exists i, Returns i e ∈ ms) \/ e <> None /\ ctx s = e);
}.
Lemma elem_insert (l : list (worker * wstate)) i p q x : l !! i = Some p -> x ∈ <[i := q]> l -> x = q \/ x ∈ l.
Proof.
  revert i. induction l as [|y l IH]; intros [|i] H; simpl in *; [done|done| |]; rewrite !elem_of_cons; [tauto|].
  intros [->|Hx]; [tauto|]. destruct (IH _ H Hx); tauto.
Qed.
Lemma later (ms : list move) m e : (exists i, Returns i e ∈ ms) -> exists i, Returns i e ∈ ms ++ [m].
Proof. intros [i H]. exists i. apply elem_of_app. by left. Qed.
Lemma done_before (ms : list move) m c : ContextDone c ∈ ms ++ [m] -> (forall c, m <> ContextDone c) -> ContextDone c ∈ ms.
Proof. intros [H|H]%elem_of_app Hm; [done|]. apply list_elem_of_singleton in H. by destruct (Hm c). Qed.
(** A move that is not the end of the context. *)
Lemma sourced_other ms m s t :
  sourced ms s -> (forall c, m <> ContextDone c) -> ctx t = ctx s ->
  (forall e, e ∈ errCh t -> exists i, Returns i e ∈ ms ++ [m]) ->
  (forall w e, (w, Sending e) ∈ workers t -> exists i, Returns i e ∈ ms ++ [m]) ->
  (forall e, main t = Winding e -> (exists i, Returns i e ∈ ms ++ [m]) \/ e <> None /\ ctx s = e) ->
  (forall r, main t = Finished r -> exists e, r = final (ctx s) e /\ ((exists i, Returns i e ∈ ms ++ [m]) \/ e <> None /\ ctx s = e)) ->
  sourced (ms ++ [m]) t.
Proof.
  intros [S1 S2 _ _ _ _] Hm Hc H3 H4 H5 H6. split; rewrite ?Hc; try done.
  - intros Hn c [H|H]%elem_of_app; [by apply (S1 Hn c)|]. apply list_elem_of_singleton in H. by apply (Hm c).
  - intros c Hs. destruct (S2 c Hs) as [A B]. split; [apply elem_of_app; by left|]. intros c' H. apply B. by apply done_before with m.
Qed.
Lemma step_sourced rtsp ff ms m s t : step rtsp ff m s = Some t -> sourced ms s -> sourced (ms ++ [m]) t.
Proof.
  intros H HS. pose proof HS as [S1 S2 S3 S4 S5 S6]. destruct m as [i e|i|e| | |]; cbn [step] in H.
  - destruct (workers s !! i) as [[w []]|] eqn:E; [|done..]. injection H as <-. apply (sourced_other _ _ s); try done; cbn; intros.
    + by apply later, S3.
    + destruct (elem_insert _ _ _ _ _ E ltac:(eassumption)) as [[= -> ->]|]; [exists i; set_solver|by eapply later, S4].
    + destruct (S5 _ ltac:(eassumption)); [left; by apply later|by right].
    + destruct (S6 _ ltac:(eassumption)) as (x & -> & [?|?]); exists x; (split; [done|]); [left; by apply later|by right].
  - destruct (workers s !! i) as [[w []]|] eqn:E; [done| |done|done]. destruct (_ <? _)%nat; [|done]. injection H as <-.
    apply (sourced_other _ _ s); try done; cbn; intros.
    + apply later. match goal with H : _ ∈ _ ++ _ |- _ => apply elem_of_app in H as [H|H] end; [by apply S3|].
      apply (S4 w). match goal with H : _ ∈ [_] |- _ => apply list_elem_of_singleton in H as -> end. by eapply list_elem_of_lookup_2.
    + destruct (elem_insert _ _ _ _ _ E ltac:(eassumption)) as [[=]|]. by eapply later, S4.
    + destruct (S5 _ ltac:(eassumption)); [left; by apply later|by right].
    + destruct (S6 _ ltac:(eassumption)) as (x & -> & [?|?]); exists x; (split; [done|]); [left; by apply later|by right].
  - destruct (ctx s) eqn:Ec; [done|]. specialize (S1 eq_refl).
    assert (forall c', ContextDone c' ∈ ms ++ [ContextDone e] -> c' = e) as Hu.
    { intros c' [Hx|Hx]%elem_of_app; [by destruct (S1 c')|]. apply list_elem_of_singleton in Hx. by injection Hx. }
    destruct (main s) eqn:Em; [| |done]; injection H as <-; split; cbn; rewrite ?Em; try done.
    1,4: intros c [= <-]; split; [set_solver|exact Hu].
    1,3: intros x Hx; by apply later, S3.
    1,2: intros w x Hx; by eapply later, S4.
    intros x [= <-]. destruct (S5 _ eq_refl) as [?|[? <-]]; [left; by apply later|done].
  - destruct (main s) eqn:Em; [|done..]. destruct (errCh s) as [|x rest] eqn:Ee; [done|]. injection H as <-.
    apply (sourced_other _ _ s); try done; cbn; intros.
    + apply later, S3. by right.
    + by eapply later, S4.
    + left. apply later, S3. match goal with H : Winding _ = _ |- _ => injection H as <- end. by left.
  - destruct (main s) eqn:Em; [|done..]. destruct (ctx s) eqn:Ec; [|done]. injection H as <-.
    apply (sourced_other _ _ s); try done; cbn; intros; [by apply later, S3|by eapply later, S4|].
    right. match goal with H : Winding _ = _ |- _ => injection H as <- end. by rewrite Ec.
  - destruct (main s) eqn:Em; [done| |done]. destruct (forallb exited (workers s)) eqn:Ef; [|done]. injection H as <-.
    apply (sourced_other _ _ s); try done; cbn; intros; [by apply later, S3|by eapply later, S4|].
    match goal with H : Finished _ = _ |- _ => injection H as <- end.
    eexists; split; [reflexivity|]. destruct (S5 _ eq_refl); [left; by apply later|by right].
Qed.
Lemma moves_sourced rtsp ff ms : forall pre s t, moves rtsp ff ms s = Some t -> sourced pre s -> sourced (pre ++ ms) t.
Proof.
  induction ms as [|m ms IH]; intros pre s t H Hs; cbn [moves] in H; [injection H as <-; by rewrite app_nil_r|].
  destruct (step rtsp ff m s) as [s1|] eqn:E; [|done]. replace (pre ++ m :: ms) with ((pre ++ [m]) ++ ms) by by rewrite <- app_assoc.
  eapply IH; [exact H|]. by eapply step_sourced.
Qed.
Section result.
Context `{U : Unicode}.

(** C33: a session's result says why it ended.  One that never signalled [Ready] reports an error.  One that did
    reports the end of its context if that came, and otherwise what one of the workers returned; the
    cancellation and the closing of the sockets, which its own ending causes, are not errors. *)
Theorem session_result (cfg : Config.Config) (e : env) (ms : list move) (tr : list action) (r : option error) :
  Run cfg e ms = Some (tr, r) ->
  let quiet x := if errorIs x Canceled || errorIs x ErrClosed then None else x in
  (count is_ready tr = 0%nat -> r <> None) /\
  (count is_ready tr <> 0%nat ->
    (forall c, ContextDone c ∈ ms -> r = quiet (Some c)) /\
    ((forall c, ContextDone c ∉ ms) -> exists i x, Returns i x ∈ ms /\ r = quiet x)).
Proof.
  intros H. cbv zeta. destruct (setup_fresh _ _ _ _ _ H) as [[Hu Hr]|(echo & played & n & info & s & Hm & Hf & ->)].
  { split; [done|]. unfold undone in Hu. apply andb_true_iff in Hu as [_ Hu%Nat.eqb_eq]. lia. }
  set (rtsp := bool_decide _) in *. split; [by destruct rtsp, (ffConn e), echo, played|]. intros _.
  pose proof (moves_sourced _ _ _ [] _ _ Hm) as [S1 S2 _ _ _ S6].
  { split; cbn; [set_solver|done|set_solver| |done|done]. intros w x Hx. apply list_elem_of_fmap in Hx as (? & [=] & _). }
  cbn [app] in *. destruct (S6 _ Hf) as (x & -> & Hx). split.
  - intros c Hc. destruct (ctx s) as [c'|] eqn:Ec; [|by destruct (S1 eq_refl c)]. destruct (S2 _ eq_refl) as [_ Hq].
    rewrite (Hq c Hc). reflexivity.
  - intros Hn. destruct (ctx s) as [c'|] eqn:Ec; [by destruct (S2 _ eq_refl) as [Hq _]; destruct (Hn c')|].
    destruct Hx as [[i Hx]|[Hx Hq]]; [|by destruct Hx]. by exists i, x.
Qed.
End result.
(** ** Witnesses *)

Definition standalone : env :=
  mkEnv true true None None (inr (Talkback.mkInfo "standalone" "pcma" 8000 0 0)) true (Tone None) None None (RReady "")
    (fun _ => PreAnswer.mkTurn None PreAnswer.Timeout) None.
Definition ffmpeg_exit : error := plain "ffmpeg exited unexpectedly".
Definition socket_closed : error := mkError "use of closed network connection" [ErrClosed].
Definition ffmpeg_dies : list move :=
  [Returns 1 (Some ffmpeg_exit); Sends 1; TakeError; Returns 0 (Some socket_closed); Sends 0; Returns 2 (Some socket_closed); Sends 2; Join].

Lemma session_settles_witness :
  exists s, moves true true (take 6 ffmpeg_dies) (started true []) = Some s /\
    is_Some (step true true (Sends 2) s) /\
    (length (take 6 ffmpeg_dies) <= 9)%nat.
Proof.
  eexists. split; [vm_compute; reflexivity|].
  match goal with |- context [step true true _ ?s] => destruct (session_settles true true [] (take 6 ffmpeg_dies) s) as (H1 & H2 & _); [vm_compute; reflexivity|] end.
  split; [exact (H2 2%nat TalkbackLoop (Some socket_closed) eq_refl)|exact H1].
Defined.
Lemma session_releases_witness :
  let U := ascii_tables in
  exists tr r, Run Config.Defaults standalone ffmpeg_dies = Some (tr, r) /\ count is_ready tr = 1%nat /\
    count (is_opened TalkbackLink) tr = count (is_closed TalkbackLink) tr.
Proof.
  cbv zeta. set (U := ascii_tables).
  assert (match Run Config.Defaults standalone ffmpeg_dies with Some (tr, _) => count is_ready tr = 1%nat | None => False end) as Hr by (vm_compute; reflexivity).
  destruct (Run Config.Defaults standalone ffmpeg_dies) as [[tr r]|] eqn:E; [|destruct Hr]. exists tr, r. split; [reflexivity|]. split; [exact Hr|].
  destruct (session_releases Config.Defaults standalone ffmpeg_dies tr r E) as (_ & H & _). exact H.
Defined.
Lemma session_result_witness :
  let U := ascii_tables in
  exists tr r, Run Config.Defaults standalone ffmpeg_dies = Some (tr, r) /\ r = Some ffmpeg_exit /\
    exists i x, Returns i x ∈ ffmpeg_dies /\ r = (if errorIs x Canceled || errorIs x ErrClosed then None else x).
Proof.
  cbv zeta. set (U := ascii_tables).
  assert (match Run Config.Defaults standalone ffmpeg_dies with Some (tr, r) => count is_ready tr = 1%nat /\ r = Some ffmpeg_exit | None => False end) as Hr
    by (vm_compute; split; reflexivity).
  destruct (Run Config.Defaults standalone ffmpeg_dies) as [[tr r]|] eqn:E; [|destruct Hr]. destruct Hr as [Hr ->]. exists tr, (Some ffmpeg_exit).
  split; [reflexivity|]. split; [reflexivity|].
  destruct (session_result Config.Defaults standalone ffmpeg_dies tr (Some ffmpeg_exit) E) as (_ & H). destruct H as [_ H]; [rewrite Hr; discriminate|].
  apply H. intros c Hc. unfold ffmpeg_dies in Hc. repeat (apply elem_of_cons in Hc as [Hc|Hc]; [discriminate Hc|]). by apply elem_of_nil in Hc.
Defined.
End MediaSession.
