(* ===== verification/Gateway.v ===== *)
(** The main loop: [cmd/gateway/main.go] and [live_image.go].

    What joins the components: the routes the listener watches and the status
    shows, the SIP accounts, the loop that starts calls for triggers, incoming
    INVITEs and commands, and the status updates that follow registration and
    Home Assistant.  One [select] case, and one command, is one step; a call's
    own updates of the status come as steps of their own. *)
From S2P Require Import Prelude GoStrings CallControl SipText Sdp SipDialog Status HaListener Config LiveCatalog CallHandlers.

Module Gateway.
Import CallHandlers.CallHandlers.
Module St := Status.Status.
Module Ha := HaListener.HaListener.
#[local] Existing Instances Config.eta_config Status.eta_snapshot.

Section gateway.
Context `{U : Unicode} {IPs : NetIP} {F : @Config.IPFamily IPs}.

(** * Accounts and routes *)

Definition doorSIPConfig (c : Config.Config) : SipText.Config :=
  SipText.mkConfig (Config.SIPRegistrar c) (Config.SIPRegistrarPort c) (Config.SIPUsername c) (Config.SIPPassword c)
    (Config.SIPLocalPort c) (Config.SIPDisplayName c) (Config.SIPCodecPreference c) (Config.IncomingCallsEnabled c)
    (Config.IncomingAllowedCallers c) 1.
Definition parallelSIPConfig (c : Config.Config) : SipText.Config :=
  SipText.mkConfig (Config.SIPRegistrar c) (Config.SIPRegistrarPort c) (Config.ParallelUsername c) (Config.ParallelPassword c)
    (Config.ParallelLocalPort c) "Reolink Mobilruf" (Config.SIPCodecPreference c) (Config.IncomingCallsEnabled c)
    (Config.IncomingAllowedCallers c) (Z.of_nat (Config.MaxMobileTargetsPerRoute c)).
Definition sip_config (l : line) : Config.Config -> SipText.Config :=
  match l with DoorLine => doorSIPConfig | MobileLine => parallelSIPConfig end.

Definition routeSubscriptions (routes : list Config.ResolvedCallRoute) : list Ha.RouteSubscription :=
  map (fun r => Ha.mkSubscription (Config.RouteID r) (Config.Entity r)) routes.
Definition has_mobiles (r : Config.ResolvedCallRoute) : bool := match Config.MobileTargets r with [] => false | _ => true end.
Definition statusRouteDefinitions (c : Config.Config) (routes : list Config.ResolvedCallRoute) : list St.RouteDefinition :=
  map (fun r => St.mkRouteDef (Config.RouteID r) (Config.RouteName r)
                  (Config.DoorCallEnabled c && Config.nonempty (Config.Doorbell r))
                  (Config.ParallelCallEnabled c && has_mobiles r)) routes.
Definition requestedCallRoute (routes : list Config.ResolvedCallRoute) (routeID : string) : option Config.ResolvedCallRoute :=
  if decide (routeID = "") then head routes else head (filter (fun r => Config.RouteID r = routeID) routes).
Definition routeSIPAvailable (c : Config.Config) (r : Config.ResolvedCallRoute) (door parallel : account) : bool :=
  (Config.DoorCallEnabled c && Config.nonempty (Config.Doorbell r) && registered door) ||
  (Config.ParallelCallEnabled c && has_mobiles r && registered parallel).
Definition anySIPRegistered (clients : list account) : bool := existsb registered clients.

(** * The status *)

(** [main] before the preparation. *)
Definition initial_status (c : Config.Config) (s : St.Snapshot) : St.Snapshot :=
  s <| St.DryRun := Config.DryRun c |> <| St.DoorCallEnabled := Config.DoorCallEnabled c |>
    <| St.ParallelCallEnabled := Config.ParallelCallEnabled c |> <| St.ConfiguredReolinkMode := Config.ReolinkMode c |>
    <| St.EchoCancellationEnabled := Config.EchoCancellationEnabled c |> <| St.CalibratedDelayMS := Config.AECInitialDelayMS c |>
    <| St.CurrentDelayMS := Config.AECInitialDelayMS c |> <| St.AECSearchWindowMS := Config.EchoCancellationSearchWindowMS c |>
    <| St.AECMinDelayMS := Config.AECMinDelayMS c |> <| St.AECMaxDelayMS := Config.AECMaxDelayMS c |>
    <| St.WebRTCHighPassFilterEnabled := Config.WebRTCHighPassFilterEnabled c |>
    <| St.WebRTCNoiseSuppressionEnabled := Config.WebRTCNoiseSuppressionEnabled c |>
    <| St.FritzFonLiveImageEnabled := Config.FritzFonLiveImageEnabled c |>
    <| St.CalibrationStatus := if Config.EchoCancellationEnabled c then "pending" else "AEC disabled" |>.
(** The ticker's update; the errors are [LastRegisterError] of the clients. *)
Definition registration_tick (door parallel : account) (doorErr parallelErr : string) (s : St.Snapshot) : St.Snapshot :=
  let s := match door with Some r => s <| St.SIPRegistered := r |> <| St.LastRegistrationErr := doorErr |> | None => s end in
  let s := match parallel with
           | Some r => s <| St.ParallelSIPRegistered := r |> <| St.LastParallelRegistrationErr := parallelErr |>
           | None => s
           end in
  if bool_decide (St.State s = "starting") && anySIPRegistered [door; parallel] && St.HAConnected s
  then s <| St.State := "idle" |> else s.
(** [OnConnection] *)
Definition on_connection (c : Config.Config) (door parallel : account) (ok : bool) (s : St.Snapshot) : St.Snapshot :=
  let s := s <| St.HAConnected := ok |> in
  if ok && bool_decide (St.State s = "starting") && (Config.DryRun c || anySIPRegistered [door; parallel])
  then s <| St.State := "idle" |> else s.
Definition mark_ending (s : St.Snapshot) : St.Snapshot :=
  if decide (St.CurrentCallDirection s = "") then s else s <| St.State := "ending" |>.

(** * The loop *)

(** What a started call runs. *)
Inductive job := HandleCall (route : Config.ResolvedCallRoute) | HandleIncomingCall (invite : nat).
Record gateway := mkGateway {
  routes : list Config.ResolvedCallRoute; lastTriggers : gmap string Z; calls : Controller.world;
  snapshot : St.Snapshot; jobs : list (Z * job);  (** the calls started, by their number *)
  installed : bool;                                (** [gatewayCommands.Configure] has been called *)
}.
#[export] Instance eta_gateway : Eta gateway := fun g =>
  mkGateway (routes g) (lastTriggers g) (calls g) (snapshot g) (jobs g) (installed g).
Definition new_gateway (routes : list Config.ResolvedCallRoute) (s : St.Snapshot) : gateway :=
  mkGateway routes ∅ (Controller.mkWorld (Controller.mkController false 0 None) [] 0) s [] true.

Inductive reply :=
| UnknownRoute | Debounced | TriggerBusy (r : Config.ResolvedCallRoute) | CallStarted (r : Config.ResolvedCallRoute)
| IncomingStarted (invite : nat) | RejectBusy (invite : nat)  (** [incoming.Reject(486, "Busy Here")] *)
| ErrRouteNotFound | ErrSIPUnavailable | ErrCallBusy | ErrCommandUnavailable | ErrNoActiveCall | HangupAccepted
| Failed (e : string) | Nothing.

(** [calls.Start(ctx, ...)]; [ctx] is [ctx.Err()]. *)
Definition start_call (ctx : option string) (j : job) (g : gateway) : Controller.outcome * gateway :=
  let '(r, w) := Controller.Start (calls g) ctx false in
  (r, match r with
      | Controller.Started => g <| calls := w |> <| jobs ::= fun l => (Controller.next (calls g), j) :: l |>
      | _ => g <| calls := w |>
      end).
Definition on_trigger (c : Config.Config) (ctx : option string) (t : Ha.Trigger) (now : Z) (g : gateway) : reply * gateway :=
  match requestedCallRoute (routes g) (Ha.TRouteID t) with
  | None => (UnknownRoute, g)
  | Some r =>
    let previous := default 0 (lastTriggers g !! Config.RouteID r) in
    if negb (previous =? 0) && (now - previous <? Config.Debounce c) then (Debounced, g)
    else
      let g := g <| lastTriggers ::= <[Config.RouteID r := now]> |> <| snapshot ::= fun s => s <| St.LastVisitorEvent := now |> |> in
      match start_call ctx (HandleCall r) g with
      | (Controller.Started, g) => (CallStarted r, g)
      | (_, g) => (TriggerBusy r, g)
      end
  end.
Definition on_incoming (ctx : option string) (invite : nat) (g : gateway) : reply * gateway :=
  match start_call ctx (HandleIncomingCall invite) g with
  | (Controller.Started, g) => (IncomingStarted invite, g)
  | (_, g) => (RejectBusy invite, g)
  end.
(** [gatewayCommands.StartTestCall] *)
Definition test_call (c : Config.Config) (ctx : option string) (door parallel : account) (routeID : string) (g : gateway) : reply * gateway :=
  if negb (installed g) then (ErrCommandUnavailable, g)
  else
    match requestedCallRoute (routes g) routeID with
    | None => (ErrRouteNotFound, g)
    | Some r =>
      if Config.DryRun c || negb (routeSIPAvailable c r door parallel) then (ErrSIPUnavailable, g)
      else
        match start_call ctx (HandleCall r) g with
        | (Controller.Started, g) => (CallStarted r, g)
        | (Controller.Busy, g) => (ErrCallBusy, g)
        | (Controller.Refused e, g) => (Failed e, g)
        | (_, g) => (Nothing, g)
        end
    end.
(** [gatewayCommands.Hangup] *)
Definition hangup (g : gateway) : reply * gateway :=
  if negb (installed g) then (ErrCommandUnavailable, g)
  else
    match Controller.CancelActive (calls g) with
    | (Controller.Cancelled, w) => (HangupAccepted, g <| calls := w |> <| snapshot ::= mark_ending |>)
    | (_, w) => (ErrNoActiveCall, g <| calls := w |>)
    end.

(** * The image of the door camera *)

(** A value of interface type [liveImagePrewarmer]: nil, or a [*liveimage.Catalog],
    which may itself be nil. *)
Inductive liveImagePrewarmer := NilInterface | Boxed (catalog : option LiveCatalog.Catalog).
(** [main]'s variable: the catalogue is made when the option is on. *)
Definition liveImageCatalog (c : Config.Config) (made : LiveCatalog.Catalog) : option LiveCatalog.Catalog :=
  if Config.FritzFonLiveImageEnabled c then Some made else None.
(** [PrewarmPrimary] reads [c.primary]; what that source answers is only logged. *)
Definition PrewarmPrimary (catalog : option LiveCatalog.Catalog) : result unit :=
  match catalog with Some _ => Ok tt | None => Panic end.
Definition startLiveImagePrewarm (p : liveImagePrewarmer) : result unit :=
  match p with NilInterface => Ok tt | Boxed catalog => PrewarmPrimary catalog end.
(** What the loop does after a trigger has started its call: the pointer becomes an interface value. *)
Definition after_trigger (c : Config.Config) (made : LiveCatalog.Catalog) (r : reply) : result unit :=
  match r with CallStarted _ => startLiveImagePrewarm (Boxed (liveImageCatalog c made)) | _ => Ok tt end.

(** * Runs *)

Inductive event :=
| Rang (t : Ha.Trigger) (now : Z) | Invited (invite : nat) | TestCall (door parallel : account) (routeID : string)
| HangupCommand | CallReturned (id : Z) | Shown (fn : St.Snapshot -> St.Snapshot) | Stopping.
Definition step (cfg : Config.Config) (ctx : option string) (e : event) (g : gateway) : reply * gateway :=
  match e with
  | Rang t now => on_trigger cfg ctx t now g
  | Invited i => on_incoming ctx i g
  | TestCall door parallel id => test_call cfg ctx door parallel id g
  | HangupCommand => hangup g
  | CallReturned id =>
    (Nothing, match head (filter (fun c => Controller.id c = id) (Controller.running (calls g))) with
              | Some c => g <| calls ::= fun w => Controller.finish w c |>
              | None => g
              end)
  | Shown fn => (Nothing, g <| snapshot ::= fn |>)
  | Stopping => (Nothing, g <| snapshot ::= fun s => s <| St.State := "stopping" |> |> <| installed := false |>)
  end.
Fixpoint run (cfg : Config.Config) (ctx : option string) (es : list event) (g : gateway) : list (event * reply) * gateway :=
  match es with
  | [] => ([], g)
  | e :: es => let '(r, g) := step cfg ctx e g in let '(l, g) := run cfg ctx es g in ((e, r) :: l, g)
  end.
End gateway.

(** * Properties *)

Lemma head_filter_unique {A B} `{EqDecision B} (f : A -> B) (l : list A) x :
  NoDup (map f l) -> x ∈ l -> head (filter (fun y => f y = f x) l) = Some x.
Proof.
  intros Hd Hx. induction l as [|y l IH]; [by apply elem_of_nil in Hx|]. cbn [map] in Hd. apply NoDup_cons in Hd as [Hy Hd].
  apply elem_of_cons in Hx as [->|Hx]; [by rewrite filter_cons_True|].
  rewrite filter_cons_False; [by apply IH|]. intros E. apply Hy. apply list_elem_of_fmap. by exists x.
Qed.
Lemma head_filter_elem {A} (P : A -> Prop) `{forall x, Decision (P x)} (l : list A) x : head (filter P l) = Some x -> P x /\ x ∈ l.
Proof. intros Hx%head_Some_elem_of. by apply list_elem_of_filter in Hx. Qed.

Section properties.
Context `{U : Unicode} {IPs : NetIP} {F : @Config.IPFamily IPs}.

(** ** From a ring to the legs *)

Lemma max_targets c r : r ∈ Config.ResolvedCallRoutes c -> (length (Config.MobileTargets r) <= Config.MaxMobileTargetsPerRoute c)%nat.
Proof.
  unfold Config.MaxMobileTargetsPerRoute. intros Hr.
  assert (forall l m, (m <= foldl (fun m r => Nat.max m (length (Config.MobileTargets r))) m l)%nat) as Hm.
  { induction l as [|x l IH]; intros m; cbn; [lia|]. etransitivity; [|apply IH]. lia. }
  generalize 0%nat as m. revert Hr. generalize (Config.ResolvedCallRoutes c) as l.
  induction l as [|x l IH]; intros Hr m; [by apply elem_of_nil in Hr|]. cbn. apply elem_of_cons in Hr as [->|Hr]; [|by apply IH].
  etransitivity; [|apply Hm]. lia.
Qed.
Lemma legs_over c r door parallel :
  (length (filter (fun x => over x = DoorLine) (outboundDialLegs c r door parallel)) <= 1)%nat /\
  (length (filter (fun x => over x = MobileLine) (outboundDialLegs c r door parallel)) <= length (Config.MobileTargets r))%nat.
Proof.
  unfold outboundDialLegs. rewrite !filter_app, !length_app.
  set (f := fun t => mkLeg _ (Config.Destination t) MobileLine).
  assert (forall l : list Config.MobileTarget, length (filter (fun x => over x = DoorLine) (map f l)) = 0%nat /\
    (length (filter (fun x => over x = MobileLine) (map f l)) <= length l)%nat) as H.
  { induction l as [|t l [H1 H2]]; [done|]. cbn [map]. rewrite filter_cons_False by done. split; [done|].
    rewrite filter_cons_True by done. cbn. lia. }
  destruct (H (Config.MobileTargets r)) as [H1 H2].
  set (ms := map f _) in *. clearbody ms f. set (d := mkLeg "door" _ _).
  assert (length (filter (fun x => over x = DoorLine) [d]) = 1%nat /\ length (filter (fun x => over x = MobileLine) [d]) = 0%nat) as [H3 H4] by done.
  split; destruct (_ && registered door), (Config.ParallelCallEnabled c && registered parallel);
    rewrite ?H3, ?H4, ?filter_nil, ?length_nil; cbn [length]; lia.
Qed.
Lemma legs_available c r door parallel : routeSIPAvailable c r door parallel = true <-> outboundDialLegs c r door parallel <> [].
Proof.
  unfold routeSIPAvailable, outboundDialLegs, has_mobiles.
  destruct (_ && registered door); [done|]. destruct (Config.ParallelCallEnabled c), (registered parallel); cbn;
    rewrite ?andb_true_r, ?andb_false_r; try (split; done). by destruct (Config.MobileTargets r).
Qed.
Lemma no_numbers r : Config.numbers r <> [] <-> has_mobiles r = true.
Proof. unfold Config.numbers, has_mobiles. by destruct (Config.MobileTargets r). Qed.

(** C9: a ring reaches its route.  With an accepted routing, every trigger that the
    listener hands over, after whatever it was told, names the one configured
    route whose sensor rang; that route is dialled over each account with no more
    legs than the account may have calls; it has a leg exactly when the status says
    that it can be called; and it has one whenever both accounts are registered. *)
Theorem ring_reaches_route (c : Config.Config) (cap : nat) (es : list Ha.event) (t : Ha.Trigger) :
  let routes := Config.ResolvedCallRoutes c in
  Config.Validate c = [] -> Forall (Ha.event_ok (routeSubscriptions routes)) es ->
  t ∈ Ha.taken (Ha.run es (Ha.mkWorld (Ha.new_listener (routeSubscriptions routes) cap) [])) ->
  exists r, requestedCallRoute routes (Ha.TRouteID t) = Some r /\ r ∈ routes /\ Config.Entity r = Ha.TEntityID t /\
    (forall r', r' ∈ routes -> Config.Entity r' = Ha.TEntityID t -> r' = r) /\
    forall door parallel, let legs := outboundDialLegs c r door parallel in
      (forall l reg ip, Z.of_nat (length (filter (fun x => over x = l) legs)) <=
                        SipDialog.maxConcurrentCalls (SipDialog.New (sip_config l c) reg ip)) /\
      (routeSIPAvailable c r door parallel = true <-> legs <> []) /\
      (Config.DryRun c = false -> registered door = true -> registered parallel = true -> legs <> []).
Proof.
  cbv zeta. set (routes := Config.ResolvedCallRoutes c). intros Hv Hes Ht.
  apply Config.Validate_facts in Hv as (_ & _ & _ & _ & Hv & _).
  apply Config.routing_checked in Hv as [_ Hroutes Hids Hents _ _ _]. fold routes in Hroutes, Hids, Hents.
  pose proof (Ha.triggers_routed es (routeSubscriptions routes) (Ha.mkWorld (Ha.new_listener (routeSubscriptions routes) cap) [])
    eq_refl Hes (Forall_nil_2 _)) as Hok.
  rewrite Forall_forall in Hok. destruct (Hok t) as (sub & Hsub & ->); [apply elem_of_app; by left|].
  apply list_elem_of_fmap in Hsub as (r & -> & Hr). cbn [Ha.TRouteID Ha.TEntityID Ha.RouteID Ha.EntityID].
  assert (Config.route_ok (Config.DryRun c) (Config.DoorCallEnabled c) (Config.ParallelCallEnabled c) r) as Hrok
    by (by rewrite Forall_forall in Hroutes; apply Hroutes).
  exists r. split_and!; [|done|done|..].
  - unfold requestedCallRoute. rewrite decide_False; [by apply head_filter_unique|].
    intros E. destruct Hrok as [Hid _ _ _ _ _ _]. rewrite E in Hid. by vm_compute in Hid.
  - intros r' Hr' E. pose proof (head_filter_unique Config.Entity routes r Hents Hr) as H1.
    pose proof (head_filter_unique Config.Entity routes r' Hents Hr') as H2. rewrite E in H2. congruence.
  - intros door parallel. cbv zeta. split_and!; [|by apply legs_available|].
    + destruct (legs_over c r door parallel) as [H1 H2]. pose proof (max_targets c r Hr) as H3.
      intros [] reg ip; cbn [sip_config SipDialog.New SipDialog.maxConcurrentCalls SipText.MaxConcurrentCalls doorSIPConfig parallelSIPConfig];
        [cbn; lia|]. destruct (Z.leb_spec (Z.of_nat (Config.MaxMobileTargetsPerRoute c)) 0); lia.
    + intros Hdry Hd Hp. apply legs_available. unfold routeSIPAvailable. rewrite Hd, Hp, !andb_true_r.
      destruct Hrok as [_ _ _ _ _ _ [H|[[-> H]|[-> H]]]]; [congruence| |].
      * apply Config.nonempty_true in H. by rewrite H.
      * apply no_numbers in H. rewrite H. by rewrite orb_true_r.
Qed.

(** ** What the loop decides *)

(** When triggers of a route were heard - not debounced - in a run. *)
Definition heard (id : string) (l : list (event * reply)) : list Z :=
  omap (fun er => match er.1, er.2 with
                  | Rang _ now, (TriggerBusy r | CallStarted r) => if decide (Config.RouteID r = id) then Some now else None
                  | _, _ => None
                  end) l.
Definition spaced (d : Z) (l : list Z) : Prop := forall i a b, l !! i = Some a -> l !! S i = Some b -> d <= b - a.
Definition clocked (e : event) : Prop := match e with Rang _ now => now <> 0 | _ => True end.
Record loop_inv (cfg : Config.Config) (routes0 : list Config.ResolvedCallRoute) (l : list (event * reply)) (g : gateway) : Prop := {
  loop_routes : routes g = routes0;
  loop_last : forall id, lastTriggers g !! id = last (heard id l);
  loop_clock : forall id, Forall (fun t => t <> 0) (heard id l);
  loop_spaced : forall id, spaced (Config.Debounce cfg) (heard id l);
  loop_calls : Controller.inv (calls g);
}.

Lemma run_snoc cfg ctx es e g :
  run cfg ctx (es ++ [e]) g =
  let '(l, g1) := run cfg ctx es g in let '(r, g2) := step cfg ctx e g1 in (l ++ [(e, r)], g2).
Proof.
  revert g. induction es as [|e1 es IH]; intros g; cbn [run app]; [by destruct (step cfg ctx e g)|].
  destruct (step cfg ctx e1 g) as [r1 g1]. rewrite IH. destruct (run cfg ctx es g1) as [l g2]. by destruct (step cfg ctx e g2).
Qed.
Lemma heard_snoc id l er : heard id (l ++ [er]) = heard id l ++ heard id [er].
Proof. apply omap_app. Qed.
Lemma spaced_snoc d l x : spaced d l -> (forall p, last l = Some p -> d <= x - p) -> spaced d (l ++ [x]).
Proof.
  intros H Hx i a b Ha Hb. destruct (decide (S i < length l)%nat) as [Hi|Hi].
  - rewrite lookup_app_l in Ha by lia. rewrite lookup_app_l in Hb by lia. by apply (H i).
  - apply lookup_lt_Some in Hb as Hl. rewrite length_app in Hl. cbn in Hl. assert (length l = S i) as E by lia.
    rewrite lookup_app_l in Ha by lia. rewrite lookup_app_r, E, Nat.sub_diag in Hb by lia. injection Hb as <-.
    apply Hx. rewrite last_lookup, E. exact Ha.
Qed.

Lemma start_calls ctx j g : Controller.inv (calls g) ->
  let '(r, g') := start_call ctx j g in
  Controller.inv (calls g') /\ routes g' = routes g /\ lastTriggers g' = lastTriggers g /\
  (r = Controller.Started <-> ctx = None /\ Controller.running (calls g) = []).
Proof.
  intros Hi. unfold start_call. destruct (Controller.Start (calls g) ctx false) as [r w] eqn:E.
  assert (Controller.inv w) as Hw by (eapply Controller.controller_inv_preserved; [exact Hi|by eapply Controller.step_start]).
  assert (r = Controller.Started <-> ctx = None /\ Controller.running (calls g) = []) as Hr.
  { unfold Controller.Start in E. destruct ctx; [injection E as <- <-; by split; [|intros []]|].
    unfold Controller.inv in Hi. destruct (Controller.running (calls g)) as [|? [|? ?]]; [| |done]; destruct Hi as [Ha _];
      rewrite Ha in E; injection E as <- <-; by repeat split; intros; destruct_and?. }
  by destruct r.
Qed.

Lemma step_inv cfg ctx routes0 l g e : clocked e -> loop_inv cfg routes0 l g ->
  let '(r, g') := step cfg ctx e g in loop_inv cfg routes0 (l ++ [(e, r)]) g'.
Proof.
  intros He [H1 H2 H3 H4 H5].
  assert (forall r g', (forall id, heard id [(e, r)] = []) -> routes g' = routes g -> lastTriggers g' = lastTriggers g ->
    Controller.inv (calls g') -> loop_inv cfg routes0 (l ++ [(e, r)]) g') as Hquiet.
  { intros r g' Hh E1 E2 Hc. split; [congruence|..|done]; intros id; rewrite heard_snoc, Hh, app_nil_r; [by rewrite E2|done|done]. }
  destruct e as [t now|i|door parallel id| |id|fn|]; cbn [step].
  - unfold on_trigger. destruct (requestedCallRoute _ _) as [r|]; [|by apply Hquiet].
    destruct (_ && _) eqn:Edb; [by apply Hquiet|].
    assert (forall p, last (heard (Config.RouteID r) l) = Some p -> Config.Debounce cfg <= now - p) as Hsp.
    { intros p Hp. rewrite <- H2 in Hp. rewrite Hp in Edb. cbn in Edb. assert (p <> 0) as Hp0.
      { rewrite H2 in Hp. apply last_Some in Hp as [l' Hp]. specialize (H3 (Config.RouteID r)). rewrite Hp in H3.
        apply Forall_app in H3 as [_ H3]. by inversion H3. }
      rewrite (proj2 (Z.eqb_neq p 0) Hp0) in Edb. cbn in Edb. lia. }
    set (g0 := alter_field _ _ _). pose proof (start_calls ctx (HandleCall r) g0 H5) as Hs.
    destruct (start_call ctx (HandleCall r) g0) as [o g']. destruct Hs as (Hc & Er & El & _).
    assert (forall a, heard (Config.RouteID r) [(Rang t now, a)] = [now] ->
      (forall id, id <> Config.RouteID r -> heard id [(Rang t now, a)] = []) -> loop_inv cfg routes0 (l ++ [(Rang t now, a)]) g') as Hnew.
    { intros a Ha1 Ha2. split; [by rewrite Er|..|done]; intros id; rewrite heard_snoc;
        (destruct (decide (id = Config.RouteID r)) as [->|Hne]; [rewrite Ha1|rewrite Ha2, ?app_nil_r by done]).
      - rewrite El, last_snoc. apply lookup_insert_eq.
      - rewrite El. cbn. by rewrite lookup_insert_ne.
      - apply Forall_app. split; [apply H3|]. by constructor.
      - apply H3.
      - by apply spaced_snoc.
      - apply H4. }
    destruct o; apply Hnew; unfold heard; cbn; rewrite ?decide_True by done; try done; intros id Hne; by rewrite decide_False.
  - unfold on_incoming. pose proof (start_calls ctx (HandleIncomingCall i) g H5) as Hs.
    destruct (start_call ctx _ g) as [o g']. destruct Hs as (Hc & Er & El & _). destruct o; by apply Hquiet.
  - unfold test_call. destruct (negb (installed g)); [by apply Hquiet|]. destruct (requestedCallRoute _ _) as [r|]; [|by apply Hquiet].
    destruct (_ || _); [by apply Hquiet|]. pose proof (start_calls ctx (HandleCall r) g H5) as Hs.
    destruct (start_call ctx _ g) as [o g']. destruct Hs as (Hc & Er & El & _). destruct o; by apply Hquiet.
  - unfold hangup. destruct (negb (installed g)); [by apply Hquiet|]. destruct (Controller.CancelActive (calls g)) as [o w] eqn:E.
    assert (Controller.inv w) as Hw by (eapply Controller.controller_inv_preserved; [exact H5|by eapply Controller.step_cancel]).
    destruct o; by apply Hquiet.
  - destruct (head _) as [c|] eqn:Ec; [|by apply Hquiet]. apply head_filter_elem in Ec as [_ Ec].
    apply Hquiet; try done. cbn. eapply Controller.controller_inv_preserved; [exact H5|by apply Controller.step_finish].
  - by apply Hquiet.
  - by apply Hquiet.
Qed.

Lemma run_inv cfg ctx routes0 s0 es : Forall clocked es ->
  let '(l, g) := run cfg ctx es (new_gateway routes0 s0) in loop_inv cfg routes0 l g.
Proof.
  induction es as [|e es IH] using rev_ind; intros He.
  - cbn. by split.
  - apply Forall_app in He as [He He']. inversion_clear He' as [|? ? Hc _]. rewrite run_snoc. specialize (IH He).
    destruct (run cfg ctx es _) as [l g].
    pose proof (step_inv cfg ctx routes0 l g e Hc IH) as Hs. by destruct (step cfg ctx e g).
Qed.

Lemma start_decided ctx r g : Controller.inv (calls g) ->
  (match start_call ctx (HandleCall r) g with (Controller.Started, g) => (CallStarted r, g) | (_, g) => (TriggerBusy r, g) end).1 =
  match ctx, Controller.running (calls g) with None, [] => CallStarted r | _, _ => TriggerBusy r end.
Proof.
  intros Hi. pose proof (start_calls ctx (HandleCall r) g Hi) as Hs. destruct (start_call ctx _ g) as [o g'].
  destruct Hs as (_ & _ & _ & Hs). destruct ctx, (Controller.running (calls g)), o; try done;
    first [by destruct (proj1 Hs eq_refl)|discriminate (proj2 Hs (conj eq_refl eq_refl))].
Qed.

(** C8: what becomes of a ring.  After any triggers, INVITEs, commands, ended calls
    and status updates in any order: a trigger of an unknown route is ignored; one
    that comes before the debounce time has passed since the route was last heard
    is ignored; another starts the route's call exactly when no call is running
    and the gateway is not stopping.  So the times at which a route is heard
    are at least the debounce time apart, and routes do not delay each other. *)
Theorem ring_decided (cfg : Config.Config) (ctx : option string) (routes0 : list Config.ResolvedCallRoute) (s0 : St.Snapshot)
    (es : list event) :
  Forall clocked es ->
  let '(l, g) := run cfg ctx es (new_gateway routes0 s0) in
  (forall id, spaced (Config.Debounce cfg) (heard id l)) /\
  forall t now, (step cfg ctx (Rang t now) g).1 =
    match requestedCallRoute routes0 (Ha.TRouteID t) with
    | None => UnknownRoute
    | Some r =>
      if match last (heard (Config.RouteID r) l) with Some p => bool_decide (now - p < Config.Debounce cfg) | None => false end
      then Debounced
      else match ctx, Controller.running (calls g) with None, [] => CallStarted r | _, _ => TriggerBusy r end
    end.
Proof.
  intros He. pose proof (run_inv cfg ctx routes0 s0 es He) as Hi. destruct (run cfg ctx es _) as [l g].
  destruct Hi as [H1 H2 H3 H4 H5]. split; [exact H4|]. intros t now. cbn [step]. unfold on_trigger. rewrite H1.
  destruct (requestedCallRoute _ _) as [r|]; [|done]. rewrite H2.
  destruct (last (heard (Config.RouteID r) l)) as [p|] eqn:Ep; cbn [default from_option id].
  - assert (p <> 0) as Hp0.
    { apply last_Some in Ep as [l' Hp]. specialize (H3 (Config.RouteID r)). rewrite Hp in H3. apply Forall_app in H3 as [_ H3]. by inversion H3. }
    rewrite (proj2 (Z.eqb_neq p 0) Hp0). cbn [negb andb].
    destruct (Z.ltb_spec (now - p) (Config.Debounce cfg)); [by rewrite bool_decide_true|rewrite bool_decide_false by lia].
    etransitivity; [apply start_decided; exact H5|done].
  - etransitivity; [apply start_decided; exact H5|done].
Qed.

(** ** What the API offers *)

(** The status before a tick, when no call is between its two ends: what
    [initial_status] has set, an account that does not exist is not registered,
    and a call is shown exactly while one runs. *)
Record in_step (cfg : Config.Config) (door parallel : account) (s : St.Snapshot) (g : gateway) : Prop := {
  step_dry : St.DryRun s = Config.DryRun cfg;
  step_door : St.DoorCallEnabled s = Config.DoorCallEnabled cfg;
  step_mobile : St.ParallelCallEnabled s = Config.ParallelCallEnabled cfg;
  step_no_door : door = None -> St.SIPRegistered s = false;
  step_no_mobile : parallel = None -> St.ParallelSIPRegistered s = false;
  step_state : St.State s = "idle" \/ St.State s = "error" \/ St.CurrentCallDirection s <> "";
  step_call : St.CurrentCallDirection s = "" <-> Controller.running (calls g) = [];
  step_inv_calls : Controller.inv (calls g);
  step_ids : NoDup (map Config.RouteID (routes g));
  step_named : Forall (fun r => Config.RouteID r <> "") (routes g);
  step_installed : installed g = true;
}.

Lemma tick_frame door parallel e1 e2 s : St.State s <> "starting" ->
  let s' := registration_tick door parallel e1 e2 s in
  St.DryRun s' = St.DryRun s /\ St.DoorCallEnabled s' = St.DoorCallEnabled s /\
  St.ParallelCallEnabled s' = St.ParallelCallEnabled s /\ St.State s' = St.State s /\
  St.CurrentCallDirection s' = St.CurrentCallDirection s /\
  St.SIPRegistered s' = (match door with Some r => r | None => St.SIPRegistered s end) /\
  St.ParallelSIPRegistered s' = (match parallel with Some r => r | None => St.ParallelSIPRegistered s end).
Proof.
  intros Hs. unfold registration_tick. destruct door, parallel; cbn; rewrite bool_decide_false by exact Hs; by cbn.
Qed.

(** The API offers what the gateway does.  Right after a tick of the status, a
    route is offered for a test call if and only if the command to call it
    would start that very route's call. *)
Theorem test_call_offered (cfg : Config.Config) (door parallel : account) (e1 e2 : string) (s : St.Snapshot) (g : gateway)
    (a : St.APIRouteStatus) :
  in_step cfg door parallel s g -> St.State s <> "starting" ->
  a ∈ St.APIRoutes (St.newAPIStatus (registration_tick door parallel e1 e2 s) (statusRouteDefinitions cfg (routes g))) ->
  exists r, r ∈ routes g /\ Config.RouteID r = St.RID a /\
    (St.RTestCallAvailable a = true <-> (step cfg None (TestCall door parallel (St.RID a)) g).1 = CallStarted r).
Proof.
  intros [D1 D2 D3 D4 D5 D6 D7 D8 D9 D10 D11] Hs Ha. pose proof (tick_frame door parallel e1 e2 s Hs) as (T1 & T2 & T3 & T4 & T5 & T6 & T7).
  set (s' := registration_tick _ _ _ _ _) in *. cbn [St.APIRoutes St.newAPIStatus] in Ha. unfold statusRouteDefinitions in Ha.
  rewrite map_map in Ha. apply list_elem_of_fmap in Ha as (r & -> & Hr). exists r. split; [done|]. split; [done|].
  cbn [St.RID St.RTestCallAvailable St.route_status St.ID St.DoorCall St.MobileCall step]. unfold test_call. rewrite D11. cbn [negb].
  assert (requestedCallRoute (routes g) (Config.RouteID r) = Some r) as ->.
  { unfold requestedCallRoute. rewrite Forall_forall in D10. rewrite decide_False by (by apply D10). by apply head_filter_unique. }
  rewrite T1, T2, T3, T4, T5, T6, T7, D1, D2, D3.
  assert ((match door with Some r => r | None => St.SIPRegistered s end) = registered door) as -> by (destruct door; [done|by apply D4]).
  assert ((match parallel with Some r => r | None => St.ParallelSIPRegistered s end) = registered parallel) as ->
    by (destruct parallel; [done|by apply D5]).
  assert ((Config.DoorCallEnabled cfg && Config.nonempty (Config.Doorbell r) && (Config.DoorCallEnabled cfg && registered door)) ||
          (Config.ParallelCallEnabled cfg && has_mobiles r && (Config.ParallelCallEnabled cfg && registered parallel)) =
          routeSIPAvailable cfg r door parallel) as ->.
  { unfold routeSIPAvailable. by destruct (Config.DoorCallEnabled cfg), (Config.ParallelCallEnabled cfg), (Config.nonempty _), (has_mobiles r). }
  destruct (Config.DryRun cfg); [by cbn; split|]. destruct (routeSIPAvailable cfg r door parallel); [|by cbn; split]. cbn [negb andb orb].
  pose proof (start_calls None (HandleCall r) g D8) as Hst. destruct (start_call None _ g) as [o g']. destruct Hst as (_ & _ & _ & Hst).
  assert (o = Controller.Started <-> St.CurrentCallDirection s = "") as Ho by (rewrite Hst, D7; split; [by intros []|done]).
  destruct (bool_decide_reflect (St.CurrentCallDirection s = "")) as [E|E]; cbn [negb andb].
  - rewrite (proj2 Ho E). cbn. split; [done|intros _]. destruct D6 as [D6|[D6|D6]]; [rewrite D6..|done]; done.
  - split; [done|]. destruct o; cbn; try done. intros _. by destruct E, Ho; auto.
Qed.

(** ** The crash *)

(** With the live image switched off, the ring that starts a call crashes the
    gateway.  The check for nil in [startLiveImagePrewarm] compares an interface
    value, which is not nil when the pointer in it is. *)
Theorem prewarm_panics (cfg : Config.Config) (ctx : option string) (made : LiveCatalog.Catalog) (t : Ha.Trigger) (now : Z) (g : gateway) :
  after_trigger cfg made (step cfg ctx (Rang t now) g).1 = Panic <->
  Config.FritzFonLiveImageEnabled cfg = false /\ exists r, (step cfg ctx (Rang t now) g).1 = CallStarted r.
Proof.
  cbn [step]. unfold after_trigger, liveImageCatalog. destruct (on_trigger cfg ctx t now g).1; cbn;
    try (split; [done|by intros [_ [? ?]]]).
  destruct (Config.FritzFonLiveImageEnabled cfg); cbn; split; try done; [by intros []|eauto].
Qed.
End properties.

(** * Witnesses *)

#[local] Existing Instances ascii_tables Sdp.Sdp.text_addresses CallHandlers.CallHandlers.one_family.

Definition fresh_install : Config.Config := Config.Load {["call_routes"]} (Config.mkLegacy None None) Config.Defaults.
Definition bell : string := "binary_sensor.reolink_video_doorbell_visitor".
Definition bell_rings : Ha.event := Ha.Received (Some (Ha.mkEnvelope 1 "event" true (Some (Ha.mkToState bell "on")))).

Lemma ring_reaches_route_witness :
  exists r, requestedCallRoute (Config.ResolvedCallRoutes fresh_install) "default" = Some r /\ Config.Entity r = bell.
Proof.
  destruct (ring_reaches_route fresh_install 1 [bell_rings; Ha.Taken] (Ha.mkTrigger "default" bell)) as (r & H & _ & E & _).
  - vm_compute. reflexivity.
  - repeat constructor.
  - assert (Ha.taken (Ha.run [bell_rings; Ha.Taken]
      (Ha.mkWorld (Ha.new_listener (routeSubscriptions (Config.ResolvedCallRoutes fresh_install)) 1) [])) =
      [Ha.mkTrigger "default" bell]) as -> by (vm_compute; reflexivity). by left.
  - exists r. split; [exact H|exact E].
Defined.

Definition live : Config.Config := Config.Defaults <| Config.DryRun := false |>.
Definition door_only : Config.ResolvedCallRoute := Config.mkResolved "a" "A" bell "11" [].
Definition mobile_only : Config.ResolvedCallRoute :=
  Config.mkResolved "b" "B" "binary_sensor.b" "" [Config.mkTarget "1" "Mobilziel 1" "0176"].
Definition rung_at (now : Z) : event := Rang (Ha.mkTrigger "a" bell) now.
Definition quick_rings : list event := [rung_at 5; CallReturned 0; rung_at 2000000000].
Definition quick_run : list (event * reply) * gateway :=
  run live None quick_rings (new_gateway [door_only] St.zero_snapshot).
Lemma ring_decided_witness :
  heard "a" quick_run.1 = [5] /\
  option_map Config.RouteID (match (step live None (rung_at 4000000000) quick_run.2).1 with CallStarted r => Some r | _ => None end) =
    Some "a".
Proof.
  pose proof (ring_decided live None [door_only] St.zero_snapshot quick_rings) as H.
  fold quick_run in H. rewrite (surjective_pairing quick_run) in H.
  destruct H as [_ H]; [repeat constructor; discriminate|]. split; [vm_compute; reflexivity|].
  unfold rung_at. rewrite H. vm_compute. reflexivity.
Defined.

Definition idle_gateway : gateway := new_gateway [door_only] (initial_status live St.zero_snapshot).
Definition idle_status : St.Snapshot := initial_status live St.zero_snapshot <| St.State := "idle" |>.
Lemma test_call_offered_witness :
  exists r, Config.RouteID r = "a" /\ (step live None (TestCall (Some true) None "a") idle_gateway).1 = CallStarted r.
Proof.
  destruct (test_call_offered live (Some true) None "" "" idle_status idle_gateway (St.mkAPIRoute "a" "A" true))
    as (r & _ & E & H).
  - split; try done; [by left|repeat constructor; set_solver|by repeat constructor].
  - done.
  - assert (St.APIRoutes (St.newAPIStatus (registration_tick (Some true) None "" "" idle_status)
      (statusRouteDefinitions live (routes idle_gateway))) = [St.mkAPIRoute "a" "A" true]) as -> by (vm_compute; reflexivity).
    by left.
  - exists r. split; [exact E|]. apply H. reflexivity.
Defined.

(** The control of releases before routes is offered when any route can be called,
    but its command calls the first route. *)
Definition both : Config.Config := live <| Config.ParallelCallEnabled := true |>.
Lemma legacy_offer_refused :
  St.TestCallAvailable (St.newAPIStatus
    (registration_tick (Some false) (Some true) "" "" (initial_status both St.zero_snapshot <| St.State := "idle" |>))
    (statusRouteDefinitions both [door_only; mobile_only])) = true /\
  (step both None (TestCall (Some false) (Some true) "") (new_gateway [door_only; mobile_only] St.zero_snapshot)).1 = ErrSIPUnavailable.
Proof. by vm_compute. Qed.

Lemma prewarm_panics_witness :
  after_trigger (live <| Config.FritzFonLiveImageEnabled := false |>) (LiveCatalog.newCatalog 0 "")
    (step (live <| Config.FritzFonLiveImageEnabled := false |>) None (rung_at 5) idle_gateway).1 = Panic.
Proof. apply prewarm_panics. split; [reflexivity|]. eexists. vm_compute. reflexivity. Defined.
End Gateway.
