(* ===== verification/Startup.v ===== *)
(** What happens before the gateway takes calls: the choice of the way to the
    camera ([internal/reolinkmode/detect.go]), the echo delay that was measured
    or kept from an earlier start ([internal/calibration/store.go]) and their
    combination ([internal/startup/prepare.go]).

    The probes and the measurement are inputs: what they return, in the order in
    which they are asked.  The calibration file is its decoded record, if it can be
    read and decoded.  Times are nanoseconds.  What is done to the world is the
    list of effects.  The texts of errors leave out the values that [%q] quotes. *)
From S2P Require Import Prelude GoStrings GoText Sdp Config.

Module Startup.
#[local] Existing Instance Config.eta_config.

Section startup.
Context `{U : Unicode} {IPs : NetIP} {F : @Config.IPFamily IPs}.
(** [Format(time.RFC3339)]. *)
Context (RFC3339 : Z -> string).

(** * The stored calibration *)

Record Record_ := mkRecord { Version : Z; Fingerprint : string; Mode : string; DelayMS : Z; MeasuredAt : Z }.
Definition FingerprintOf (c : Config.Config) : string :=
  Config.ReolinkHost c +:+ "|" +:+ Config.EffectiveReolinkMode c +:+ "|rtsp:" +:+ Itoa (Config.ReolinkRTSPPort c) +:+
  "|path:" +:+ Config.ReolinkStreamPath c +:+ "|bc:" +:+ Itoa (Config.BaichuanPort c) +:+ "|ch:" +:+ Itoa (Config.NVRChannel c).
Definition Load (file : option Record_) (c : Config.Config) : result Record_ :=
  match file with
  | None => Err "decode calibration"
  | Some rec =>
    if negb (Version rec =? 1) || negb (bool_decide (Fingerprint rec = FingerprintOf c)) || (DelayMS rec <? 0) ||
       (Config.MaxSupportedAECDelayMS <? DelayMS rec)
    then Err "stored calibration does not match the active Reolink profile" else Ok rec
  end.
(** The record that [Save] writes. *)
Definition Save (c : Config.Config) (delayMS measuredAt : Z) : result Record_ :=
  if (delayMS <? 0) || (Config.MaxSupportedAECDelayMS <? delayMS) then Err "calibration delay must be 0..3000 ms"
  else
    let mode := Config.EffectiveReolinkMode c in
    if negb (bool_decide (mode = "standalone")) && negb (bool_decide (mode = "nvr"))
    then Err "calibration requires a resolved Reolink mode"
    else Ok (mkRecord 1 (FingerprintOf c) mode delayMS measuredAt).

(** * The mode *)

Inductive effect := ProbeStandalone | ProbeNVR | Measure (mode : string) | SaveFile (r : Record_).
(** The error of each probe, and [parent.Err()] after it. *)
Record probes := mkProbes {
  standalone : option string; parent_after_standalone : option string; nvr : option string; parent_after_nvr : option string;
}.
Definition resolveWith (c : Config.Config) (p : probes) : list effect * result string :=
  let m := Config.ReolinkMode c in
  if decide (m = "standalone" \/ m = "nvr") then ([], Ok m)
  else if negb (bool_decide (m = "auto")) then ([], Err ("unsupported Reolink mode " +:+ m))
  else
    match standalone p with
    | None => ([ProbeStandalone], Ok "standalone")
    | Some e =>
      match parent_after_standalone p with
      | Some stop => ([ProbeStandalone], Err stop)
      | None =>
        ([ProbeStandalone; ProbeNVR],
         match nvr p with
         | None => Ok "nvr"
         | Some e' =>
           match parent_after_nvr p with
           | Some stop => Err stop
           | None => Err ("automatic Reolink mode detection failed: standalone RTSP backchannel: " +:+ e +:+
                          String (chr 10) ("NVR Baichuan: " +:+ e'))
           end
         end)
      end
    end.

(** * The preparation *)

Definition millisecond : Z := 1000000.
(** [Duration.Round]: halfway values away from zero, beyond the range the extreme values. *)
Definition Round (d m : Z) : Z :=
  let r := Z.rem d m in
  if d <? 0 then
    let r := - r in
    if swrap 64 (r + r) <? m then swrap 64 (d + r)
    else let d1 := swrap 64 (d - m + r) in if d1 <? d then d1 else - 2 ^ 63
  else
    if swrap 64 (r + r) <? m then swrap 64 (d - r)
    else let d1 := swrap 64 (d + m - r) in if d <? d1 then d1 else 2 ^ 63 - 1.
Definition to_ms (delay : Z) : Z := Z.quot (Round delay millisecond) millisecond.

(** [measured] is the delay, with its correlation as it is printed. *)
Record measurement := mkMeasurement { Delay : Z; quality : string; measure_err : option string; ctx_err : option string }.
Record Result := mkResult {
  Cfg : Config.Config; ActiveMode : string; MediaProfile : string; CalibrationStatus : string; CalibrationDetails : string;
  LastCalibration : option Z;
}.
Definition mediaProfile (mode : string) : string :=
  if decide (mode = "standalone") then "RTSP " +:+ b2s [226; 134; 148] +:+ " RTSP"
  else if decide (mode = "nvr") then "Baichuan " +:+ b2s [226; 134; 148] +:+ " Baichuan (sub)" else "".

Definition prepare_dry (c : Config.Config) (file : option Record_) : Result :=
  let resolved := bool_decide (Config.ReolinkMode c = "standalone" \/ Config.ReolinkMode c = "nvr") in
  let c := if resolved then Config.WithResolvedReolinkMode (Config.ReolinkMode c) c else c in
  let mode := if resolved then Config.EffectiveReolinkMode c else "" in
  let profile := if resolved then mediaProfile mode else "" in
  if Config.EchoCancellationEnabled c then
    match Load file c with
    | Ok rec => mkResult (Config.SetAECDelay (DelayMS rec) c) mode profile "cached (dry run)"
                  (Itoa (DelayMS rec) +:+ " ms from persistent calibration") (Some (MeasuredAt rec))
    | _ => let c := Config.SetAECDelay Config.DefaultAECInitialDelayMS c in
           mkResult c mode profile "skipped (dry run)"
             ("fallback " +:+ Itoa (Config.AECInitialDelayMS c) +:+ " ms; no acoustic marker emitted") None
    end
  else mkResult c mode profile "not required" "" None.
(** After the measurement: it holds, the stored one does, or neither. *)
Definition calibrate (c : Config.Config) (mode : string) (m : measurement) (now : Z) (file : option Record_) : list effect * Result :=
  let delayMS := to_ms (Delay m) in
  let err := match measure_err m with
             | Some e => Some e
             | None => if (delayMS <? 0) || (Config.MaxSupportedAECDelayMS <? delayMS)
                       then Some ("measured acoustic latency " +:+ Itoa delayMS +:+ " ms is outside supported range 0..3000 ms") else None
             end in
  match err with
  | None =>
    let c := Config.SetAECDelay delayMS c in
    (match Save c delayMS now with Ok rec => [SaveFile rec] | _ => [] end,
     mkResult c mode (mediaProfile mode) "measured" (Itoa delayMS +:+ " ms, " +:+ quality m) (Some now))
  | Some e =>
    match Load file c with
    | Ok rec =>
      ([], mkResult (Config.SetAECDelay (DelayMS rec) c) mode (mediaProfile mode) "cached fallback"
             ("measurement failed (" +:+ e +:+ "); using " +:+ Itoa (DelayMS rec) +:+ " ms from " +:+ RFC3339 (MeasuredAt rec))
             (Some (MeasuredAt rec)))
    | _ =>
      let c := Config.SetAECDelay Config.DefaultAECInitialDelayMS c in
      ([], mkResult c mode (mediaProfile mode) "safe fallback"
             ("measurement failed (" +:+ e +:+ "); using built-in " +:+ Itoa (Config.AECInitialDelayMS c) +:+ " ms") None)
    end
  end.
Definition prepareWith (c : Config.Config) (p : probes) (m : measurement) (now : Z) (file : option Record_) : list effect * result Result :=
  if Config.DryRun c then ([], Ok (prepare_dry c file))
  else
    match resolveWith c p with
    | (l, Ok mode) =>
      let c := Config.WithResolvedReolinkMode mode c in
      if negb (Config.EchoCancellationEnabled c) then (l, Ok (mkResult c mode (mediaProfile mode) "AEC disabled" "" None))
      else
        match measure_err m, ctx_err m with
        | Some _, Some stop => (l ++ [Measure mode], Err stop)
        | _, _ => let '(l', r) := calibrate c mode m now file in (l ++ [Measure mode] ++ l', Ok r)
        end
    | (l, Err e) => (l, Err e)
    | (l, Panic) => (l, Panic)
    end.

(** ** The stored calibration belongs to one camera *)

(** What the measured delay depends on. *)
Definition profile (c : Config.Config) : string * string * Z * string * Z * Z :=
  (Config.ReolinkHost c, Config.EffectiveReolinkMode c, Config.ReolinkRTSPPort c, Config.ReolinkStreamPath c,
   Config.BaichuanPort c, Config.NVRChannel c).
Definition bar : ascii := "|".
(** A host without a bar, as host names and addresses are, a known mode and numbers
    that are not negative. *)
Record plain (c : Config.Config) : Prop := {
  plain_host : sall (isnt bar) (Config.ReolinkHost c) = true;
  plain_mode : Config.EffectiveReolinkMode c = "standalone" \/ Config.EffectiveReolinkMode c = "nvr";
  plain_rtsp : 0 <= Config.ReolinkRTSPPort c < 2 ^ 63; plain_bc : 0 <= Config.BaichuanPort c < 2 ^ 63;
  plain_channel : 0 <= Config.NVRChannel c < 2 ^ 63;
}.

Lemma isnt_self c : isnt c c = false.
Proof. destruct (isnt c c) eqn:E; [|done]. by apply isnt_true in E. Qed.
Lemma split_first c a a' s s' : sall (isnt c) a = true -> sall (isnt c) a' = true ->
  a +:+ String c s = a' +:+ String c s' -> a = a' /\ s = s'.
Proof.
  revert a'. induction a as [|x a IH]; intros [|y a']; cbn [sall]; intros Ha Ha' H.
  - by injection H as ->.
  - rewrite scons_app in H. injection H as <- _. apply andb_prop in Ha' as [Ha' _]. by apply isnt_true in Ha'.
  - rewrite scons_app in H. injection H as -> _. apply andb_prop in Ha as [Ha _]. by apply isnt_true in Ha.
  - rewrite !scons_app in H. injection H as -> H. apply andb_prop in Ha as [_ Ha]. apply andb_prop in Ha' as [_ Ha'].
    by destruct (IH a' Ha Ha' H) as [-> ->].
Qed.
Lemma split_last c a a' s s' : sall (isnt c) s = true -> sall (isnt c) s' = true ->
  a +:+ String c s = a' +:+ String c s' -> a = a' /\ s = s'.
Proof.
  revert a'. induction a as [|x a IH]; intros [|y a'] Hs Hs' H; rewrite ?scons_app, ?snil_app in H.
  - by injection H as ->.
  - injection H as <- ->. rewrite sall_app in Hs. cbn in Hs. rewrite isnt_self, !andb_false_r in Hs. done.
  - injection H as -> <-. rewrite sall_app in Hs'. cbn in Hs'. rewrite isnt_self, !andb_false_r in Hs'. done.
  - injection H as -> H. by destruct (IH a' Hs Hs' H) as [-> ->].
Qed.
Lemma Itoa_inj a b : 0 <= a < 2 ^ 63 -> 0 <= b < 2 ^ 63 -> Itoa a = Itoa b -> a = b.
Proof. intros Ha Hb E. pose proof (Atoi_Itoa a Ha) as H. rewrite E, (Atoi_Itoa b Hb) in H. by injection H. Qed.
Lemma Itoa_bar z : 0 <= z -> sall (isnt bar) (Itoa z) = true.
Proof. intros Hz. by apply Itoa_isnt. Qed.

Lemma sapp_inv a s s' : a +:+ s = a +:+ s' -> s = s'.
Proof. induction a as [|x a IH]; [done|]. rewrite !scons_app. intros [= H]. by apply IH. Qed.
Lemma Fingerprint_inj c c' : plain c -> plain c' -> FingerprintOf c = FingerprintOf c' -> profile c = profile c'.
Proof.
  intros [H1 H2 H3 H4 H5] [H1' H2' H3' H4' H5']. unfold FingerprintOf, profile. set (host := Config.ReolinkHost c) in *. set (host' := Config.ReolinkHost c') in *.
  set (path := Config.ReolinkStreamPath c). set (path' := Config.ReolinkStreamPath c').
  set (m := Config.EffectiveReolinkMode c) in *. set (m' := Config.EffectiveReolinkMode c') in *.
  assert (forall h m n p b k, h +:+ "|" +:+ m +:+ "|rtsp:" +:+ Itoa n +:+ "|path:" +:+ p +:+ "|bc:" +:+ Itoa b +:+ "|ch:" +:+ Itoa k =
    ((h +:+ String bar (m +:+ String bar ("rtsp:" +:+ Itoa n +:+ String bar ("path:" +:+ p)))) +:+ String bar ("bc:" +:+ Itoa b)) +:+ String bar ("ch:" +:+ Itoa k)) as E.
  { intros. rewrite !sapp_assoc. repeat (rewrite ?scons_app, ?sapp_assoc, ?snil_app). reflexivity. }
  rewrite !E. intros H.
  assert (forall p z, sall (isnt bar) p = true -> 0 <= z -> sall (isnt bar) (p +:+ Itoa z) = true) as Hb.
  { intros p z Hp Hz. by rewrite sall_app, Hp, Itoa_bar. }
  apply split_last in H as [H Hk]; [|apply Hb; [done|lia]..]. apply split_last in H as [H Hbc]; [|apply Hb; [done|lia]..].
  apply split_first in H as [Hh H]; [|done..].
  assert (sall (isnt bar) m = true /\ sall (isnt bar) m' = true) as [Hm Hm'].
  { split; [destruct H2 as [-> | ->]|destruct H2' as [-> | ->]]; done. }
  apply split_first in H as [Hmm H]; [|done..]. rewrite <- !sapp_assoc in H.
  apply split_first in H as [Hr H]; [|apply Hb; [done|lia]..].
  apply sapp_inv in Hk, Hbc, Hr, H. apply Itoa_inj in Hk, Hbc, Hr; [|done..]. congruence.
Qed.

(** A stored calibration is used for the camera it was measured at and for no
    other.  What [Save] writes is read back by [Load] exactly under the options
    with the same host, mode, ports, path and channel. *)
Theorem calibration_profile (c c' : Config.Config) (delay measured : Z) (rec : Record_) :
  plain c -> plain c' -> Save c delay measured = Ok rec ->
  (Load (Some rec) c' = Ok rec <-> profile c = profile c') /\ DelayMS rec = delay /\ MeasuredAt rec = measured.
Proof.
  intros Hc Hc' HS. unfold Save in HS. destruct (_ || _) eqn:Ed in HS; [done|]. destruct (_ && _) in HS; [done|]. injection HS as <-.
  split; [|done]. unfold Load. cbn [Version DelayMS Fingerprint]. rewrite <- orb_assoc, Ed, orb_false_r.
  destruct (bool_decide_reflect (FingerprintOf c = FingerprintOf c')) as [E|E]; cbn; (split; [intros H|intros H]); try done.
  - by apply Fingerprint_inj.
  - destruct E. unfold profile, FingerprintOf in *. by injection H as -> -> -> -> -> ->.
Qed.

(** ** Options that are ready for calls *)

(** A measured delay that is accepted is the delay to half a millisecond. *)
Lemma to_ms_near d : sfits 64 d -> 0 <= to_ms d <= Config.MaxSupportedAECDelayMS ->
  2 * Z.abs (d - millisecond * to_ms d) <= millisecond.
Proof.
  unfold sfits, to_ms, Config.MaxSupportedAECDelayMS. change (2 ^ (64 - 1)) with 9223372036854775808. intros Hd.
  assert (forall z, - 9223372036854775808 <= z < 9223372036854775808 -> swrap 64 z = z) as Hw.
  { intros z Hz. apply swrap_id; [lia|exact Hz]. }
  assert (forall z, 9223372036854775808 <= z < 2 * 9223372036854775808 -> swrap 64 z = z - 2 * 9223372036854775808) as Hhi.
  { intros z Hz. unfold swrap. change (2 ^ (64 - 1)) with 9223372036854775808. change (2 ^ 64) with (2 * 9223372036854775808).
    rewrite <- (Z.mod_unique (z + 9223372036854775808) (2 * 9223372036854775808) 1 (z - 9223372036854775808)); lia. }
  assert (forall z, - 2 * 9223372036854775808 <= z < - 9223372036854775808 -> swrap 64 z = z + 2 * 9223372036854775808) as Hlo.
  { intros z Hz. unfold swrap. change (2 ^ (64 - 1)) with 9223372036854775808. change (2 ^ 64) with (2 * 9223372036854775808).
    rewrite <- (Z.mod_unique (z + 9223372036854775808) (2 * 9223372036854775808) (-1) (z + 3 * 9223372036854775808)); lia. }
  pose proof (Z.quot_rem' d millisecond) as Hqr. unfold Round, millisecond in *.
  destruct (Z.ltb_spec d 0) as [Hneg|Hpos].
  - pose proof (Z.rem_bound_pos_neg d 1000000 ltac:(lia) ltac:(lia)) as Hr. rewrite (Hw (- Z.rem d 1000000 + - Z.rem d 1000000)) by lia.
    destruct (Z.ltb_spec (- Z.rem d 1000000 + - Z.rem d 1000000) 1000000).
    + rewrite Hw by lia. replace (d + - Z.rem d 1000000) with (Z.quot d 1000000 * 1000000) by lia. rewrite Z.quot_mul by lia. lia.
    + destruct (decide (d - 1000000 + - Z.rem d 1000000 < - 9223372036854775808)).
      * rewrite Hlo by lia. rewrite (proj2 (Z.ltb_ge _ _)) by lia. change (Z.quot (- 2 ^ 63) 1000000) with (-9223372036854). lia.
      * rewrite Hw by lia. rewrite (proj2 (Z.ltb_lt _ _)) by lia.
        replace (d - 1000000 + - Z.rem d 1000000) with ((Z.quot d 1000000 - 1) * 1000000) by lia. rewrite Z.quot_mul by lia. lia.
  - pose proof (Z.rem_bound_pos d 1000000 ltac:(lia) ltac:(lia)) as Hr. rewrite (Hw (Z.rem d 1000000 + Z.rem d 1000000)) by lia.
    destruct (Z.ltb_spec (Z.rem d 1000000 + Z.rem d 1000000) 1000000).
    + rewrite Hw by lia. replace (d - Z.rem d 1000000) with (Z.quot d 1000000 * 1000000) by lia. rewrite Z.quot_mul by lia. lia.
    + destruct (decide (9223372036854775808 <= d + 1000000 - Z.rem d 1000000)).
      * rewrite Hhi by lia. rewrite (proj2 (Z.ltb_ge _ _)) by lia. change (Z.quot (2 ^ 63 - 1) 1000000) with 9223372036854. lia.
      * rewrite Hw by lia. rewrite (proj2 (Z.ltb_lt _ _)) by lia.
        replace (d + 1000000 - Z.rem d 1000000) with ((Z.quot d 1000000 + 1) * 1000000) by lia. rewrite Z.quot_mul by lia. lia.
Qed.

(** The options [k] are [c] but for the mode that was resolved and the delay. *)
Definition same_options (c k : Config.Config) : Prop :=
  k = c <| Config.ResolvedReolinkMode := Config.ResolvedReolinkMode k |> <| Config.AECInitialDelayMS := Config.AECInitialDelayMS k |>
        <| Config.AECMinDelayMS := Config.AECMinDelayMS k |> <| Config.AECMaxDelayMS := Config.AECMaxDelayMS k |>.
(** The echo search window around the delay. *)
Definition window_ok (c k : Config.Config) : Prop :=
  let w := Config.EchoCancellationSearchWindowMS c in let d := Config.AECInitialDelayMS k in
  0 <= d <= 3000 /\ Config.AECMinDelayMS k = Z.max 0 (d - w) /\ Config.AECMaxDelayMS k = Z.min 3000 (d + w).

Lemma SetAECDelay_same d c : same_options c (Config.SetAECDelay d c).
Proof. done. Qed.
Lemma resolved_same mode c k : same_options (Config.WithResolvedReolinkMode mode c) k -> same_options c k.
Proof. unfold same_options. intros ->. by destruct c. Qed.
Lemma SetAECDelay_ok d c : 50 <= Config.EchoCancellationSearchWindowMS c <= 1000 -> window_ok c (Config.SetAECDelay d c).
Proof.
  intros Hw. unfold window_ok, Config.SetAECDelay. cbn. pose proof (clamp_range 0 3000 d ltac:(lia)) as Hc.
  unfold Config.MaxSupportedAECDelayMS. set (x := clamp 0 3000 d) in *.
  rewrite (proj2 (Z.leb_gt _ _)) by lia. rewrite !swrap_id by (unfold sfits; cbn; lia). lia.
Qed.
Lemma SetAECDelay_exact d c : 0 <= d <= 3000 -> Config.AECInitialDelayMS (Config.SetAECDelay d c) = d.
Proof. intros Hd. cbn. by apply clamp_id. Qed.
Lemma Load_range file c rec : Load file c = Ok rec -> 0 <= DelayMS rec <= 3000.
Proof.
  unfold Load. destruct file as [r|]; [|done]. destruct (_ || _) eqn:E; [done|]. intros [= ->].
  rewrite !orb_false_iff, !Z.ltb_ge in E. unfold Config.MaxSupportedAECDelayMS in E. lia.
Qed.

Lemma Load_belongs file c rec : Load file c = Ok rec -> file = Some rec /\ Fingerprint rec = FingerprintOf c.
Proof.
  unfold Load. destruct file as [r|]; [|done]. destruct (_ || _) eqn:E; [done|]. intros [= ->].
  rewrite !orb_false_iff, !negb_false_iff, bool_decide_eq_true in E. split; [done|tauto].
Qed.
(** The measurement gave a delay that can be used. *)
Definition holds (m : measurement) : Prop := measure_err m = None /\ 0 <= to_ms (Delay m) <= 3000.
(** Which delay is chosen: the measured one, which is stored for the next start, or else the one stored for this camera, or
    else the built-in one. *)
Definition chosen (k : Config.Config) (m : measurement) (now : Z) (file : option Record_) (l : list effect) (res : Result) : Prop :=
  let d := Config.AECInitialDelayMS (Cfg res) in
  (holds m -> CalibrationStatus res = "measured" /\ d = to_ms (Delay m) /\ LastCalibration res = Some now /\
     exists rec, SaveFile rec ∈ l /\ DelayMS rec = d /\ MeasuredAt rec = now) /\
  (~ holds m ->
     match Load file k with
     | Ok rec => CalibrationStatus res = "cached fallback" /\ d = DelayMS rec /\ LastCalibration res = Some (MeasuredAt rec)
     | _ => CalibrationStatus res = "safe fallback" /\ d = Config.DefaultAECInitialDelayMS /\ LastCalibration res = None
     end).
Lemma calibrate_chosen c mode m now file : Config.EffectiveReolinkMode c = "standalone" \/ Config.EffectiveReolinkMode c = "nvr" ->
  let '(l, r) := calibrate c mode m now file in chosen c m now file l r.
Proof.
  intros Hm. unfold calibrate, chosen, holds. set (d := to_ms (Delay m)).
  destruct (match measure_err m with Some e => Some e | None => _ end) as [e|] eqn:Ee.
  - assert (~ (measure_err m = None /\ 0 <= d <= 3000)) as Hn.
    { intros [H1 H2]. rewrite H1 in Ee. destruct (_ || _) eqn:E in Ee; [|done]. unfold Config.MaxSupportedAECDelayMS in E. lia. }
    destruct (Load file c) as [rec|err|] eqn:EL; cbv zeta; (split; [done|]); intros _; split_and!; try done.
    apply SetAECDelay_exact. by apply (Load_range file c).
  - assert (measure_err m = None /\ 0 <= d <= 3000) as [H1 H2].
    { destruct (measure_err m); [done|]. destruct (_ || _) eqn:E in Ee; [done|]. rewrite orb_false_iff, !Z.ltb_ge in E.
      unfold Config.MaxSupportedAECDelayMS in E. split; [done|lia]. }
    cbv zeta. split; [intros _|tauto]. split; [done|]. split; [by apply SetAECDelay_exact|]. split; [done|].
    unfold Save. rewrite (proj2 (orb_false_iff _ _)) by (rewrite !Z.ltb_ge; unfold Config.MaxSupportedAECDelayMS; lia).
    change (Config.EffectiveReolinkMode (Config.SetAECDelay d c)) with (Config.EffectiveReolinkMode c).
    replace (negb _ && negb _) with false by (destruct Hm as [-> | ->]; reflexivity).
    eexists. split; [by apply list_elem_of_singleton|]. split; [|done]. cbn [DelayMS Cfg]. symmetry. by apply SetAECDelay_exact.
Qed.

(** What [calibrate] comes to. *)
Lemma calibrate_spec c mode m now file : 50 <= Config.EchoCancellationSearchWindowMS c <= 1000 ->
  let '(l, r) := calibrate c mode m now file in
  ActiveMode r = mode /\ MediaProfile r = mediaProfile mode /\ same_options c (Cfg r) /\ window_ok c (Cfg r) /\
  Config.ResolvedReolinkMode (Cfg r) = Config.ResolvedReolinkMode c /\
  (forall x, x ∈ l -> exists rec, x = SaveFile rec /\ measure_err m = None /\ DelayMS rec = Config.AECInitialDelayMS (Cfg r) /\
     Load (Some rec) (Cfg r) = Ok rec) /\
  (CalibrationStatus r = "measured" -> measure_err m = None /\ Config.AECInitialDelayMS (Cfg r) = to_ms (Delay m) /\
     0 <= to_ms (Delay m) <= Config.MaxSupportedAECDelayMS) /\
  (CalibrationStatus r = "cached fallback" -> exists rec, Load file c = Ok rec /\ Config.AECInitialDelayMS (Cfg r) = DelayMS rec).
Proof.
  intros Hw. unfold calibrate. set (d := to_ms (Delay m)).
  destruct (match measure_err m with Some e => Some e | None => _ end) as [e|] eqn:Ee.
  - destruct (Load file c) as [rec|err|] eqn:EL; split_and!; try done; try (by apply SetAECDelay_ok);
      try (intros x Hx; by apply elem_of_nil in Hx).
    intros _. exists rec. split; [done|]. apply SetAECDelay_exact. by apply (Load_range file c).
  - assert (measure_err m = None /\ 0 <= d <= Config.MaxSupportedAECDelayMS) as [Hm Hd].
    { destruct (measure_err m); [done|]. destruct (_ || _) eqn:E in Ee; [done|]. rewrite orb_false_iff, !Z.ltb_ge in E. split; [done|lia]. }
    split_and!; try done; [by apply SetAECDelay_ok| |].
    + intros x Hx. unfold Save in Hx. rewrite (proj2 (orb_false_iff _ _)) in Hx by (rewrite !Z.ltb_ge; lia).
      destruct (_ && _) in Hx; [by apply elem_of_nil in Hx|]. apply list_elem_of_singleton in Hx as ->.
      eexists. split; [reflexivity|]. split; [done|]. cbn [DelayMS Cfg].
      unfold Config.MaxSupportedAECDelayMS in Hd. rewrite SetAECDelay_exact by done. split; [done|].
      unfold Load. cbn [Version DelayMS Fingerprint]. unfold Config.MaxSupportedAECDelayMS.
      rewrite (bool_decide_true (_ = _)) by done. rewrite (proj2 (Z.ltb_ge d 0)), (proj2 (Z.ltb_ge 3000 d)) by lia. done.
    + intros _. split; [done|]. split; [|exact Hd]. unfold Config.MaxSupportedAECDelayMS in Hd. by apply SetAECDelay_exact.
Qed.

Lemma resolveWith_spec c p : let '(l, r) := resolveWith c p in
  (forall x, x ∈ l -> x = ProbeStandalone \/ x = ProbeNVR /\ standalone p <> None) /\
  match r with
  | Ok mode => (mode = "standalone" \/ mode = "nvr") /\ (Config.ReolinkMode c = mode \/ Config.ReolinkMode c = "auto")
  | Err _ => True
  | Panic => False
  end.
Proof.
  unfold resolveWith. destruct (decide _) as [H|H].
  { split; [intros x Hx; by apply elem_of_nil in Hx|]. split; [done|by left]. }
  destruct (bool_decide_reflect (Config.ReolinkMode c = "auto")) as [E|E]; cbn [negb].
  2: { split; [intros x Hx; by apply elem_of_nil in Hx|done]. }
  destruct (standalone p) as [e|]; [|split; [set_solver|auto]].
  destruct (parent_after_standalone p); [split; [set_solver|done]|].
  split; [intros x Hx; rewrite !elem_of_cons, elem_of_nil in Hx; destruct Hx as [-> |[-> |[]]]; auto|].
  destruct (nvr p); [by destruct (parent_after_nvr p)|auto].
Qed.

Lemma resolved_mode c mode k : mode = "standalone" \/ mode = "nvr" ->
  Config.ResolvedReolinkMode k = Config.ResolvedReolinkMode (Config.WithResolvedReolinkMode mode c) ->
  Config.EffectiveReolinkMode k = mode.
Proof. unfold Config.EffectiveReolinkMode. intros Hm ->. by destruct Hm as [-> | ->]. Qed.

(** A dry run. *)
Lemma prepare_dry_spec c file : 50 <= Config.EchoCancellationSearchWindowMS c <= 1000 ->
  let r := prepare_dry c file in
  same_options c (Cfg r) /\ (Config.EchoCancellationEnabled c = true -> window_ok c (Cfg r)) /\
  CalibrationStatus r <> "measured" /\ CalibrationStatus r <> "cached fallback".
Proof.
  intros Hw. unfold prepare_dry.
  set (c1 := if bool_decide _ then Config.WithResolvedReolinkMode (Config.ReolinkMode c) c else c).
  assert (forall k, same_options c1 k -> same_options c k) as Hs.
  { intros k. subst c1. destruct (bool_decide _); [apply resolved_same|done]. }
  assert (forall k, window_ok c1 k -> window_ok c k) as Hk by (intros k; subst c1; by destruct (bool_decide _)).
  assert (50 <= Config.EchoCancellationSearchWindowMS c1 <= 1000) as Hw1 by (subst c1; by destruct (bool_decide _)).
  assert (Config.EchoCancellationEnabled c1 = Config.EchoCancellationEnabled c) as -> by (subst c1; by destruct (bool_decide _)).
  destruct (Config.EchoCancellationEnabled c).
  - destruct (Load file c1) as [rec|e|]; cbn [Cfg CalibrationStatus];
      (split; [by apply Hs|]); (split; [|done]); intros _; apply Hk; by apply SetAECDelay_ok.
  - cbn [Cfg CalibrationStatus]. split; [apply Hs; by destruct c1|done].
Qed.

(** C38: start-up ends with options that are ready for calls.  Whatever the probes and
    the measurement return and whatever calibration is stored: a dry run touches
    nothing; otherwise the way to the camera is settled, the NVR is only asked after
    the camera refused; the options differ from the configured ones only in
    the mode and the delay; the echo window lies around a delay within 0 to 3000 ms,
    which is the measured one to half a millisecond, and stored for the next start, whenever the measurement gave one in
    range; otherwise the one measured at the same camera before, where one is stored, and
    otherwise the built-in one; and a calibration is stored only when it was
    measured, and it is one that the next start will accept.  Outside a dry run the
    start-up fails only as the choice of the way to the camera fails, or when the
    measurement fails and the context has ended, and then with the context's error; a failed measurement alone
    never stops it. *)
Theorem start_up_ready (c : Config.Config) (p : probes) (m : measurement) (now : Z) (file : option Record_) :
  Config.Validate c = [] -> sfits 64 (Delay m) ->
  let '(l, r) := prepareWith c p m now file in
  (Config.DryRun c = true -> l = [] /\ is_ok r = true) /\
  (ProbeNVR ∈ l -> standalone p <> None) /\
  match r with
  | Ok res =>
    same_options c (Cfg res) /\
    (Config.DryRun c = false ->
      (ActiveMode res = "standalone" \/ ActiveMode res = "nvr") /\ Config.EffectiveReolinkMode (Cfg res) = ActiveMode res /\
      MediaProfile res = mediaProfile (ActiveMode res)) /\
    (Config.DryRun c = false -> (resolveWith c p).2 = Ok (ActiveMode res) /\
      if Config.EchoCancellationEnabled c
      then (measure_err m = None \/ ctx_err m = None) /\ chosen (Config.WithResolvedReolinkMode (ActiveMode res) c) m now file l res
      else CalibrationStatus res = "AEC disabled" /\ forall mode, Measure mode ∉ l) /\
    (Config.EchoCancellationEnabled c = true -> window_ok c (Cfg res)) /\
    (CalibrationStatus res = "measured" -> 2 * Z.abs (Delay m - millisecond * Config.AECInitialDelayMS (Cfg res)) <= millisecond) /\
    (CalibrationStatus res = "cached fallback" ->
      exists rec, file = Some rec /\ Fingerprint rec = FingerprintOf (Cfg res) /\ Config.AECInitialDelayMS (Cfg res) = DelayMS rec) /\
    (forall rec, SaveFile rec ∈ l -> measure_err m = None /\ Load (Some rec) (Cfg res) = Ok rec)
  | Err e => (forall rec, SaveFile rec ∉ l) /\
    ((resolveWith c p).2 = Err e \/
     is_ok (resolveWith c p).2 = true /\ Config.EchoCancellationEnabled c = true /\ measure_err m <> None /\ ctx_err m = Some e)
  | Panic => False
  end.
Proof.
  intros ((Hw & _ & _) & _)%Config.Validate_facts Hd. unfold prepareWith. destruct (Config.DryRun c).
  { destruct (prepare_dry_spec c file Hw) as (H1 & H2 & H3 & H4). split_and!; try done; [set_solver|set_solver]. }
  pose proof (resolveWith_spec c p) as Hr. destruct (resolveWith c p) as [l r]. destruct Hr as [Hl Hr]. cbn [snd].
  assert (forall x, x ∈ l -> x = ProbeStandalone \/ x = ProbeNVR) as Hl' by (intros x Hx; destruct (Hl x Hx) as [?|[? _]]; auto).
  assert (forall rec, SaveFile rec ∉ l) as Hsave by (intros rec Hx; by destruct (Hl' _ Hx)).
  assert (ProbeNVR ∈ l -> standalone p <> None) as Hnvr by (intros Hx; by destruct (Hl _ Hx) as [E|[_ E]]).
  destruct r as [mode|e|]; [|split_and!; try done; auto|done]. destruct Hr as [Hmode _]. set (c1 := Config.WithResolvedReolinkMode mode c).
  assert (Config.EffectiveReolinkMode c1 = mode) as Heff by (by apply (resolved_mode c mode)).
  change (Config.EchoCancellationEnabled c1) with (Config.EchoCancellationEnabled c).
  destruct (Config.EchoCancellationEnabled c) eqn:Eec; cbn [negb].
  2: { split; [done|]. split; [done|]. cbn [Cfg ActiveMode MediaProfile CalibrationStatus].
       split_and!; try done; try (by intros rec Hx; destruct (Hsave rec Hx)).
       intros _. split_and!; try done. intros k Hx. by destruct (Hl' _ Hx). }
  assert (forall l' x, x ∈ l ++ [Measure mode] ++ l' -> x ∈ l \/ x = Measure mode \/ x ∈ l') as Hin by set_solver.
  destruct (match measure_err m, ctx_err m with Some _, Some stop => Some stop | _, _ => None end) as [stop|] eqn:Estop.
  - destruct (measure_err m); [|done]. destruct (ctx_err m); [|done]. injection Estop as ->.
    split; [done|]. split; [|split; [|by right]]; [intros Hx|intros rec Hx]; apply (Hin []) in Hx as [Hx|[Hx|Hx]]; try done; try (by apply elem_of_nil in Hx); auto.
    by destruct (Hsave rec).
  - pose proof (calibrate_spec c1 mode m now file Hw) as Hc. pose proof (calibrate_chosen c1 mode m now file) as Hch. rewrite Heff in Hch. specialize (Hch Hmode).
    destruct (calibrate c1 mode m now file) as [l' r].
    destruct Hc as (C1 & C2 & C3 & C4 & C5 & C6 & C7 & C8).
    assert ((match measure_err m, ctx_err m with Some _, Some stop => (l ++ [Measure mode], Err stop) | _, _ => (l ++ [Measure mode] ++ l', Ok r) end) =
      (l ++ [Measure mode] ++ l', Ok r)) as -> by (by destruct (measure_err m), (ctx_err m)).
    split; [done|]. split.
    { intros Hx. apply Hin in Hx as [Hx|[Hx|Hx]]; [auto|done|]. by destruct (C6 _ Hx) as (rec & E & _). }
    split_and!; [by apply (resolved_same mode c)| | |done| | |].
    + intros _. rewrite C1, C2. split_and!; try done. by apply (resolved_mode c mode).
    + intros _. rewrite C1. split; [done|]. split; [destruct (measure_err m); [right; by destruct (ctx_err m)|by left]|].
      destruct Hch as [H1 H2]. split; [|exact H2]. intros H. destruct (H1 H) as (? & ? & ? & rec & Hx & ?). split_and!; try done.
      exists rec. split; [set_solver|done].
    + intros H. destruct (C7 H) as (_ & -> & Hr). by apply to_ms_near.
    + intros H. destruct (C8 H) as (rec & [HL HF]%Load_belongs & E). exists rec. split; [done|]. split; [|done].
      rewrite HF. unfold FingerprintOf, Config.EffectiveReolinkMode. by rewrite C3, C5.
    + intros rec Hx. apply Hin in Hx as [Hx|[Hx|Hx]]; [by destruct (Hsave rec)|done|].
      destruct (C6 _ Hx) as (rec' & [= <-] & H1 & _ & H2). done.
Qed.
End startup.

(** * Witnesses *)

#[local] Existing Instances ascii_tables Sdp.Sdp.text_addresses.
#[local] Instance home_family : @Config.IPFamily Sdp.Sdp.text_addresses := { is_IPv4 := fun _ => true }.
Definition home_nvr : Config.Config := Config.Defaults <| Config.ResolvedReolinkMode := "nvr" |>.
Lemma plain_home m : m = "nvr" \/ m = "standalone" -> plain (Config.Defaults <| Config.ResolvedReolinkMode := m |>).
Proof.
  intros [-> | ->]; split; try (cbn; lia); try reflexivity; [by right|by left].
Qed.
Lemma calibration_profile_witness :
  exists rec, Save home_nvr 1500 7 = Ok rec /\
    Load (Some rec) (Config.Defaults <| Config.ResolvedReolinkMode := "standalone" |>) <> Ok rec.
Proof.
  eexists. split; [reflexivity|]. intros H.
  apply (calibration_profile home_nvr (Config.Defaults <| Config.ResolvedReolinkMode := "standalone" |>) 1500 7) in H;
    [discriminate H|apply plain_home; by left|apply plain_home; by right|reflexivity].
Defined.

Definition live_home : Config.Config :=
  Config.Load {["call_routes"]} (Config.mkLegacy None None)
    (Config.Defaults <| Config.DryRun := false |> <| Config.ReolinkPassword := "p" |> <| Config.SIPUsername := "door" |>
       <| Config.SIPPassword := "s" |>).
Definition nvr_only : probes := mkProbes (Some "refused") None None None.
Definition clap : measurement := mkMeasurement 1499600000 "correlation 0.912" None None.
Lemma start_up_ready_witness :
  exists l r, prepareWith (fun _ => "") live_home nvr_only clap 7 None = (l, Ok r) /\ ActiveMode r = "nvr" /\
    2 * Z.abs (1499600000 - millisecond * Config.AECInitialDelayMS (Cfg r)) <= millisecond.
Proof.
  pose proof (start_up_ready (fun _ => "") live_home nvr_only clap 7 None) as H.
  assert ((match (prepareWith (fun _ => "") live_home nvr_only clap 7 None).2 with
           | Ok r => bool_decide (ActiveMode r = "nvr") && bool_decide (CalibrationStatus r = "measured")
           | _ => false
           end) = true) as Hr by (vm_compute; reflexivity).
  destruct (prepareWith (fun _ => "") live_home nvr_only clap 7 None) as [l [r|e|]]; [|done|done].
  apply andb_prop in Hr as [Hm%bool_decide_eq_true Hs%bool_decide_eq_true]. exists l, r. split; [reflexivity|]. split; [exact Hm|].
  destruct H as (_ & _ & _ & _ & _ & _ & H & _); [vm_compute; reflexivity|unfold sfits; cbn; lia|exact (H Hs)].
Defined.
End Startup.
