(* ===== verification/Calibrate.v ===== *)
(** The measurement of the echo delay at start-up ([internal/calibration/measure.go]): the capture of what the camera
    hears, the marker sent to its loudspeaker, and the verdict on what was found.  The search itself is in
    [AcousticDelay].

    What the calls return, what the camera is heard to say and how long things take are inputs.  A wait is what it saw
    before it ended and what ended it.  Texts of errors leave out values the code quotes. *)
From S2P Require Import Prelude GoBytes GoStrings GoText Adpcm G711 Playout BcWire BcMedia BcTalk AudioReceiver Rtp RtspClient PhoneBridge Talkback Config CallHandlers MediaSession AcousticDelay Startup.

Module Calibrate.
Import CallHandlers.
#[local] Existing Instances BcTalk.eta_session.

Definition latencyCaptureRate : Z := 16000.
Definition latencyWarmupSamples : Z := Z.quot latencyCaptureRate 2.
Definition latencySearchDuration : Z := 5 * AcousticDelay.Second.
Definition latencyCaptureAttempts : nat := 3.
Definition plain (s : string) : error := mkError s [].

(** * The collector *)

(** [slice] of the samples collected so far. *)
Definition slice (c : list Z) (from to : Z) : result (list Z) :=
  let from := Z.max 0 from in
  let to := Z.min to (len c) in
  let from := Z.min from to in
  if from <? 0 then Panic else Ok (take (Z.to_nat (to - from)) (drop (Z.to_nat from) c)).

Inductive read_end := EOF | ReadFailed (e : error).
(** What was collected, and the result; [None] while it still reads.  [carry] is the odd byte kept. *)
Fixpoint collectPCM16 (carry : bytes) (reads : list (bytes * option read_end)) (c : list Z) : list Z * option (option error) :=
  match reads with
  | [] => (c, None)
  | (buf, e) :: reads =>
    let '(carry, c) :=
      if decide (buf = []) then (carry, c)
      else let '(data, carry) := AudioReceiver.assemble carry buf in (carry, c ++ AudioReceiver.samples data) in
    match e with
    | None => collectPCM16 carry reads c
    | Some EOF => (c, Some None)
    | Some (ReadFailed x) => (c, Some (if errorIs (Some x) Canceled then None else Some x))
    end
  end.

(** The goroutine of the Baichuan capture: what its [select] takes; the samples and what it reports at its end. *)
Inductive capture_event := CCtx (e : error) | CDone (e : option (option error)) | CPCM (chunk : option (list Z)).
Fixpoint forward (es : list capture_event) (c : list Z) : list Z * option error :=
  match es with
  | [] => (c, None)
  | CCtx e :: _ => (c, Some e)
  | CDone e :: _ => (c, Some (match e with Some (Some x) => x | _ => plain "Baichuan preview ended" end))
  | CPCM None :: _ => (c, Some (plain "Baichuan PCM stream ended"))
  | CPCM (Some chunk) :: es => forward es (c ++ chunk)
  end.
Definition buildLatencyCaptureArgs (inputURL : string) : list string :=
  ["-hide_banner"; "-nostdin"; "-loglevel"; "warning"; "-timeout"; "10000000"; "-rtsp_transport"; "tcp"; "-fflags"; "nobuffer"; "-flags"; "low_delay";
   "-i"; inputURL; "-map"; "0:a:0"; "-vn"; "-ac"; "1"; "-ar"; Itoa latencyCaptureRate; "-c:a"; "pcm_s16le"; "-f"; "s16le"; "pipe:1"].

(** * Waiting for audio *)

(** The numbers of samples seen at the ticks, the last one seen, and what ended the wait then. *)
Inductive wake := WCtx (e : error) | WDone (e : option error) | WDeadline.
Record waiting := mkWaiting { ticks : list Z; have : Z; ending : wake }.
Definition capture_ended (e : option error) : error :=
  match e with None => plain "audio capture ended" | Some e => wrapped "audio capture ended" e end.
Definition waitForPCM (count : Z) (w : waiting) : option error :=
  if existsb (fun n => count <=? n) (ticks w ++ [have w]) then None
  else match ending w with
       | WCtx e => Some e
       | WDone e => Some (capture_ended e)
       | WDeadline => Some (plain ("timed out waiting for " +:+ Itoa count +:+ " PCM samples"))
       end.
(** A window of half a second: the samples at its start and end, and what cut it short. *)
Inductive cut := CutCtx (e : error) | CutDone (e : option error).
Record window := mkWindow { w_start : Z; w_end : Z; w_cut : option cut }.
Definition expected : Z := F64.trunc_int (F64.mul (AcousticDelay.Seconds (500 * 1000000)) (F64.of_Z latencyCaptureRate)).
Definition realtime (w : window) : bool :=
  let delta := w_end w - w_start w in (Z.quot expected 2 <=? delta) && (delta <=? expected * 2).
Fixpoint pace (ws : list window) : option error :=
  match ws with
  | [] => Some (plain "audio sample delivery stayed substantially faster/slower than real time")
  | w :: ws =>
    match w_cut w with
    | Some (CutCtx e) => Some e
    | Some (CutDone e) => Some (default (plain "audio capture ended") e)
    | None => if realtime w then None else pace ws
    end
  end.
Definition waitForRealtimePCM (ws : nat -> window) : option error := pace (map ws (seq 0 5)).
(** [captureTermination] of what the channel holds, if anything. *)
Definition captureTermination (done : option (option error)) : option error := option_map capture_ended done.

(** * What a measurement does *)

(** A capture is that of its attempt. *)
Inductive resource := Capture (attempt : nat) | Connection | Talk | Backchannel.
#[export] Instance resource_eq : EqDecision resource. Proof. solve_decision. Defined.
Inductive action := Opened (r : resource) | Closed (r : resource) | Marker (pcm : list Z).
Record LatencyResult := mkResult {
  Delay : Z; Correlation : F64.t; SecondPeak : F64.t; PeakMargin : F64.t; PeakRatio : F64.t;
  ReceiveMode : string; ReceiveDetails : string; ReceiveCodec : string; Channel : Z; SampleRate : Z;
  SamplesScanned : Z; CaptureAttempt : nat; MarkerBlocks : Z; MarkerBlocksExpected : Z; MarkerDuration : Z;
}.
#[export] Instance eta_result : Eta LatencyResult := fun r =>
  mkResult (Delay r) (Correlation r) (SecondPeak r) (PeakMargin r) (PeakRatio r) (ReceiveMode r) (ReceiveDetails r) (ReceiveCodec r)
    (Channel r) (SampleRate r) (SamplesScanned r) (CaptureAttempt r) (MarkerBlocks r) (MarkerBlocksExpected r) (MarkerDuration r).
Inductive failure := Operational (e : error) | LatencyAmbiguousError (best second margin ratio : F64.t) | Crash.

Record st := mkSt { log : list action; res : LatencyResult }.
#[export] Instance eta_st : Eta st := fun s => mkSt (log s) (res s).
Definition M (A : Type) : Type := st -> (failure + A) * st.
#[export] Instance m_ret : MRet M := fun A a s => (inr a, s).
#[export] Instance m_bind : MBind M := fun A B f m s => match m s with (inl e, s) => (inl e, s) | (inr a, s) => f a s end.
Definition act (a : action) : M unit := fun s => (inr tt, s <| log ::= fun l => l ++ [a] |>).
Definition note (f : LatencyResult -> LatencyResult) : M unit := fun s => (inr tt, s <| res ::= f |>).
Definition throw {A} (e : failure) : M A := fun s => (inl e, s).
Definition fails {A} (e : error) : M A := throw (Operational e).
Definition try {A} (m : M A) : M (failure + A) := fun s => let '(r, s) := m s in (inr r, s).
Definition check (e : option error) (context : string) : M unit :=
  match e with None => mret tt | Some e => fails (if decide (context = "") then e else wrapped context e) end.
Fixpoint acts (l : list action) : M unit := match l with [] => mret tt | a :: l => _ ← act a; acts l end.
(** [defer] of [l] before [m]. *)
Definition deferring {A} (l : list action) (m : M A) : M A := fun s => let '(r, s) := m s in (r, s <| log ::= fun x => x ++ l |>).

(** * Opening the capture *)

(** One attempt: what starting it gives, how its audio arrives, FFmpeg's messages (trimmed, without the credentials),
    and the error of the context if it ends the pause that follows. *)
Record attempt := mkAttempt {
  pipe_err : option error; start_err : option error;
  open_err : option error; ready : MediaSession.readiness; info : AudioReceiver.Info;
  warm : waiting; paced : nat -> window; stderr : string; pause : option error;
}.
Section capture.
Context `{U : Unicode}.

Definition startLatencyCapture (i : nat) (a : attempt) : M unit :=
  _ ← check (pipe_err a) "prepare latency RTSP capture";
  _ ← check (start_err a) "start latency RTSP capture";
  act (Opened (Capture i)).
Definition startBaichuanLatencyCapture (i : nat) (a : attempt) : M unit :=
  match MediaSession.ParseStream MediaSession.BaichuanReceiveStream with
  | Ok _ =>
    _ ← check (open_err a) "";
    _ ← act (Opened (Capture i));
    let early := plain "Baichuan preview ended before audio became ready" in
    let fail x := _ ← act (Closed (Capture i)); fails x in
    match ready a with
    | MediaSession.RReady _ => mret tt
    | MediaSession.RReadyClosed => fail early
    | MediaSession.RDone x => fail (default early x)
    | MediaSession.RTimeout => fail (plain "timed out waiting for Baichuan preview audio")
    | MediaSession.RCancelled x => fail x
    end
  | Err x => fails (plain x)
  | Panic => throw Crash
  end.
(** The checks of a capture that has started. *)
Definition usable (name : string) (a : attempt) : option error :=
  match waitForPCM latencyWarmupSamples (warm a) with
  | Some e => Some e
  | None => option_map (wrapped (name +:+ " latency capture is not pacing close to real time")) (waitForRealtimePCM (paced a))
  end.
(** The two loops of the same shape; [rest] attempts are left, [i] is the next. *)
Fixpoint open_with_retry (rtsp : bool) (attempts : nat -> attempt) (rest i : nat) : M nat :=
  match rest with
  | O => throw Crash (* not reached: there is a first attempt *)
  | S rest =>
    let a := attempts i in
    let name := if rtsp then "RTSP" else "Baichuan" in
    started ← try (if rtsp then startLatencyCapture i a else startBaichuanLatencyCapture i a);
    match started, (match started with inr _ => usable name a | inl _ => None end) with
    | inr _, None => mret i
    | inl Crash, _ | inl (LatencyAmbiguousError _ _ _ _), _ => throw Crash
    | _, e =>
      err ← (match started, e with
             | inr _, Some e =>
               _ ← act (Closed (Capture i));
               mret (if rtsp && negb (bool_decide (stderr a = "")) then mkError (text e +:+ "; ffmpeg: " +:+ stderr a) (wraps e) else e)
             | inl (Operational e), _ => mret e
             | _, _ => throw Crash
             end);
      match rest with
      | O => fails (wrapped (name +:+ " latency capture did not become ready after 3 attempts") err)
      | _ => match pause a with Some e => fails e | None => open_with_retry rtsp attempts rest (i + 1) end
      end
    end
  end.
Definition openLatencyCaptureWithRetry (attempts : nat -> attempt) : M nat := open_with_retry true attempts latencyCaptureAttempts 1.
Definition openBaichuanLatencyCaptureWithRetry (attempts : nat -> attempt) : M nat := open_with_retry false attempts latencyCaptureAttempts 1.
End capture.

(** * Sending the marker *)

Record markerSendStats := mkStats { BlocksSent : Z; BlocksExpected : Z; MediaDuration : Z }.
(** The timer's turn: it was cut short, or it fired. *)
Definition timer_wait (w : Talkback.wait) (deadline : Z) : option string * Z :=
  match Talkback.w_cut w with Some e => (Some e, Talkback.w_now w) | None => (None, Z.max (Talkback.w_now w) deadline) end.
Section blocks.
Context {S : Type} (write : list Z -> S -> S * option string) (waits : nat -> Talkback.wait) (duration : Z).
(** The loop from block [i] on: the state, the blocks sent, the error, the times at which they were sent. *)
Fixpoint send_blocks (i : nat) (blocks : list (list Z)) (next now sent : Z) (s : S) : S * Z * option string * list Z :=
  match blocks with
  | [] => (s, sent, None, [])
  | b :: blocks =>
    let next := if (i =? 0)%nat then next else next + duration in
    let '(e, now) := if (i =? 0)%nat then (None, now) else timer_wait (waits i) next in
    match e with
    | Some e => (s, sent, Some e, [])
    | None =>
      match write b s with
      | (s, Some e) => (s, sent, Some e, [])
      | (s, None) => let '(s, sent, e, at_) := send_blocks (i + 1) blocks next now (sent + 1) s in (s, sent, e, now :: at_)
      end
    end
  end.
Definition send_all (blockSamples : Z) (pcm : list Z) (now : Z) (s : S) : S * markerSendStats * option string * list Z :=
  let n := Z.to_nat blockSamples in
  let expected := Z.quot (len pcm + blockSamples - 1) blockSamples in
  let '(s, sent, e, at_) := send_blocks 0 (map (Talkback.block_at pcm n) (seq 0 (Talkback.blocks_of pcm n))) now now 0 s in
  (s, mkStats sent expected (if e then 0 else sent * duration), e, at_).
End blocks.
Section senders.
Context `{U : Unicode} `{X : BcTalk.TalkXml}.
Definition write_marker (num : nat -> Z) (io : nat -> option string) (block : list Z) (p : Talkback.player) : Talkback.player * option string :=
  let i := length (Talkback.requests p) in
  match Adpcm.EncodeBlock (Talkback.enc p) block with
  | Panic => (p, Some "panic")
  | Err e => (p, Some ("encode acoustic latency marker: " +:+ e))
  | Ok (encoded, e) =>
    let encoded := default [] encoded in
    let p := Talkback.mkPlayer e (Talkback.session p) (Talkback.requests p) (Talkback.told p) in
    if negb (len encoded =? BcTalk.bytesPerBlock (Talkback.session p)) then (p, Some "acoustic marker ADPCM block size")
    else
      match BcTalk.WriteADPCMBlock (Talkback.session p) None encoded (num i) with
      | Panic => (p, Some "panic")
      | Err e => (p, Some ("send acoustic latency marker block: " +:+ e))
      | Ok (req, s) =>
        match io i with
        | Some e => (Talkback.mkPlayer (Talkback.enc p) s (Talkback.requests p) (Talkback.told p), Some ("send acoustic latency marker block: " +:+ e))
        | None => (Talkback.mkPlayer (Talkback.enc p) s (Talkback.requests p ++ [req]) (Talkback.told p), None)
        end
      end
  end.
Definition sendPCMThroughBaichuan (num : nat -> Z) (io : nat -> option string) (waits : nat -> Talkback.wait) (now : Z) (s : BcTalk.TalkSession)
    (pcm : list Z) : Talkback.player * markerSendStats * option string * list Z :=
  let rate := BcTalk.SampleRate (Talkback.audio_of s) in
  let n := BcTalk.samplesPerBlock s in
  let p := Talkback.mkPlayer Adpcm.zero s [] [] in
  if (rate <=? 0) || (n <? 2) || negb (n mod 2 =? 0) then (p, mkStats 0 0 0, Some "invalid Baichuan latency marker profile", [])
  else send_all (write_marker num io) waits (Talkback.block_duration n rate) n pcm now p.
Definition write_frame (codec : string) (pt : Z) (io : nat -> option string) (block : list Z) (p : Talkback.rtsp_player) : Talkback.rtsp_player * option string :=
  let payload := default [] (G711.EncodePCM block codec) in
  if negb (len payload =? 160) then (p, Some "encode RTSP latency marker")
  else
    let '(pkt, m) := RtspClient.WriteAudio payload pt (Talkback.stream p) in
    match io (length (Talkback.packets p)) with
    | Some e => (Talkback.mkRtspPlayer m (Talkback.packets p) (Talkback.rtold p), Some ("send RTSP latency marker frame: " +:+ e))
    | None => (Talkback.mkRtspPlayer m (Talkback.packets p ++ [pkt]) (Talkback.rtold p), None)
    end.
Definition sendPCMThroughRTSP (bc : RtspClient.Backchannel) (io : nat -> option string) (waits : nat -> Talkback.wait) (now : Z) (m : RtspClient.media)
    (pcm : list Z) : Talkback.rtsp_player * markerSendStats * option string * list Z :=
  let codecName := ToLower (TrimSpace (RtspClient.Codec bc)) in
  let p := Talkback.mkRtspPlayer m [] [] in
  if negb (bool_decide (codecName = G711.PCMA)) && negb (bool_decide (codecName = G711.PCMU))
  then (p, mkStats 0 0 0, Some "unsupported RTSP backchannel codec for latency calibration", [])
  else send_all (write_frame codecName (RtspClient.PayloadType bc) io) waits (20 * 1000000) 160 pcm now p.
End senders.
(** * [MeasureAcousticLatency] *)

(** [heard] is every sample the capture delivers; the numbers after it are how many there are when the marker starts,
    when a wait for more has failed and when the search begins. *)
Record env := mkEnv {
  lookPath : option error;
  attempts : nat -> attempt;
  dialed : error + BcTalk.client;
  opened : error + (RtspClient.opened * RtspClient.media);
  settled : option error;               (** the context's error, if it ends the pause before the marker *)
  terminated : option (option error);   (** what the capture's goroutine has reported by then *)
  num : nat -> Z; io : nat -> option string; waits : nat -> Talkback.wait; started_at : Z;
  heard : list Z; baseline : Z; search : waiting; later : Z; scanned : Z;
}.
Inductive talkPath := ThroughBaichuan (s : BcTalk.TalkSession) | ThroughRTSP (o : RtspClient.opened) (m : RtspClient.media).
Definition markerRate (t : talkPath) : Z :=
  match t with ThroughBaichuan s => BcTalk.SampleRate (Talkback.audio_of s) | ThroughRTSP _ _ => 8000 end.
Definition closeTalk (t : talkPath) : list action :=
  match t with ThroughBaichuan _ => [Closed Talk; Closed Connection] | ThroughRTSP _ _ => [Closed Backchannel] end.
Definition targetSamples (e : env) : Z :=
  baseline e + F64.trunc_int (F64.mul (AcousticDelay.Seconds latencySearchDuration) (F64.of_Z latencyCaptureRate)).
(** The collector when it holds [n] samples. *)
Definition collected (e : env) (n : Z) : list Z := take (Z.to_nat n) (heard e).
Definition of_result {A} (r : result A) : M A :=
  match r with Ok a => mret a | Err e => fails (plain e) | Panic => throw Crash end.

Section measure.
Context `{U : Unicode} `{X : BcTalk.TalkXml} (sin : F64.t -> F64.t).

Definition generateLatencyMarker (rate : Z) : list Z := AcousticDelay.Calibration sin rate.
Definition open_capture (cfg : Config.Config) (e : env) : M nat :=
  if decide (Config.ReceiveMode cfg = "rtsp") then
    i ← openLatencyCaptureWithRetry (attempts e);
    _ ← note (fun r => r <| ReceiveDetails := "RTSP/TCP " +:+ Config.ReolinkStreamPath cfg |>);
    mret i
  else if decide (Config.ReceiveMode cfg = "baichuan") then
    i ← openBaichuanLatencyCaptureWithRetry (attempts e);
    let info := info (attempts e i) in
    _ ← note (fun r => r <| ReceiveCodec := AudioReceiver.Codec info |> <| ReceiveDetails := AudioReceiver.Details info |>);
    mret i
  else fails (plain ("unsupported receive_mode " +:+ Config.ReceiveMode cfg)).
Definition open_talk (cfg : Config.Config) (e : env) : M talkPath :=
  if decide (Config.EffectiveReolinkMode cfg = "nvr") then
    match dialed e with
    | inl x => fails (wrapped "connect Baichuan for latency calibration" x)
    | inr c =>
      _ ← act (Opened Connection);
      match BcTalk.StartTalk (u8 (Config.NVRChannel cfg)) c with
      | (inl _, _) => _ ← act (Closed Connection); fails (plain "start Baichuan talk for latency calibration")
      | (inr s, _) =>
        _ ← act (Opened Talk);
        let a := Talkback.audio_of s in
        let n := BcTalk.samplesPerBlock s in
        if (BcTalk.SampleRate a <=? 0) || (n <? 2) || negb (n mod 2 =? 0) || negb (EqualFold (BcTalk.AudioType a) "adpcm")
        then _ ← acts [Closed Talk; Closed Connection]; fails (plain "unsupported Baichuan profile for latency calibration")
        else mret (ThroughBaichuan s)
      end
    end
  else if decide (Config.EffectiveReolinkMode cfg = "standalone") then
    match opened e with
    | inl x => fails (wrapped "open RTSP backchannel for latency calibration" x)
    | inr (o, m) => _ ← act (Opened Backchannel); mret (ThroughRTSP o m)
    end
  else fails (plain "latency calibration requires a resolved Reolink mode").
Definition sendMarker (t : talkPath) (e : env) (pcm : list Z) : markerSendStats * option string :=
  match t with
  | ThroughBaichuan s => let '(_, stats, err, _) := sendPCMThroughBaichuan (num e) (io e) (waits e) (started_at e) s pcm in (stats, err)
  | ThroughRTSP o m => let '(_, stats, err, _) := sendPCMThroughRTSP (RtspClient.o_backchannel o) (io e) (waits e) (started_at e) m pcm in (stats, err)
  end.
(** From the wait for the search window on. *)
Definition evaluate (e : env) : M unit :=
  let target := targetSamples e in
  _ ← match waitForPCM target (search e) with
      | Some x => if later e <? baseline e + latencyCaptureRate then fails (wrapped "insufficient audio after latency marker" x) else mret tt
      | None => mret tt
      end;
  captured ← of_result (slice (collected e (scanned e)) (baseline e) target);
  _ ← note (fun r => r <| SamplesScanned := len captured |>);
  match AcousticDelay.estimateAcousticDelay captured (generateLatencyMarker latencyCaptureRate) latencyCaptureRate with
  | None => fails (plain "acoustic marker correlation could not be evaluated")
  | Some p =>
    _ ← note (fun r => r <| Delay := AcousticDelay.Delay p |> <| Correlation := AcousticDelay.Best p |> <| SecondPeak := AcousticDelay.Second_ p |>
                         <| PeakMargin := AcousticDelay.Margin p |> <| PeakRatio := AcousticDelay.Ratio p |>);
    if AcousticDelay.Reliable p then mret tt
    else throw (LatencyAmbiguousError (AcousticDelay.Best p) (AcousticDelay.Second_ p) (AcousticDelay.Margin p) (AcousticDelay.Ratio p))
  end.
Definition with_talk (e : env) (t : talkPath) : M unit :=
  _ ← check (settled e) "";
  _ ← check (captureTermination (terminated e)) "latency capture ended before acoustic marker";
  let markerTalk := generateLatencyMarker (markerRate t) in
  _ ← act (Marker markerTalk);
  let '(stats, err) := sendMarker t e markerTalk in
  _ ← match err with Some x => fails (plain x) | None => mret tt end;
  _ ← note (fun r => r <| MarkerBlocks := BlocksSent stats |> <| MarkerBlocksExpected := BlocksExpected stats |> <| MarkerDuration := MediaDuration stats |>);
  evaluate e.
Definition measure (cfg : Config.Config) (e : env) : M unit :=
  _ ← check (lookPath e) "ffmpeg not found";
  i ← open_capture cfg e;
  _ ← note (fun r => r <| CaptureAttempt := i |>);
  deferring [Closed (Capture i)] (t ← open_talk cfg e; deferring (closeTalk t) (with_talk e t)).
Definition MeasureAcousticLatency (cfg : Config.Config) (e : env) : option failure * st :=
  let z := F64.zero in
  let r := mkResult 0 z z z z (Config.ReceiveMode cfg) "" "" (Config.NVRChannel cfg) latencyCaptureRate 0 0 0 0 0 in
  match measure cfg e (mkSt [] r) with (inl x, s) => (Some x, s) | (inr _, s) => (None, s) end.
End measure.
(** * The measurement at start-up *)

Definition failure_text (f : failure) : string :=
  match f with Operational e => text e | LatencyAmbiguousError _ _ _ _ => "acoustic marker result ambiguous" | Crash => "panic" end.
(** [quality] prints the correlation and the ratio; [ctx] is the error of the context afterwards. *)
Definition measurement_of (quality : LatencyResult -> string) (ctx : option string) (out : option failure * st) : Startup.measurement :=
  Startup.mkMeasurement (Delay (res out.2)) (quality (res out.2)) (option_map failure_text out.1) ctx.
(** [Prepare] with [defaultDependencies]: the mode is resolved, then the delay is measured with it. *)
Definition Prepare `{U : Unicode} `{X : BcTalk.TalkXml} (RFC3339 : Z -> string) (sin : F64.t -> F64.t) (c : Config.Config) (p : Startup.probes) (e : env)
    (quality : LatencyResult -> string) (ctx : option string) (now : Z) (file : option Startup.Record_)
    : list Startup.effect * result Startup.Result :=
  let cfg := match (Startup.resolveWith c p).2 with Ok mode => Config.WithResolvedReolinkMode mode c | _ => c end in
  Startup.prepareWith RFC3339 c p (measurement_of quality ctx (MeasureAcousticLatency sin cfg e)) now file.
(** * Properties *)

(** ** What was collected *)

(** The reads up to the one that failed, whatever their sizes: the samples of all their bytes. *)
Lemma collect_spec reads : forall carry c, (length carry <= 1)%nat -> Forall (fun r => r.2 = None) reads ->
  collectPCM16 carry reads c = (c ++ AudioReceiver.samples (carry ++ concat (map fst reads)), None).
Proof.
  induction reads as [|[buf e] reads IH]; intros carry c Hc Hr; cbn [collectPCM16 map concat fst].
  - rewrite app_nil_r. destruct carry as [|x [|y l]]; [by rewrite app_nil_r|by rewrite app_nil_r|cbn in Hc; lia].
  - apply Forall_cons_1 in Hr as [He Hr]. cbn in He. subst e. destruct (decide (buf = [])) as [->|Hb]; [by rewrite IH|].
    pose proof (AudioReceiver.assemble_spec carry buf Hc) as Ha. destruct (AudioReceiver.assemble carry buf) as [data c'].
    destruct Ha as (E & Hw & Hc'). rewrite IH by done. f_equal.
    assert (carry ++ buf ++ concat (map fst reads) = data ++ c' ++ concat (map fst reads)) as -> by (by rewrite !app_assoc, E).
    rewrite <- app_assoc. f_equal. symmetry. by apply AudioReceiver.samples_app.
Qed.
Lemma forward_spec chunks e c :
  forward (map (fun l => CPCM (Some l)) chunks ++ [CCtx e]) c = (c ++ concat chunks, Some e).
Proof. revert c. induction chunks as [|l chunks IH]; intros c; cbn; [by rewrite app_nil_r|]. by rewrite IH, app_assoc. Qed.
Lemma slice_spec c from to : 0 <= from -> from <= to -> slice c from to = Ok (take (Z.to_nat (Z.min to (len c) - Z.min from (len c))) (drop (Z.to_nat from) c)).
Proof.
  intros H1 H2. pose proof (len_nonneg c). unfold slice. cbv zeta. destruct (Z.ltb_spec (Z.min (Z.max 0 from) (Z.min to (len c))) 0); [lia|]. f_equal.
  destruct (Z.le_gt_cases from (len c)).
  - f_equal; [lia|]. f_equal. lia.
  - rewrite !drop_ge by lia. by rewrite !take_nil.
Qed.

(** ** Nothing stays open *)

(** The resources open after [l], the last opened first; [None] when one is opened while it, or any other capture, is
    open, when one is closed out of turn, or when the marker is sent while not exactly a capture and a talk path are open. *)
Definition is_capturing (r : resource) : bool := match r with Capture _ => true | _ => false end.
Definition clashes (r : resource) (o : list resource) : bool := if is_capturing r then existsb is_capturing o else bool_decide (r ∈ o).
Definition talking (o : list resource) : bool :=
  match o with [Talk; Connection; Capture _] | [Backchannel; Capture _] => true | _ => false end.
Fixpoint held (o : list resource) (l : list action) : option (list resource) :=
  match l with
  | [] => Some o
  | Opened r :: l => if clashes r o then None else held (r :: o) l
  | Closed r :: l => match o with r' :: o => if decide (r = r') then held o l else None | [] => None end
  | Marker _ :: l => if talking o then held o l else None
  end.
Definition is_capture (a : action) : bool := match a with Opened r => is_capturing r | _ => false end.
Definition is_marker (a : action) : bool := match a with Marker _ => true | _ => false end.
Definition count (p : action -> bool) (l : list action) : nat := length (filter (fun a => p a = true) l).
Lemma count_app p a b : count p (a ++ b) = (count p a + count p b)%nat.
Proof. unfold count. by rewrite filter_app, length_app. Qed.
Lemma held_app a b : forall o, held o (a ++ b) = (o' ← held o a; held o' b).
Proof.
  induction a as [|[r|r|p] a IH]; intros o; cbn [held app]; [done|destruct (clashes r o)|destruct o; [|case_decide]|destruct (talking o)]; try done; apply IH.
Qed.

(** [m], begun with [o] open, adds actions after which [bad] is open if it failed and [good a] if it gave [a]; at most
    [c] of them open a capture and at most [k] send the marker. *)
Definition emits {A} (c k : nat) (o bad : list resource) (good : A -> list resource) (m : M A) : Prop :=
  forall s, exists l, log (m s).2 = log s ++ l /\ held o l = Some (match (m s).1 with inl _ => bad | inr a => good a end) /\
    ((count is_capture l <= c)%nat /\ (count is_marker l <= k)%nat).
Section emits.
Context {A B : Type}.
Lemma emits_ret c k o bad (a : A) good : good a = o -> emits c k o bad good (mret a).
Proof. intros H s. exists []. cbn. rewrite app_nil_r, H. by repeat split; lia. Qed.
Lemma emits_throw c k o good (e : failure) : emits (A := A) c k o o good (throw e).
Proof. intros s. exists []. cbn. rewrite app_nil_r. by repeat split; lia. Qed.
Lemma emits_bind c1 k1 c2 k2 o bad mid good (m : M A) (f : A -> M B) :
  emits c1 k1 o bad mid m -> (forall a, emits c2 k2 (mid a) bad good (f a)) -> emits (c1 + c2) (k1 + k2) o bad good (m ≫= f).
Proof.
  intros Hm Hf s. destruct (Hm s) as (l & H1 & H2 & H3). unfold mbind, m_bind. destruct (m s) as [[e|a] s1]; cbn [fst snd] in *.
  - exists l. repeat split; [done|done|lia|lia].
  - destruct (Hf a s1) as (l2 & K1 & K2 & K3). exists (l ++ l2). rewrite K1, H1, app_assoc, held_app, H2, !count_app. repeat split; [done|lia|lia].
Qed.
Lemma emits_deferring c k o bad good bad' good' l (m : M A) :
  emits c k o bad good m -> held bad l = Some bad' -> (forall a, held (good a) l = Some (good' a)) -> count is_capture l = 0%nat -> count is_marker l = 0%nat ->
  emits c k o bad' good' (deferring l m).
Proof.
  intros Hm H1 H2 C1 C2 s. destruct (Hm s) as (l1 & K1 & K2 & K3). unfold deferring. destruct (m s) as [r s1]; cbn [fst snd] in *. exists (l1 ++ l).
  cbn. rewrite K1, app_assoc, held_app, K2, !count_app, C1, C2. split; [done|]. cbn. split; [by destruct r|lia].
Qed.
Lemma emits_try c k o good bad (m : M A) : emits c k o bad good m -> emits c k o o (fun r => match r with inl _ => bad | inr a => good a end) (try m).
Proof. intros Hm s. destruct (Hm s) as (l & H1 & H2 & H3). unfold try. destruct (m s) as [r s1]. exists l. by destruct r. Qed.
Lemma emits_more c k c' k' o bad good (m : M A) : emits c k o bad good m -> (c <= c')%nat -> (k <= k')%nat -> emits c' k' o bad good m.
Proof. intros Hm ? ? s. destruct (Hm s) as (l & ? & ? & ?). exists l. repeat split; [done|done|lia|lia]. Qed.
End emits.
Lemma emits_act c k o o' bad a : held o [a] = Some o' -> (count is_capture [a] <= c)%nat -> (count is_marker [a] <= k)%nat -> emits c k o bad (fun _ => o') (act a).
Proof. intros H ? ? s. exists [a]. cbn. by repeat split. Qed.
Lemma held_close r o : held (r :: o) [Closed r] = Some o.
Proof. cbn. by rewrite decide_True by done. Qed.
Lemma emits_close c k r o bad : emits c k (r :: o) bad (fun _ => o) (act (Closed r)).
Proof. apply emits_act; [apply held_close|apply Nat.le_0_l..]. Qed.
Lemma emits_note c k o bad f : emits c k o bad (fun _ => o) (note f).
Proof. intros s. exists []. cbn. rewrite app_nil_r. by repeat split; lia. Qed.
Lemma emits_check c k o e ctx : emits c k o o (fun _ => o) (check e ctx).
Proof. destruct e; [apply emits_throw|by apply emits_ret]. Qed.
Lemma emits_acts o o' bad l : held o l = Some o' -> count is_capture l = 0%nat -> count is_marker l = 0%nat -> emits 0 0 o bad (fun _ => o') (acts l).
Proof.
  revert o. induction l as [|a l IH]; intros o H C1 C2; [injection H as ->; by apply emits_ret|]. cbn [acts].
  change (a :: l) with ([a] ++ l) in H, C1, C2. rewrite held_app in H. rewrite count_app in C1, C2. destruct (held o [a]) as [o1|] eqn:E; [|done].
  apply (emits_bind 0 0 0 0 _ _ (fun _ => o1)); [apply emits_act; [done|lia|lia]|]. intros []. apply IH; [done|lia|lia].
Qed.
Lemma emits_of_result {A} c k o (r : result A) : emits c k o o (fun _ => o) (of_result r).
Proof. destruct r; [by apply emits_ret|apply emits_throw..]. Qed.
#[export] Hint Resolve emits_throw emits_note emits_check emits_of_result : emits.
Section released.
Context `{U : Unicode} `{X : BcTalk.TalkXml} (sin : F64.t -> F64.t).

Lemma emits_start (rtsp : bool) i a : emits 1 0 [] [] (fun _ => [Capture i]) (if rtsp then startLatencyCapture i a else startBaichuanLatencyCapture i a).
Proof.
  destruct rtsp.
  - unfold startLatencyCapture. do 2 (apply (emits_bind 0 0 1 0 _ _ (fun _ => [])); [apply emits_check|intros []]). by apply emits_act.
  - unfold startBaichuanLatencyCapture. cbn [MediaSession.ParseStream]. destruct (MediaSession.ParseStream _); [|apply emits_throw..].
    apply (emits_bind 0 0 1 0 _ _ (fun _ => [])); [apply emits_check|intros []].
    apply (emits_bind 1 0 0 0 _ _ (fun _ => [Capture i])); [by apply emits_act|intros []].
    destruct (ready a); [by apply emits_ret| | | |];
      (apply (emits_bind 0 0 0 0 _ _ (fun _ => [])); [apply emits_close|intros []; apply emits_throw]).
Qed.
(** The attempts that fail leave nothing open, and there are no more of them than allowed. *)
Lemma emits_open (rtsp : bool) attempts rest : forall i, emits rest 0 [] [] (fun i => [Capture i]) (open_with_retry rtsp attempts rest i).
Proof.
  induction rest as [|rest IH]; intros i; cbn [open_with_retry]; [apply emits_throw|].
  apply (emits_bind 1 0 rest 0 _ _ (fun r => match r with inl _ => [] | inr _ => [Capture i] end)); [by apply (emits_try _ _ _ _ []), emits_start|].
  assert (forall err, emits rest 0 [] [] (fun i => [Capture i])
    (match rest with
     | O => fails (wrapped ((if rtsp then "RTSP" else "Baichuan") +:+ " latency capture did not become ready after 3 attempts") err)
     | _ => match pause (attempts i) with Some e => fails e | None => open_with_retry rtsp attempts rest (i + 1) end
     end)) as Hnext.
  { intros err. destruct rest as [|rest]; [apply emits_throw|]. destruct (pause _); [apply emits_throw|apply IH]. }
  intros [[e| |]|[]].
  - apply (emits_bind 0 0 rest 0 _ _ (fun _ => [])); [by apply emits_ret|apply Hnext].
  - apply emits_throw.
  - apply emits_throw.
  - destruct (usable _ _) as [e|]; [|by apply emits_ret].
    apply (emits_bind 0 0 rest 0 _ _ (fun _ => [])); [|apply Hnext].
    apply (emits_bind 0 0 0 0 _ _ (fun _ => [])); [apply emits_close|intros []; by apply emits_ret].
Qed.
Lemma emits_open_capture cfg e : emits 3 0 [] [] (fun i => [Capture i]) (open_capture cfg e).
Proof.
  unfold open_capture. repeat case_decide; [| |apply emits_throw];
    (apply (emits_bind 3 0 0 0 _ _ (fun i => [Capture i])); [apply emits_open|intros i];
     apply (emits_bind 0 0 0 0 _ _ (fun _ => [Capture i])); [apply emits_note|intros []; by apply emits_ret]).
Qed.
Definition talk_open (i : nat) (t : talkPath) : list resource :=
  match t with ThroughBaichuan _ => [Talk; Connection; Capture i] | ThroughRTSP _ _ => [Backchannel; Capture i] end.
Lemma emits_open_talk cfg e i : emits 0 0 [Capture i] [Capture i] (talk_open i) (open_talk cfg e).
Proof.
  unfold open_talk. case_decide; [|case_decide; [|apply emits_throw]].
  - destruct (dialed e) as [x|c]; [apply emits_throw|].
    apply (emits_bind 0 0 0 0 _ _ (fun _ => [Connection; Capture i])); [by apply emits_act|intros []].
    destruct (BcTalk.StartTalk _ c) as [[x|s] c'].
    + apply (emits_bind 0 0 0 0 _ _ (fun _ => [Capture i])); [by apply emits_act|intros []; apply emits_throw].
    + apply (emits_bind 0 0 0 0 _ _ (fun _ => [Talk; Connection; Capture i])); [by apply emits_act|intros []]. cbv zeta.
      destruct (_ || _); [|by apply emits_ret].
      apply (emits_bind 0 0 0 0 _ _ (fun _ => [Capture i])); [by apply emits_acts|intros []; apply emits_throw].
  - destruct (opened e) as [x|[o m]]; [apply emits_throw|].
    apply (emits_bind 0 0 0 0 _ _ (fun _ => [Backchannel; Capture i])); [by apply emits_act|intros []; by apply emits_ret].
Qed.
Lemma emits_with_talk e i t : emits 0 1 (talk_open i t) (talk_open i t) (fun _ => talk_open i t) (with_talk sin e t).
Proof.
  unfold with_talk. do 2 (apply (emits_bind 0 0 0 1 _ _ (fun _ => talk_open i t)); [apply emits_check|intros []]). cbv zeta.
  apply (emits_bind 0 1 0 0 _ _ (fun _ => talk_open i t)); [apply emits_act; [by destruct t|apply le_n..]|intros []].
  destruct (sendMarker _ _ _) as [stats err].
  apply (emits_bind 0 0 0 0 _ _ (fun _ => talk_open i t)); [destruct err; [apply emits_throw|by apply emits_ret]|intros []].
  apply (emits_bind 0 0 0 0 _ _ (fun _ => talk_open i t)); [apply emits_note|intros []].
  unfold evaluate. cbv zeta.
  apply (emits_bind 0 0 0 0 _ _ (fun _ => talk_open i t)); [destruct (waitForPCM _ _); [case_match; [apply emits_throw|by apply emits_ret]|by apply emits_ret]|intros []].
  apply (emits_bind 0 0 0 0 _ _ (fun _ => talk_open i t)); [apply emits_of_result|intros captured].
  apply (emits_bind 0 0 0 0 _ _ (fun _ => talk_open i t)); [apply emits_note|intros []].
  destruct (AcousticDelay.estimateAcousticDelay _ _ _); [|apply emits_throw].
  apply (emits_bind 0 0 0 0 _ _ (fun _ => talk_open i t)); [apply emits_note|intros []]. case_match; [by apply emits_ret|apply emits_throw].
Qed.
Lemma emits_after cfg e i : emits 0 1 [Capture i] [] (fun _ => [])
  (deferring [Closed (Capture i)] (t ← open_talk cfg e; deferring (closeTalk t) (with_talk sin e t))).
Proof.
  apply (emits_deferring _ _ _ [Capture i] (fun _ => [Capture i])); [|apply held_close|intros _; apply held_close|done..].
  apply (emits_bind 0 0 0 1 _ _ (talk_open i)); [apply emits_open_talk|intros t].
  apply (emits_deferring _ _ _ (talk_open i t) (fun _ => talk_open i t)); [apply emits_with_talk|by destruct t..].
Qed.
End released.
(** ** The verdict *)

(** The capture that is used: the last attempt that was started, its checks passed. *)
Lemma open_usable `{U : Unicode} (rtsp : bool) attempts rest : forall i s k s',
  open_with_retry rtsp attempts rest i s = (inr k, s') ->
  (i <= k < i + rest)%nat /\ usable (if rtsp then "RTSP" else "Baichuan") (attempts k) = None.
Proof.
  induction rest as [|rest IH]; intros i s k s'; cbn [open_with_retry]; [done|].
  unfold mbind at 1, m_bind at 1. unfold try. destruct ((if rtsp then startLatencyCapture i (attempts i) else startBaichuanLatencyCapture i (attempts i)) s) as [r s1]; cbn [fst snd].
  assert (forall err s2, (match rest with
     | O => fails (wrapped ((if rtsp then "RTSP" else "Baichuan") +:+ " latency capture did not become ready after 3 attempts") err)
     | _ => match pause (attempts i) with Some e => fails e | None => open_with_retry rtsp attempts rest (i + 1) end
     end) s2 = (inr k, s') -> (i <= k < i + S rest)%nat /\ usable (if rtsp then "RTSP" else "Baichuan") (attempts k) = None) as Hnext.
  { intros err s2. destruct rest as [|rest]; [done|]. destruct (pause _); [done|]. intros [H1 H2]%IH. split; [lia|done]. }
  destruct r as [[e| |]|[]].
  - apply Hnext.
  - done.
  - done.
  - destruct (usable _ (attempts i)) as [e|] eqn:E; [apply Hnext|]. intros [= <- _]. split; [lia|done].
Qed.
Lemma open_capture_usable `{U : Unicode} cfg e s k s' :
  open_capture cfg e s = (inr k, s') -> (1 <= k <= 3)%nat /\ exists name, usable name (attempts e k) = None.
Proof.
  unfold open_capture. unfold mbind, m_bind. repeat case_decide; [..|done].
  - destruct (openLatencyCaptureWithRetry _ s) as [[x|i] s1] eqn:E; [done|]. intros [= <- _]. apply open_usable in E as [? ?]. unfold latencyCaptureAttempts in *. split; [lia|by eexists].
  - destruct (openBaichuanLatencyCaptureWithRetry _ s) as [[x|i] s1] eqn:E; [done|]. intros [= <- _]. apply open_usable in E as [? ?]. unfold latencyCaptureAttempts in *. split; [lia|by eexists].
Qed.
Lemma pace_spec ws : pace ws = None -> exists w, w ∈ ws /\ w_cut w = None /\ 4000 <= w_end w - w_start w <= 16000.
Proof.
  induction ws as [|w ws IH]; cbn [pace]; [done|]. destruct (w_cut w) as [[]|] eqn:E; [done..|].
  destruct (realtime w) eqn:Er.
  - intros _. exists w. split; [by left|]. split; [done|]. unfold realtime in Er. change expected with 8000 in Er. change (8000 ÷ 2) with 4000 in Er. lia.
  - intros (w' & ? & ?)%IH. exists w'. split; [by right|done].
Qed.
(** Half a second has arrived, and then audio arrived about as fast as it is played. *)
Definition running (a : attempt) : Prop :=
  (exists n, n ∈ ticks (warm a) ++ [have (warm a)] /\ 8000 <= n) /\
  exists j, (j < 5)%nat /\ w_cut (paced a j) = None /\ 4000 <= w_end (paced a j) - w_start (paced a j) <= 16000.
Lemma waited count w : waitForPCM count w = None -> exists n, n ∈ ticks w ++ [have w] /\ count <= n.
Proof.
  unfold waitForPCM. destruct (existsb _ _) eqn:E; [|by destruct (ending w)]. intros _. apply existsb_exists in E as (n & Hn & E%Z.leb_le).
  exists n. split; [by apply list_elem_of_In|done].
Qed.
Lemma usable_running name a : usable name a = None -> running a.
Proof.
  unfold usable. destruct (waitForPCM _ _) eqn:E; [done|]. destruct (waitForRealtimePCM _) eqn:Er; [done|]. intros _.
  split; [by apply waited in E|]. apply pace_spec in Er as (w & Hw & H1 & H2). apply list_elem_of_fmap in Hw as (j & -> & Hj). exists j.
  apply elem_of_seq in Hj. split; [lia|done].
Qed.
Section measured.
Context `{U : Unicode} `{X : BcTalk.TalkXml} (sin : F64.t -> F64.t).

Lemma count_marker l pcm : Marker pcm ∈ l -> (0 < count is_marker l)%nat.
Proof.
  intros (a & b & ->)%list_elem_of_split. rewrite count_app. change (count is_marker (Marker pcm :: b)) with (S (count is_marker b)). lia.
Qed.
Lemma held_captures l : forall o o', held o l = Some o' -> count is_capture l = 0%nat -> forall i, Capture i ∈ o' -> Capture i ∈ o.
Proof.
  induction l as [|a l IH]; intros o o' H C i Hi; [by injection H as ->|].
  change (a :: l) with ([a] ++ l) in C. rewrite count_app in C.
  assert (count is_capture l = 0%nat) as Cl by lia. destruct a as [r|r|p]; cbn [held] in H.
  - destruct (clashes r o); [done|]. specialize (IH _ _ H Cl i Hi). apply elem_of_cons in IH as [<-|]; [discriminate C|done].
  - destruct o as [|r' o]; [done|]. case_decide; [|done]. right. by apply (IH _ _ H Cl).
  - destruct (talking o); [|done]. by apply (IH _ _ H Cl).
Qed.
(** While the marker is sent, the capture that was opened before is still the one that is open. *)
Lemma marker_between i l h1 pcm h2 o' : held [Capture i] l = Some o' -> count is_capture l = 0%nat -> l = h1 ++ Marker pcm :: h2 ->
  held [Capture i] h1 = Some [Talk; Connection; Capture i] \/ held [Capture i] h1 = Some [Backchannel; Capture i].
Proof.
  intros H C ->. rewrite held_app in H. rewrite count_app in C. destruct (held [Capture i] h1) as [o|] eqn:E; [|done]. cbn [mbind option_bind held] in H.
  pose proof (held_captures h1 _ _ E ltac:(lia)) as Hc. unfold talking in H.
  destruct o as [|[j| | |] [|[k| | |] [|[m| | |] [|]]]]; try discriminate H.
  - left. assert (Capture m ∈ [Capture i]) as Hm by (apply Hc; set_solver). set_solver.
  - right. assert (Capture k ∈ [Capture i]) as Hm by (apply Hc; set_solver). set_solver.
Qed.
Lemma measure_log (cfg : Config.Config) (e : env) :
  exists l, log (MeasureAcousticLatency sin cfg e).2 = l /\ held [] l = Some [] /\ (count is_capture l <= 3)%nat /\ (count is_marker l <= 1)%nat /\
  forall h1 pcm h2, l = h1 ++ Marker pcm :: h2 -> exists i, (1 <= i <= 3)%nat /\ running (attempts e i) /\
    (held [] h1 = Some [Talk; Connection; Capture i] \/ held [] h1 = Some [Backchannel; Capture i]).
Proof.
  unfold MeasureAcousticLatency. cbv zeta. set (r0 := mkResult _ _ _ _ _ _ _ _ _ _ _ _ _ _ _).
  unfold measure, mbind, m_bind. destruct (lookPath e) as [x|]; [exists []; repeat split; [cbn; lia..|by intros [|] ? ? ?]|].
  change (check None "ffmpeg not found" (mkSt [] r0)) with (@inr failure unit tt, mkSt [] r0). cbv iota beta.
  destruct (emits_open_capture cfg e (mkSt [] r0)) as (l1 & H1 & H2 & H3 & H4). change (log (mkSt [] r0) ++ l1) with l1 in H1.
  pose proof (open_capture_usable cfg e (mkSt [] r0)) as Hu. destruct (open_capture cfg e (mkSt [] r0)) as [[x|i] s1]; cbn [fst snd] in *.
  { exists l1. split; [done|]. split; [done|]. split; [lia|]. split; [lia|]. intros h1 pcm h2 E.
    assert (Marker pcm ∈ l1) as Hm%count_marker by (rewrite E; set_solver). lia. }
  unfold note at 1. set (s2 := s1 <| res ::= _ |>). assert (log s2 = l1) as Hs2 by (by rewrite <- H1).
  destruct (emits_after sin cfg e i s2) as (l2 & K1 & K2 & K3 & K4). rewrite Hs2 in K1. set (rest := deferring _ _ s2) in *.
  assert (held [Capture i] l2 = Some []) as K5 by (rewrite K2; by destruct rest.1).
  exists (l1 ++ l2). split; [rewrite <- K1; by destruct rest as [[] ?]|]. rewrite held_app, H2, !count_app.
  split; [exact K5|]. split; [lia|]. split; [lia|].
  intros h1 pcm h2 E. destruct (Hu i s1 eq_refl) as (Hi & name & Hn). exists i. split; [done|]. split; [by eapply usable_running|].
  apply app_eq_inv in E as [(k & -> & E)|(k & -> & E)].
  - destruct k as [|a k].
    + rewrite app_nil_r in H2. rewrite H2. apply (marker_between i l2 [] pcm h2 [] K5); [lia|done].
    + injection E as <- E. exfalso. assert (Marker pcm ∈ h1 ++ Marker pcm :: k) as Hm%count_marker by set_solver. lia.
  - rewrite held_app, H2. cbn [mbind option_bind]. by apply (marker_between i l2 k pcm h2 [] K5); [lia|].
Qed.

(** C12: measuring the echo delay leaves nothing behind, whatever fails in whichever place.  Every capture, connection,
    talk session and backchannel that was opened is closed again, the last opened first; at most three captures are
    opened, none while another one is still open; the marker is sent at most once, while exactly a capture and one
    talk path are open, and only when half a second of audio had arrived on that very capture and then some half second had
    brought between half and twice the samples it plays. *)
Theorem measure_releases (cfg : Config.Config) (e : env) :
  let s := (MeasureAcousticLatency sin cfg e).2 in
  held [] (log s) = Some [] /\ (count is_capture (log s) <= 3)%nat /\ (count is_marker (log s) <= 1)%nat /\
  forall h1 pcm h2, log s = h1 ++ Marker pcm :: h2 -> exists i, (1 <= i <= 3)%nat /\ running (attempts e i) /\
    (held [] h1 = Some [Talk; Connection; Capture i] \/ held [] h1 = Some [Backchannel; Capture i]).
Proof. cbv zeta. destruct (measure_log cfg e) as (l & -> & H). exact H. Qed.
End measured.

(** ** What start-up makes of it *)

Lemma bind_inr {A B} (m : M A) (f : A -> M B) s b s' :
  (m ≫= f) s = (inr b, s') -> exists a s1, m s = (inr a, s1) /\ f a s1 = (inr b, s').
Proof. unfold mbind, m_bind. destruct (m s) as [[e|a] s1]; [done|]. intros H. by exists a, s1. Qed.
Lemma check_inr e c s b s' : check e c s = (inr b, s') -> e = None /\ s' = s.
Proof. destruct e; cbn; [done|]. by intros [= _ <-]. Qed.
Lemma deferring_inr {A} l (m : M A) s b s' : deferring l m s = (inr b, s') -> exists s1, m s = (inr b, s1) /\ res s' = res s1.
Proof. unfold deferring. destruct (m s) as [r s1]. intros [= -> <-]. by exists s1. Qed.

(** The counters only grow, and no more is counted than there is. *)
Record grows (e : env) : Prop := {
  g_baseline : 0 <= baseline e;
  g_later : later e <= scanned e;
  g_seen : forall n, n ∈ ticks (search e) ++ [have (search e)] -> n <= scanned e;
  g_heard : scanned e <= len (heard e);
}.
Section verdict.
Context `{U : Unicode} `{X : BcTalk.TalkXml} (sin : F64.t -> F64.t).

Lemma target_value e : targetSamples e = baseline e + 80000.
Proof. unfold targetSamples. f_equal. Qed.
(** What an accepted measurement rests on. *)
Record accepted (e : env) (delay : Z) (p : AcousticDelay.acousticPeaks) (captured : list Z) : Prop := {
  ac_captured : captured = take (Z.to_nat (Z.min 80000 (scanned e - baseline e))) (drop (Z.to_nat (baseline e)) (heard e));
  ac_length : 16000 <= len captured <= 80000;
  ac_found : AcousticDelay.estimateAcousticDelay captured (generateLatencyMarker sin latencyCaptureRate) latencyCaptureRate = Some p;
  ac_reliable : AcousticDelay.Reliable p = true;
  ac_delay : delay = AcousticDelay.Delay p;
}.
Lemma evaluate_inv e s s' :
  evaluate sin e s = (inr tt, s') ->
  exists captured p,
    (waitForPCM (targetSamples e) (search e) = None \/ baseline e + latencyCaptureRate <= later e) /\
    slice (collected e (scanned e)) (baseline e) (targetSamples e) = Ok captured /\
    AcousticDelay.estimateAcousticDelay captured (generateLatencyMarker sin latencyCaptureRate) latencyCaptureRate = Some p /\
    AcousticDelay.Reliable p = true /\ Delay (res s') = AcousticDelay.Delay p.
Proof.
  unfold evaluate. generalize (targetSamples e) latencyCaptureRate. intros target rate. generalize (generateLatencyMarker sin rate) AcousticDelay.estimateAcousticDelay.
  intros marker est. cbv zeta.
  intros (u & s1 & Hw & H)%bind_inr. apply bind_inr in H as (captured & s2 & Hc & H). apply bind_inr in H as (u' & s3 & _ & H).
  exists captured. destruct (est captured marker rate) as [p|]; [|discriminate H]. exists p.
  apply bind_inr in H as (u2 & s4 & Hn & H). injection Hn as _ <-. destruct (AcousticDelay.Reliable p); [|discriminate H]. injection H as <-.
  split; [|split; [by destruct (slice _ _ _); [injection Hc as <- _|discriminate Hc..]|by repeat split]].
  destruct (waitForPCM _ _); [|by left]. right. destruct (Z.ltb_spec (later e) (baseline e + rate)) as [|Hl]; [discriminate Hw|exact Hl].
Qed.
Lemma window_of e captured :
  grows e -> slice (collected e (scanned e)) (baseline e) (baseline e + 80000) = Ok captured -> baseline e + 16000 <= scanned e ->
  captured = take (Z.to_nat (Z.min 80000 (scanned e - baseline e))) (drop (Z.to_nat (baseline e)) (heard e)) /\ 16000 <= len captured <= 80000.
Proof.
  intros [G1 G2 G3 G4] Hc Hl. assert (len (collected e (scanned e)) = scanned e) as Hlen by (unfold collected; rewrite length_take; lia).
  rewrite slice_spec, Hlen in Hc by lia. injection Hc as <-. set (w := take _ _).
  assert (w = take (Z.to_nat (Z.min 80000 (scanned e - baseline e))) (drop (Z.to_nat (baseline e)) (heard e))) as Hw.
  { unfold w, collected. rewrite skipn_firstn_comm, take_take. f_equal. lia. }
  split; [exact Hw|]. rewrite Hw, length_take, length_drop. lia.
Qed.
Lemma evaluate_accepts e s s' : grows e -> evaluate sin e s = (inr tt, s') -> exists p captured, accepted e (Delay (res s')) p captured.
Proof.
  intros Hg H. apply evaluate_inv in H as (captured & p & Hw & Hc & Hp & Hr & Hd). exists p, captured. rewrite target_value in Hc, Hw.
  assert (baseline e + 16000 <= scanned e) as Hl.
  { destruct Hg as [_ G2 G3 _]. destruct Hw as [(n & Hn%G3 & ?)%waited|Hl]; [lia|]. change latencyCaptureRate with 16000 in Hl. lia. }
  destruct (window_of e captured Hg Hc Hl) as [H1 H2]. split; [exact H1|exact H2|exact Hp|exact Hr|exact Hd].
Qed.
Lemma measure_accepts cfg e out : grows e -> MeasureAcousticLatency sin cfg e = (None, out) -> exists p captured, accepted e (Delay (res out)) p captured.
Proof.
  intros Hg. unfold MeasureAcousticLatency. cbv zeta. set (s0 := mkSt [] _).
  destruct (measure sin cfg e s0) as [[x|[]] s'] eqn:Em; [done|]. intros [= <-]. unfold measure in Em.
  apply bind_inr in Em as (? & ? & _ & Em). apply bind_inr in Em as (i & ? & _ & Em). apply bind_inr in Em as (? & ? & _ & Em).
  apply deferring_inr in Em as (s1 & Em & ->). apply bind_inr in Em as (t & ? & _ & Em). apply deferring_inr in Em as (s2 & Em & ->).
  unfold with_talk in Em. apply bind_inr in Em as (? & ? & _ & Em). apply bind_inr in Em as (? & ? & _ & Em). cbv zeta in Em.
  apply bind_inr in Em as (? & ? & _ & Em). destruct (sendMarker _ _ _) as [stats err]. apply bind_inr in Em as (? & ? & _ & Em).
  apply bind_inr in Em as (? & ? & _ & Em). by eapply evaluate_accepts.
Qed.

Lemma Prepare_measured (rfc : Z -> string) c p e quality ctx now file l r :
  Prepare rfc sin c p e quality ctx now file = (l, Ok r) -> Startup.CalibrationStatus r = "measured" ->
  exists mode out,
    (Startup.resolveWith c p).2 = Ok mode /\
    MeasureAcousticLatency sin (Config.WithResolvedReolinkMode mode c) e = (None, out) /\
    0 <= Startup.to_ms (Delay (res out)) <= Config.MaxSupportedAECDelayMS /\
    Startup.Cfg r = Config.SetAECDelay (Startup.to_ms (Delay (res out))) (Config.WithResolvedReolinkMode mode c).
Proof.
  unfold Prepare, Startup.prepareWith. cbv zeta. destruct (Config.DryRun c).
  { intros [= _ <-]. unfold Startup.prepare_dry. cbv zeta. repeat case_match; done. }
  destruct (Startup.resolveWith c p) as [l0 [mode|x|]]; cbn [snd]; [|done..]. set (cfg := Config.WithResolvedReolinkMode mode c).
  destruct (negb (Config.EchoCancellationEnabled cfg)); [by intros [= _ <-]|].
  destruct (MeasureAcousticLatency sin cfg e) as [f out] eqn:Em. unfold measurement_of. cbn [fst snd Startup.measure_err Startup.ctx_err].
  set (m := Startup.mkMeasurement _ _ _ _). intros H Hs. exists mode, out. split; [done|].
  assert (exists l', Startup.calibrate rfc cfg mode m now file = (l', r)) as [l' Hc].
  { destruct f as [x|]; cbn [option_map] in H; [destruct ctx; [done|]|]; destruct (Startup.calibrate _ _ _ _ _ _) as [l' r']; injection H as _ <-; by exists l'. }
  unfold Startup.calibrate in Hc. cbv zeta in Hc. cbn [Startup.measure_err Startup.Delay m] in Hc.
  destruct f as [x|]; cbn [option_map] in Hc.
  { exfalso. destruct (Startup.Load _ _); injection Hc as _ <-; discriminate Hs. }
  set (d := Startup.to_ms (Delay (res out))) in *.
  destruct ((d <? 0) || (Config.MaxSupportedAECDelayMS <? d)) eqn:Ed.
  { exfalso. destruct (Startup.Load _ _); injection Hc as _ <-; discriminate Hs. }
  injection Hc as _ <-. apply orb_false_iff in Ed as [E1%Z.ltb_ge E2%Z.ltb_ge]. done.
Qed.

(** C13: an echo delay that start-up reports as measured was really heard.  Whatever the camera plays back and whatever
    fails: when the start-up ends with the status "measured", the resolved mode was the one measured with, the
    capture made while the marker played is 1 to 5 seconds of consecutive samples from the moment the marker started,
    the correlation search found the marker in it with a reliable peak, and the delay the echo canceller is set to is
    that peak's, rounded to milliseconds and within 0 to 3000 ms.  An ambiguous peak never becomes the delay. *)
Theorem measured_delay_heard (rfc : Z -> string) (c : Config.Config) (p : Startup.probes) (e : env) (quality : LatencyResult -> string)
    (ctx : option string) (now : Z) (file : option Startup.Record_) (l : list Startup.effect) (r : Startup.Result) :
  grows e -> Prepare rfc sin c p e quality ctx now file = (l, Ok r) -> Startup.CalibrationStatus r = "measured" ->
  exists mode out peaks captured,
    (Startup.resolveWith c p).2 = Ok mode /\
    MeasureAcousticLatency sin (Config.WithResolvedReolinkMode mode c) e = (None, out) /\
    accepted e (Delay (res out)) peaks captured /\
    let d := Config.AECInitialDelayMS (Startup.Cfg r) in d = Startup.to_ms (AcousticDelay.Delay peaks) /\ 0 <= d <= 3000.
Proof.
  intros Hg H Hs. apply Prepare_measured in H as (mode & out & H1 & H2 & H3 & H4); [|exact Hs].
  destruct (measure_accepts _ _ _ Hg H2) as (peaks & captured & Ha). exists mode, out, peaks, captured. split; [exact H1|]. split; [exact H2|]. split; [exact Ha|].
  cbv zeta. rewrite H4.
  assert (forall d k, Config.AECInitialDelayMS (Config.SetAECDelay d k) = clamp 0 Config.MaxSupportedAECDelayMS d) as -> by done.
  destruct Ha as [_ _ _ _ Hd]. rewrite <- Hd. set (d := Startup.to_ms _) in *. clearbody d. clear -H3.
  unfold clamp, Config.MaxSupportedAECDelayMS in *. lia.
Qed.
End verdict.

(** ** The marker as it is sent *)

Section send_spec.
Context {S : Type} (write : list Z -> S -> S * option string) (waits : nat -> Talkback.wait) (duration : Z).
Context (I : list (list Z) -> S -> Prop) (n : nat).
Hypothesis (Huncut : forall i, Talkback.w_cut (waits i) = None).
Hypothesis (Hwrite : forall l b s, I l s -> length b = n -> exists s', write b s = (s', None) /\ I (l ++ [b]) s').

(** The times at which the blocks from [i] on were sent, none before its turn. *)
Fixpoint in_time (next : Z) (at_ : list Z) : Prop :=
  match at_ with [] => True | t :: at_ => next <= t /\ in_time (next + duration) at_ end.
Lemma send_rest blocks : forall i l next now sent s,
  I l s -> Forall (fun b => length b = n) blocks ->
  exists s' at_, send_blocks write waits duration (1 + i) blocks next now sent s = (s', sent + len blocks, None, at_) /\ I (l ++ blocks) s' /\
    length at_ = length blocks /\ in_time (next + duration) at_.
Proof.
  induction blocks as [|b blocks IH]; intros i l next now sent s Hi Hf; cbn [send_blocks Nat.add Nat.eqb].
  - exists s, []. rewrite app_nil_r. cbn. by rewrite Z.add_0_r.
  - apply Forall_cons_1 in Hf as [Hb Hf']. unfold timer_wait. rewrite Huncut. cbv iota beta.
    destruct (Hwrite l b s Hi Hb) as (s1 & Hw1 & Hi1). rewrite Hw1.
    destruct (IH (i + 1)%nat (l ++ [b]) (next + duration) (Z.max (Talkback.w_now (waits (Datatypes.S i))) (next + duration)) (sent + 1) s1 Hi1 Hf')
      as (s2 & at_ & H1 & H2 & H3 & H4). rewrite <- app_assoc in H2. cbn [Nat.add] in H1. cbn [Nat.add]. rewrite H1.
    eexists s2, (_ :: at_). split; [rewrite len_cons; f_equal; f_equal; f_equal; lia|]. split; [exact H2|]. split; [cbn; lia|].
    cbn [in_time]. split; [lia|exact H4].
Qed.
Lemma send_everything pcm now s :
  I [] s -> pcm <> [] -> (0 < n)%nat ->
  let blocks := map (Talkback.block_at pcm n) (seq 0 (Talkback.blocks_of pcm n)) in
  exists s' at_, send_all write waits duration (Z.of_nat n) pcm now s = (s', mkStats (len blocks) (len blocks) (len blocks * duration), None, at_) /\
    I blocks s' /\ length at_ = length blocks /\ in_time now at_.
Proof.
  intros Hi Hp Hn. cbv zeta. unfold send_all. cbv zeta. rewrite Nat2Z.id.
  assert (Z.quot (len pcm + Z.of_nat n - 1) (Z.of_nat n) = len (map (Talkback.block_at pcm n) (seq 0 (Talkback.blocks_of pcm n)))) as ->.
  { rewrite length_map, length_seq. unfold Talkback.blocks_of. rewrite Z.quot_div_nonneg, Nat2Z.inj_div by lia. f_equal. lia. }
  destruct (Talkback.blocks_of_concat pcm n Hn) as (z & _ & Hc). set (blocks := map (Talkback.block_at pcm n) _) in *.
  assert (Forall (fun b => length b = n) blocks) as Hf.
  { apply Forall_forall. intros b (i & -> & _)%list_elem_of_fmap. apply Talkback.block_at_length. }
  assert (blocks <> []) as Hne by (intros He; rewrite He in Hc; by destruct pcm).
  clearbody blocks. destruct blocks as [|b blocks]; [done|]. apply Forall_cons_1 in Hf as [Hb Hf']. cbn [send_blocks Nat.eqb].
  destruct (Hwrite [] b s Hi Hb) as (s1 & Hw1 & Hi1). rewrite Hw1.
  destruct (send_rest blocks 0 ([] ++ [b]) now now (0 + 1) s1 Hi1 Hf') as (s2 & at_ & H1 & H2 & H3 & H4). cbn [Nat.add] in H1 |- *. rewrite H1.
  exists s2, (now :: at_). rewrite len_cons. split; [f_equal; f_equal; f_equal; f_equal; lia|]. split; [exact H2|]. split; [cbn; lia|].
  cbn [in_time]. split; [lia|exact H4].
Qed.
End send_spec.
Section sent.
Context `{U : Unicode} `{X : BcTalk.TalkXml}.

(** On a block of the negotiated size the calibration writes what the connection tone writes. *)
Lemma write_marker_tone s num io l b p :
  (forall i, io i = None) -> BcTalk.sclosed s = false -> BcTalk.bytesPerBlock s = BcTalk.samplesPerBlock s / 2 + 4 ->
  2 <= BcTalk.samplesPerBlock s < 2 ^ 16 -> BcTalk.samplesPerBlock s mod 2 = 0 ->
  Talkback.played s false l p -> length b = Z.to_nat (BcTalk.samplesPerBlock s) ->
  exists p', write_marker num io b p = (p', None) /\ Talkback.played s false (l ++ [b]) p'.
Proof.
  intros Hio Ho Hb Hn He Hp Hl.
  destruct (Talkback.write_played s num io (fun _ => 0) false Hio Ho Hb Hn He l b p Hp Hl) as (p' & H & Hp'). exists p'. split; [|exact Hp'].
  unfold Talkback.write_adpcm in H. cbv zeta in H. unfold write_marker. cbv zeta.
  destruct (Adpcm.EncodeBlock (Talkback.enc p) b) as [[encoded e]| |]; [|done..]. cbn [Talkback.session Talkback.requests Talkback.enc Talkback.told] in *.
  destruct (BcTalk.WriteADPCMBlock (Talkback.session p) None (default [] encoded) (num (length (Talkback.requests p)))) as [[req s1]| |] eqn:Ew; [|done..].
  assert (len (default [] encoded) = BcTalk.bytesPerBlock (Talkback.session p)) as Hsize.
  { unfold BcTalk.WriteADPCMBlock in Ew. destruct (BcTalk.sclosed (Talkback.session p)); [done|]. unfold fail_if in Ew.
    destruct (len (default [] encoded) =? BcTalk.bytesPerBlock (Talkback.session p)) eqn:E; [by apply Z.eqb_eq in E|]. discriminate Ew. }
  rewrite Hsize, Z.eqb_refl. cbn [negb]. rewrite Hio in *. cbn iota in H. by rewrite app_nil_r in H.
Qed.

(** Calibration plays exactly the marker it later listens for, at the speed of the device.  On an open session with
    a block of up to 65535 samples, when no write fails and no wait is cut short, all of the marker is sent: the blocks
    are its samples followed by less than one block of silence, encoded by one ADPCM encoder in that order, each in a
    talk request for the session's channel that parses back to it; all blocks count as sent, with their playing time;
    and none is sent before its turn, one block duration after the turn of the one before. *)
Theorem marker_sent (s : BcTalk.TalkSession) (num : nat -> Z) (io : nat -> option string) (waits : nat -> Talkback.wait) (now : Z) (pcm : list Z) :
  let n := BcTalk.samplesPerBlock s in
  let rate := BcTalk.SampleRate (Talkback.audio_of s) in
  let duration := Talkback.block_duration n rate in
  0 < rate -> 2 <= n < 2 ^ 16 -> n mod 2 = 0 -> BcTalk.bytesPerBlock s = n / 2 + 4 -> BcTalk.sclosed s = false ->
  (forall i, io i = None) -> (forall i, Talkback.w_cut (waits i) = None) -> pcm <> [] ->
  exists p blocks z blks at_,
    sendPCMThroughBaichuan num io waits now s pcm = (p, mkStats (len blocks) (len blocks) (len blocks * duration), None, at_) /\
    concat blocks = pcm ++ replicate z 0 /\ (z < Z.to_nat n)%nat /\
    PhoneBridge.encode_all Adpcm.zero blocks = Ok (blks, Talkback.enc p) /\
    Forall2 (Talkback.carries (BcTalk.channel s)) (Talkback.requests p) blks /\
    length at_ = length blocks /\ in_time duration now at_.
Proof.
  cbv zeta. intros Hr Hn He Hb Ho Hio Hw Hp. set (n := BcTalk.samplesPerBlock s) in *. set (rate := BcTalk.SampleRate _) in *.
  set (k := Z.to_nat n).
  destruct (send_everything (write_marker num io) waits (Talkback.block_duration n rate) (Talkback.played s false) k Hw
    (fun l b p Hl Hk => write_marker_tone s num io l b p Hio Ho Hb Hn He Hl Hk) pcm now (Talkback.mkPlayer Adpcm.zero s [] []))
    as (p & at_ & H1 & (_ & blks & H2 & H3 & _) & H4 & H5); [|done|lia|].
  { split; [exists (BcTalk.seq s); by destruct s|]. exists []. by repeat split. }
  destruct (Talkback.blocks_of_concat pcm k ltac:(lia)) as (z & Hz & Hc).
  exists p, (map (Talkback.block_at pcm k) (seq 0 (Talkback.blocks_of pcm k))), z, blks, at_.
  split; [|split; [exact Hc|by repeat split]].
  unfold sendPCMThroughBaichuan. cbv zeta. fold n rate. destruct (Z.leb_spec rate 0); [lia|]. destruct (Z.ltb_spec n 2); [lia|].
  rewrite He. cbn [orb negb Z.eqb]. rewrite <- H1. unfold k. by rewrite Z2Nat.id by lia.
Qed.
(** The same on a standalone camera, in blocks of 20 ms of one continuous RTP stream. *)
Lemma marker_streamed (bc : RtspClient.Backchannel) (io : nat -> option string) (waits : nat -> Talkback.wait) (now : Z) (m : RtspClient.media) (pcm : list Z) :
  let codec := ToLower (TrimSpace (RtspClient.Codec bc)) in
  codec = G711.PCMA \/ codec = G711.PCMU ->
  (forall i, io i = None) -> (forall i, Talkback.w_cut (waits i) = None) -> pcm <> [] ->
  exists p blocks z at_,
    sendPCMThroughRTSP bc io waits now m pcm = (p, mkStats (len blocks) (len blocks) (len blocks * (20 * 1000000)), None, at_) /\
    concat blocks = pcm ++ replicate z 0 /\ (z < 160)%nat /\
    RtspClient.write_all (RtspClient.PayloadType bc) (map (fun b => default [] (G711.EncodePCM b codec)) blocks) m = (Talkback.packets p, Talkback.stream p) /\
    length at_ = length blocks /\ in_time (20 * 1000000) now at_.
Proof.
  cbv zeta. set (codec := ToLower _). intros Hc Hio Hw Hp.
  destruct (send_everything (write_frame codec (RtspClient.PayloadType bc) io) waits (20 * 1000000)
    (fun l p => RtspClient.write_all (RtspClient.PayloadType bc) (map (fun b => default [] (G711.EncodePCM b codec)) l) m = (Talkback.packets p, Talkback.stream p))
    160%nat Hw) with (pcm := pcm) (now := now) (s := Talkback.mkRtspPlayer m [] []) as (p & at_ & H1 & H2 & H3 & H4); [|done|done|lia|].
  { intros l b p Hl Hb. unfold write_frame. cbv zeta.
    assert (len (default [] (G711.EncodePCM b codec)) = 160) as ->.
    { assert (exists L, G711.law_of codec = Some L) as [L HL] by (destruct Hc as [->| ->]; by eexists). rewrite G711.EncodePCM_law, HL. cbn. rewrite length_map. lia. }
    cbn [Z.eqb negb Pos.eqb]. destruct (RtspClient.WriteAudio _ _ _) as [pkt m'] eqn:E. rewrite Hio.
    eexists; split; [reflexivity|]. cbn [Talkback.packets Talkback.stream]. rewrite map_app. cbn [map].
    rewrite Talkback.write_all_app, Hl. cbn [RtspClient.write_all]. by rewrite E. }
  destruct (Talkback.blocks_of_concat pcm 160 ltac:(lia)) as (z & Hz & Hcc).
  exists p, (map (Talkback.block_at pcm 160) (seq 0 (Talkback.blocks_of pcm 160))), z, at_. split; [|by repeat split].
  unfold sendPCMThroughRTSP. cbv zeta. fold codec. rewrite <- H1. change (Z.of_nat 160) with 160.
  destruct Hc as [Hc|Hc]; rewrite Hc; reflexivity.
Qed.
End sent.

(** * Witnesses *)

(** Stands for the sine: its square is 1 where a symbol begins and 0 elsewhere. *)
Definition click (x : F64.t) : F64.t := match x with SpecFloat.S754_zero _ => F64.one | _ => F64.zero end.
(** A camera that plays audio back at once; it is a standalone one, its backchannel takes A-law. *)
Definition test_attempt : attempt :=
  mkAttempt None None None (MediaSession.RReady "") (AudioReceiver.mkInfo "" 0 0 0 "") (mkWaiting [4000] 8000 WDeadline) (fun _ => mkWindow 8000 16000 None) "" None.
Definition test_env : env :=
  mkEnv None (fun _ => test_attempt) (inl (plain "refused"))
    (inr (RtspClient.mkOpened (RtspClient.mkBackchannel "PCMA" 8 "") "" 60 (0, 1), RtspClient.mkMediaState 1 2 3 0 0))
    None None (fun i => Z.of_nat i) (fun _ => None) (fun i => Talkback.mkWait (Z.of_nat i) None) 5
    (AcousticDelay.Calibration click 16000) 0 (mkWaiting [100] 16384 WDeadline) 16384 16384.
#[local] Existing Instance Config.eta_config.
Definition test_config : Config.Config := Config.Defaults <| Config.DryRun := false |>.
#[local] Existing Instances ascii_tables BcTalk.test_xml.
#[local] Abbreviation test_start :=
  (Prepare (fun _ => "") click test_config (Startup.mkProbes None None None None) test_env (fun _ => "") None 7 None).

Lemma measure_releases_witness :
  held [] (log (MeasureAcousticLatency click test_config (mkEnv None (fun _ => mkAttempt None None None (MediaSession.RReady "") (AudioReceiver.mkInfo "" 0 0 0 "")
    (mkWaiting [4000] 8000 WDeadline) (fun _ => mkWindow 8000 16000 None) "" None) (inl (plain "refused")) (inl (plain "refused")) None None
    (fun i => Z.of_nat i) (fun _ => None) (fun i => Talkback.mkWait (Z.of_nat i) None) 5 [] 0 (mkWaiting [] 0 WDeadline) 0 0)).2) = Some [].
Proof. exact (proj1 (measure_releases click test_config _)). Defined.
Lemma test_grows : grows test_env.
Proof.
  split; cbn [baseline later scanned search ticks have heard test_env]; [lia|lia| |].
  - intros n Hn. apply list_elem_of_In in Hn. cbn in Hn. lia.
  - apply Z.leb_le. vm_compute. reflexivity.
Qed.
Definition status_of (o : list Startup.effect * result Startup.Result) : string :=
  match o with (_, Ok r) => Startup.CalibrationStatus r | _ => "" end.
Lemma test_measured : status_of test_start = "measured".
Proof. vm_compute. reflexivity. Qed.
Lemma status_measured o : status_of o = "measured" -> exists l r, o = (l, Ok r) /\ Startup.CalibrationStatus r = "measured".
Proof. destruct o as [l [r| |]]; [|done..]. intros H. by exists l, r. Qed.
Lemma measured_delay_heard_witness :
  grows test_env /\ exists l r, test_start = (l, Ok r) /\ Startup.CalibrationStatus r = "measured" /\ 0 <= Config.AECInitialDelayMS (Startup.Cfg r) <= 3000.
Proof.
  split; [exact test_grows|]. destruct (status_measured _ test_measured) as (l & r & E & Hm).
  destruct (measured_delay_heard click _ _ _ _ _ _ _ _ _ _ test_grows E Hm) as (mode & out & peaks & captured & _ & _ & _ & H).
  cbv zeta in H. exists l, r. split; [exact E|]. split; [exact Hm|exact (proj2 H)].
Defined.
Lemma marker_sent_witness :
  let s := BcTalk.mkSession 3 [2] (BcTalk.mkConfig "1.1" 3 "FDX" "speaker" BcTalk.profile) 80 44 false false 65535 in
  exists p at_, sendPCMThroughBaichuan (fun i => Z.of_nat i) (fun _ => None) (fun i => Talkback.mkWait (Z.of_nat i) None) 7 s [10; -20; 30] = (p, mkStats 1 1 (5 * 1000000), None, at_).
Proof.
  cbv zeta. set (s := BcTalk.mkSession 3 [2] _ 80 44 false false 65535).
  destruct (marker_sent s (fun i => Z.of_nat i) (fun _ => None) (fun i => Talkback.mkWait (Z.of_nat i) None) 7 [10; -20; 30])
    as (p & blocks & z & blks & at_ & H & _); [vm_compute; reflexivity|split; [vm_compute; discriminate|vm_compute; reflexivity]|reflexivity|reflexivity|reflexivity|reflexivity|reflexivity|discriminate|].
  exists p, at_. rewrite H.
  assert ((sendPCMThroughBaichuan (fun i => Z.of_nat i) (fun _ => None) (fun i => Talkback.mkWait (Z.of_nat i) None) 7 s [10; -20; 30]).1.1.2 = mkStats 1 1 (5 * 1000000)) as Hs
    by (vm_compute; reflexivity).
  rewrite H in Hs. cbn [fst snd] in Hs. by rewrite Hs.
Defined.
End Calibrate.
