(* ===== verification/LiveSource.v ===== *)
(** One camera's current picture: [internal/liveimage/source.go].

    The cache in front of the camera is a function of the operations on it, which the
    mutex makes atomic; a picture's way from the camera to the cache is a function of
    the HTTP responses and of what FFmpeg prints.  Decoding and encoding of JPEG is
    [image/jpeg], a parameter with the laws of its documentation.  Times are
    nanoseconds; the clock is read when an operation begins and when a fetch ends. *)
From S2P Require Import Prelude GoBytes GoStrings GoText Sdp SipDialog Config.

Module LiveSource.

Definition targetWidth : Z := 480.
Definition targetHeight : Z := 640.
Definition maxSnapshotBytes : Z := Z.shiftl 16 20.
Definition maxDecodedPixels : Z := 32000000.
Definition cacheLifetime : Z := 750 * 1000000.
Definition prewarmLifetime : Z := 5 * 1000000000.

(** * The size of the picture *)

Definition fitDimensions (width height maximumWidth maximumHeight : Z) : Z * Z :=
  if (width <=? maximumWidth) && (height <=? maximumHeight) then (width, height)
  else
    let '(newWidth, newHeight) := (maximumWidth, Z.quot (height * maximumWidth) width) in
    let '(newWidth, newHeight) :=
      if maximumHeight <? newHeight then (Z.quot (width * maximumHeight) height, maximumHeight) else (newWidth, newHeight) in
    (if newWidth <? 1 then 1 else newWidth, if newHeight <? 1 then 1 else newHeight).

(** [image/jpeg] and [image]: [RGBA] is a new picture of a size and its pixels. *)
Class JPEG := {
  image : Type; color : Type;
  DecodeConfig : bytes -> option (Z * Z);
  Decode : bytes -> option image;
  MinX : image -> Z; MinY : image -> Z; Dx : image -> Z; Dy : image -> Z;
  At : image -> Z -> Z -> color;
  Encode : Z -> Z -> (Z -> Z -> color) -> option bytes;
}.
Class JPEGLaws (J : JPEG) := {
  Decode_size b img : Decode b = Some img -> DecodeConfig b = Some (Dx img, Dy img);
  Encode_size w h px o : Encode w h px = Some o -> DecodeConfig o = Some (w, h);
  Encode_head w h px o : Encode w h px = Some o -> exists r, o = 0xff :: 0xd8 :: r /\ 2 <= len r;
}.

Section picture.
Context `{J : JPEG}.

(** The two loops that fill the destination. *)
Definition sampled (source : image) (newWidth newHeight x y : Z) : color :=
  let sourceY := MinY source + Z.quot (y * Dy source) newHeight in
  let sourceX := MinX source + Z.quot (x * Dx source) newWidth in
  At source sourceX sourceY.
Definition is_jpeg (b : bytes) : bool :=
  match b with b0 :: b1 :: _ :: _ :: _ => (b0 =? 0xff) && (b1 =? 0xd8) | _ => false end.
Definition normalizeJPEG (imageBytes : bytes) : result bytes :=
  if negb (is_jpeg imageBytes) then Err "snapshot response is not a JPEG"
  else
    match DecodeConfig imageBytes with
    | None => Err "snapshot response contains an invalid JPEG"
    | Some (width, height) =>
      if (width <=? 0) || (height <=? 0) then Err "snapshot response contains an invalid JPEG"
      else if Z.quot maxDecodedPixels height <? width then Err "snapshot JPEG dimensions are too large"
      else if (width <=? targetWidth) && (height <=? targetHeight) then Ok imageBytes
      else
        match Decode imageBytes with
        | None => Err "snapshot JPEG could not be decoded"
        | Some source =>
          let '(newWidth, newHeight) := fitDimensions width height targetWidth targetHeight in
          match Encode newWidth newHeight (sampled source newWidth newHeight) with
          | Some output => Ok output
          | None => Err "resized snapshot JPEG could not be encoded"
          end
        end
    end.

(** * Fetching *)

(** What one endpoint does: [url.Parse] of it gives the scheme; the request cannot be made,
    does not arrive, or is answered. *)
Inductive answer := NoRequest | NoConnection | Response (status : Z) (body : option bytes).
Record endpoint := mkEndpoint { Scheme : option string; answered : answer }.
Definition fetchCGI (e : endpoint) : result bytes :=
  match Scheme e with
  | None => Err "invalid Reolink CGI endpoint"
  | Some scheme =>
    if negb (bool_decide (scheme = "http")) && negb (bool_decide (scheme = "https")) then Err "invalid Reolink CGI endpoint"
    else
      match answered e with
      | NoRequest => Err (scheme +:+ " Reolink CGI request could not be created")
      | NoConnection => Err (scheme +:+ " Reolink CGI connection failed")
      | Response status body =>
        if negb (status =? 200) then Err (scheme +:+ " Reolink CGI returned HTTP " +:+ Itoa status)
        else
          match body with
          | None => Err (scheme +:+ " Reolink CGI response could not be read")
          | Some body =>
            let imageBytes := take (Z.to_nat (maxSnapshotBytes + 1)) body in
            if (len imageBytes =? 0) || (maxSnapshotBytes <? len imageBytes)
            then Err (scheme +:+ " Reolink CGI returned an invalid image size") else Ok imageBytes
          end
      end
  end.

(** The error of the FFmpeg process. *)
Inductive process_error := DeadlineExceeded | ExitError (state : string) | OtherError.
Definition commandResult (e : process_error) : string :=
  match e with DeadlineExceeded => "timeout" | ExitError s => s | OtherError => "process error" end.
(** [None] for a URL that cannot be parsed. *)
Definition fetchRTSP (printed : option (process_error + bytes)) : result bytes :=
  match printed with
  | None => Err "RTSP snapshot URL is invalid"
  | Some (inl e) => Err ("RTSP snapshot fallback failed: " +:+ commandResult e)
  | Some (inr imageBytes) =>
    if (len imageBytes =? 0) || (maxSnapshotBytes <? len imageBytes)
    then Err "RTSP snapshot fallback returned an invalid image size" else Ok imageBytes
  end.

(** The loop over the endpoints: the picture and its source, or the errors so far. *)
Fixpoint try_cgi {U : Unicode} (es : list endpoint) (attempts : list string) : (bytes * string) + list string :=
  match es with
  | [] => inr attempts
  | e :: es =>
    match fetchCGI e with
    | Ok imageBytes =>
      match normalizeJPEG imageBytes with
      | Ok normalized => inl (normalized, ToUpper (default "" (Scheme e)))
      | Err err => try_cgi es (attempts ++ [err])
      | Panic => inr attempts
      end
    | Err err => try_cgi es (attempts ++ [err])
    | Panic => inr attempts
    end
  end.
(** [errors.Join]. *)
Definition join_errors (l : list string) : string := Join l (String (chr 10) "").
Definition fetchFresh {U : Unicode} (es : list endpoint) (fallback : option (option (process_error + bytes))) : result (bytes * string) :=
  match try_cgi es [] with
  | inl r => Ok r
  | inr attempts =>
    let attempt :=
      match fallback with
      | None => inr attempts
      | Some printed =>
        match (imageBytes ← fetchRTSP printed; normalizeJPEG imageBytes) with
        | Ok normalized => inl (normalized, "RTSP")
        | Err err => inr (attempts ++ [err])
        | Panic => inr attempts
        end
      end in
    match attempt with
    | inl r => Ok r
    | inr [] => Err "no live image source is configured"
    | inr attempts => Err (join_errors attempts)
    end
  end.
End picture.

(** * Addresses *)

Definition RTSPURL (c : Config.Config) : string :=
  "rtsp://" +:+ SipDialog.JoinHostPort (Config.ReolinkHost c) (Itoa (Config.ReolinkRTSPPort c)) +:+ Config.ReolinkStreamPath c.
(** [%02d]. *)
Definition two_digits (n : Z) : string :=
  if (0 <=? n) && (n <? 10) then "0" +:+ Itoa n else Itoa n.
Definition channelRTSPURL (c : Config.Config) (channel : Z) : string :=
  if channel =? Config.NVRChannel c then RTSPURL c
  else
    "rtsp://" +:+ SipDialog.JoinHostPort (Config.ReolinkHost c) (Itoa (Config.ReolinkRTSPPort c)) +:+
    "/Preview_" +:+ two_digits (channel + 1) +:+ "_sub".
Definition snapshotCGIBases {U : Unicode} (host : string) : list string :=
  let host := TrimSpace host in ["https://" +:+ SipDialog.JoinHostPort host "443"; "http://" +:+ SipDialog.JoinHostPort host "80"].
(** The host names of the request and of those before it. *)
Definition sameHostRedirects {U : Unicode} (host : string) (via : list string) : option string :=
  if 3 <=? len via then Some "too many Reolink CGI redirects"
  else
    match via with
    | first :: _ => if EqualFold host first then None else Some "cross-host Reolink CGI redirect refused"
    | [] => None
    end.
(** [http.Client.Do]: the requests made while the camera redirects to [targets]. *)
Fixpoint follow {U : Unicode} (via : list string) (targets : list string) : list string :=
  match targets with
  | [] => via
  | t :: targets => match sameHostRedirects t via with None => follow (via ++ [t]) targets | Some _ => via end
  end.

(** * The cache *)

Record SourceDiagnostics := mkDiagnostics {
  LastAttempt : option Z; LastSuccess : option Z; LastSource : string; LastDuration : Z; LastFailed : bool;
}.
#[export] Instance eta_diagnostics : Eta SourceDiagnostics := fun d =>
  mkDiagnostics (LastAttempt d) (LastSuccess d) (LastSource d) (LastDuration d) (LastFailed d).
Record Source := mkSource {
  channel : Z; rtspURL : string; cgiBases : list string;
  cached : bytes; cachedAt : Z; prewarmedUntil : option Z; diagnostics : SourceDiagnostics;
}.
#[export] Instance eta_source : Eta Source := fun s =>
  mkSource (channel s) (rtspURL s) (cgiBases s) (cached s) (cachedAt s) (prewarmedUntil s) (diagnostics s).
Definition newChannelSource {U : Unicode} (c : Config.Config) (channel : Z) : Source :=
  mkSource channel (channelRTSPURL c channel) (snapshotCGIBases (Config.ReolinkHost c)) [] 0 None (mkDiagnostics None None "" 0 false).

(** The world of one operation: the clock at its begin, what [fetchFresh] meets if it is
    called, the clock after that, and how long it took. *)
Record moment := mkMoment {
  now : Z; endpoints : list endpoint; fallback : option (option (process_error + bytes)); later : Z; took : Z;
}.
Section cache.
Context `{U : Unicode} `{J : JPEG}.
Definition fetchAndCacheLocked (s : Source) (m : moment) : result bytes * Source :=
  let s := s <| diagnostics ::= fun d => d <| LastAttempt := Some (now m) |> <| LastDuration := took m |> |> in
  match fetchFresh (endpoints m) (fallback m) with
  | Ok (imageBytes, source) =>
    (Ok imageBytes,
     s <| cached := imageBytes |> <| cachedAt := later m |>
       <| diagnostics ::= fun d => d <| LastSuccess := Some (later m) |> <| LastSource := source |> <| LastFailed := false |> |>)
  | _ => (Err "FRITZ!Fon live image is temporarily unavailable", s <| diagnostics ::= fun d => d <| LastFailed := true |> |>)
  end.
Definition prewarmed (s : Source) (t : Z) : bool := match prewarmedUntil s with Some u => t <=? u | None => false end.
(** The cache answers at the time [t]. *)
Definition usable (s : Source) (t : Z) : bool :=
  let age := t - cachedAt s in (0 <? len (cached s)) && (0 <=? age) && ((age <=? cacheLifetime) || prewarmed s t).
Definition FetchJPEG (s : Source) (m : moment) : result bytes * Source :=
  if usable s (now m) then
    (Ok (cached s), if prewarmed s (now m) then s <| prewarmedUntil := None |> <| cachedAt := now m |> else s)
  else fetchAndCacheLocked s m.
(** A ring finds the cache too old. *)
Definition outdated (s : Source) (t : Z) : bool :=
  let age := t - cachedAt s in (len (cached s) =? 0) || (age <? 0) || (cacheLifetime <? age).
Definition Prewarm (s : Source) (m : moment) : result unit * Source :=
  if outdated s (now m) then
    match fetchAndCacheLocked s m with
    | (Ok _, s) => (Ok tt, s <| prewarmedUntil := Some (later m + prewarmLifetime) |>)
    | (Err e, s) => (Err e, s)
    | (Panic, s) => (Panic, s)
    end
  else (Ok tt, s <| prewarmedUntil := Some (now m + prewarmLifetime) |>).

Inductive op := Serve (m : moment) | Ring (m : moment).
Definition apply (s : Source) (o : op) : option (result bytes) * Source :=
  match o with
  | Serve m => let '(r, s) := FetchJPEG s m in (Some r, s)
  | Ring m => (None, (Prewarm s m).2)
  end.
Definition run (s : Source) (os : list op) : Source := foldl (fun s o => (apply s o).2) s os.
End cache.

(** ** The picture fits the display *)

Lemma fitDimensions_spec w0 h0 mw mh : 1 <= w0 -> 1 <= h0 -> 1 <= mw -> 1 <= mh ->
  let '(w, h) := fitDimensions w0 h0 mw mh in
  1 <= w <= mw /\ 1 <= h <= mh /\ Z.abs (w * h0 - h * w0) < Z.max w0 h0 /\ (w0 <= mw -> h0 <= mh -> w = w0 /\ h = h0).
Proof.
  intros Hw Hh Hmw Hmh. unfold fitDimensions. destruct (_ && _) eqn:E; [lia|].
  rewrite Z.quot_div_nonneg, Z.quot_div_nonneg by nia.
  pose proof (Z.div_mod (h0 * mw) w0 ltac:(lia)) as D1. pose proof (Z.mod_pos_bound (h0 * mw) w0 ltac:(lia)) as B1.
  pose proof (Z.div_mod (w0 * mh) h0 ltac:(lia)) as D2. pose proof (Z.mod_pos_bound (w0 * mh) h0 ltac:(lia)) as B2.
  set (a := h0 * mw / w0) in *. set (b := w0 * mh / h0) in *. clearbody a b.
  destruct (Z.ltb_spec mh a); cbv beta iota.
  - assert (b <= mw) by nia. assert (0 <= b) by nia. rewrite (proj2 (Z.ltb_ge mh 1)) by lia.
    destruct (Z.ltb_spec b 1); [assert (b = 0) as -> by lia|]; split_and!; nia.
  - assert (0 <= a) by nia. rewrite (proj2 (Z.ltb_ge mw 1)) by lia.
    destruct (Z.ltb_spec a 1); [assert (a = 0) as -> by lia|]; split_and!; nia.
Qed.
(** A pixel of the new picture comes from a pixel of the old one. *)
Lemma sample_inside x n d : 0 <= x < n -> 0 < d -> 0 <= Z.quot (x * d) n < d.
Proof.
  intros Hx Hd. rewrite Z.quot_div_nonneg by nia. split; [apply Z.div_pos; nia|]. apply Z.div_lt_upper_bound; nia.
Qed.

Section fits.
Context `{J : JPEG} {L : JPEGLaws J}.

Definition fits_display (b : bytes) : Prop :=
  is_jpeg b = true /\ exists w h, DecodeConfig b = Some (w, h) /\ 1 <= w <= targetWidth /\ 1 <= h <= targetHeight.
Lemma fits_normal b : fits_display b -> normalizeJPEG b = Ok b.
Proof.
  intros (Hb & w & h & E & Hw & Hh). unfold normalizeJPEG. rewrite Hb, E. cbn [negb]. unfold targetWidth, targetHeight in *.
  rewrite (proj2 (Z.leb_gt w 0)), (proj2 (Z.leb_gt h 0)) by lia. cbn [orb].
  assert (w <= Z.quot maxDecodedPixels h) as Hq.
  { unfold maxDecodedPixels. rewrite Z.quot_div_nonneg by lia. apply Z.div_le_lower_bound; nia. }
  rewrite (proj2 (Z.ltb_ge _ _)) by lia. rewrite (proj2 (Z.leb_le w 480)), (proj2 (Z.leb_le h 640)) by lia. done.
Qed.
(** What [normalizeJPEG] does to a picture [b] of [w0] by [h0]. *)
Definition scaled (b o : bytes) : Prop :=
  exists w0 h0 source, DecodeConfig b = Some (w0, h0) /\ Decode b = Some source /\
    let '(w, h) := fitDimensions w0 h0 targetWidth targetHeight in
    Encode w h (sampled source w h) = Some o /\ Z.abs (w * h0 - h * w0) < Z.max w0 h0 /\
    forall x y, 0 <= x < w -> 0 <= y < h -> exists dx dy, 0 <= dx < w0 /\ 0 <= dy < h0 /\
      sampled source w h x y = At source (MinX source + dx) (MinY source + dy).
Lemma normalize_spec b o : normalizeJPEG b = Ok o -> fits_display o /\ (o = b \/ scaled b o).
Proof.
  unfold normalizeJPEG. destruct (is_jpeg b) eqn:Hb; [|done]. cbn [negb]. destruct (DecodeConfig b) as [[w0 h0]|] eqn:Ec; [|done].
  destruct (_ || _) eqn:E0; [done|]. apply orb_false_iff in E0 as [Hw%Z.leb_gt Hh%Z.leb_gt]. destruct (_ <? _); [done|].
  destruct (_ && _) eqn:E1.
  { intros [= <-]. apply andb_prop in E1 as [Hw'%Z.leb_le Hh'%Z.leb_le]. split; [|by left]. split; [done|].
    exists w0, h0. split; [done|]. lia. }
  destruct (Decode b) as [source|] eqn:Ed; [|done]. pose proof (Decode_size b source Ed) as Hsz. rewrite Ec in Hsz. injection Hsz as Hdx Hdy.
  pose proof (fitDimensions_spec w0 h0 targetWidth targetHeight ltac:(lia) ltac:(lia) ltac:(done) ltac:(done)) as Hf.
  destruct (fitDimensions w0 h0 targetWidth targetHeight) as [w h] eqn:Efit. destruct Hf as (Fw & Fh & Fa & _).
  destruct (Encode w h _) as [o'|] eqn:Eo; [|done]. intros [= ->]. split.
  - destruct (Encode_head _ _ _ _ Eo) as (r & -> & Hr). split.
    + destruct r as [|? [|? r]]; [done..|reflexivity].
    + exists w, h. split; [by eapply Encode_size|done].
  - right. exists w0, h0, source. rewrite Efit. split_and!; try done. intros x y Hx Hy.
    exists (Z.quot (x * w0) w), (Z.quot (y * h0) h). split; [by apply sample_inside; lia|]. split; [by apply sample_inside; lia|].
    unfold sampled. by rewrite <- Hdx, <- Hdy.
Qed.
End fits.

Section fetching.
Context {U : Unicode} `{J : JPEG} {L : JPEGLaws J}.

Lemma try_cgi_spec es : forall attempts,
  match try_cgi es attempts with
  | inl (b, src) => fits_display b /\ exists e, e ∈ es /\ src = ToUpper (default "" (Scheme e))
  | inr l => (length attempts <= length l)%nat
  end.
Proof.
  induction es as [|e es IH]; intros attempts; cbn [try_cgi]; [done|].
  assert (forall err, match try_cgi es (attempts ++ [err]) with
    | inl (b, src) => fits_display b /\ exists e', e' ∈ e :: es /\ src = ToUpper (default "" (Scheme e'))
    | inr l => (length attempts <= length l)%nat end) as Hnext.
  { intros err. specialize (IH (attempts ++ [err])). destruct (try_cgi es _) as [[b src]|l].
    - destruct IH as (H & e' & He & E). split; [done|]. exists e'. split; [by constructor|done].
    - rewrite length_app in IH. cbn in IH. lia. }
  destruct (fetchCGI e) as [b|err|]; [|apply Hnext|done]. destruct (normalizeJPEG b) as [o|err|] eqn:E; [|apply Hnext|done].
  split; [by apply (normalize_spec b)|]. exists e. split; [constructor|done].
Qed.
Lemma fetchFresh_spec es fb : match fetchFresh es fb with
  | Ok (b, src) => fits_display b /\ (src = "RTSP" \/ exists e, e ∈ es /\ src = ToUpper (default "" (Scheme e)))
  | Err _ => True
  | Panic => False
  end.
Proof.
  unfold fetchFresh. pose proof (try_cgi_spec es []) as H. destruct (try_cgi es []) as [[b src]|l].
  { destruct H as [H1 H2]. eauto. }
  destruct fb as [printed|]; [|by destruct l]. unfold fetchRTSP.
  destruct printed as [[e|b]|]; cbn [mbind result_bind].
  1, 3: by destruct (l ++ [_]).
  destruct (_ || _); cbn [mbind result_bind]; [by destruct (l ++ [_])|].
  destruct (normalizeJPEG b) as [o|err|] eqn:E; [|by destruct (l ++ [_])|by destruct l].
  split; [by apply (normalize_spec b)|by left].
Qed.

(** ** The age of a picture *)

(** The picture of the last successful fetch and when that ended. *)
Definition shot (s : Source) (o : op) : option (Z * bytes) :=
  let taken m := match fetchFresh (endpoints m) (fallback m) with Ok (b, _) => Some (later m, b) | _ => None end in
  match o with
  | Serve m => if usable s (now m) then None else taken m
  | Ring m => if outdated s (now m) then taken m else None
  end.
Fixpoint last_shot (s : Source) (os : list op) (l : option (Z * bytes)) : option (Z * bytes) :=
  match os with
  | [] => l
  | o :: os => last_shot (apply s o).2 os (match shot s o with Some x => Some x | None => l end)
  end.
Definition moment_of (o : op) : moment := match o with Serve m | Ring m => m end.
(** The clock does not go back. *)
Fixpoint timed (t : Z) (os : list op) : Prop :=
  match os with [] => True | o :: os => t <= now (moment_of o) <= later (moment_of o) /\ timed (later (moment_of o)) os end.
(** No ring within the lifetime of the cache after a request. *)
Fixpoint rings_apart (served : option Z) (os : list op) : Prop :=
  match os with
  | [] => True
  | Serve m :: os => rings_apart (Some (now m)) os
  | Ring m :: os => match served with Some t => t + cacheLifetime < now m | None => True end /\ rings_apart served os
  end.

Definition borrowed : Z := cacheLifetime + prewarmLifetime.
(** At the time [t], the last request having come at [served]. *)
Definition cache_ok (s : Source) (l : option (Z * bytes)) (served : option Z) (t : Z) : Prop :=
  match l with
  | None => cached s = [] /\ prewarmedUntil s = None
  | Some (f, b) =>
    cached s = b /\ fits_display b /\ f <= cachedAt s <= t /\
    (cachedAt s = f \/ (exists r, served = Some r /\ cachedAt s <= r) /\ cachedAt s <= f + borrowed) /\
    (forall u, prewarmedUntil s = Some u -> u <= f + borrowed)
  end.

Lemma cache_frame s s' l served t t' : cache_ok s l served t -> cached s' = cached s -> cachedAt s' = cachedAt s ->
  prewarmedUntil s' = prewarmedUntil s -> t <= t' -> cache_ok s' l served t'.
Proof.
  unfold cache_ok. intros H E1 E2 E3 Ht. rewrite E1, E2, E3. destruct l as [[f b]|]; [|done].
  destruct H as (H1 & H2 & H3 & H4 & H5). split_and!; try done; lia.
Qed.
Lemma cache_served s l served t r : cache_ok s l served t -> (forall x, served = Some x -> x <= r) -> cache_ok s l (Some r) t.
Proof.
  unfold cache_ok. destruct l as [[f b]|]; [|done]. intros (H1 & H2 & H3 & H4 & H5) Hr. split_and!; try done; try lia.
  destruct H4 as [H4|[(x & E & Hx) H4]]; [by left|right]. split; [|done]. exists r. split; [done|]. specialize (Hr x E). lia.
Qed.
(** A fetch that succeeds or fails. *)
Lemma fetch_ok s m l served t : cache_ok s l served t -> t <= now m <= later m ->
  let '(r, s') := fetchAndCacheLocked s m in
  match fetchFresh (endpoints m) (fallback m) with
  | Ok (b, _) => r = Ok b /\ cached s' = b /\ cachedAt s' = later m /\ prewarmedUntil s' = prewarmedUntil s /\
      cache_ok s' (Some (later m, b)) served (later m)
  | _ => r = Err "FRITZ!Fon live image is temporarily unavailable" /\ cache_ok s' l served (later m)
  end.
Proof.
  intros H Ht. unfold fetchAndCacheLocked. pose proof (fetchFresh_spec (endpoints m) (fallback m)) as Hf.
  destruct (fetchFresh (endpoints m) (fallback m)) as [[b src]|e|]; [|split; [done|]; eapply cache_frame; try done; lia|done].
  destruct Hf as [Hfit _]. do 4 (split; [done|]). cbn.
  refine (conj eq_refl (conj Hfit (conj _ (conj _ _)))); [lia|by left|]. intros u Hu.
  unfold cache_ok in H. destruct l as [[f b0]|].
  - destruct H as (_ & _ & H3 & _ & H5). specialize (H5 u Hu). lia.
  - destruct H as [_ H]. congruence.
Qed.
End fetching.

Section age.
Context {U : Unicode} `{J : JPEG} {L : JPEGLaws J}.

Definition served_by (served : option Z) (o : op) : option Z := match o with Serve m => Some (now m) | Ring _ => served end.
Lemma apply_ok s o l served t : cache_ok s l served t -> (forall x, served = Some x -> x <= t) ->
  t <= now (moment_of o) <= later (moment_of o) ->
  (match o, served with Ring m, Some r => r + cacheLifetime < now m | _, _ => True end) ->
  cache_ok (apply s o).2 (match shot s o with Some x => Some x | None => l end) (served_by served o) (later (moment_of o)).
Proof.
  intros H Hs Ht Hr. destruct o as [m|m]; cbn [apply shot served_by moment_of snd] in *.
  - unfold FetchJPEG. destruct (usable s (now m)) eqn:Eu.
    + cbn [snd]. destruct (prewarmed s (now m)) eqn:Ep.
      * unfold usable in Eu. cbv zeta in Eu. rewrite !andb_true_iff in Eu. destruct Eu as [[_ Ha%Z.leb_le] _].
        unfold cache_ok in *. destruct l as [[f b]|]; cbn; [|by destruct H].
        destruct H as (H1 & H2 & H3 & H4 & H5). unfold prewarmed in Ep. destruct (prewarmedUntil s) as [u|]; [|done].
        apply Z.leb_le in Ep. specialize (H5 u eq_refl). split_and!; try done; try lia.
        right. split; [by exists (now m)|lia].
      * apply (cache_frame s s _ _ t); try done; [|lia]. apply (cache_served _ _ served); [done|]. intros x E. specialize (Hs x E). lia.
    + pose proof (fetch_ok s m l served t H Ht) as Hf. destruct (fetchAndCacheLocked s m) as [r s'].
      assert (forall x, served = Some x -> x <= now m) as Hs' by (intros x E; specialize (Hs x E); lia).
      destruct (fetchFresh (endpoints m) (fallback m)) as [[b src]|e|].
      * destruct Hf as (_ & _ & _ & _ & Hf). by apply (cache_served _ _ served).
      * destruct Hf as [_ Hf]. by apply (cache_served _ _ served).
      * destruct Hf as [_ Hf]. by apply (cache_served _ _ served).
  - unfold Prewarm. destruct (outdated s (now m)) eqn:Eo.
    + pose proof (fetch_ok s m l served t H Ht) as Hf. destruct (fetchAndCacheLocked s m) as [r s'].
      destruct (fetchFresh (endpoints m) (fallback m)) as [[b src]|e|].
      * destruct Hf as (-> & E1 & E2 & E3 & (F1 & F2 & F3 & F4 & F5)). cbn. split_and!; try done; try lia.
        intros u [= <-]. unfold borrowed, cacheLifetime. lia.
      * destruct Hf as [-> Hf]. exact Hf.
      * destruct Hf as [-> Hf]. exact Hf.
    + cbn [snd]. unfold outdated in Eo. cbv zeta in Eo. rewrite !orb_false_iff in Eo. destruct Eo as [[Hn%Z.eqb_neq Ha%Z.ltb_ge] Hl%Z.ltb_ge].
      unfold cache_ok in *. destruct l as [[f b]|].
      * destruct H as (H1 & H2 & H3 & H4 & H5). cbn. split_and!; try done; try lia.
        intros u [= <-]. destruct H4 as [H4|[(r & -> & Hx) H4]]; [unfold borrowed; lia|lia].
      * destruct H as [H _]. rewrite H in Hn. done.
Qed.
Lemma shot_time s o f b : shot s o = Some (f, b) -> f = later (moment_of o).
Proof. destruct o as [m|m]; cbn; repeat case_match; naive_solver. Qed.

Lemma run_ok os : forall s l served t, cache_ok s l served t -> (forall x, served = Some x -> x <= t) ->
  timed t os -> rings_apart served os ->
  exists served' t', cache_ok (run s os) (last_shot s os l) served' t' /\ (forall x, served' = Some x -> x <= t') /\
    (forall os', timed t (os ++ os') -> timed t' os').
Proof.
  induction os as [|o os IH]; intros s l served t H Hs Ht Hr; [by exists served, t|].
  destruct Ht as [Ht1 Ht2]. cbn [run foldl last_shot].
  assert (match o, served with Ring m, Some r => r + cacheLifetime < now m | _, _ => True end /\ rings_apart (served_by served o) os) as [Hr1 Hr2].
  { destruct o; cbn in Hr |- *; [done|]. destruct served; naive_solver. }
  pose proof (apply_ok s o l served t H Hs Ht1 Hr1) as H'.
  destruct (IH _ _ (served_by served o) _ H') as (served' & t' & G1 & G2 & G3); [|done|done|].
  - intros x. destruct o; cbn [served_by moment_of] in *; [intros [= <-]; lia|]. intros E. specialize (Hs x E). lia.
  - exists served', t'. split; [exact G1|]. split; [exact G2|]. intros os' [_ H2]. by apply G3.
Qed.

(** C29: A phone sees the door as it is.  Whatever the camera answers to the requests and
    rings, if no ring comes within the 750 ms after a request: every picture a request
    gets is that of the last successful fetch, made for this very request or at most
    6.5 seconds before, and fits the display; a request without a picture made a fetch
    that failed. *)
Theorem served_frame_fresh (c : Config.Config) (channel start : Z) (os : list op) (m : moment) :
  timed start (os ++ [Serve m]) -> rings_apart None os ->
  let s0 := newChannelSource c channel in let s := run s0 os in
  match (FetchJPEG s m).1 with
  | Ok b =>
    exists f, last_shot s0 (os ++ [Serve m]) None = Some (f, b) /\ fits_display b /\
      (shot s (Serve m) = Some (f, b) \/ f <= now m <= f + 6500 * 1000000)
  | Err e => e = "FRITZ!Fon live image is temporarily unavailable" /\ is_ok (fetchFresh (endpoints m) (fallback m)) = false
  | Panic => False
  end.
Proof.
  intros Ht Hr. cbv zeta. set (s0 := newChannelSource c channel).
  assert (timed start os) as Ht'.
  { clear Hr. revert start Ht. induction os as [|o os IH]; intros start; [done|]. cbn. intros [H1 H2]. split; [done|by apply IH]. }
  destruct (run_ok os s0 None None start) as (served & t & H & _ & Hn); [done|done|done|done|].
  specialize (Hn [Serve m] Ht) as [Hm _]. cbn [moment_of] in Hm.
  assert (last_shot s0 (os ++ [Serve m]) None =
    match shot (run s0 os) (Serve m) with Some x => Some x | None => last_shot s0 os None end) as ->.
  { clear. generalize (@None (Z * bytes)) as l, s0 as s. induction os as [|o os IH]; intros l s; cbn [app last_shot run foldl]; [done|apply IH]. }
  set (s := run s0 os) in *. set (l := last_shot s0 os None) in *. cbn [shot]. unfold FetchJPEG.
  destruct (usable s (now m)) eqn:Eu.
  - cbn [fst]. unfold usable in Eu. cbv zeta in Eu. rewrite !andb_true_iff, orb_true_iff in Eu.
    destruct Eu as [[Hne%Z.ltb_lt Ha%Z.leb_le] Hl]. unfold cache_ok in H. destruct l as [[f b]|].
    2: { destruct H as [H _]. rewrite H in Hne. done. }
    destruct H as (H1 & H2 & H3 & H4 & H5). exists f. rewrite H1. split; [done|]. split; [done|]. right.
    assert (cachedAt s <= f + borrowed) as Hb by (unfold borrowed, cacheLifetime, prewarmLifetime in *; destruct H4 as [->|[_ H4]]; lia).
    split; [lia|]. destruct Hl as [Hl%Z.leb_le|Hl].
    + unfold borrowed, cacheLifetime, prewarmLifetime in *. lia.
    + unfold prewarmed in Hl. destruct (prewarmedUntil s) as [u|]; [|done]. apply Z.leb_le in Hl. specialize (H5 u eq_refl).
      unfold borrowed, cacheLifetime, prewarmLifetime in *. lia.
  - pose proof (fetch_ok s m l served t H Hm) as Hf. destruct (fetchAndCacheLocked s m) as [r s']. cbn [fst].
    destruct (fetchFresh (endpoints m) (fallback m)) as [[b src]|e|].
    + destruct Hf as (-> & _ & _ & _ & Hf). exists (later m). split; [done|]. destruct Hf as (_ & Hfit & _). eauto.
    + by destruct Hf as [-> _].
    + by destruct Hf as [-> _].
Qed.
End age.

Section stale.
Context {U : Unicode} `{J : JPEG}.

(** A ring 0.7 s after the picture was taken or shown, and a request 5 s later. *)
Definition visit (es : list endpoint) (fb : option (option (process_error + bytes))) (t : Z) : list op :=
  let at_ t := mkMoment t es fb t 0 in [Ring (at_ (t + 700000000)); Serve (at_ (t + 5700000000))].
Fixpoint visits (es : list endpoint) (fb : option (option (process_error + bytes))) (n : nat) (t : Z) : list op :=
  match n with O => [] | S n => visit es fb t ++ visits es fb n (t + 5700000000) end.

(** The same picture, dated 5.7 s later. *)
Definition redated (s : Source) : Source := s <| cachedAt := cachedAt s + 5700000000 |>.
Lemma visit_stale es fb s l : cached s <> [] -> prewarmedUntil s = None ->
  run s (visit es fb (cachedAt s)) = redated s /\
  last_shot s (visit es fb (cachedAt s)) l = l.
Proof.
  intros Hc Hp. assert (0 < len (cached s)) as Hl by (destruct (cached s); [done|cbn; lia]).
  unfold run, visit. cbn [foldl last_shot apply shot snd].
  assert (outdated s (cachedAt s + 700000000) = false) as Ho.
  { unfold outdated, cacheLifetime. cbv zeta. rewrite !orb_false_iff, Z.eqb_neq, !Z.ltb_ge. lia. }
  unfold Prewarm at 1 2. cbn [now]. rewrite Ho. cbn [snd].
  set (s1 := s <| prewarmedUntil := _ |>).
  assert (prewarmed s1 (cachedAt s + 5700000000) = true) as Hw.
  { subst s1. unfold prewarmed, prewarmLifetime. cbn. lia. }
  assert (usable s1 (cachedAt s + 5700000000) = true) as Hu.
  { unfold usable. cbv zeta. rewrite Hw, orb_true_r, andb_true_r, andb_true_iff. subst s1. cbn. lia. }
  unfold FetchJPEG. cbn [now]. rewrite Hu, Hw. cbn [snd]. split; [|done].
  subst s1. destruct s. cbn in *. by subst.
Qed.

(** C30: Rings can keep an old picture alive.  [FetchJPEG] dates a prewarmed picture anew when
    it hands it out, and the next ring takes that date for the picture's age: a ring
    0.7 s later keeps the picture for 5 s more.  With such rings, 5.7 s apart, the camera
    is never asked again and the phone gets the same picture however long it goes on. *)
Theorem stale_picture (es : list endpoint) (fb : option (option (process_error + bytes))) (n : nat) (s : Source) (l : option (Z * bytes)) :
  cached s <> [] -> prewarmedUntil s = None ->
  let os := visits es fb n (cachedAt s) in
  let t := cachedAt s + 5700000000 * Z.of_nat n in
  last_shot s os l = l /\ (FetchJPEG (run s os) (mkMoment t es fb t 0)).1 = Ok (cached s).
Proof.
  cbv zeta. revert s. induction n as [|n IH]; intros s Hc Hp.
  - cbn [visits last_shot run foldl]. split; [done|]. unfold FetchJPEG. cbn [now].
    assert (0 < len (cached s)) as Hl by (destruct (cached s); [done|cbn; lia]).
    assert (usable s (cachedAt s + 5700000000 * Z.of_nat 0) = true) as ->; [|done].
    unfold usable, cacheLifetime. cbv zeta. rewrite !andb_true_iff, orb_true_iff, !Z.leb_le, Z.ltb_lt. change (Z.of_nat 0) with 0. split_and!; [lia|lia|left; lia].
  - cbn [visits]. destruct (visit_stale es fb s l Hc Hp) as [E1 E2].
    assert (forall os2, last_shot s (visit es fb (cachedAt s) ++ os2) l =
      last_shot (run s (visit es fb (cachedAt s))) os2 (last_shot s (visit es fb (cachedAt s)) l)) as Happ by done.
    rewrite Happ, E2, E1. unfold run in *. rewrite foldl_app, E1.
    specialize (IH (redated s) Hc Hp). change (cachedAt (redated s)) with (cachedAt s + 5700000000) in IH.
    replace (cachedAt s + 5700000000 * Z.of_nat (S n)) with (cachedAt s + 5700000000 + 5700000000 * Z.of_nat n) by lia. exact IH.
Qed.
End stale.

(** ** Redirects stay with the camera *)

Lemma redirects_stay {U : Unicode} host targets :
  (length (follow [host] targets) <= 3)%nat /\ Forall (fun h => h = host \/ EqualFold h host = true) (follow [host] targets).
Proof.
  assert (forall targets via, (length (host :: via) <= 3)%nat -> Forall (fun h => h = host \/ EqualFold h host = true) (host :: via) ->
    (length (follow (host :: via) targets) <= 3)%nat /\
    Forall (fun h => h = host \/ EqualFold h host = true) (follow (host :: via) targets)) as H.
  { clear targets. induction targets as [|t targets IH]; intros via Hl Hf; [done|]. cbn [follow]. unfold sameHostRedirects.
    destruct (3 <=? len (host :: via)) eqn:E; [done|]. destruct (EqualFold t host) eqn:Ee; [|done].
    change ((host :: via) ++ [t]) with (host :: (via ++ [t])). apply IH.
    - apply Z.leb_gt in E. cbn [length] in *. rewrite length_app. cbn [length]. lia.
    - change (host :: (via ++ [t])) with ((host :: via) ++ [t]). apply Forall_app. split; [done|]. constructor; [by right|constructor]. }
  apply (H targets []); [cbn; lia|]. constructor; [by left|constructor].
Qed.

(** * Witnesses: pictures that are only their size *)

#[local] Existing Instance ascii_tables.
Definition size_of (b : bytes) : option (Z * Z) := match b with 0xff :: 0xd8 :: w :: h :: _ => Some (w, h) | _ => None end.
#[local] Instance sizes : JPEG := {|
  image := Z * Z; color := unit; DecodeConfig := size_of; Decode := size_of;
  MinX _ := 0; MinY _ := 0; Dx := fst; Dy := snd; At _ _ _ := tt;
  Encode w h _ := Some [0xff; 0xd8; w; h];
|}.
#[local] Instance sizes_laws : JPEGLaws sizes.
Proof.
  split.
  - intros b [w h] H. exact H.
  - intros w h px o [= <-]. reflexivity.
  - intros w h px o [= <-]. exists [w; h]. split; [reflexivity|cbn; lia].
Qed.

Definition camera (w h : Z) : list endpoint :=
  [mkEndpoint (Some "https") NoConnection; mkEndpoint (Some "http") (Response 200 (Some [0xff; 0xd8; w; h]))].
Definition instant (t : Z) (es : list endpoint) : moment := mkMoment t es None t 0.
Definition ring_and_look : list op := [Ring (instant 1000000000 (camera 1280 960)); Serve (instant 5000000000 [])].

Lemma served_frame_fresh_witness :
  exists f, last_shot (newChannelSource Config.Defaults 0) (ring_and_look ++ [Serve (instant 5500000000 [])]) None = Some (f, [0xff; 0xd8; 480; 360]) /\
    f <= 5500000000 <= f + 6500 * 1000000.
Proof.
  pose proof (served_frame_fresh Config.Defaults 0 0 ring_and_look (instant 5500000000 [])
    ltac:(cbn; lia) ltac:(cbn; tauto)) as H.
  cbv zeta in H. assert ((FetchJPEG (run (newChannelSource Config.Defaults 0) ring_and_look) (instant 5500000000 [])).1 =
    Ok [0xff; 0xd8; 480; 360]) as E by (vm_compute; reflexivity).
  rewrite E in H. destruct H as (f & H1 & _ & [H2|H2]).
  - assert (shot (run (newChannelSource Config.Defaults 0) ring_and_look) (Serve (instant 5500000000 [])) = None) as E'
      by (vm_compute; reflexivity). rewrite E' in H2. discriminate H2.
  - exists f. split; [exact H1|exact H2].
Defined.

Lemma stale_picture_witness :
  let s := run (newChannelSource Config.Defaults 0) ring_and_look in
  (FetchJPEG (run s (visits (camera 1280 720) None 100 (cachedAt s)))
     (mkMoment (cachedAt s + 5700000000 * Z.of_nat 100) (camera 1280 720) None (cachedAt s + 5700000000 * Z.of_nat 100) 0)).1 =
  Ok [0xff; 0xd8; 480; 360].
Proof.
  cbv zeta. destruct (stale_picture (camera 1280 720) None 100 (run (newChannelSource Config.Defaults 0) ring_and_look) None) as [_ H].
  - vm_compute. discriminate.
  - vm_compute. reflexivity.
  - rewrite H. vm_compute. reflexivity.
Defined.
End LiveSource.
